(** * monitor-de-audio: device connectivity subsystem

    A shallow embedding of the three server modules that talk to the
    mixing console:

    - [src/server/reconnect-watchdog.ts]  (module [Watchdog])
    - [src/server/network-scanner.ts]     (module [Scanner])
    - [src/server/matrix-client.ts]       (modules [Convert] and [Matrix])

    and of the two places of the server that use them: the VU polling of
    [src/server/websocket-server.ts] (module [Polling]) and the choice of
    the port in [src/server/_core/index.ts] (module [Server]).

    JavaScript runs one task at a time, so every method body is a
    function from the state before the call to the state after it.  What
    the runtime keeps between tasks (armed timers, suspended [await]s,
    promises that are not settled yet, the clock, the events handed to
    [emit]) is part of that state, and each task the event loop can start
    is an input of a transition function. *)

From Stdlib Require Import List Bool Arith ZArith NArith QArith Lia String Ascii.
From Stdlib Require Import DecimalN DecimalPos.
From Stdlib Require PrimFloat.
From Stdlib Require Lqa.
From Stdlib Require Import Permutation Sorted.
Import ListNotations.

(* ====================================================================== *)
(** * Reconnect watchdog: [src/server/reconnect-watchdog.ts] *)
(* ====================================================================== *)

Module Watchdog.

Local Open Scope Z_scope.

(** [type WatchdogState] *)
Inductive WatchdogState := idle | watching | connecting | connected | stopped.

Definition WatchdogState_eqb (a b : WatchdogState) : bool :=
  match a, b with
  | idle, idle | watching, watching | connecting, connecting
  | connected, connected | stopped, stopped => true
  | _, _ => false
  end.

Definition BASE_INTERVAL_MS : Z := 30000.
Definition MAX_INTERVAL_MS : Z := 300000.
Definition BACKOFF_MULTIPLIER : Z := 2.

(** What the watchdog hands to [this.emit]. *)
Inductive Emitted :=
| stateChange (newState prev : WatchdogState)
| attempt (n : Z)
| reconnected (n : Z)
| failed (n : Z) (reason : string).

(** The fields of a [ReconnectWatchdog] (first group) and what the
    runtime holds for it (second group).  Dates are milliseconds as
    [Date.now()] gives them; a timer handle is the number [setTimeout]
    returned; the two injected functions are recorded by whether they
    were injected. *)
Record t := mk {
  state : WatchdogState;
  attempts : Z;
  lastAttemptAt : option Z;
  nextAttemptAt : option Z;
  lastError : option string;
  currentIntervalMs : Z;
  timer : option nat;
  stopped_ : bool;
  reconnectFn : bool;
  isConnectedFn : bool;
  (* runtime *)
  clock : Z;
  scheduled : list (nat * Z);
  nextHandle : nat;
  suspended : nat;
  emitted : list Emitted
}.

(** [new ReconnectWatchdog()] at time [now]. *)
Definition create (now : Z) : t :=
  {| state := idle; attempts := 0; lastAttemptAt := None;
     nextAttemptAt := None; lastError := None;
     currentIntervalMs := BASE_INTERVAL_MS; timer := None;
     stopped_ := false; reconnectFn := false; isConnectedFn := false;
     clock := now; scheduled := []; nextHandle := 0%nat;
     suspended := 0%nat; emitted := [] |}.

Definition set_state v w := mk v (attempts w) (lastAttemptAt w) (nextAttemptAt w) (lastError w) (currentIntervalMs w) (timer w) (stopped_ w) (reconnectFn w) (isConnectedFn w) (clock w) (scheduled w) (nextHandle w) (suspended w) (emitted w).
Definition set_attempts v w := mk (state w) v (lastAttemptAt w) (nextAttemptAt w) (lastError w) (currentIntervalMs w) (timer w) (stopped_ w) (reconnectFn w) (isConnectedFn w) (clock w) (scheduled w) (nextHandle w) (suspended w) (emitted w).
Definition set_lastAttemptAt v w := mk (state w) (attempts w) v (nextAttemptAt w) (lastError w) (currentIntervalMs w) (timer w) (stopped_ w) (reconnectFn w) (isConnectedFn w) (clock w) (scheduled w) (nextHandle w) (suspended w) (emitted w).
Definition set_nextAttemptAt v w := mk (state w) (attempts w) (lastAttemptAt w) v (lastError w) (currentIntervalMs w) (timer w) (stopped_ w) (reconnectFn w) (isConnectedFn w) (clock w) (scheduled w) (nextHandle w) (suspended w) (emitted w).
Definition set_lastError v w := mk (state w) (attempts w) (lastAttemptAt w) (nextAttemptAt w) v (currentIntervalMs w) (timer w) (stopped_ w) (reconnectFn w) (isConnectedFn w) (clock w) (scheduled w) (nextHandle w) (suspended w) (emitted w).
Definition set_currentIntervalMs v w := mk (state w) (attempts w) (lastAttemptAt w) (nextAttemptAt w) (lastError w) v (timer w) (stopped_ w) (reconnectFn w) (isConnectedFn w) (clock w) (scheduled w) (nextHandle w) (suspended w) (emitted w).
Definition set_timer v w := mk (state w) (attempts w) (lastAttemptAt w) (nextAttemptAt w) (lastError w) (currentIntervalMs w) v (stopped_ w) (reconnectFn w) (isConnectedFn w) (clock w) (scheduled w) (nextHandle w) (suspended w) (emitted w).
Definition set_stopped v w := mk (state w) (attempts w) (lastAttemptAt w) (nextAttemptAt w) (lastError w) (currentIntervalMs w) (timer w) v (reconnectFn w) (isConnectedFn w) (clock w) (scheduled w) (nextHandle w) (suspended w) (emitted w).
Definition set_fns r c w := mk (state w) (attempts w) (lastAttemptAt w) (nextAttemptAt w) (lastError w) (currentIntervalMs w) (timer w) (stopped_ w) r c (clock w) (scheduled w) (nextHandle w) (suspended w) (emitted w).
Definition set_clock v w := mk (state w) (attempts w) (lastAttemptAt w) (nextAttemptAt w) (lastError w) (currentIntervalMs w) (timer w) (stopped_ w) (reconnectFn w) (isConnectedFn w) v (scheduled w) (nextHandle w) (suspended w) (emitted w).
Definition set_scheduled v w := mk (state w) (attempts w) (lastAttemptAt w) (nextAttemptAt w) (lastError w) (currentIntervalMs w) (timer w) (stopped_ w) (reconnectFn w) (isConnectedFn w) (clock w) v (nextHandle w) (suspended w) (emitted w).
Definition set_nextHandle v w := mk (state w) (attempts w) (lastAttemptAt w) (nextAttemptAt w) (lastError w) (currentIntervalMs w) (timer w) (stopped_ w) (reconnectFn w) (isConnectedFn w) (clock w) (scheduled w) v (suspended w) (emitted w).
Definition set_suspended v w := mk (state w) (attempts w) (lastAttemptAt w) (nextAttemptAt w) (lastError w) (currentIntervalMs w) (timer w) (stopped_ w) (reconnectFn w) (isConnectedFn w) (clock w) (scheduled w) (nextHandle w) v (emitted w).
Definition set_emitted v w := mk (state w) (attempts w) (lastAttemptAt w) (nextAttemptAt w) (lastError w) (currentIntervalMs w) (timer w) (stopped_ w) (reconnectFn w) (isConnectedFn w) (clock w) (scheduled w) (nextHandle w) (suspended w) v.

(** ** Runtime services *)

Definition emit (e : Emitted) (w : t) : t := set_emitted (emitted w ++ [e]) w.

(** [setTimeout(cb, delay)]: arms a timer and returns its handle. *)
Definition setTimeout (delay : Z) (w : t) : nat * t :=
  let h := nextHandle w in
  (h, set_nextHandle (S h) (set_scheduled (scheduled w ++ [(h, clock w + delay)]) w)).

(** [clearTimeout(h)]: disarms [h]; nothing happens when [h] already
    fired or was cleared. *)
Definition clearTimeout (h : nat) (w : t) : t :=
  set_scheduled (filter (fun e => negb (Nat.eqb (fst e) h)) (scheduled w)) w.

(** ** Methods *)

(** [configure(opts)] *)
Definition configure (w : t) : t := set_fns true true w.

(** [_setState(newState)] *)
Definition _setState (newState : WatchdogState) (w : t) : t :=
  let prev := state w in
  let w := set_state newState w in
  if WatchdogState_eqb prev newState then w
  else emit (stateChange newState prev) w.

(** [_scheduleNext()] *)
Definition _scheduleNext (w : t) : t :=
  if stopped_ w then w
  else
    let delay := currentIntervalMs w in
    let nextAt := clock w + delay in
    let w := set_nextAttemptAt (Some nextAt) w in
    let (h, w) := setTimeout delay w in
    set_timer (Some h) w.

(** [start()] *)
Definition start (w : t) : t :=
  match state w with
  | watching | connecting => w
  | _ =>
    if negb (reconnectFn w) || negb (isConnectedFn w) then w
    else
      let w := set_stopped false w in
      let w := set_currentIntervalMs BASE_INTERVAL_MS w in
      let w := _setState watching w in
      _scheduleNext w
  end.

(** The guarded [clearTimeout(this.timer); this.timer = null] that opens
    [stop()] and [onConnected()]. *)
Definition clearHeldTimer (w : t) : t :=
  match timer w with
  | Some h => set_timer None (clearTimeout h w)
  | None => w
  end.

(** [stop()] *)
Definition stop (w : t) : t :=
  let w := set_stopped true w in
  let w := clearHeldTimer w in
  let w := set_nextAttemptAt None w in
  _setState stopped w.

(** [onConnected()] *)
Definition onConnected (w : t) : t :=
  let w := clearHeldTimer w in
  let w := set_attempts 0 w in
  let w := set_currentIntervalMs BASE_INTERVAL_MS w in
  let w := set_nextAttemptAt None w in
  let w := set_lastError None w in
  _setState connected w.

(** [onDisconnected(reason?)] *)
Definition onDisconnected (reason : option string) (w : t) : t :=
  if stopped_ w then w
  else
    match state w with
    | connected | idle =>
      let w := set_lastError
                 (Some (match reason with Some r => r | None => "Conexão perdida"%string end)) w in
      let w := _setState watching w in
      _scheduleNext w
    | _ => w
    end.

(** [_onAttemptFailed(reason)] *)
Definition _onAttemptFailed (reason : string) (w : t) : t :=
  if stopped_ w then w
  else
    let w := set_lastError (Some reason) w in
    let w := emit (failed (attempts w) reason) w in
    let w := set_currentIntervalMs
               (Z.min (currentIntervalMs w * BACKOFF_MULTIPLIER) MAX_INTERVAL_MS) w in
    let w := _setState watching w in
    _scheduleNext w.

(** [_attempt()] up to its [await this.reconnectFn()].  [isConnected] is
    what the injected [isConnectedFn()] answers when asked. *)
Definition _attempt (isConnected : bool) (w : t) : t :=
  if stopped_ w then w
  else if negb (reconnectFn w) || negb (isConnectedFn w) then w
  else if isConnected then onConnected w
  else
    let w := set_attempts (attempts w + 1) w in
    let w := set_lastAttemptAt (Some (clock w)) w in
    let w := set_nextAttemptAt None w in
    let w := _setState connecting w in
    let w := emit (attempt (attempts w)) w in
    set_suspended (S (suspended w)) w.

(** How the promise of [reconnectFn()] settles. *)
Inductive Settled :=
| fulfilled (success : bool)
| rejected (message : string).

(** [_attempt()] from its [await] on: the [try] body and the [catch]. *)
Definition _attempt_resumed (r : Settled) (w : t) : t :=
  match r with
  | fulfilled true =>
    let w := emit (reconnected (attempts w)) w in
    let w := onConnected w in
    _setState watching w
  | fulfilled false => _onAttemptFailed "Falha na reconexão" w
  | rejected msg => _onAttemptFailed msg w
  end.

(** ** The tasks the event loop can run on a watchdog *)

Inductive Task :=
| call_configure
| call_start
| call_stop
| call_onConnected
| call_onDisconnected (reason : option string)
| timer_fires (h : nat) (isConnected : bool)
| reconnect_settles (r : Settled)
| time_passes (dt : Z).

Definition due_of (h : nat) (w : t) : option Z :=
  option_map snd (find (fun e => Nat.eqb (fst e) h) (scheduled w)).

(** A task that cannot start (a timer that is not armed or not due, a
    settlement nobody awaits, time running backwards) gives [None]. *)
Definition step (k : Task) (w : t) : option t :=
  match k with
  | call_configure => Some (configure w)
  | call_start => Some (start w)
  | call_stop => Some (stop w)
  | call_onConnected => Some (onConnected w)
  | call_onDisconnected r => Some (onDisconnected r w)
  | timer_fires h b =>
    match due_of h w with
    | Some due =>
      if due <=? clock w then Some (_attempt b (clearTimeout h w)) else None
    | None => None
    end
  | reconnect_settles r =>
    match suspended w with
    | O => None
    | S n => Some (_attempt_resumed r (set_suspended n w))
    end
  | time_passes dt =>
    if 0 <=? dt then Some (set_clock (clock w + dt) w) else None
  end.

Fixpoint run (ks : list Task) (w : t) : option t :=
  match ks with
  | [] => Some w
  | k :: ks' =>
    match step k w with
    | Some w' => run ks' w'
    | None => None
    end
  end.

(** The states a watchdog created at time [now] can be in. *)
Definition reachable (w : t) : Prop :=
  exists now ks, run ks (create now) = Some w.

(** ** Runs used to state the backoff and timer properties *)

(** One failed retry: the wait elapses, the timer held in [this.timer]
    fires while the console is still unreachable, and [reconnectFn()]
    settles as [r]. *)
Definition retry_cycle (r : Settled) (w : t) : option t :=
  match timer w with
  | Some h =>
    run [time_passes (currentIntervalMs w); timer_fires h false; reconnect_settles r] w
  | None => None
  end.

Fixpoint failures (n : nat) (w : t) : option t :=
  match n with
  | O => Some w
  | S n' =>
    match retry_cycle (fulfilled false) w with
    | Some w' => failures n' w'
    | None => None
    end
  end.




(** The state the [stateChange] events of a log lead to from [s], if the
    log is a chain of real transitions: each event leaves the state the
    previous one entered, and enters a different one. *)
Fixpoint follow (s : WatchdogState) (es : list Emitted) : option WatchdogState :=
  match es with
  | [] => Some s
  | stateChange n p :: es' =>
    if WatchdogState_eqb p s && negb (WatchdogState_eqb n p) then follow n es' else None
  | _ :: es' => follow s es'
  end.

Definition stateChanges (es : list Emitted) : list Emitted :=
  filter (fun e => match e with stateChange _ _ => true | _ => false end) es.

(** [n] calls of [stop()] in a row. *)
Fixpoint stops (n : nat) (w : t) : t :=
  match n with
  | O => w
  | S n' => stops n' (stop w)
  end.


(** The shape of a watchdog that is waiting for its only armed timer. *)
Record waiting (w : t) : Prop := {
  waiting_state : state w = watching;
  waiting_stopped : stopped_ w = false;
  waiting_fns : reconnectFn w = true /\ isConnectedFn w = true;
  waiting_suspended : suspended w = 0%nat;
  waiting_timer : exists h, timer w = Some h /\
                  scheduled w = [(h, clock w + currentIntervalMs w)];
  waiting_interval : 0 <= currentIntervalMs w
}.

(** The run on which two retry timers end up armed: the first timer
    fires and its reconnect attempt is still awaited when the watchdog is
    stopped and started again; then the attempt fails. *)
Definition restart_during_attempt : list Task :=
  [ call_configure; call_start; time_passes 30000; timer_fires 0 false;
    call_stop; call_start; reconnect_settles (fulfilled false) ].

(** What one failed retry hands to [emit] when it is attempt number
    [i], and the log of [n] failed retries in a row after a fresh start. *)
Definition failed_retry_events (i : Z) : list Emitted :=
  [stateChange connecting watching; attempt i; failed i "Falha na reconexão";
   stateChange watching connecting].

Fixpoint failure_log (n : nat) : list Emitted :=
  match n with
  | O => []
  | S n' => failure_log n' ++ failed_retry_events (Z.of_nat n)
  end.

Definition is_configure (k : Task) : bool :=
  match k with call_configure => true | _ => false end.

Definition is_start (k : Task) : bool :=
  match k with call_start => true | _ => false end.

(** The tasks that take a stopped watchdog out of the state [stopped]
    without starting it: a call of [onConnected()], and the success of a
    reconnect attempt that was awaited when [stop()] was called. *)
Definition leaves_stopped (k : Task) : bool :=
  match k with
  | call_onConnected | reconnect_settles (fulfilled true) => true
  | _ => false
  end.

(** The run of [restart_during_attempt], then [stop()] and [start()]:
    both the timer [stop()] left armed and the new one fire. *)
Definition restart_after_stop : list Task :=
  [ call_stop; call_start; time_passes 30000;
    timer_fires 1 false; timer_fires 3 false ].

Definition is_attempt (e : Emitted) : bool :=
  match e with attempt _ => true | _ => false end.

(** The tasks by which a caller tells the watchdog of a lost connection
    or asks it to start, and the passing of time. *)
Definition is_wake_up (k : Task) : bool :=
  match k with
  | call_start | call_onDisconnected _ | time_passes _ => true
  | _ => false
  end.

End Watchdog.

(* ====================================================================== *)
(** * JavaScript values used by the scanner and the protocol client *)
(* ====================================================================== *)

Module Js.

(** A string is its sequence of UTF-16 code units. *)
Abbreviation char := N (only parsing).
Abbreviation jsstring := (list N) (only parsing).

(** An ASCII literal of the source. *)
Definition lit (s : string) : jsstring :=
  map N_of_ascii (list_ascii_of_string s).

Fixpoint string_eqb (a b : jsstring) : bool :=
  match a, b with
  | [], [] => true
  | x :: a', y :: b' => N.eqb x y && string_eqb a' b'
  | _, _ => false
  end.

Local Open Scope N_scope.

(** [\d] *)
Definition isDigit (c : char) : bool := (48 <=? c) && (c <=? 57).

(** White space and line terminators of ECMAScript: what [\s] matches
    and what [trim()] strips. *)
Definition isWhiteSpace (c : char) : bool :=
  ((9 <=? c) && (c <=? 13)) || (c =? 32) || (c =? 160) || (c =? 5760)
  || ((8192 <=? c) && (c <=? 8202)) || (c =? 8232) || (c =? 8233)
  || (c =? 8239) || (c =? 8287) || (c =? 12288) || (c =? 65279).

(** [[-\d.]] *)
Definition isNumeric (c : char) : bool := (c =? 45) || isDigit c || (c =? 46).

Fixpoint dropWhile (p : char -> bool) (s : jsstring) : jsstring :=
  match s with
  | c :: s' => if p c then dropWhile p s' else s
  | [] => []
  end.

Fixpoint takeWhile (p : char -> bool) (s : jsstring) : jsstring :=
  match s with
  | c :: s' => if p c then c :: takeWhile p s' else []
  | [] => []
  end.

(** [s.trim()] *)
Definition trim (s : jsstring) : jsstring :=
  rev (dropWhile isWhiteSpace (rev (dropWhile isWhiteSpace s))).

(** [s.split(sep)] for a separator of one code unit. *)
Fixpoint split (sep : char) (s : jsstring) : list jsstring :=
  match s with
  | [] => [[]]
  | c :: s' =>
    if c =? sep then [] :: split sep s'
    else match split sep s' with
         | l :: ls => (c :: l) :: ls
         | [] => [[c]]
         end
  end.

(** [s.toUpperCase()] on the ASCII letters; other code units are left as
    they are.  JavaScript maps the letters outside ASCII too, a few of
    them to ASCII letters (U+017F to S, U+0131 to I), so this is
    [toUpperCase] on ASCII text, which every command the client builds
    is. *)
Definition upper (c : char) : char :=
  if (97 <=? c) && (c <=? 122) then c - 32 else c.

Definition toUpperCase (s : jsstring) : jsstring := map upper s.

(** ** Natural numbers as text *)

Fixpoint digits_of_uint (u : Decimal.uint) : jsstring :=
  match u with
  | Decimal.Nil => []
  | Decimal.D0 u' => 48 :: digits_of_uint u'
  | Decimal.D1 u' => 49 :: digits_of_uint u'
  | Decimal.D2 u' => 50 :: digits_of_uint u'
  | Decimal.D3 u' => 51 :: digits_of_uint u'
  | Decimal.D4 u' => 52 :: digits_of_uint u'
  | Decimal.D5 u' => 53 :: digits_of_uint u'
  | Decimal.D6 u' => 54 :: digits_of_uint u'
  | Decimal.D7 u' => 55 :: digits_of_uint u'
  | Decimal.D8 u' => 56 :: digits_of_uint u'
  | Decimal.D9 u' => 57 :: digits_of_uint u'
  end.

(** The decimal digits of a digit string (other code units end it). *)
Fixpoint uint_of_digits (s : jsstring) : Decimal.uint :=
  match s with
  | [] => Decimal.Nil
  | c :: s' =>
    let u := uint_of_digits s' in
    match c with
    | 48 => Decimal.D0 u | 49 => Decimal.D1 u | 50 => Decimal.D2 u
    | 51 => Decimal.D3 u | 52 => Decimal.D4 u | 53 => Decimal.D5 u
    | 54 => Decimal.D6 u | 55 => Decimal.D7 u | 56 => Decimal.D8 u
    | 57 => Decimal.D9 u | _ => Decimal.Nil
    end
  end.

(** [Number.MAX_SAFE_INTEGER], 2^53 - 1.  Up to it every natural number
    is a double of its own: [`${n}`] prints all its digits and [parseInt]
    reads them back as they stand. *)
Definition MAX_SAFE_INTEGER : N := 9007199254740991.

(** [Number.isSafeInteger(n)] for a natural number. *)
Definition isSafeInteger (n : N) : bool := n <=? MAX_SAFE_INTEGER.

(** [String(n)] / [`${n}`] for a natural number [n]: all its digits.
    That is what JavaScript prints for a safe integer; a larger double
    prints the shortest digits that identify it, and in exponent notation
    from 10^21 on, so what is stated about a command that carries a
    channel, bus or preset number is stated for safe integers. *)
Definition Number_toString (n : N) : jsstring := digits_of_uint (N.to_uint n).

(** [parseInt(s)] for a string that starts with decimal digits: their
    value, which is what JavaScript returns as long as it is a safe
    integer (a larger value is rounded to a double). *)
Definition parseInt (s : jsstring) : N := N.of_uint (uint_of_digits (takeWhile isDigit s)).

(** ** Numbers *)

(** A [number]: [NaN], a finite value or one of the two infinities.
    Finite values are rationals, which every finite double is; the
    arithmetic on them is exact (that of JavaScript rounds each result to
    a double), and the two zeros are one. *)
Inductive number :=
| NaN
| Num (q : Q)
| Infinity (negative : bool).

(** [Math.min(a, b)]: [NaN] when an argument is [NaN]. *)
Definition Math_min (a b : number) : number :=
  match a, b with
  | Num x, Num y => if Qle_bool x y then Num x else Num y
  | NaN, _ | _, NaN => NaN
  | Infinity true, _ | _, Infinity true => Infinity true
  | Infinity false, y => y
  | x, Infinity false => x
  end.

(** [Math.max(a, b)]: [NaN] when an argument is [NaN]. *)
Definition Math_max (a b : number) : number :=
  match a, b with
  | Num x, Num y => if Qle_bool x y then Num y else Num x
  | NaN, _ | _, NaN => NaN
  | Infinity false, _ | _, Infinity false => Infinity false
  | Infinity true, y => y
  | x, Infinity true => x
  end.

(** [a + b] *)
Definition add (a b : number) : number :=
  match a, b with
  | Num x, Num y => Num (x + y)
  | NaN, _ | _, NaN => NaN
  | Infinity s, Infinity s' => if Bool.eqb s s' then Infinity s else NaN
  | Infinity s, Num _ | Num _, Infinity s => Infinity s
  end.

(** [a - b] *)
Definition sub (a b : number) : number :=
  match a, b with
  | Num x, Num y => Num (x - y)
  | NaN, _ | _, NaN => NaN
  | Infinity s, Infinity s' => if Bool.eqb s s' then NaN else Infinity s
  | Infinity s, Num _ => Infinity s
  | Num _, Infinity s => Infinity (negb s)
  end.

(** [a * b]: an infinity times zero is [NaN]. *)
Definition mul (a b : number) : number :=
  match a, b with
  | Num x, Num y => Num (x * y)
  | NaN, _ | _, NaN => NaN
  | Infinity s, Infinity s' => Infinity (xorb s s')
  | Infinity s, Num y | Num y, Infinity s =>
    if (Qnum y =? 0)%Z then NaN else Infinity (xorb s (Qnum y <? 0)%Z)
  end.

(** [lo <= x && x <= hi] *)
Definition within (lo hi : Q) (x : number) : Prop :=
  match x with
  | Num q => (lo <= q /\ q <= hi)%Q
  | NaN | Infinity _ => False
  end.

(** The integer nearest to [10 * |q|], the larger one on a tie: the [n]
    of [Number.prototype.toFixed] for one fraction digit. *)
Definition tenths (q : Q) : N :=
  Z.to_N ((20 * Z.abs (Qnum q) + Zpos (Qden q)) / (2 * Zpos (Qden q))).

(** [x.toFixed(1)]: for a finite [x] (below 10^21 in absolute value,
    where JavaScript switches to exponent notation) a minus sign when
    [x < 0], the digits of [n div 10], a point, the digit [n mod 10]; the
    name of the value when it is not finite. *)
Definition toFixed1 (x : number) : jsstring :=
  match x with
  | NaN => lit "NaN"
  | Num q =>
    let n := tenths q in
    (if (Qnum q <? 0)%Z then [45] else [])
      ++ Number_toString (n / 10) ++ [46] ++ Number_toString (n mod 10)
  | Infinity false => lit "Infinity"
  | Infinity true => lit "-Infinity"
  end.

(** Whether [x.toFixed(1)] has at most fifteen significant digits.  A
    double keeps that many decimal digits, so the number such a text is
    read as prints as the same text again. *)
Definition fifteenDigits (q : Q) : bool := tenths q <? 10 ^ 15.

Fixpoint pow10 (n : nat) : positive :=
  match n with
  | O => 1%positive
  | S n' => (10 * pow10 n')%positive
  end.

(** The value of the longest prefix of [s] that is an unsigned decimal
    literal ([d+], [d+.], [d+.d+] or [.d+]), negated when [neg]; [NaN]
    when there is none. *)
Definition decimalLiteral (neg : bool) (s : jsstring) : number :=
  let ip := takeWhile isDigit s in
  let rest := dropWhile isDigit s in
  let fp := match rest with
            | c :: r => if c =? 46 then takeWhile isDigit r else []
            | [] => []
            end in
  match ip, fp with
  | [], [] => NaN
  | _, _ =>
    let k := pow10 (List.length fp) in
    let v := (Z.of_N (N.of_uint (uint_of_digits ip)) * Zpos k
              + Z.of_N (N.of_uint (uint_of_digits fp)))%Z in
    Num (Qmake (if neg then - v else v) k)
  end.

(** [parseFloat(s)] on the text the regular expressions of the client
    hand to it, which is made of [-], [.] and digits: an optional minus
    sign, then a decimal literal.  The result is the value the text
    denotes; JavaScript returns the double nearest to it. *)
Definition parseFloat (s : jsstring) : number :=
  match s with
  | c :: s' => if c =? 45 then decimalLiteral true s' else decimalLiteral false s
  | [] => decimalLiteral false s
  end.

(** ** More string and array methods *)

(** [s.startsWith(l)] *)
Fixpoint startsWith (l s : jsstring) : bool :=
  match l, s with
  | [], _ => true
  | a :: l', b :: s' => (a =? b) && startsWith l' s'
  | _ :: _, [] => false
  end.

(** [s.includes(l)] *)
Fixpoint includes (s l : jsstring) : bool :=
  startsWith l s ||
  match s with
  | [] => false
  | _ :: s' => includes s' l
  end.

(** [parts.join(sep)] *)
Fixpoint join (sep : jsstring) (parts : list jsstring) : jsstring :=
  match parts with
  | [] => []
  | [p] => p
  | p :: ps => p ++ sep ++ join sep ps
  end.

(** [xs.slice(a, b)] for indices that are not negative. *)
Definition slice {A : Type} (a b : nat) (xs : list A) : list A :=
  firstn (b - a) (skipn a xs).

End Js.

(* ====================================================================== *)
(** * Regular expressions, as far as the source uses them *)
(* ====================================================================== *)

Module Regex.
Import Js.
Local Open Scope N_scope.

(** Literal text, greedy repetition of a character class, alternatives
    of literal text, capture groups, [$] and concatenation. *)
Inductive regex :=
| Lit (s : jsstring)
| Plus (p : char -> bool)
| Star (p : char -> bool)
| Alt (alts : list jsstring)
| Group (r : regex)
| Eol
| Seq (r1 r2 : regex).

Definition captures := list jsstring.

(** With the [i] flag both sides are compared in upper case. *)
Definition canon (ci : bool) (c : char) : char := if ci then upper c else c.

(** The rest of [s] after the literal [l], if [s] starts with it. *)
Fixpoint strip (ci : bool) (l s : jsstring) : option jsstring :=
  match l, s with
  | [], _ => Some s
  | a :: l', b :: s' => if canon ci a =? canon ci b then strip ci l' s' else None
  | _ :: _, [] => None
  end.

(** [c*]: the longest run first, then shorter ones while the rest of the
    expression ([k]) fails. *)
Fixpoint star (p : char -> bool) (s : jsstring)
         (k : jsstring -> option captures) : option captures :=
  match s with
  | c :: s' =>
    if p c then
      match star p s' k with
      | Some r => Some r
      | None => k s
      end
    else k s
  | [] => k []
  end.

Definition plus (p : char -> bool) (s : jsstring)
           (k : jsstring -> option captures) : option captures :=
  match s with
  | c :: s' => if p c then star p s' k else None
  | [] => None
  end.

Fixpoint alt (ci : bool) (alts : list jsstring) (s : jsstring)
         (k : jsstring -> option captures) : option captures :=
  match alts with
  | [] => None
  | a :: alts' =>
    match match strip ci a s with Some s' => k s' | None => None end with
    | Some r => Some r
    | None => alt ci alts' s k
    end
  end.

(** Backtracking matcher: [m ci r s caps k] matches [r] at the start of
    [s] and hands the rest of the input and the captures so far to [k]. *)
Fixpoint m (ci : bool) (r : regex) (s : jsstring) (caps : captures)
         (k : jsstring -> captures -> option captures) : option captures :=
  match r with
  | Lit l => match strip ci l s with Some s' => k s' caps | None => None end
  | Plus p => plus p s (fun s' => k s' caps)
  | Star p => star p s (fun s' => k s' caps)
  | Alt alts => alt ci alts s (fun s' => k s' caps)
  | Group r' =>
    m ci r' s caps
      (fun s' caps' => k s' (caps' ++ [firstn (List.length s - List.length s') s]))
  | Eol => match s with [] => k s caps | _ :: _ => None end
  | Seq r1 r2 => m ci r1 s caps (fun s' caps' => m ci r2 s' caps' k)
  end.

(** A match that starts at the first code unit of [s]: the matched text
    followed by the captures. *)
Definition exec_here (ci : bool) (r : regex) (s : jsstring) : option captures :=
  m ci r s []
    (fun s' caps => Some (firstn (List.length s - List.length s') s :: caps)).

(** [s.match(r)]: the leftmost match. *)
Fixpoint search (ci : bool) (r : regex) (s : jsstring) : option captures :=
  match exec_here ci r s with
  | Some c => Some c
  | None =>
    match s with
    | [] => None
    | _ :: s' => search ci r s'
    end
  end.

(** [match[i]] *)
Definition group (i : nat) (c : captures) : jsstring := nth i c [].

(** [rest] does not go on with a character of the class. *)
Definition ends_run (p : char -> bool) (rest : jsstring) : Prop :=
  match rest with
  | [] => True
  | c :: _ => p c = false
  end.

(** Neither numeric nor white space. *)
Definition foreign (c : char) : bool := negb (isNumeric c || isWhiteSpace c).

(** [x] directly followed by [y] somewhere in [s]. *)
Fixpoint has_pair (x y : char) (s : jsstring) : bool :=
  match s with
  | [] => false
  | a :: s' =>
    ((a =? x) && match s' with b :: _ => b =? y | [] => false end)
    || has_pair x y s'
  end.

Declare Scope regex_scope.
Delimit Scope regex_scope with regex.
Infix "+>" := Seq (at level 60, right associativity) : regex_scope.

End Regex.

(* ====================================================================== *)
(** * Network scanner: [src/server/network-scanner.ts] *)
(* ====================================================================== *)

Module Scanner.
Import Js.

(** [getSubnetHosts(subnet)]:
    [Array.from({ length: 254 }, (_, i) => `${subnet}.${i + 1}`)] *)
Definition getSubnetHosts (subnet : jsstring) : list jsstring :=
  map (fun i => subnet ++ lit "." ++ Number_toString (N.of_nat i + 1))
      (seq 0 254).

(** [NCTRL_PORTS] and the other constants of the module. *)
Definition NCTRL_PORTS : list N := [3000; 8080; 8888; 9000; 10000; 3001; 7000]%N.
Definition CONNECT_TIMEOUT_MS : N := 600.
Definition PROBE_TIMEOUT_MS : N := 800.
Definition CONCURRENCY : nat := 40.

(** An entry of [os.networkInterfaces()], as far as [getLocalIp] reads
    it. *)
Record NetworkInterfaceInfo := mkInfo {
  family : jsstring;
  internal : bool;
  address : jsstring
}.

(** The inner loop of [getLocalIp()] over the addresses of one
    interface: the address it returns, if it returns. *)
Fixpoint firstExternal (iface : list NetworkInterfaceInfo) : option jsstring :=
  match iface with
  | [] => None
  | addr :: rest =>
    if string_eqb (family addr) (lit "IPv4") && negb (internal addr)
    then Some (address addr)
    else firstExternal rest
  end.

(** [getLocalIp()], on [Object.values(os.networkInterfaces())]; a value
    can be [undefined]. *)
Fixpoint getLocalIp (interfaces : list (option (list NetworkInterfaceInfo))) : jsstring :=
  match interfaces with
  | [] => lit "127.0.0.1"
  | None :: rest => getLocalIp rest
  | Some iface :: rest =>
    match firstExternal iface with
    | Some a => a
    | None => getLocalIp rest
    end
  end.

(** The test of the loop, and the addresses in the order the two loops
    visit them. *)
Definition isExternalIPv4 (addr : NetworkInterfaceInfo) : bool :=
  string_eqb (family addr) (lit "IPv4") && negb (internal addr).

Definition allAddresses (interfaces : list (option (list NetworkInterfaceInfo)))
  : list NetworkInterfaceInfo :=
  flat_map (fun iface => match iface with Some l => l | None => [] end) interfaces.

(** The number of dots in a string. *)
Definition dots (s : jsstring) : nat := count_occ N.eq_dec s 46%N.

(** [getSubnet(ip)]: [ip.split(".").slice(0, 3).join(".")] *)
Definition getSubnet (ip : jsstring) : jsstring :=
  join (lit ".") (slice 0 3 (split 46%N ip)).

(** [ScanResult] *)
Record ScanResult := mkScanResult {
  host : jsstring;
  port : N;
  isWaldman : bool;
  responseSnippet : option jsstring;
  latencyMs : Z
}.

(** [.replace(/[\r\n]/g, " ")] *)
Definition replaceLineBreaks (s : jsstring) : jsstring :=
  map (fun c => if (c =? 13)%N || (c =? 10)%N then 32%N else c) s.

(** The keywords a Waldman answer is recognised by. *)
Definition KEYWORDS : list jsstring :=
  [lit "OK"; lit "MATRIX"; lit "PRESET"; lit "GAIN"; lit "SEND"; lit "MUTE";
   lit "NCTRL"; lit "WALDMAN"].

(** [finish] in [nctrlProbe]: what the probe resolves with once [data]
    holds what was received ([toUpperCase] as in [Js], which is
    JavaScript's on ASCII text). *)
Definition finish (data : jsstring) : bool * jsstring :=
  let upper := toUpperCase data in
  let isWaldman :=
    includes upper (lit "OK") || includes upper (lit "MATRIX")
    || includes upper (lit "PRESET") || includes upper (lit "GAIN")
    || includes upper (lit "SEND") || includes upper (lit "MUTE")
    || includes upper (lit "NCTRL") || includes upper (lit "WALDMAN") in
  (isWaldman, trim (replaceLineBreaks (slice 0 80 data))).

(** [snippet || undefined] *)
Definition orUndefined (snippet : jsstring) : option jsstring :=
  match snippet with
  | [] => None
  | _ :: _ => Some snippet
  end.

(** What [runConcurrent] has done when it returns: the results, and the
    batches whose calls of [fn] it started together, in order. *)
Record Concurrent (T R : Type) := mkConcurrent {
  results : list R;
  batches : list (list T)
}.
Arguments mkConcurrent {T R} results batches.
Arguments results {T R} c.
Arguments batches {T R} c.

(** The [for] loop of [runConcurrent(items, concurrency, fn)], at index
    [i]; [fn] is taken by the value its promise resolves with.  The loop
    goes on while [i < items.length], so [fuel] bounds its rounds. *)
Fixpoint runConcurrent_from {T R : Type} (fuel : nat) (items : list T) (concurrency : nat)
         (fn : T -> R) (i : nat) (acc : Concurrent T R) : option (Concurrent T R) :=
  match fuel with
  | O => None
  | S fuel' =>
    if (i <? List.length items)%nat then
      let batch := slice i (i + concurrency) items in
      let batchResults := map fn batch in
      runConcurrent_from fuel' items concurrency fn (i + concurrency)
        (mkConcurrent (results acc ++ batchResults) (batches acc ++ [batch]))
    else Some acc
  end.

Definition runConcurrent {T R : Type} (fuel : nat) (items : list T) (concurrency : nat)
           (fn : T -> R) : option (Concurrent T R) :=
  runConcurrent_from fuel items concurrency fn 0 (mkConcurrent [] []).

(** [ScanOptions], without the progress callback. *)
Record ScanOptions := mkOptions {
  subnet : option jsstring;
  ports : option (list N)
}.

(** The targets of [scanNetwork(options)]: every host of the subnet
    with every port, by the two nested [for] loops. *)
Definition targets (options : ScanOptions) (localIp : jsstring) : list (jsstring * N) :=
  let subnet := match subnet options with Some s => s | None => getSubnet localIp end in
  let ports := match ports options with Some ps => ps | None => NCTRL_PORTS end in
  let hosts := getSubnetHosts subnet in
  fold_left (fun targets host =>
               fold_left (fun targets port => targets ++ [(host, port)]) ports targets)
            hosts [].

(** The comparison function of [found.sort(...)]. *)
Definition compareFound (a b : ScanResult) : Z :=
  if negb (Bool.eqb (isWaldman a) (isWaldman b))
  then (if isWaldman a then -1 else 1)%Z
  else (latencyMs a - latencyMs b)%Z.

(** [Array.prototype.sort(cmp)], which ECMAScript requires to be stable:
    an element goes before the first one it does not have to follow. *)
Fixpoint insertSorted {A : Type} (cmp : A -> A -> Z) (x : A) (sorted : list A) : list A :=
  match sorted with
  | [] => [x]
  | y :: rest =>
    if (cmp x y <=? 0)%Z then x :: sorted else y :: insertSorted cmp x rest
  end.

Definition sort {A : Type} (cmp : A -> A -> Z) (xs : list A) : list A :=
  fold_right (insertSorted cmp) [] xs.

(** The list [scanNetwork] returns, given the devices found in the
    order their probes finished. *)
Definition sortFound (found : list ScanResult) : list ScanResult :=
  sort compareFound found.

End Scanner.

(* ====================================================================== *)
(** * Level conversion: the static methods of [MatrixClient] *)
(* ====================================================================== *)

(** [levelToDb] and [dbToLevel] compute on doubles: the numbers here are
    the binary64 numbers of the kernel, with their comparisons (false on
    [NaN]), product and quotient.  [Math.log10] and [Math.pow] belong to
    the JavaScript engine, and ECMAScript leaves their results
    implementation-approximated, so they are parameters. *)
Module Convert.
Import PrimFloat.
Local Open Scope float_scope.
Local Set Warnings "-inexact-float".

Section Engine.

Variable Math_log10 : float -> float.
Variable Math_pow : float -> float -> float.



End Engine.



End Convert.

(* ====================================================================== *)
(** * Protocol client: [src/server/matrix-client.ts] *)
(* ====================================================================== *)

Module Matrix.
Import Js Regex.
Local Open Scope Q_scope.
Local Open Scope regex_scope.

Inductive Protocol := tcp | udp.

(** [MatrixClientConfig] *)
Record MatrixClientConfig := mkConfig {
  host : jsstring;
  port : N;
  protocol : Protocol;
  simulatorMode : bool;
  reconnectInterval : Q;
  commandTimeout : Q
}.

(** [Partial<MatrixClientConfig>] *)
Record PartialConfig := mkPartial {
  host' : option jsstring;
  port' : option N;
  protocol' : option Protocol;
  simulatorMode' : option bool;
  reconnectInterval' : option Q;
  commandTimeout' : option Q
}.

Definition DEFAULT_CONFIG : MatrixClientConfig :=
  {| host := lit "192.168.2.1"; port := 3000%N; protocol := tcp;
     simulatorMode := false; reconnectInterval := 3000; commandTimeout := 2000 |}.

Definition orElse {A} (o : option A) (d : A) : A :=
  match o with Some x => x | None => d end.

(** [{ ...base, ...over }] *)
Definition spread (base : MatrixClientConfig) (over : PartialConfig) : MatrixClientConfig :=
  {| host := orElse (host' over) (host base);
     port := orElse (port' over) (port base);
     protocol := orElse (protocol' over) (protocol base);
     simulatorMode := orElse (simulatorMode' over) (simulatorMode base);
     reconnectInterval := orElse (reconnectInterval' over) (reconnectInterval base);
     commandTimeout := orElse (commandTimeout' over) (commandTimeout base) |}.

(** The channel classes ["IN" | "OUT" | "STIN"] and the send sources
    ["IN" | "STIN"]. *)
Inductive Channel := IN | OUT | STIN.
Inductive Source := srcIN | srcSTIN.

Definition Channel_text (ch : Channel) : jsstring :=
  match ch with IN => lit "IN" | OUT => lit "OUT" | STIN => lit "STIN" end.

Definition Source_text (ch : Source) : jsstring :=
  match ch with srcIN => lit "IN" | srcSTIN => lit "STIN" end.

(** ** [Map]: entries in insertion order *)

Section JsMap.

Context {K V : Type} (eqb : K -> K -> bool).

Fixpoint Map_get (k : K) (mp : list (K * V)) : option V :=
  match mp with
  | [] => None
  | (k', v) :: mp' => if eqb k' k then Some v else Map_get k mp'
  end.

(** [set] keeps the place of a key that is already there. *)
Fixpoint Map_set (k : K) (v : V) (mp : list (K * V)) : list (K * V) :=
  match mp with
  | [] => [(k, v)]
  | (k', v') :: mp' =>
    if eqb k' k then (k', v) :: mp' else (k', v') :: Map_set k v mp'
  end.

Definition Map_delete (k : K) (mp : list (K * V)) : list (K * V) :=
  filter (fun e => negb (eqb (fst e) k)) mp.

End JsMap.

(** The key [`${Date.now()}-${Math.random()}`] of a pending command, by
    the two numbers it is printed from. *)
Record CmdId := mkCmdId { issuedAt : Q; nonce : Q }.

Definition CmdId_eqb (a b : CmdId) : bool :=
  Qeq_bool (issuedAt a) (issuedAt b) && Qeq_bool (nonce a) (nonce b).

(** A value of [pendingCommands]: [resolve] and [reject] are those of
    the promise [promise]; [timer] is the handle of the timeout. *)
Record PendingCommand := mkPending { promise : nat; timer : nat }.

Inductive Error :=
| NotConnected                      (* "Não conectado ao mixer" *)
| Timeout (command : jsstring).     (* `Timeout: ${command}` *)

Inductive Settlement :=
| resolved (v : jsstring)
| rejected (e : Error).

(** [VUReading] *)
Record VUReading := mkVU {
  channel : jsstring;
  channelNumber : N;
  level : number;
  peak : number
}.

(** What the client hands to [this.emit]. *)
Inductive Emitted :=
| ev_connected
| ev_disconnected
| ev_error
| ev_vu (reading : VUReading).

(** The closures the client gives to [setTimeout] and [setInterval]. *)
Inductive Callback :=
| cb_timeout (cmdId : CmdId) (p : nat) (command : jsstring)  (* sendRaw *)
| cb_resolve (p : nat) (response : jsstring)                 (* sendRaw, simulator *)
| cb_vu                                                      (* initSimulator *)
| cb_reconnect.                                              (* scheduleReconnect *)

Record Timer := mkTimer {
  handle : nat;
  due : Q;
  every : option Q;
  callback : Callback
}.

(** The fields of a [MatrixClient] (down to [simulatorPreset]) and what
    the runtime holds for it: the clock, how many [Math.random()]
    values were drawn, the armed timers, the promises [sendRaw] made
    with their settlements, the events emitted and the payloads written
    to the socket.  A socket field is [true] when it holds a socket. *)
Record t := mk {
  config : MatrixClientConfig;
  tcpClient : bool;
  udpClient : bool;
  connected : bool;
  reconnectTimer : option nat;
  pendingCommands : list (CmdId * PendingCommand);
  simulatorVU : list (jsstring * number);
  simulatorGains : list (jsstring * number);
  simulatorMutes : list (jsstring * bool);
  simulatorSends : list (jsstring * number);
  simulatorPreset : N;
  clock : Q;
  drawn : nat;
  timers : list Timer;
  nextHandle : nat;
  promises : list (option Settlement);
  emitted : list Emitted;
  written : list jsstring
}.
Definition set_config v c := mk v (tcpClient c) (udpClient c) (connected c) (reconnectTimer c) (pendingCommands c) (simulatorVU c) (simulatorGains c) (simulatorMutes c) (simulatorSends c) (simulatorPreset c) (clock c) (drawn c) (timers c) (nextHandle c) (promises c) (emitted c) (written c).
Definition set_tcpClient v c := mk (config c) v (udpClient c) (connected c) (reconnectTimer c) (pendingCommands c) (simulatorVU c) (simulatorGains c) (simulatorMutes c) (simulatorSends c) (simulatorPreset c) (clock c) (drawn c) (timers c) (nextHandle c) (promises c) (emitted c) (written c).
Definition set_udpClient v c := mk (config c) (tcpClient c) v (connected c) (reconnectTimer c) (pendingCommands c) (simulatorVU c) (simulatorGains c) (simulatorMutes c) (simulatorSends c) (simulatorPreset c) (clock c) (drawn c) (timers c) (nextHandle c) (promises c) (emitted c) (written c).
Definition set_connected v c := mk (config c) (tcpClient c) (udpClient c) v (reconnectTimer c) (pendingCommands c) (simulatorVU c) (simulatorGains c) (simulatorMutes c) (simulatorSends c) (simulatorPreset c) (clock c) (drawn c) (timers c) (nextHandle c) (promises c) (emitted c) (written c).
Definition set_reconnectTimer v c := mk (config c) (tcpClient c) (udpClient c) (connected c) v (pendingCommands c) (simulatorVU c) (simulatorGains c) (simulatorMutes c) (simulatorSends c) (simulatorPreset c) (clock c) (drawn c) (timers c) (nextHandle c) (promises c) (emitted c) (written c).
Definition set_pendingCommands v c := mk (config c) (tcpClient c) (udpClient c) (connected c) (reconnectTimer c) v (simulatorVU c) (simulatorGains c) (simulatorMutes c) (simulatorSends c) (simulatorPreset c) (clock c) (drawn c) (timers c) (nextHandle c) (promises c) (emitted c) (written c).
Definition set_simulatorVU v c := mk (config c) (tcpClient c) (udpClient c) (connected c) (reconnectTimer c) (pendingCommands c) v (simulatorGains c) (simulatorMutes c) (simulatorSends c) (simulatorPreset c) (clock c) (drawn c) (timers c) (nextHandle c) (promises c) (emitted c) (written c).
Definition set_simulatorGains v c := mk (config c) (tcpClient c) (udpClient c) (connected c) (reconnectTimer c) (pendingCommands c) (simulatorVU c) v (simulatorMutes c) (simulatorSends c) (simulatorPreset c) (clock c) (drawn c) (timers c) (nextHandle c) (promises c) (emitted c) (written c).
Definition set_simulatorMutes v c := mk (config c) (tcpClient c) (udpClient c) (connected c) (reconnectTimer c) (pendingCommands c) (simulatorVU c) (simulatorGains c) v (simulatorSends c) (simulatorPreset c) (clock c) (drawn c) (timers c) (nextHandle c) (promises c) (emitted c) (written c).
Definition set_simulatorSends v c := mk (config c) (tcpClient c) (udpClient c) (connected c) (reconnectTimer c) (pendingCommands c) (simulatorVU c) (simulatorGains c) (simulatorMutes c) v (simulatorPreset c) (clock c) (drawn c) (timers c) (nextHandle c) (promises c) (emitted c) (written c).
Definition set_simulatorPreset v c := mk (config c) (tcpClient c) (udpClient c) (connected c) (reconnectTimer c) (pendingCommands c) (simulatorVU c) (simulatorGains c) (simulatorMutes c) (simulatorSends c) v (clock c) (drawn c) (timers c) (nextHandle c) (promises c) (emitted c) (written c).
Definition set_clock v c := mk (config c) (tcpClient c) (udpClient c) (connected c) (reconnectTimer c) (pendingCommands c) (simulatorVU c) (simulatorGains c) (simulatorMutes c) (simulatorSends c) (simulatorPreset c) v (drawn c) (timers c) (nextHandle c) (promises c) (emitted c) (written c).
Definition set_drawn v c := mk (config c) (tcpClient c) (udpClient c) (connected c) (reconnectTimer c) (pendingCommands c) (simulatorVU c) (simulatorGains c) (simulatorMutes c) (simulatorSends c) (simulatorPreset c) (clock c) v (timers c) (nextHandle c) (promises c) (emitted c) (written c).
Definition set_timers v c := mk (config c) (tcpClient c) (udpClient c) (connected c) (reconnectTimer c) (pendingCommands c) (simulatorVU c) (simulatorGains c) (simulatorMutes c) (simulatorSends c) (simulatorPreset c) (clock c) (drawn c) v (nextHandle c) (promises c) (emitted c) (written c).
Definition set_nextHandle v c := mk (config c) (tcpClient c) (udpClient c) (connected c) (reconnectTimer c) (pendingCommands c) (simulatorVU c) (simulatorGains c) (simulatorMutes c) (simulatorSends c) (simulatorPreset c) (clock c) (drawn c) (timers c) v (promises c) (emitted c) (written c).
Definition set_promises v c := mk (config c) (tcpClient c) (udpClient c) (connected c) (reconnectTimer c) (pendingCommands c) (simulatorVU c) (simulatorGains c) (simulatorMutes c) (simulatorSends c) (simulatorPreset c) (clock c) (drawn c) (timers c) (nextHandle c) v (emitted c) (written c).
Definition set_emitted v c := mk (config c) (tcpClient c) (udpClient c) (connected c) (reconnectTimer c) (pendingCommands c) (simulatorVU c) (simulatorGains c) (simulatorMutes c) (simulatorSends c) (simulatorPreset c) (clock c) (drawn c) (timers c) (nextHandle c) (promises c) v (written c).
Definition set_written v c := mk (config c) (tcpClient c) (udpClient c) (connected c) (reconnectTimer c) (pendingCommands c) (simulatorVU c) (simulatorGains c) (simulatorMutes c) (simulatorSends c) (simulatorPreset c) (clock c) (drawn c) (timers c) (nextHandle c) (promises c) (emitted c) v.
(** What an [async] method has returned or thrown. *)
Inductive Outcome (A : Type) :=
| returned (a : A)
| thrown (e : Error).
Arguments returned {A} a.
Arguments thrown {A} e.

Arguments set_config v c /.
Arguments set_tcpClient v c /.
Arguments set_udpClient v c /.
Arguments set_connected v c /.
Arguments set_reconnectTimer v c /.
Arguments set_pendingCommands v c /.
Arguments set_simulatorVU v c /.
Arguments set_simulatorGains v c /.
Arguments set_simulatorMutes v c /.
Arguments set_simulatorSends v c /.
Arguments set_simulatorPreset v c /.
Arguments set_clock v c /.
Arguments set_drawn v c /.
Arguments set_timers v c /.
Arguments set_nextHandle v c /.
Arguments set_promises v c /.
Arguments set_emitted v c /.
Arguments set_written v c /.

Section Client.

(** The values [Math.random()] returns, in the order of the calls. *)
Variable random : nat -> Q.

(** ** Runtime services *)

Definition Math_random (c : t) : Q * t :=
  (random (drawn c), set_drawn (S (drawn c)) c).

Definition emit (e : Emitted) (c : t) : t := set_emitted (emitted c ++ [e]) c.

Definition arm (cb : Callback) (delay : Q) (period : option Q) (c : t) : nat * t :=
  let h := nextHandle c in
  (h, set_nextHandle (S h)
        (set_timers (timers c ++ [mkTimer h (clock c + delay) period cb]) c)).

Definition setTimeout (cb : Callback) (delay : Q) (c : t) : nat * t :=
  arm cb delay None c.

Definition setInterval (cb : Callback) (period : Q) (c : t) : nat * t :=
  arm cb period (Some period) c.

Definition clearTimeout (h : nat) (c : t) : t :=
  set_timers (filter (fun e => negb (Nat.eqb (handle e) h)) (timers c)) c.

(** [new Promise(...)]: the next promise, not settled. *)
Definition newPromise (c : t) : nat * t :=
  (List.length (promises c), set_promises (promises c ++ [None]) c).

(** [resolve(v)] / [reject(e)]: a promise keeps its first settlement. *)
Fixpoint settle_at (p : nat) (s : Settlement) (ps : list (option Settlement))
  : list (option Settlement) :=
  match ps, p with
  | [], _ => []
  | None :: ps', O => Some s :: ps'
  | Some s0 :: ps', O => Some s0 :: ps'
  | x :: ps', S p' => x :: settle_at p' s ps'
  end.

Definition settle (p : nat) (s : Settlement) (c : t) : t :=
  set_promises (settle_at p s (promises c)) c.

Definition settlement (p : nat) (c : t) : option Settlement :=
  nth p (promises c) None.

(** ** Simulator *)

Definition range (a b : N) : list N :=
  map (fun i => (a + N.of_nat i)%N) (seq 0 (N.to_nat (b + 1 - a)%N)).

(** The three [for] loops of [initSimulator()]. *)
Definition initInputs (c : t) : t :=
  fold_left (fun c i =>
    let key := lit "IN:" ++ Number_toString i in
    let c := set_simulatorGains (Map_set string_eqb key (Num (-10)) (simulatorGains c)) c in
    let c := set_simulatorMutes (Map_set string_eqb key false (simulatorMutes c)) c in
    let (r, c) := Math_random c in
    set_simulatorVU (Map_set string_eqb key (Num (-20 - r * 20)) (simulatorVU c)) c)
    (range 1%N 20%N) c.

Definition initOutputs (c : t) : t :=
  fold_left (fun c i =>
    let key := lit "OUT:" ++ Number_toString i in
    let c := set_simulatorGains (Map_set string_eqb key (Num (-10)) (simulatorGains c)) c in
    let c := set_simulatorMutes (Map_set string_eqb key false (simulatorMutes c)) c in
    let (r, c) := Math_random c in
    set_simulatorVU (Map_set string_eqb key (Num (-15 - r * 15)) (simulatorVU c)) c)
    (range 1%N 8%N) c.

Definition initStereoInputs (c : t) : t :=
  fold_left (fun c i =>
    let key := lit "STIN:" ++ Number_toString i in
    let c := set_simulatorGains (Map_set string_eqb key (Num (-10)) (simulatorGains c)) c in
    set_simulatorMutes (Map_set string_eqb key false (simulatorMutes c)) c)
    (range 1%N 3%N) c.

(** [initSimulator()] *)
Definition initSimulator (c : t) : t :=
  let c := initInputs c in
  let c := initOutputs c in
  let c := initStereoInputs c in
  let (_, c) := setInterval cb_vu 100 c in
  let c := set_connected true c in
  emit ev_connected c.

(** The callback of the simulator's [setInterval]: one step of the
    random walk of every VU value. *)
Definition vu_walk (c : t) : t :=
  fold_left (fun c e =>
    let (r, c) := Math_random c in
    let newVal :=
      Math_max (Num (-60))
        (Math_min (Num 0) (add (snd e) (mul (sub (Num r) (Num 0.5)) (Num 4)))) in
    set_simulatorVU (Map_set string_eqb (fst e) newVal (simulatorVU c)) c)
    (simulatorVU c) c.

(** [new MatrixClient(config)] at time [now]. *)
Definition create (over : PartialConfig) (now : Q) : t :=
  let c :=
    {| config := spread DEFAULT_CONFIG over;
       tcpClient := false; udpClient := false; connected := false;
       reconnectTimer := None; pendingCommands := [];
       simulatorVU := []; simulatorGains := []; simulatorMutes := [];
       simulatorSends := []; simulatorPreset := 1%N;
       clock := now; drawn := 0%nat; timers := []; nextHandle := 0%nat;
       promises := []; emitted := []; written := [] |} in
  if simulatorMode (config c) then initSimulator c else c.

(** ** Connection *)

(** [scheduleReconnect()] *)
Definition scheduleReconnect (c : t) : t :=
  match reconnectTimer c with
  | Some _ => c
  | None =>
    let (h, c) := setTimeout cb_reconnect (reconnectInterval (config c)) c in
    set_reconnectTimer (Some h) c
  end.

(** [connect()], up to the socket it opens; what the socket reports
    later arrives as a [SocketEvent]. *)
Definition connect (c : t) : t :=
  if simulatorMode (config c) then emit ev_connected (set_connected true c)
  else
    match protocol (config c) with
    | tcp => set_tcpClient true c
    | udp => set_udpClient true c
    end.

(** [disconnect()] *)
Definition disconnect (c : t) : t :=
  let c := match reconnectTimer c with
           | Some h => set_reconnectTimer None (clearTimeout h c)
           | None => c
           end in
  let c := set_tcpClient false c in
  let c := set_udpClient false c in
  let c := set_connected false c in
  emit ev_disconnected c.

(** [updateConfig(config)] *)
Definition updateConfig (over : PartialConfig) (c : t) : t :=
  set_config (spread (config c) over) c.

(** [isConnected()] *)
Definition isConnected (c : t) : bool := connected c.

(** [isSimulator()] *)
Definition isSimulator (c : t) : bool := simulatorMode (config c).

(** ** Responses *)

Definition CHANNELS : list jsstring := [lit "IN"; lit "OUT"; lit "STIN"].
Definition SOURCES : list jsstring := [lit "IN"; lit "STIN"].

(** [/VU\s+(IN|OUT|STIN)\s+(\d+)\s+=\s+([-\d.]+)/i] *)
Definition VU_LINE : regex :=
  Lit (lit "VU") +> Plus isWhiteSpace +> Group (Alt CHANNELS) +> Plus isWhiteSpace
  +> Group (Plus isDigit) +> Plus isWhiteSpace +> Lit (lit "=") +> Plus isWhiteSpace
  +> Group (Plus isNumeric).

(** The [forEach] over [pendingCommands] in [handleResponse]. *)
Definition resolvePending (trimmed : jsstring) (c : t) : t :=
  fold_left (fun c e =>
    let c := clearTimeout (timer (snd e)) c in
    let c := settle (promise (snd e)) (resolved trimmed) c in
    set_pendingCommands (Map_delete CmdId_eqb (fst e) (pendingCommands c)) c)
    (pendingCommands c) c.

(** The body of the [for] loop of [handleResponse]. *)
Definition handleLine (line : jsstring) (c : t) : t :=
  let trimmed := trim line in
  match trimmed with
  | [] => c
  | _ :: _ =>
    let c :=
      match search true VU_LINE trimmed with
      | Some vuMatch =>
        emit (ev_vu {| channel := group 1 vuMatch;
                       channelNumber := parseInt (group 2 vuMatch);
                       level := parseFloat (group 3 vuMatch);
                       peak := parseFloat (group 3 vuMatch) |}) c
      | None => c
      end in
    resolvePending trimmed c
  end.

(** [handleResponse(data)] *)
Definition handleResponse (data : jsstring) (c : t) : t :=
  fold_left (fun c line => handleLine line c) (split 10%N (trim data)) c.

(** ** Commands *)

(** [/GET VU (IN|OUT|STIN) (\d+)/] *)
Definition GET_VU : regex :=
  Lit (lit "GET VU ") +> Group (Alt CHANNELS) +> Lit (lit " ") +> Group (Plus isDigit).

(** [/GET GAIN (IN|OUT|STIN) (\d+)/] *)
Definition GET_GAIN : regex :=
  Lit (lit "GET GAIN ") +> Group (Alt CHANNELS) +> Lit (lit " ") +> Group (Plus isDigit).

(** [/SET GAIN (IN|OUT|STIN) (\d+) = ([-\d.]+)/] *)
Definition SET_GAIN : regex :=
  Lit (lit "SET GAIN ") +> Group (Alt CHANNELS) +> Lit (lit " ") +> Group (Plus isDigit)
  +> Lit (lit " = ") +> Group (Plus isNumeric).

(** [/SET SEND (IN|STIN) (\d+) OUT (\d+) = ([-\d.]+)/] *)
Definition SET_SEND : regex :=
  Lit (lit "SET SEND ") +> Group (Alt SOURCES) +> Lit (lit " ") +> Group (Plus isDigit)
  +> Lit (lit " OUT ") +> Group (Plus isDigit) +> Lit (lit " = ")
  +> Group (Plus isNumeric).

(** [/GET SEND (IN|STIN) (\d+) OUT (\d+)/] *)
Definition GET_SEND : regex :=
  Lit (lit "GET SEND ") +> Group (Alt SOURCES) +> Lit (lit " ") +> Group (Plus isDigit)
  +> Lit (lit " OUT ") +> Group (Plus isDigit).

(** [/SET MUTE (IN|OUT|STIN) (\d+) (ON|OFF)/] *)
Definition SET_MUTE : regex :=
  Lit (lit "SET MUTE ") +> Group (Alt CHANNELS) +> Lit (lit " ") +> Group (Plus isDigit)
  +> Lit (lit " ") +> Group (Alt [lit "ON"; lit "OFF"]).

(** [/SET PRESET (\d+)/] *)
Definition SET_PRESET : regex :=
  Lit (lit "SET PRESET ") +> Group (Plus isDigit).

(** [/([-\d.]+)\s*$/] *)
Definition NUMERIC_SUFFIX : regex :=
  Group (Plus isNumeric) +> Star isWhiteSpace +> Eol.

(** [/(\d+)\s*$/] *)
Definition DIGIT_SUFFIX : regex :=
  Group (Plus isDigit) +> Star isWhiteSpace +> Eol.

(** [simulateResponse(command)] *)
Definition simulateResponse (command : jsstring) (c : t) : jsstring * t :=
  let upper := trim (toUpperCase command) in
  match search false GET_VU upper with
  | Some vuGet =>
    let key := group 1 vuGet ++ lit ":" ++ group 2 vuGet in
    let val := orElse (Map_get string_eqb key (simulatorVU c)) (Num (-40)) in
    (lit "VU " ++ group 1 vuGet ++ lit " " ++ group 2 vuGet ++ lit " = " ++ toFixed1 val, c)
  | None =>
  match search false GET_GAIN upper with
  | Some gainGet =>
    let key := group 1 gainGet ++ lit ":" ++ group 2 gainGet in
    let val := orElse (Map_get string_eqb key (simulatorGains c)) (Num (-10)) in
    (lit "GAIN " ++ group 1 gainGet ++ lit " " ++ group 2 gainGet ++ lit " = " ++ toFixed1 val, c)
  | None =>
  match search false SET_GAIN upper with
  | Some gainSet =>
    let key := group 1 gainSet ++ lit ":" ++ group 2 gainSet in
    let c := set_simulatorGains
               (Map_set string_eqb key (parseFloat (group 3 gainSet)) (simulatorGains c)) c in
    (lit "OK GAIN " ++ group 1 gainSet ++ lit " " ++ group 2 gainSet ++ lit " = "
       ++ group 3 gainSet, c)
  | None =>
  match search false SET_SEND upper with
  | Some sendSet =>
    let key := lit "SEND:" ++ group 1 sendSet ++ lit ":" ++ group 2 sendSet
               ++ lit ":OUT:" ++ group 3 sendSet in
    let c := set_simulatorSends
               (Map_set string_eqb key (parseFloat (group 4 sendSet)) (simulatorSends c)) c in
    (lit "OK SEND " ++ group 1 sendSet ++ lit " " ++ group 2 sendSet ++ lit " OUT "
       ++ group 3 sendSet ++ lit " = " ++ group 4 sendSet, c)
  | None =>
  match search false GET_SEND upper with
  | Some sendGet =>
    let key := lit "SEND:" ++ group 1 sendGet ++ lit ":" ++ group 2 sendGet
               ++ lit ":OUT:" ++ group 3 sendGet in
    let val := orElse (Map_get string_eqb key (simulatorSends c)) (Num (-10)) in
    (lit "SEND " ++ group 1 sendGet ++ lit " " ++ group 2 sendGet ++ lit " OUT "
       ++ group 3 sendGet ++ lit " = " ++ toFixed1 val, c)
  | None =>
  match search false SET_MUTE upper with
  | Some muteSet =>
    let key := group 1 muteSet ++ lit ":" ++ group 2 muteSet in
    let c := set_simulatorMutes
               (Map_set string_eqb key (string_eqb (group 3 muteSet) (lit "ON"))
                  (simulatorMutes c)) c in
    (lit "OK MUTE " ++ group 1 muteSet ++ lit " " ++ group 2 muteSet ++ lit " "
       ++ group 3 muteSet, c)
  | None =>
  if string_eqb upper (lit "GET PRESET")
  then (lit "PRESET = " ++ Number_toString (simulatorPreset c), c)
  else
  match search false SET_PRESET upper with
  | Some presetSet =>
    let c := set_simulatorPreset (parseInt (group 1 presetSet)) c in
    (lit "OK PRESET " ++ group 1 presetSet, c)
  | None => (lit "OK", c)
  end end end end end end end.

(** [sendRaw(command)]: the promise it returns and the state it leaves. *)
Definition sendRaw (command : jsstring) (c : t) : nat * t :=
  let (p, c) := newPromise c in
  if simulatorMode (config c) then
    let (response, c) := simulateResponse command c in
    let (r, c) := Math_random c in
    let (_, c) := setTimeout (cb_resolve p response) (10 + r * 20) c in
    (p, c)
  else if negb (connected c) then
    (p, settle p (rejected NotConnected) c)
  else
    let now := clock c in
    let (r, c) := Math_random c in
    let cmdId := mkCmdId now r in
    let (h, c) := setTimeout (cb_timeout cmdId p command) (commandTimeout (config c)) c in
    let c := set_pendingCommands
               (Map_set CmdId_eqb cmdId (mkPending p h) (pendingCommands c)) c in
    let payload := command ++ [13; 10]%N in
    let c := match protocol (config c) with
             | tcp => if tcpClient c then set_written (written c ++ [payload]) c else c
             | udp => if udpClient c then set_written (written c ++ [payload]) c else c
             end in
    (p, c).

(** ** Public API *)

(** [Math.max(-60, Math.min(10, dB))] *)
Definition clamp (dB : number) : number :=
  Math_max (Num (-60)) (Math_min (Num 10) dB).

(** [setGain(channel, number, dB)] *)
Definition setGain (ch : Channel) (num : N) (dB : number) (c : t) : nat * t :=
  let clamped := clamp dB in
  sendRaw (lit "SET GAIN " ++ Channel_text ch ++ lit " " ++ Number_toString num
             ++ lit " = " ++ toFixed1 clamped) c.

(** What [getGain], [getSend] and [getVU] return once their [sendRaw]
    has resolved with [resp]. *)
Definition numericReply (resp : jsstring) : number :=
  match search false NUMERIC_SUFFIX resp with
  | Some mt => parseFloat (group 1 mt)
  | None => Num (-60)
  end.

(** [getGain(channel, number)]: the command sent; the value returned is
    [numericReply] of the response. *)
Definition getGain (ch : Channel) (num : N) (c : t) : nat * t :=
  sendRaw (lit "GET GAIN " ++ Channel_text ch ++ lit " " ++ Number_toString num) c.

(** [setSend(srcChannel, srcNumber, busNumber, dB)] *)
Definition setSend (src : Source) (srcNumber busNumber : N) (dB : number) (c : t)
  : nat * t :=
  let clamped := clamp dB in
  sendRaw (lit "SET SEND " ++ Source_text src ++ lit " " ++ Number_toString srcNumber
             ++ lit " OUT " ++ Number_toString busNumber ++ lit " = " ++ toFixed1 clamped) c.

(** [getSend(srcChannel, srcNumber, busNumber)] *)
Definition getSend (src : Source) (srcNumber busNumber : N) (c : t) : nat * t :=
  sendRaw (lit "GET SEND " ++ Source_text src ++ lit " " ++ Number_toString srcNumber
             ++ lit " OUT " ++ Number_toString busNumber) c.

(** [setMute(channel, number, muted)] *)
Definition setMute (ch : Channel) (num : N) (muted : bool) (c : t) : nat * t :=
  sendRaw (lit "SET MUTE " ++ Channel_text ch ++ lit " " ++ Number_toString num
             ++ lit " " ++ (if muted then lit "ON" else lit "OFF")) c.

(** [getVU(channel, number)] *)
Definition getVU (ch : Channel) (num : N) (c : t) : nat * t :=
  sendRaw (lit "GET VU " ++ Channel_text ch ++ lit " " ++ Number_toString num) c.

(** [setPreset(number)] *)
Definition setPreset (num : N) (c : t) : nat * t :=
  sendRaw (lit "SET PRESET " ++ Number_toString num) c.

(** [getPreset()] and what it returns on the response [resp]. *)
Definition getPreset (c : t) : nat * t := sendRaw (lit "GET PRESET") c.

Definition presetReply (resp : jsstring) : N :=
  match search false DIGIT_SUFFIX resp with
  | Some mt => parseInt (group 1 mt)
  | None => 1%N
  end.

(** What an [async] method that awaits the promise [p] of [sendRaw] and
    applies [k] to the response has returned or thrown in state [c];
    [None] while [p] is not settled. *)
Definition awaited {A : Type} (k : jsstring -> A) (p : nat) (c : t) : option (Outcome A) :=
  match settlement p c with
  | Some (resolved v) => Some (returned (k v))
  | Some (rejected e) => Some (thrown e)
  | None => None
  end.

(** ** The tasks the event loop can run on a client *)

(** What a socket of the client can call back.  An error of the TCP
    socket comes with whether the client has a listener for its own
    [error] event at that moment: [emit("error", err)] throws when there
    is none, and the handler ends there, before [scheduleReconnect()].
    (The handler of the UDP socket only rejects the promise of
    [connect()] after its [emit], which leaves the client as it is
    either way.) *)
Inductive SocketEvent :=
| tcp_connect            (* the callback of [tcpClient.connect] *)
| tcp_data (data : jsstring)
| tcp_error (listened : bool)
| tcp_close
| udp_listening          (* the callback of [udpClient.bind] *)
| udp_message (msg : jsstring)
| udp_error.

Definition on_socket (e : SocketEvent) (c : t) : t :=
  match e with
  | tcp_connect => emit ev_connected (set_connected true c)
  | tcp_data data => handleResponse data c
  | tcp_error listened =>
    let c := emit ev_error (set_connected false c) in
    if listened then scheduleReconnect c else c
  | tcp_close => scheduleReconnect (emit ev_disconnected (set_connected false c))
  | udp_listening => emit ev_connected (set_connected true c)
  | udp_message msg => handleResponse msg c
  | udp_error => emit ev_error c
  end.

Definition run_callback (cb : Callback) (c : t) : t :=
  match cb with
  | cb_timeout cmdId p command =>
    let c := set_pendingCommands (Map_delete CmdId_eqb cmdId (pendingCommands c)) c in
    settle p (rejected (Timeout command)) c
  | cb_resolve p response => settle p (resolved response) c
  | cb_vu => vu_walk c
  | cb_reconnect => connect (set_reconnectTimer None c)
  end.

Inductive Task :=
| call_connect
| call_disconnect
| call_updateConfig (over : PartialConfig)
| call_setGain (ch : Channel) (num : N) (dB : number)
| call_getGain (ch : Channel) (num : N)
| call_setSend (src : Source) (srcNumber busNumber : N) (dB : number)
| call_getSend (src : Source) (srcNumber busNumber : N)
| call_setMute (ch : Channel) (num : N) (muted : bool)
| call_getVU (ch : Channel) (num : N)
| call_setPreset (num : N)
| call_getPreset
| socket (e : SocketEvent)
| timer_fires (h : nat)
| time_passes (dt : Q).

Definition find_timer (h : nat) (c : t) : option Timer :=
  find (fun e => Nat.eqb (handle e) h) (timers c).

(** An armed timer that is due fires: a timeout is disarmed, an interval
    is armed again one period later; then its callback runs. *)
Definition fire (tm : Timer) (c : t) : t :=
  let c := clearTimeout (handle tm) c in
  let c := match every tm with
           | Some period =>
             set_timers (timers c ++ [mkTimer (handle tm) (due tm + period) (every tm) (callback tm)]) c
           | None => c
           end in
  run_callback (callback tm) c.

Definition step (k : Task) (c : t) : option t :=
  match k with
  | call_connect => Some (connect c)
  | call_disconnect => Some (disconnect c)
  | call_updateConfig over => Some (updateConfig over c)
  | call_setGain ch n dB => Some (snd (setGain ch n dB c))
  | call_getGain ch n => Some (snd (getGain ch n c))
  | call_setSend src n b dB => Some (snd (setSend src n b dB c))
  | call_getSend src n b => Some (snd (getSend src n b c))
  | call_setMute ch n muted => Some (snd (setMute ch n muted c))
  | call_getVU ch n => Some (snd (getVU ch n c))
  | call_setPreset n => Some (snd (setPreset n c))
  | call_getPreset => Some (snd (getPreset c))
  | socket e => Some (on_socket e c)
  | timer_fires h =>
    match find_timer h c with
    | Some tm => if Qle_bool (due tm) (clock c) then Some (fire tm c) else None
    | None => None
    end
  | time_passes dt =>
    if Qle_bool 0 dt then Some (set_clock (clock c + dt) c) else None
  end.

Fixpoint run (ks : list Task) (c : t) : option t :=
  match ks with
  | [] => Some c
  | k :: ks' =>
    match step k c with
    | Some c' => run ks' c'
    | None => None
    end
  end.

(** The states of a client made by [new MatrixClient(over)]. *)
Definition reachable (c : t) : Prop :=
  exists over now ks, run ks (create over now) = Some c.

End Client.

(** ** Runs and properties the claims are stated on *)

(** "A response line is matched to the oldest pending command only":
    after a line that is not blank the oldest entry is gone and the
    others are still pending. *)
Definition matches_oldest_only : Prop :=
  forall random c line oldest others,
    reachable random c ->
    trim line <> [] ->
    pendingCommands c = oldest :: others ->
    pendingCommands (handleLine line c) = others.

(** "What [getVU] returns lies in [-60, 0]", whatever the mode. *)
Definition getVU_always_in_range : Prop :=
  forall random c ch num ks c' v,
    reachable random c ->
    run random ks (snd (getVU random ch num c)) = Some c' ->
    awaited numericReply (fst (getVU random ch num c)) c' = Some (returned v) ->
    within (-60) 0 v.

(** A client with the default configuration (a real console over TCP)
    whose socket has connected. *)
Definition online (random : nat -> Q) : option t :=
  run random [call_connect; socket tcp_connect]
      (create random (mkPartial None None None None None None) 0).

(** Distinct values for [Math.random()]: 1/2, 1/3, 1/4, ... *)
Definition sample_random (i : nat) : Q := 1 # Pos.of_succ_nat (S i).

(** One round of the loop over the pending commands, and what the loop
    does to the map, the timers and the promises. *)
Definition resolve_one (trimmed : jsstring) (c : t) (e : CmdId * PendingCommand) : t :=
  let c := clearTimeout (timer (snd e)) c in
  let c := settle (promise (snd e)) (resolved trimmed) c in
  set_pendingCommands (Map_delete CmdId_eqb (fst e) (pendingCommands c)) c.

Definition key_in (es : list (CmdId * PendingCommand)) (e : CmdId * PendingCommand) : bool :=
  existsb (fun e' => CmdId_eqb (fst e) (fst e')) es.

Definition timer_in (es : list (CmdId * PendingCommand)) (tm : Timer) : bool :=
  existsb (fun e' => Nat.eqb (handle tm) (timer (snd e'))) es.

Definition settle_all (trimmed : jsstring) (es : list (CmdId * PendingCommand))
           (ps : list (option Settlement)) : list (option Settlement) :=
  fold_left (fun ps e => settle_at (promise (snd e)) (resolved trimmed) ps) es ps.

(** The first line of [data] that is not blank, trimmed. *)
Definition first_response (data : jsstring) : option jsstring :=
  find (fun l => match l with [] => false | _ :: _ => true end)
       (map trim (split 10%N (trim data))).

(** Two commands of different kinds are pending on a connected client;
    the console answers the first. *)
Definition two_pending : option t :=
  match online sample_random with
  | Some c => run sample_random [call_getVU IN 1%N; call_getGain OUT 2%N] c
  | None => None
  end.

(** The promise a callback settles, if any. *)
Definition cb_promise (cb : Callback) : option nat :=
  match cb with
  | cb_timeout _ p _ | cb_resolve p _ => Some p
  | cb_vu | cb_reconnect => None
  end.

(** Handles and promises are handed out in order: an armed timer has a
    handle below the next one and settles a promise that exists. *)
Definition well_formed (c : t) : Prop :=
  (forall tm, In tm (timers c) ->
     (handle tm < nextHandle c)%nat /\
     forall p, cb_promise (callback tm) = Some p -> (p < List.length (promises c))%nat) /\
  (forall h, reconnectTimer c = Some h -> (h < nextHandle c)%nat).

(** The promise [p] is not settled and [tm] is the one armed timer that
    has its handle or settles [p]. *)
Definition waits (tm : Timer) (p : nat) (c : t) : Prop :=
  In tm (timers c) /\
  (forall tm', In tm' (timers c) -> handle tm' = handle tm -> tm' = tm) /\
  (forall tm', In tm' (timers c) -> cb_promise (callback tm') = Some p -> tm' = tm) /\
  settlement p c = None /\
  (p < List.length (promises c))%nat /\
  (handle tm < nextHandle c)%nat /\
  reconnectTimer c <> Some (handle tm).

(** The tasks that neither deliver a response line nor fire the timer
    [h]: what may happen while a command waits for its response. *)
Definition quiet (h : nat) (k : Task) : bool :=
  match k with
  | socket (tcp_data data) | socket (udp_message data) =>
    match trim data with [] => true | _ :: _ => false end
  | timer_fires h' => negb (Nat.eqb h' h)
  | _ => true
  end.

(** The entries of [pendingCommands] hold promises that exist. *)
Definition pending_known (c : t) : Prop :=
  forall e, In e (pendingCommands c) -> (promise (snd e) < List.length (promises c))%nat.

(** The promise [p] can only be resolved, and only with [resp]: no
    pending command holds it, every armed timer that settles it resolves
    it with [resp], and it is not settled yet or resolved with [resp]. *)
Definition sealed (p : nat) (resp : jsstring) (c : t) : Prop :=
  (p < List.length (promises c))%nat /\
  (forall tm, In tm (timers c) -> cb_promise (callback tm) = Some p ->
     callback tm = cb_resolve p resp) /\
  (forall e, In e (pendingCommands c) -> promise (snd e) <> p) /\
  (settlement p c = None \/ settlement p c = Some (resolved resp)).

(** The numeric suffix of a response, in words: leave out the white
    space at its end; the suffix is the longest run of [-], [.] and
    digits that ends there, and is empty when there is none. *)
Definition numericSuffix (resp : jsstring) : jsstring :=
  rev (takeWhile isNumeric (dropWhile isWhiteSpace (rev resp))).

(** "For every [dB] argument the value printed into the command lies in
    [-60, 10]." *)
Definition clamps_every_argument : Prop :=
  forall dB, within (-60) 10 (clamp dB).

(** "[getGain] returns -60 when the response is unparseable": when the
    end of the response does not read as a number. *)
Definition floor_when_unparseable : Prop :=
  forall resp, parseFloat (numericSuffix resp) = NaN -> numericReply resp = Num (-60).

(** Every VU value of the simulator is a number in [-60, 0]. *)
Definition vu_in_range (c : t) : Prop :=
  forall key v, In (key, v) (simulatorVU c) -> within (-60) 0 v.

(** The method [call], which awaits its [sendRaw] and returns [f] of the
    response, is called in state [c]: it can return [v] 30 ms later, and
    whatever happens after the call it never throws and never returns
    another value. *)
Definition answers {A : Type} (random : nat -> Q) (f : jsstring -> A)
           (call : t -> nat * t) (c : t) (v : A) : Prop :=
  (exists c2,
     run random [time_passes 30; timer_fires (nextHandle c)] (snd (call c)) = Some c2 /\
     awaited f (fst (call c)) c2 = Some (returned v)) /\
  (forall ks c2 out,
     run random ks (snd (call c)) = Some c2 ->
     awaited f (fst (call c)) c2 = Some out -> out = returned v).

(** The text a [set...] method returns: the response as it is. *)
Definition text (resp : jsstring) : jsstring := resp.

(** No two armed timers have the same handle, and an armed timer that
    will call [connect()] again is a timeout whose handle is the one kept
    in [reconnectTimer]. *)
Definition timers_ok (c : t) : Prop :=
  NoDup (map handle (timers c)) /\
  (forall tm, In tm (timers c) -> callback tm = cb_reconnect ->
     reconnectTimer c = Some (handle tm) /\ every tm = None).

(** The interval [initSimulator()] armed (the first timer of the client,
    handle 0) is armed, and its handle is neither the reconnect timer nor
    the timeout of a pending command. *)
Definition vu_running (c : t) : Prop :=
  (exists tm, In tm (timers c) /\ handle tm = 0%nat /\ callback tm = cb_vu /\
              every tm = Some 100) /\
  reconnectTimer c <> Some 0%nat /\
  (forall e, In e (pendingCommands c) -> timer (snd e) <> 0%nat).

End Matrix.

(* ====================================================================== *)
(** * VU polling: [startVUPolling] of [src/server/websocket-server.ts] *)
(* ====================================================================== *)

Module Polling.
Import Js Matrix.

(** The channels one tick asks for, in the order of the calls:
    [IN 1], [OUT 1], [IN 2], [OUT 2], ..., [IN 8], [OUT 8]. *)
Definition polled : list (Channel * N) :=
  flat_map (fun i => [(IN, i); (OUT, i)]) (range 1%N 8%N).

(** The [for] loop of a tick: every [getVU] is called (and has sent its
    command) before the tick awaits anything.  With each promise goes
    the key its value is stored under in [vuData]. *)
Definition pollAll (random : nat -> Q) (c : t) : list (jsstring * nat) * t :=
  fold_left (fun acc chn =>
    let (p, c') := getVU random (fst chn) (snd chn) (snd acc) in
    (fst acc ++ [(Channel_text (fst chn) ++ lit ":" ++ Number_toString (snd chn), p)], c'))
    polled ([], c).

(** The callback of the interval: nothing while the client is not
    connected. *)
Definition tick (random : nat -> Q) (c : t) : option (list (jsstring * nat) * t) :=
  if negb (isConnected c) then None else Some (pollAll random c).

(** The key of every pending command was made with a value
    [Math.random()] has returned. *)
Definition nonces_drawn (random : nat -> Q) (c : t) : Prop :=
  forall e, In e (pendingCommands c) ->
    exists j, (j < drawn c)%nat /\ nonce (fst e) = random j.

(** The promises [ps] of a tick are pending on a connected client
    outside simulator mode: each is held by an entry of
    [pendingCommands] and is not settled. *)
Definition held (random : nat -> Q) (ps : list (jsstring * nat)) (c : t) : Prop :=
  simulatorMode (config c) = false /\ connected c = true /\ nonces_drawn random c /\
  forall kp, In kp ps ->
    (exists e, In e (pendingCommands c) /\ promise (snd e) = snd kp) /\
    settlement (snd kp) c = None /\ (snd kp < List.length (promises c))%nat.

End Polling.

(* ====================================================================== *)
(** * Server start: [src/server/_core/index.ts] *)
(* ====================================================================== *)

Module Server.
Local Open Scope Z_scope.

Section Ports.

(** What the promise of [isPortAvailable(port)] resolves to. *)
Variable isPortAvailable : Z -> bool.

(** The [for] loop of [findAvailablePort], with [n] ports left to try
    from [port] on. *)
Fixpoint tryPorts (n : nat) (port : Z) : option Z :=
  match n with
  | O => None
  | S n' => if isPortAvailable port then Some port else tryPorts n' (port + 1)
  end.

(** [findAvailablePort(startPort)] for an integer [startPort]: the port
    it returns, [None] when it throws [No available port found]. *)
Definition findAvailablePort (startPort : Z) : option Z := tryPorts 20 startPort.

End Ports.

End Server.

(* ====================================================================== *)
(** * Proofs: reconnect watchdog *)
(* ====================================================================== *)

Module WatchdogFacts.
Import Watchdog.
Local Open Scope Z_scope.

Ltac unfold_methods :=
  unfold _attempt_resumed, _attempt, _onAttemptFailed, onDisconnected,
    onConnected, stop, start, clearHeldTimer, _scheduleNext, _setState,
    configure, setTimeout, clearTimeout, emit in *.

Ltac split_ifs :=
  repeat match goal with
         | |- context [if ?b then _ else _] => destruct b eqn:?
         | |- context [match ?x with _ => _ end] => destruct x eqn:?
         end.

Lemma WatchdogState_eqb_eq a b : WatchdogState_eqb a b = true <-> a = b.
Proof. destruct a, b; simpl; split; congruence. Qed.

Lemma WatchdogState_eqb_refl a : WatchdogState_eqb a a = true.
Proof. destruct a; reflexivity. Qed.

(** ** Stepping lemmas *)

Lemma run_app ks1 ks2 w :
  run (ks1 ++ ks2) w =
  match run ks1 w with Some w' => run ks2 w' | None => None end.
Proof.
  revert w; induction ks1 as [|k ks1 IH]; intros w; simpl; [reflexivity|].
  destruct (step k w); [apply IH | reflexivity].
Qed.

Lemma reachable_create now : reachable (create now).
Proof. exists now, []. reflexivity. Qed.

Lemma reachable_step w k w' : reachable w -> step k w = Some w' -> reachable w'.
Proof.
  intros (now & ks & Hr) Hs. exists now, (ks ++ [k]).
  rewrite run_app, Hr. simpl. now rewrite Hs.
Qed.

(** An invariant of [create] that every task keeps holds in every
    reachable state. *)
Lemma reachable_ind (P : t -> Prop) :
  (forall now, P (create now)) ->
  (forall w k w', P w -> step k w = Some w' -> P w') ->
  forall w, reachable w -> P w.
Proof.
  intros Hc Hs w (now & ks & Hr).
  assert (G : forall ks w0 w1, P w0 -> run ks w0 = Some w1 -> P w1).
  { clear - Hs. induction ks as [|k ks IH]; intros w0 w1 H0 H; simpl in H.
    - now inversion H; subst.
    - destruct (step k w0) eqn:E; [|discriminate]. eauto. }
  eapply G; eauto.
Qed.

(** ** Backoff interval *)
















Lemma start_waiting now : waiting (start (configure (create now))).
Proof.
  split; simpl; auto.
  - exists 0%nat. split; reflexivity.
  - unfold BASE_INTERVAL_MS; lia.
Qed.



(** ** State-change events *)

Lemma follow_app es1 : forall s es2,
  follow s (es1 ++ es2) =
  match follow s es1 with Some s' => follow s' es2 | None => None end.
Proof.
  induction es1 as [|e es1 IH]; intros s es2; simpl; [reflexivity|].
  destruct e; auto.
  destruct (WatchdogState_eqb prev s && negb (WatchdogState_eqb newState prev)); auto.
Qed.

Lemma setState_spec s w :
  state (_setState s w) = s /\
  emitted (_setState s w) =
    emitted w ++ (if WatchdogState_eqb (state w) s then [] else [stateChange s (state w)]).
Proof.
  unfold _setState. destruct (WatchdogState_eqb (state w) s); simpl.
  - now rewrite app_nil_r.
  - auto.
Qed.

Ltac appended :=
  repeat rewrite <- app_assoc;
  first [ eexists; split; [reflexivity | simpl; reflexivity]
        | exists []; split; [symmetry; apply app_nil_r | reflexivity] ].

(** Every task appends to the log a chain of real transitions from the
    state it found to the state it leaves. *)
Lemma step_follows w k w' :
  step k w = Some w' ->
  exists new, emitted w' = emitted w ++ new /\ follow (state w) new = Some (state w').
Proof.
  intros Hs. destruct k; simpl in Hs.
  1-5: inversion Hs; subst; clear Hs; destruct w as [st ? ? ? ? ? ti sp rf cf ? ? ? ? em];
       unfold_methods; simpl;
       destruct st, ti, sp, rf, cf; simpl; appended.
  - destruct (due_of h w); [|discriminate].
    destruct (_ <=? _); inversion Hs; subst; clear Hs.
    destruct w as [st ? ? ? ? ? ti sp rf cf ? ? ? ? em];
      unfold_methods; simpl;
      destruct st, ti, sp, rf, cf, isConnected; simpl; appended.
  - destruct (suspended w) eqn:E; inversion Hs; subst; clear Hs.
    destruct w as [st ? ? ? ? ? ti sp rf cf ? ? ? ? em];
      unfold_methods; simpl;
      destruct r as [[|]|], st, ti, sp; simpl; appended.
  - destruct (0 <=? dt); inversion Hs; subst; simpl. exists []. now rewrite app_nil_r.
Qed.

Lemma stateChange_log_is_history w :
  reachable w -> follow idle (emitted w) = Some (state w).
Proof.
  revert w. apply (reachable_ind (fun w => follow idle (emitted w) = Some (state w))).
  - reflexivity.
  - intros w0 k w1 IH Hs. destruct (step_follows _ _ _ Hs) as (new & E & F).
    now rewrite E, follow_app, IH.
Qed.

Lemma due_of_clearTimeout h w : due_of h (clearTimeout h w) = None.
Proof.
  unfold due_of, clearTimeout. simpl.
  induction (scheduled w) as [|[h' d] l IH]; simpl; [reflexivity|].
  destruct (Nat.eqb h' h) eqn:E; simpl; [exact IH|]. now rewrite E.
Qed.

Lemma stop_spec w :
  state (stop w) = stopped /\ timer (stop w) = None /\
  nextAttemptAt (stop w) = None /\ stopped_ (stop w) = true /\
  (forall h, timer w = Some h -> due_of h (stop w) = None) /\
  ((forall e, In e (scheduled w) -> timer w = Some (fst e)) -> scheduled (stop w) = []) /\
  emitted (stop w) =
    emitted w ++ (if WatchdogState_eqb (state w) stopped then []
                  else [stateChange stopped (state w)]).
Proof.
  destruct w as [st ? ? ? ? ? ti sp rf cf ? sc ? ? em].
  unfold stop, clearHeldTimer. simpl.
  destruct (setState_spec stopped
    (set_nextAttemptAt None
       match ti with
       | Some h => set_timer None (clearTimeout h (set_stopped true
           (mk st attempts0 lastAttemptAt0 nextAttemptAt0 lastError0 currentIntervalMs0
               ti sp rf cf clock0 sc nextHandle0 suspended0 em)))
       | None => set_stopped true
           (mk st attempts0 lastAttemptAt0 nextAttemptAt0 lastError0 currentIntervalMs0
               ti sp rf cf clock0 sc nextHandle0 suspended0 em)
       end)) as [Hst Hem].
  split; [exact Hst|]. rewrite Hem. clear Hst Hem.
  unfold _setState.
  destruct ti as [h|]; simpl.
  - destruct (WatchdogState_eqb st stopped); simpl; repeat split; auto.
    + intros h' E; inversion E; subst.
      apply (due_of_clearTimeout h' (mk st attempts0 lastAttemptAt0 nextAttemptAt0
        lastError0 currentIntervalMs0 (Some h') true rf cf clock0 sc nextHandle0 suspended0 em)).
    + intros Hall. induction sc as [|e sc IH]; simpl; [reflexivity|].
      assert (E : Some h = Some (fst e)) by (apply Hall; now left).
      inversion E; subst. rewrite Nat.eqb_refl. simpl. apply IH.
      intros e' He'. apply Hall. now right.
    + intros h' E; inversion E; subst.
      apply (due_of_clearTimeout h' (mk st attempts0 lastAttemptAt0 nextAttemptAt0
        lastError0 currentIntervalMs0 (Some h') true rf cf clock0 sc nextHandle0 suspended0 em)).
    + intros Hall. induction sc as [|e sc IH]; simpl; [reflexivity|].
      assert (E : Some h = Some (fst e)) by (apply Hall; now left).
      inversion E; subst. rewrite Nat.eqb_refl. simpl. apply IH.
      intros e' He'. apply Hall. now right.
  - destruct (WatchdogState_eqb st stopped); simpl; repeat split; auto;
      try discriminate;
      (intros Hall; destruct sc as [|e sc]; [reflexivity|];
       specialize (Hall e (or_introl eq_refl)); discriminate).
Qed.

Lemma stops_when_stopped n : forall w,
  state w = stopped -> emitted (stops n w) = emitted w.
Proof.
  induction n as [|n IH]; intros w Hs; simpl; [reflexivity|].
  destruct (stop_spec w) as (Hst & _ & _ & _ & _ & _ & Hem).
  rewrite IH, Hem, Hs by exact Hst. simpl. apply app_nil_r.
Qed.

Lemma stops_once n w :
  state w <> stopped ->
  emitted (stops (S n) w) = emitted w ++ [stateChange stopped (state w)].
Proof.
  intros Hs. simpl.
  destruct (stop_spec w) as (Hst & _ & _ & _ & _ & _ & Hem).
  rewrite stops_when_stopped, Hem by exact Hst.
  destruct (WatchdogState_eqb (state w) stopped) eqn:E; [|reflexivity].
  apply WatchdogState_eqb_eq in E. contradiction.
Qed.

Lemma start_noop w :
  state w = watching \/ state w = connecting -> start w = w.
Proof. intros [H|H]; unfold start; now rewrite H. Qed.

(** ** The claims about the watchdog *)




(** C4 fails on the code.  On the run [restart_during_attempt] (the
    first timer fires; while its reconnect attempt is awaited the
    watchdog is stopped and started again; the attempt then fails) two
    retry timers are armed at once, only the later one is held in
    [this.timer], and when both have fired two reconnect attempts are
    awaited at the same time. *)
Theorem C4_two_timers_armed :
  exists w,
    run restart_during_attempt (create 0) = Some w /\
    scheduled w = [(1%nat, 60000); (2%nat, 90000)] /\
    timer w = Some 2%nat /\
    state w = watching /\
    exists w',
      run [time_passes 30000; timer_fires 1 false;
           time_passes 30000; timer_fires 2 false] w = Some w' /\
      suspended w' = 2%nat.
Proof.
  eexists. split; [vm_compute; reflexivity|].
  repeat split. eexists. split; [vm_compute; reflexivity|]. reflexivity.
Qed.

(** While the watchdog is stopped, a timer that still fires starts no
    attempt. *)
Lemma stopped_timer_is_inert w h b w' :
  stopped_ w = true -> step (timer_fires h b) w = Some w' -> w' = clearTimeout h w.
Proof.
  intros H Hs. cbn [step] in Hs. destruct (due_of h w); [|discriminate].
  destruct (_ <=? _); inversion Hs. unfold _attempt.
  destruct w; cbn in *. now rewrite H.
Qed.

(** C5 fails on the code.  In the state the run [restart_during_attempt]
    ends in, two timers are armed and [this.timer] holds the later one.
    [stop()] there leaves the state [stopped] and clears [this.timer] and
    the next-attempt time, but it disarms the held timer only: the other
    one stays armed.  After a [start()] that follows, that timer and the
    new one both fire, and two reconnect attempts are awaited at the same
    time. *)
Theorem C5_stop_leaves_a_timer_armed :
  exists w,
    run restart_during_attempt (create 0) = Some w /\
    state w = watching /\
    scheduled w = [(1%nat, 60000); (2%nat, 90000)] /\
    timer w = Some 2%nat /\
    state (stop w) = stopped /\
    timer (stop w) = None /\
    nextAttemptAt (stop w) = None /\
    scheduled (stop w) = [(1%nat, 60000)] /\
    exists w',
      run restart_after_stop w = Some w' /\
      suspended w' = 2%nat.
Proof.
  eexists. split; [vm_compute; reflexivity|].
  repeat split. eexists. split; [vm_compute; reflexivity|]. reflexivity.
Qed.

(** X29.  [_setState] emits [stateChange] exactly when the new state
    differs from the previous one, so the [stateChange] events of any
    reachable log are the history of the state, without stutter.
    [stop()] leaves the state [stopped], [this.timer] and the
    next-attempt time cleared and the timer it held disarmed (every armed
    timer, when the held one is the only one armed), and a timer that
    fires after it starts no attempt; from a state other than [stopped],
    any number of [stop()] calls in a row emits one [stateChange] event,
    and from [stopped] none. *)
Theorem X29_stateChange_and_stop :
  (forall s w,
     state (_setState s w) = s /\
     emitted (_setState s w) =
       emitted w ++ (if WatchdogState_eqb (state w) s then []
                     else [stateChange s (state w)])) /\
  (forall w, reachable w -> follow idle (emitted w) = Some (state w)) /\
  (forall w,
     state (stop w) = stopped /\ timer (stop w) = None /\
     nextAttemptAt (stop w) = None /\
     (forall h, timer w = Some h -> due_of h (stop w) = None) /\
     ((forall e, In e (scheduled w) -> timer w = Some (fst e)) ->
      scheduled (stop w) = []) /\
     (forall h b w', step (timer_fires h b) (stop w) = Some w' ->
        w' = clearTimeout h (stop w))) /\
  (forall w n, state w <> stopped ->
     emitted (stops (S n) w) = emitted w ++ [stateChange stopped (state w)]) /\
  (forall w n, state w = stopped -> emitted (stops n w) = emitted w).
Proof.
  split; [exact setState_spec|].
  split; [exact stateChange_log_is_history|].
  split.
  - intros w. destruct (stop_spec w) as (A & B & C & S & D & E & _).
    repeat split; auto. intros h b w'. now apply stopped_timer_is_inert.
  - split.
    + intros w n H. now apply stops_once.
    + intros w n H. now apply stops_when_stopped.
Qed.

Lemma X29_stateChange_and_stop_witness :
  state (start (configure (create 0))) <> stopped /\
  emitted (stops 3 (start (configure (create 0)))) =
  emitted (start (configure (create 0))) ++ [stateChange stopped watching].
Proof.
  split; [discriminate|].
  apply (proj1 (proj2 (proj2 (proj2 X29_stateChange_and_stop)))
           (start (configure (create 0))) 2%nat).
  discriminate.
Defined.

End WatchdogFacts.

(* ====================================================================== *)
(** * Proofs: text of natural numbers *)
(* ====================================================================== *)

Module JsFacts.
Import Js.
Local Open Scope N_scope.

Lemma digits_of_uint_inj u : forall v, digits_of_uint u = digits_of_uint v -> u = v.
Proof.
  induction u; intros v H; destruct v; simpl in H; try discriminate;
    try reflexivity; inversion H; f_equal; auto.
Qed.

Lemma Number_toString_inj a b : Number_toString a = Number_toString b -> a = b.
Proof.
  intros H. apply DecimalN.Unsigned.to_uint_inj. now apply digits_of_uint_inj.
Qed.

Lemma digits_of_uint_isDigit u : forallb isDigit (digits_of_uint u) = true.
Proof. induction u; simpl; auto. Qed.

Lemma Number_toString_isDigit n : forallb isDigit (Number_toString n) = true.
Proof. apply digits_of_uint_isDigit. Qed.

Lemma Number_toString_nonempty n : Number_toString n <> [].
Proof.
  unfold Number_toString. destruct n as [|p]; [discriminate|].
  simpl. pose proof (DecimalPos.Unsigned.to_uint_nonnil p) as H.
  destruct (Pos.to_uint p); [contradiction|..]; discriminate.
Qed.

Lemma uint_of_digits_of_uint u : uint_of_digits (digits_of_uint u) = u.
Proof. induction u; simpl; congruence. Qed.

Lemma takeWhile_all p s : forallb p s = true -> takeWhile p s = s.
Proof.
  induction s as [|c s IH]; simpl; [reflexivity|].
  destruct (p c); simpl; [intros H; f_equal; auto | discriminate].
Qed.

Lemma parseInt_Number_toString n : parseInt (Number_toString n) = n.
Proof.
  unfold parseInt. rewrite takeWhile_all by apply Number_toString_isDigit.
  unfold Number_toString. rewrite uint_of_digits_of_uint.
  apply DecimalN.Unsigned.of_to.
Qed.

End JsFacts.

(* ====================================================================== *)
(** * Proofs: network scanner *)
(* ====================================================================== *)

Module ScannerFacts.
Import Js Scanner JsFacts.

Lemma getSubnetHosts_nth subnet i :
  (i < 254)%nat ->
  nth_error (getSubnetHosts subnet) i =
  Some (subnet ++ lit "." ++ Number_toString (N.of_nat (S i))).
Proof.
  intros H. unfold getSubnetHosts.
  replace (N.of_nat (S i)) with (N.of_nat i + 1)%N by lia.
  rewrite nth_error_map, nth_error_seq.
  destruct (Nat.ltb_spec i 254) as [_|]; [reflexivity | lia].
Qed.

Lemma getSubnetHosts_In subnet x :
  In x (getSubnetHosts subnet) <->
  exists n, (1 <= n <= 254)%N /\ x = subnet ++ lit "." ++ Number_toString n.
Proof.
  unfold getSubnetHosts. rewrite in_map_iff. split.
  - intros (i & <- & Hi). apply in_seq in Hi.
    exists (N.of_nat i + 1)%N. split; [lia | reflexivity].
  - intros (n & Hn & ->). exists (N.to_nat n - 1)%nat. split.
    + do 3 f_equal. lia.
    + apply in_seq. lia.
Qed.

(** C9.  For every subnet prefix, [getSubnetHosts] returns 254 entries;
    the i-th (from 1) is the prefix, a dot and the decimal text of [i];
    the first ends in [.1] and the last in [.254]; an address is in the
    list exactly when its suffix is one of 1..254, so [.0] and [.255]
    are not in it. *)
Theorem C9_getSubnetHosts :
  forall subnet,
    List.length (getSubnetHosts subnet) = 254%nat /\
    (forall i, (1 <= i <= 254)%nat ->
       nth_error (getSubnetHosts subnet) (i - 1) =
       Some (subnet ++ lit "." ++ Number_toString (N.of_nat i))) /\
    hd_error (getSubnetHosts subnet) = Some (subnet ++ lit ".1") /\
    nth_error (getSubnetHosts subnet) 253 = Some (subnet ++ lit ".254") /\
    (forall n, In (subnet ++ lit "." ++ Number_toString n) (getSubnetHosts subnet)
               <-> (1 <= n <= 254)%N) /\
    ~ In (subnet ++ lit ".0") (getSubnetHosts subnet) /\
    ~ In (subnet ++ lit ".255") (getSubnetHosts subnet).
Proof.
  intros subnet.
  assert (M : forall n, In (subnet ++ lit "." ++ Number_toString n) (getSubnetHosts subnet)
                        <-> (1 <= n <= 254)%N).
  { intros n. rewrite getSubnetHosts_In. split.
    - intros (k & Hk & E). apply app_inv_head in E. apply app_inv_head in E.
      apply Number_toString_inj in E. now subst.
    - intros H. now exists n. }
  split; [unfold getSubnetHosts; now rewrite length_map, length_seq|].
  split.
  { intros i Hi. rewrite getSubnetHosts_nth by lia. do 4 f_equal. lia. }
  split; [reflexivity|].
  split; [now rewrite getSubnetHosts_nth by lia|].
  split; [exact M|].
  split.
  - intros H. apply (M 0%N) in H. lia.
  - intros H. apply (M 255%N) in H. lia.
Qed.

Lemma C9_getSubnetHosts_witness :
  (1 <= 254 <= 254)%nat /\
  nth_error (getSubnetHosts (lit "10.0.0")) (254 - 1) = Some (lit "10.0.0.254").
Proof.
  split; [lia|].
  apply (proj1 (proj2 (C9_getSubnetHosts (lit "10.0.0"))) 254%nat). lia.
Defined.

End ScannerFacts.

(* ====================================================================== *)
(** * The level conversion on a level below 0.001 *)
(* ====================================================================== *)

Module ConvertFacts.
Import PrimFloat Convert.
Local Open Scope float_scope.
Local Set Warnings "-inexact-float".



End ConvertFacts.

(* ====================================================================== *)
(** * Proofs: protocol client *)
(* ====================================================================== *)

Module MatrixFacts.
Import Js Regex Matrix JsFacts.
Local Open Scope Q_scope.

(** ** Construction *)

Lemma initSimulator_connected random c :
  connected (initSimulator random c) = true /\
  emitted (initSimulator random c) = emitted c ++ [ev_connected] /\
  config (initSimulator random c) = config c.
Proof.
  destruct c. vm_compute. repeat split.
Qed.

(** C10.  A client constructed with [simulatorMode: true] is connected
    when the constructor returns: [isConnected()] is [true] and the one
    event emitted so far is [connected]; [connect()] was not called. *)
Theorem C10_simulator_connected_at_construction :
  forall random over now,
    simulatorMode' over = Some true ->
    isConnected (create random over now) = true /\
    isSimulator (create random over now) = true /\
    emitted (create random over now) = [ev_connected].
Proof.
  intros random over now H. unfold create, isConnected, isSimulator.
  cbn [config spread simulatorMode]. rewrite H. cbn [orElse].
  match goal with |- context [initSimulator _ ?c] =>
    destruct (initSimulator_connected random c) as (A & B & C) end.
  rewrite A, B, C. cbn [config emitted spread simulatorMode]. rewrite H.
  repeat split.
Qed.

Lemma C10_simulator_connected_at_construction_witness :
  simulatorMode' (mkPartial None None None (Some true) None None) = Some true /\
  isConnected (create (fun _ => 1 # 2) (mkPartial None None None (Some true) None None) 0)
  = true.
Proof.
  split; [reflexivity|].
  apply (C10_simulator_connected_at_construction (fun _ => 1 # 2)
           (mkPartial None None None (Some true) None None) 0 eq_refl).
Defined.

(** ** Promises *)

Lemma settle_at_length p s ps : List.length (settle_at p s ps) = List.length ps.
Proof.
  revert p; induction ps as [|x ps IH]; intros p; [destruct p; reflexivity|].
  destruct x, p; simpl; auto.
Qed.

Lemma nth_settle_at_other p q s ps :
  p <> q -> nth q (settle_at p s ps) None = nth q ps None.
Proof.
  revert p q; induction ps as [|x ps IH]; intros p q H; [destruct p; reflexivity|].
  destruct x, p, q; simpl; auto; congruence.
Qed.

Lemma nth_settle_at_same p s ps :
  (p < List.length ps)%nat ->
  nth p (settle_at p s ps) None =
  match nth p ps None with Some s0 => Some s0 | None => Some s end.
Proof.
  revert p; induction ps as [|x ps IH]; intros p H; simpl in *; [lia|].
  destruct x, p; simpl; auto; apply IH; lia.
Qed.

Lemma nth_settle_at_settled p q s s0 ps :
  nth q ps None = Some s0 -> nth q (settle_at p s ps) None = Some s0.
Proof.
  intros H. destruct (Nat.eq_dec p q) as [->|N].
  - destruct (Nat.lt_ge_cases q (List.length ps)) as [L|L].
    + now rewrite nth_settle_at_same, H.
    + rewrite nth_overflow in H by lia. discriminate.
  - now rewrite nth_settle_at_other.
Qed.

(** ** The loop over the pending commands *)

Lemma CmdId_eqb_refl k : CmdId_eqb k k = true.
Proof.
  unfold CmdId_eqb. apply andb_true_intro. split; apply Qeq_bool_iff; reflexivity.
Qed.

Lemma filter_filter {A} (f g : A -> bool) l :
  filter g (filter f l) = filter (fun x => f x && g x) l.
Proof.
  induction l as [|x l IH]; simpl; [reflexivity|].
  destruct (f x); simpl; [destruct (g x)|]; now rewrite IH.
Qed.

Lemma filter_all {A} (f : A -> bool) l :
  (forall x, f x = true) -> filter f l = l.
Proof.
  intros H. induction l as [|x l IH]; simpl; [reflexivity|]. now rewrite H, IH.
Qed.

Lemma resolve_fold trimmed es : forall c,
  fold_left (resolve_one trimmed) es c =
  set_pendingCommands (filter (fun e => negb (key_in es e)) (pendingCommands c))
    (set_promises (settle_all trimmed es (promises c))
       (set_timers (filter (fun tm => negb (timer_in es tm)) (timers c)) c)).
Proof.
  induction es as [|e es IH]; intros c.
  - destruct c; cbn.
    f_equal; symmetry; apply filter_all; reflexivity.
  - destruct c. cbn [fold_left]. unfold resolve_one at 2. cbn.
    rewrite IH. cbn. unfold Map_delete.
    rewrite !filter_filter. f_equal; apply filter_ext; intros x;
      now rewrite negb_orb.
Qed.

Lemma resolvePending_eq trimmed c :
  resolvePending trimmed c = fold_left (resolve_one trimmed) (pendingCommands c) c.
Proof. reflexivity. Qed.

Lemma settle_all_length trimmed es : forall ps,
  List.length (settle_all trimmed es ps) = List.length ps.
Proof.
  induction es as [|e es IH]; intros ps; simpl; [reflexivity|].
  unfold settle_all in *. simpl. now rewrite IH, settle_at_length.
Qed.

Lemma settle_all_settled trimmed es : forall ps q s0,
  nth q ps None = Some s0 -> nth q (settle_all trimmed es ps) None = Some s0.
Proof.
  induction es as [|e es IH]; intros ps q s0 H; simpl; [exact H|].
  apply IH. now apply nth_settle_at_settled.
Qed.

Lemma settle_all_pending trimmed es : forall ps e,
  In e es -> (promise (snd e) < List.length ps)%nat ->
  nth (promise (snd e)) ps None = None ->
  nth (promise (snd e)) (settle_all trimmed es ps) None = Some (resolved trimmed).
Proof.
  induction es as [|e0 es IH]; intros ps e Hin Hlen Hnone; [contradiction|].
  simpl. destruct (Nat.eq_dec (promise (snd e0)) (promise (snd e))) as [E|N].
  - apply settle_all_settled. rewrite E, nth_settle_at_same, Hnone by exact Hlen.
    reflexivity.
  - destruct Hin as [->|Hin]; [congruence|].
    apply IH; [exact Hin | now rewrite settle_at_length |].
    now rewrite nth_settle_at_other.
Qed.

Lemma settle_all_untouched trimmed es : forall ps q,
  (forall e, In e es -> promise (snd e) <> q) ->
  nth q (settle_all trimmed es ps) None = nth q ps None.
Proof.
  induction es as [|e0 es IH]; intros ps q H; simpl; [reflexivity|].
  rewrite IH by (intros e He; apply H; now right).
  apply nth_settle_at_other. apply H. now left.
Qed.

Lemma find_none_filter {A} (f g : A -> bool) l :
  (forall x, f x = true -> g x = false) -> find f (filter g l) = None.
Proof.
  intros H. induction l as [|x l IH]; simpl; [reflexivity|].
  destruct (g x) eqn:G; simpl; [|exact IH].
  destruct (f x) eqn:F; [|exact IH]. apply H in F. congruence.
Qed.

(** What one line that is not blank does to the pending commands. *)
Lemma resolvePending_spec trimmed c :
  let c' := resolvePending trimmed c in
  pendingCommands c' = [] /\
  (forall e, In e (pendingCommands c) ->
     find_timer (timer (snd e)) c' = None) /\
  (forall e, In e (pendingCommands c) ->
     (promise (snd e) < List.length (promises c))%nat ->
     settlement (promise (snd e)) c = None ->
     settlement (promise (snd e)) c' = Some (resolved trimmed)) /\
  (forall q s0, settlement q c = Some s0 -> settlement q c' = Some s0) /\
  (forall q, (forall e, In e (pendingCommands c) -> promise (snd e) <> q) ->
     settlement q c' = settlement q c) /\
  emitted c' = emitted c /\
  List.length (promises c') = List.length (promises c).
Proof.
  cbv zeta. rewrite resolvePending_eq, resolve_fold.
  destruct c; unfold settlement, find_timer; simpl. repeat split.
  - match goal with |- filter _ ?l = [] => set (es := l) end.
    assert (G : forall l, incl l es -> filter (fun e => negb (key_in es e)) l = []).
    { induction l as [|x l IH]; intros Hl; simpl; [reflexivity|].
      assert (E : key_in es x = true).
      { apply existsb_exists. exists x. split; [apply Hl; now left|apply CmdId_eqb_refl]. }
      rewrite E. simpl. apply IH. intros y Hy. apply Hl. now right. }
    apply G. apply incl_refl.
  - intros e He. apply find_none_filter. intros tm Htm.
    apply negb_false_iff. apply existsb_exists. exists e. split; [exact He|exact Htm].
  - intros e He Hlen Hnone. now apply settle_all_pending.
  - intros q s0 H. now apply settle_all_settled.
  - intros q H. now apply settle_all_untouched.
  - apply settle_all_length.
Qed.

(** ** Response lines *)

Lemma handleLine_blank line c : trim line = [] -> handleLine line c = c.
Proof. intros H. unfold handleLine. now rewrite H. Qed.

Lemma handleLine_eq line c :
  trim line <> [] ->
  exists c0,
    handleLine line c = resolvePending (trim line) c0 /\
    pendingCommands c0 = pendingCommands c /\ promises c0 = promises c /\
    timers c0 = timers c /\
    exists evs, emitted c0 = emitted c ++ evs.
Proof.
  intros H. unfold handleLine. destruct (trim line) as [|x l]; [contradiction|].
  destruct (search true VU_LINE (x :: l)).
  - eexists. split; [reflexivity|]. destruct c; cbn. repeat split. eexists; reflexivity.
  - exists c. repeat split. exists []. now rewrite app_nil_r.
Qed.

Lemma handleLine_spec line c :
  trim line <> [] ->
  pendingCommands (handleLine line c) = [] /\
  (forall e, In e (pendingCommands c) ->
     (promise (snd e) < List.length (promises c))%nat ->
     settlement (promise (snd e)) c = None ->
     settlement (promise (snd e)) (handleLine line c) = Some (resolved (trim line))) /\
  (forall e, In e (pendingCommands c) ->
     find_timer (timer (snd e)) (handleLine line c) = None) /\
  (forall q s0, settlement q c = Some s0 -> settlement q (handleLine line c) = Some s0) /\
  (forall q, (forall e, In e (pendingCommands c) -> promise (snd e) <> q) ->
     settlement q (handleLine line c) = settlement q c).
Proof.
  intros H. destruct (handleLine_eq line c H) as (c0 & E & Hp & Hps & Ht & _).
  rewrite E. destruct (resolvePending_spec (trim line) c0) as (A & B & C & D & F & _).
  unfold settlement in *. rewrite Hp, Hps in *. repeat split; auto.
Qed.

Lemma handleLine_no_pending line c :
  pendingCommands c = [] ->
  pendingCommands (handleLine line c) = [] /\
  promises (handleLine line c) = promises c /\
  timers (handleLine line c) = timers c.
Proof.
  intros H. unfold handleLine. destruct (trim line) as [|x l]; [auto|].
  unfold resolvePending.
  destruct (search true VU_LINE (x :: l)); cbn; rewrite H; cbn; auto.
Qed.

Lemma handleResponse_blank data c :
  first_response data = None -> handleResponse data c = c.
Proof.
  unfold first_response, handleResponse.
  induction (split 10%N (trim data)) as [|l ls IH]; simpl; [reflexivity|].
  destruct (trim l) eqn:E; [|discriminate].
  intros H. rewrite handleLine_blank by exact E. now apply IH.
Qed.

Lemma fold_handleLine_no_pending ls : forall c,
  pendingCommands c = [] ->
  let c' := fold_left (fun c line => handleLine line c) ls c in
  pendingCommands c' = [] /\ promises c' = promises c /\ timers c' = timers c.
Proof.
  induction ls as [|l ls IH]; intros c H; simpl; [auto|].
  destruct (handleLine_no_pending l c H) as (A & B & C).
  destruct (IH _ A) as (A' & B' & C'). cbv zeta in *.
  rewrite A', B', C'. auto.
Qed.

Lemma handleResponse_spec data c trimmed :
  first_response data = Some trimmed ->
  pendingCommands (handleResponse data c) = [] /\
  (forall e, In e (pendingCommands c) ->
     (promise (snd e) < List.length (promises c))%nat ->
     settlement (promise (snd e)) c = None ->
     settlement (promise (snd e)) (handleResponse data c) = Some (resolved trimmed)) /\
  (forall e, In e (pendingCommands c) ->
     find_timer (timer (snd e)) (handleResponse data c) = None).
Proof.
  unfold first_response, handleResponse.
  induction (split 10%N (trim data)) as [|l ls IH]; simpl; [discriminate|].
  destruct (trim l) eqn:E.
  - intros H. rewrite handleLine_blank by exact E. now apply IH.
  - intros H. inversion H; subst trimmed; clear H.
    assert (N : trim l <> []) by (rewrite E; discriminate).
    destruct (handleLine_spec l c N) as (A & B & C & _).
    destruct (fold_handleLine_no_pending ls _ A) as (A' & B' & C'). cbv zeta in *.
    unfold settlement, find_timer in *. rewrite A', B', C', <- E. auto.
Qed.

(** ** C1 *)

(** C1, as the code has it.  A response line that is not blank resolves
    every pending command with that line, oldest first: afterwards
    [pendingCommands] is empty, every promise that was pending is
    resolved with the trimmed line, every timeout of a pending command
    is disarmed, and no other promise changes.  A blank line changes
    nothing.  So a line is matched to one command, the oldest, only when
    a single command is pending. *)
Theorem C1_line_resolves_every_pending_command :
  forall line c,
    (trim line = [] -> handleLine line c = c) /\
    (trim line <> [] ->
     pendingCommands (handleLine line c) = [] /\
     (forall e, In e (pendingCommands c) ->
        (promise (snd e) < List.length (promises c))%nat ->
        settlement (promise (snd e)) c = None ->
        settlement (promise (snd e)) (handleLine line c) = Some (resolved (trim line))) /\
     (forall e, In e (pendingCommands c) ->
        find_timer (timer (snd e)) (handleLine line c) = None) /\
     (forall q, (forall e, In e (pendingCommands c) -> promise (snd e) <> q) ->
        settlement q (handleLine line c) = settlement q c)).
Proof.
  intros line c. split; [apply handleLine_blank|].
  intros H. destruct (handleLine_spec line c H) as (A & B & C & _ & D). auto.
Qed.

Lemma C1_line_resolves_every_pending_command_witness :
  exists c, two_pending = Some c /\
    List.length (pendingCommands c) = 2%nat /\
    trim (lit "VU IN 1 = -12.0") <> [] /\
    pendingCommands (handleLine (lit "VU IN 1 = -12.0") c) = [].
Proof.
  destruct two_pending as [c|] eqn:E; [|discriminate].
  exists c. split; [reflexivity|].
  assert (N : trim (lit "VU IN 1 = -12.0") <> []) by discriminate.
  split; [|split; [exact N|]].
  - vm_compute in E. inversion E; subst c. reflexivity.
  - apply (proj2 (C1_line_resolves_every_pending_command (lit "VU IN 1 = -12.0") c) N).
Defined.

(** C1 as stated fails: with a [GET VU] and a [GET GAIN] pending, the
    line [VU IN 1 = -12.0] leaves no command pending, where the claim
    keeps the [GET GAIN] pending. *)
Lemma C1_second_command_not_kept : ~ matches_oldest_only.
Proof.
  intros H.
  destruct two_pending as [c|] eqn:E; [|discriminate].
  assert (R : reachable sample_random c).
  { exists (mkPartial None None None None None None), 0,
      [call_connect; socket tcp_connect; call_getVU IN 1%N; call_getGain OUT 2%N].
    exact E. }
  vm_compute in E. inversion E; subst c; clear E.
  match type of R with reachable _ ?c =>
    specialize (H sample_random c (lit "VU IN 1 = -12.0")) end.
  cbn [pendingCommands] in H.
  specialize (H _ _ R ltac:(discriminate) eq_refl).
  vm_compute in H. discriminate H.
Qed.

(** ** What each method does to timers, promises and handles *)

Lemma simulateResponse_frame command c :
  let c' := snd (simulateResponse command c) in
  timers c' = timers c /\ promises c' = promises c /\
  nextHandle c' = nextHandle c /\ reconnectTimer c' = reconnectTimer c /\
  pendingCommands c' = pendingCommands c /\ config c' = config c /\
  connected c' = connected c /\ clock c' = clock c /\ drawn c' = drawn c /\
  simulatorVU c' = simulatorVU c /\ emitted c' = emitted c.
Proof.
  unfold simulateResponse.
  repeat match goal with
         | |- context [match search ?a ?b ?c with _ => _ end] => destruct (search a b c)
         | |- context [if ?b then _ else _] => destruct b
         end; cbn; repeat split.
Qed.

Lemma vu_walk_frame random c :
  let c' := vu_walk random c in
  timers c' = timers c /\ promises c' = promises c /\
  nextHandle c' = nextHandle c /\ reconnectTimer c' = reconnectTimer c /\
  pendingCommands c' = pendingCommands c.
Proof.
  unfold vu_walk.
  assert (G : forall (es : list (jsstring * number)) c0,
    let c' := fold_left (fun c e =>
      let (r, c) := Math_random random c in
      let newVal :=
        Math_max (Num (-60))
          (Math_min (Num 0) (add (snd e) (mul (sub (Num r) (Num 0.5)) (Num 4)))) in
      set_simulatorVU (Map_set string_eqb (fst e) newVal (simulatorVU c)) c) es c0 in
    timers c' = timers c0 /\ promises c' = promises c0 /\
    nextHandle c' = nextHandle c0 /\ reconnectTimer c' = reconnectTimer c0 /\
    pendingCommands c' = pendingCommands c0).
  { induction es as [|e es IH]; intros c0; cbn [fold_left]; [repeat split|].
    match goal with |- context [fold_left _ es ?c1] =>
      destruct (IH c1) as (A & B & C & D & E) end.
    cbv zeta in *. rewrite A, B, C, D, E. cbn. repeat split. }
  apply G.
Qed.

Lemma settle_at_fresh ps s :
  settle_at (List.length ps) s (ps ++ [None]) = ps ++ [Some s].
Proof. induction ps as [|x ps IH]; simpl; [reflexivity|]. destruct x; now rewrite IH. Qed.

(** [sendRaw] makes one promise; it arms one timer that settles it, or
    (not connected) rejects it at once. *)
Lemma sendRaw_frame random command c :
  let p := fst (sendRaw random command c) in
  let c' := snd (sendRaw random command c) in
  p = List.length (promises c) /\
  reconnectTimer c' = reconnectTimer c /\ clock c' = clock c /\
  ((exists tm, timers c' = timers c ++ [tm] /\ handle tm = nextHandle c /\
               cb_promise (callback tm) = Some p /\
               nextHandle c' = S (nextHandle c) /\
               promises c' = promises c ++ [None]) \/
   (timers c' = timers c /\ nextHandle c' = nextHandle c /\
    promises c' = promises c ++ [Some (rejected NotConnected)])).
Proof.
  unfold sendRaw. cbn [newPromise].
  destruct (simulatorMode (config c)) eqn:S; cbn [config set_promises].
  - rewrite S.
    match goal with |- context [simulateResponse command ?c1] =>
      pose proof (simulateResponse_frame command c1) as F;
      destruct (simulateResponse command c1) as [resp c2] end.
    cbn in F. destruct F as (A & B & C & D & _ & _ & _ & K & _).
    cbn. rewrite A, B, C, D, K. repeat split. left. eexists. repeat split.
  - rewrite S. cbn [connected set_promises].
    destruct (connected c) eqn:Cn; cbn [negb].
    + cbn. destruct (protocol (config c)); [destruct (tcpClient c)|destruct (udpClient c)];
        cbn; repeat split; left; eexists; repeat split.
    + cbn. rewrite settle_at_fresh. repeat split. now right.
Qed.

(** The command is sent ([simulatorMode] off, connected): the entry, the
    timer and the promise it leaves. *)
Lemma sendRaw_issued random command c :
  simulatorMode (config c) = false -> connected c = true ->
  let p := fst (sendRaw random command c) in
  let c' := snd (sendRaw random command c) in
  let id := mkCmdId (clock c) (random (drawn c)) in
  let tm := mkTimer (nextHandle c) (clock c + commandTimeout (config c)) None
                    (cb_timeout id p command) in
  p = List.length (promises c) /\
  pendingCommands c' = Map_set CmdId_eqb id (mkPending p (nextHandle c)) (pendingCommands c) /\
  timers c' = timers c ++ [tm] /\
  promises c' = promises c ++ [None] /\
  nextHandle c' = S (nextHandle c) /\
  reconnectTimer c' = reconnectTimer c.
Proof.
  intros S Cn. unfold sendRaw. cbn [newPromise config connected set_promises].
  rewrite S, Cn. cbn [negb].
  cbn. destruct (protocol (config c)); [destruct (tcpClient c)|destruct (udpClient c)];
    cbn; repeat split.
Qed.

Lemma Map_get_set_same {V} k (v : V) mp :
  Map_get CmdId_eqb k (Map_set CmdId_eqb k v mp) = Some v.
Proof.
  induction mp as [|[k' v'] mp IH]; simpl.
  - now rewrite CmdId_eqb_refl.
  - destruct (CmdId_eqb k' k) eqn:E; simpl; now rewrite E.
Qed.

Lemma Map_get_delete_same {V} k (mp : list (CmdId * V)) :
  Map_get CmdId_eqb k (Map_delete CmdId_eqb k mp) = None.
Proof.
  unfold Map_delete. induction mp as [|[k' v'] mp IH]; simpl; [reflexivity|].
  destruct (CmdId_eqb k' k) eqn:E; simpl; [exact IH|]. now rewrite E.
Qed.

Lemma Map_get_In {V} k (v : V) mp :
  Map_get CmdId_eqb k mp = Some v -> exists k', In (k', v) mp.
Proof.
  induction mp as [|[k' v'] mp IH]; simpl; [discriminate|].
  destruct (CmdId_eqb k' k).
  - intros E; inversion E; subst. exists k'. now left.
  - intros E. destruct (IH E) as (k'' & H). exists k''. now right.
Qed.

(** ** Handles and promises stay in order *)

Lemma wf_update c c' :
  well_formed c ->
  (forall tm, In tm (timers c') ->
     In tm (timers c) \/
     (handle tm = nextHandle c /\ nextHandle c' = S (nextHandle c) /\
      forall p, cb_promise (callback tm) = Some p -> (p < List.length (promises c'))%nat) \/
     (exists tm0, In tm0 (timers c) /\ handle tm = handle tm0 /\
                  callback tm = callback tm0)) ->
  (List.length (promises c) <= List.length (promises c'))%nat ->
  (nextHandle c <= nextHandle c')%nat ->
  (forall h, reconnectTimer c' = Some h ->
     reconnectTimer c = Some h \/ (h < nextHandle c')%nat) ->
  well_formed c'.
Proof.
  intros [W1 W2] Ht Hp Hn Hr. split.
  - intros tm Hin. destruct (Ht tm Hin) as [H|[(H1 & H2 & H3)|(tm0 & H1 & H2 & H3)]].
    + destruct (W1 tm H) as [A B]. split; [lia|]. intros p E. specialize (B p E). lia.
    + split; [lia | exact H3].
    + destruct (W1 tm0 H1) as [A B]. split; [lia|]. intros p E.
      rewrite H3 in E. specialize (B p E). lia.
  - intros h E. destruct (Hr h E) as [H|H]; [|exact H]. specialize (W2 h H). lia.
Qed.

Lemma initSimulator_frame random c :
  let c' := initSimulator random c in
  timers c' = timers c ++ [mkTimer (nextHandle c) (clock c + 100) (Some 100) cb_vu] /\
  promises c' = promises c /\ nextHandle c' = S (nextHandle c) /\
  reconnectTimer c' = reconnectTimer c /\ pendingCommands c' = pendingCommands c.
Proof. destruct c. vm_compute. repeat split. Qed.

Lemma wf_create random over now : well_formed (create random over now).
Proof.
  unfold create. cbn [config]. destruct (simulatorMode (spread DEFAULT_CONFIG over)).
  - match goal with |- well_formed (initSimulator _ ?c0) =>
      destruct (initSimulator_frame random c0) as (A & B & C & D & _);
      apply (wf_update c0) end.
    + split; cbn; [contradiction | discriminate].
    + intros tm Hin. rewrite A in Hin. cbn [timers app] in Hin. destruct Hin as [<-|[]].
      right; left. cbn [handle callback nextHandle].
      split; [reflexivity|]. split; [exact C|]. intros p E; discriminate E.
    + rewrite B. lia.
    + rewrite C. cbn [nextHandle]. lia.
    + intros h E. rewrite D in E. discriminate.
  - split; cbn; [contradiction | discriminate].
Qed.

Lemma wf_sendRaw random command c :
  well_formed c -> well_formed (snd (sendRaw random command c)).
Proof.
  intros W. destruct (sendRaw_frame random command c) as (Hp & Hr & _ & H).
  cbv zeta in *. apply (wf_update c); auto.
  - intros tm Hin. destruct H as [(tm0 & A & B & C & D & E)|(A & B & C)].
    + rewrite A in Hin. apply in_app_or in Hin. destruct Hin as [Hin|[<-|[]]]; [now left|].
      right; left. repeat split; auto. intros p E'. rewrite C in E'. inversion E'; subst.
      rewrite Hp, E, length_app. simpl. lia.
    + rewrite A in Hin. now left.
  - destruct H as [(tm0 & A & B & C & D & E)|(A & B & C)]; [rewrite E|rewrite C];
      rewrite length_app; lia.
  - destruct H as [(tm0 & A & B & C & D & E)|(A & B & C)]; lia.
  - intros h E. left. now rewrite <- Hr.
Qed.

Lemma handleLine_frame line c :
  let c' := handleLine line c in
  (forall tm, In tm (timers c') -> In tm (timers c)) /\
  List.length (promises c') = List.length (promises c) /\
  nextHandle c' = nextHandle c /\ reconnectTimer c' = reconnectTimer c.
Proof.
  cbv zeta. unfold handleLine. destruct (trim line) as [|x l]; [auto|].
  rewrite resolvePending_eq, resolve_fold.
  destruct (search true VU_LINE (x :: l)); cbn; repeat split;
    try apply settle_all_length; intros tm Hin; apply filter_In in Hin; tauto.
Qed.

Lemma wf_handleResponse data c : well_formed c -> well_formed (handleResponse data c).
Proof.
  unfold handleResponse. generalize (split 10%N (trim data)) as ls. intros ls. revert c.
  induction ls as [|l ls IH]; intros c W; simpl; [exact W|].
  apply IH. destruct (handleLine_frame l c) as (A & B & C & D). cbv zeta in *.
  apply (wf_update c); auto; try lia.
  intros h E. left. now rewrite <- D.
Qed.

Lemma wf_scheduleReconnect c : well_formed c -> well_formed (scheduleReconnect c).
Proof.
  intros W. unfold scheduleReconnect. destruct (reconnectTimer c) eqn:R; [exact W|].
  apply (wf_update c); auto; cbn; try lia.
  - intros tm Hin. apply in_app_or in Hin. destruct Hin as [Hin|[<-|[]]]; [now left|].
    right; left. cbn. repeat split. discriminate.
  - intros h E. inversion E; subst. right. lia.
Qed.

Lemma wf_same c c' :
  well_formed c -> timers c' = timers c -> promises c' = promises c ->
  nextHandle c' = nextHandle c -> reconnectTimer c' = reconnectTimer c ->
  well_formed c'.
Proof.
  intros W A B C D. apply (wf_update c); auto; try lia.
  - intros tm Hin. left. now rewrite <- A.
  - rewrite B. lia.
  - intros h E. left. now rewrite <- D.
Qed.

Lemma wf_on_socket e c : well_formed c -> well_formed (on_socket e c).
Proof.
  intros W. destruct e as [ | data | [|] | | | msg | ]; cbn [on_socket];
    try apply wf_handleResponse; try apply wf_scheduleReconnect; auto;
    apply (wf_same c); auto.
Qed.

Lemma wf_connect c : well_formed c -> well_formed (connect c).
Proof.
  intros W. unfold connect.
  destruct (simulatorMode (config c)); [|destruct (protocol (config c))];
    apply (wf_same c); auto.
Qed.

Lemma wf_disconnect c : well_formed c -> well_formed (disconnect c).
Proof.
  intros W. unfold disconnect. apply (wf_update c); auto.
  - intros tm Hin. left. destruct (reconnectTimer c); cbn in Hin; [|exact Hin].
    apply filter_In in Hin. tauto.
  - destruct (reconnectTimer c); cbn; lia.
  - destruct (reconnectTimer c); cbn; lia.
  - intros h E. destruct (reconnectTimer c) eqn:R; cbn in E; congruence.
Qed.

(** What firing a timer does. *)
Lemma fire_frame random tm0 c :
  let c' := fire random tm0 c in
  (forall tm, In tm (timers c') ->
     (In tm (timers c) /\ handle tm <> handle tm0) \/
     (handle tm = handle tm0 /\ callback tm = callback tm0)) /\
  (forall tm, In tm (timers c) -> handle tm <> handle tm0 -> In tm (timers c')) /\
  nextHandle c' = nextHandle c /\
  List.length (promises c') = List.length (promises c) /\
  (forall q, cb_promise (callback tm0) <> Some q -> settlement q c' = settlement q c) /\
  (reconnectTimer c' = reconnectTimer c \/ reconnectTimer c' = None).
Proof.
  cbv zeta. unfold fire.
  set (c1 := match every tm0 with
             | Some period =>
               set_timers (timers (clearTimeout (handle tm0) c) ++
                 [mkTimer (handle tm0) (due tm0 + period) (every tm0) (callback tm0)])
                 (clearTimeout (handle tm0) c)
             | None => clearTimeout (handle tm0) c
             end).
  assert (F1 : (forall tm, In tm (timers c1) ->
     (In tm (timers c) /\ handle tm <> handle tm0) \/
     (handle tm = handle tm0 /\ callback tm = callback tm0)) /\
     (forall tm, In tm (timers c) -> handle tm <> handle tm0 -> In tm (timers c1)) /\
     nextHandle c1 = nextHandle c /\ promises c1 = promises c /\
     reconnectTimer c1 = reconnectTimer c).
  { subst c1. destruct (every tm0); cbn; repeat split; auto.
    - intros tm Hin. apply in_app_or in Hin. destruct Hin as [Hin|[<-|[]]]; [|now right].
      apply filter_In in Hin. destruct Hin as [A B]. left. split; [exact A|].
      apply negb_true_iff, Nat.eqb_neq in B. exact B.
    - intros tm Hin Hne. apply in_or_app. left. apply filter_In. split; [exact Hin|].
      now apply negb_true_iff, Nat.eqb_neq.
    - intros tm Hin. apply filter_In in Hin. destruct Hin as [A B]. left. split; [exact A|].
      apply negb_true_iff, Nat.eqb_neq in B. exact B.
    - intros tm Hin Hne. apply filter_In. split; [exact Hin|].
      now apply negb_true_iff, Nat.eqb_neq. }
  clearbody c1. destruct F1 as (A & B & C & D & E).
  unfold settlement. destruct (callback tm0) as [id p cmd|p resp| |]; cbn [run_callback].
  - cbn. rewrite settle_at_length, C, D. repeat split; auto.
    intros q Hq. apply nth_settle_at_other. congruence.
  - cbn. rewrite settle_at_length, C, D. repeat split; auto.
    intros q Hq. apply nth_settle_at_other. congruence.
  - destruct (vu_walk_frame random c1) as (A' & B' & C' & D' & _). cbv zeta in *.
    rewrite A', B', C', D', C, D, E. repeat split; auto.
  - assert (G : forall c2, timers (connect c2) = timers c2 /\
                promises (connect c2) = promises c2 /\
                nextHandle (connect c2) = nextHandle c2 /\
                reconnectTimer (connect c2) = reconnectTimer c2).
    { intros c2. unfold connect.
      destruct (simulatorMode (config c2)); [|destruct (protocol (config c2))];
        cbn; auto. }
    destruct (G (set_reconnectTimer None c1)) as (A' & B' & C' & D').
    rewrite A', B', C', D'. cbn. rewrite C, D. repeat split; auto.
Qed.

Lemma find_timer_In h c tm : find_timer h c = Some tm -> In tm (timers c) /\ handle tm = h.
Proof.
  unfold find_timer. intros H. apply find_some in H. destruct H as [A B].
  split; [exact A | now apply Nat.eqb_eq].
Qed.

Lemma wf_fire random tm0 c :
  well_formed c -> In tm0 (timers c) -> well_formed (fire random tm0 c).
Proof.
  intros W Hin0. destruct (fire_frame random tm0 c) as (A & _ & C & D & _ & F).
  cbv zeta in *. apply (wf_update c); auto; try lia.
  - intros tm Hin. destruct (A tm Hin) as [[H _]|[H1 H2]]; [now left|].
    right; right. exists tm0. auto.
  - intros h E. left. destruct F as [F|F]; rewrite F in E; [exact E | discriminate].
Qed.

Lemma wf_step random k c c' :
  well_formed c -> step random k c = Some c' -> well_formed c'.
Proof.
  intros W H. destruct k; cbn [step] in H;
    try (inversion H; subst; clear H;
         first [ apply wf_connect | apply wf_disconnect | apply wf_on_socket
               | unfold setGain, getGain, setSend, getSend, setMute, getVU, setPreset,
                   getPreset; apply wf_sendRaw
               | apply (wf_same c); auto; fail ]; exact W).
  - destruct (find_timer h c) as [tm|] eqn:E; [|discriminate].
    destruct (Qle_bool (due tm) (clock c)); inversion H; subst.
    apply wf_fire; [exact W|]. now apply find_timer_In in E.
  - destruct (Qle_bool 0 dt); inversion H; subst. apply (wf_same c); auto.
Qed.

Lemma wf_reachable random c : reachable random c -> well_formed c.
Proof.
  intros (over & now & ks & H).
  assert (G : forall ks c0 c1, well_formed c0 -> run random ks c0 = Some c1 -> well_formed c1).
  { clear. induction ks as [|k ks IH]; intros c0 c1 W H; simpl in H.
    - now inversion H; subst.
    - destruct (step random k c0) eqn:E; [|discriminate].
      eapply IH; [|exact H]. eapply wf_step; eauto. }
  eapply G; [apply wf_create | exact H].
Qed.

(** ** A command that waits keeps waiting *)

Lemma waits_update tm p c c' :
  waits tm p c ->
  In tm (timers c') ->
  (forall tm', In tm' (timers c') ->
     In tm' (timers c) \/
     ((nextHandle c <= handle tm')%nat /\
      forall q, cb_promise (callback tm') = Some q -> (List.length (promises c) <= q)%nat) \/
     (exists tm0, In tm0 (timers c) /\ handle tm' = handle tm0 /\
                  callback tm' = callback tm0 /\ handle tm0 <> handle tm)) ->
  settlement p c' = None ->
  (List.length (promises c) <= List.length (promises c'))%nat ->
  (nextHandle c <= nextHandle c')%nat ->
  reconnectTimer c' <> Some (handle tm) ->
  waits tm p c'.
Proof.
  intros (W1 & W2 & W3 & W4 & W5 & W6 & W7) Hin Ht Hs Hp Hn Hr.
  repeat split; auto; try lia.
  - intros tm' Hin' E. destruct (Ht tm' Hin') as [H|[[H _]|(tm0 & H1 & H2 & _ & H4)]].
    + now apply W2.
    + lia.
    + congruence.
  - intros tm' Hin' E. destruct (Ht tm' Hin') as [H|[[_ H]|(tm0 & H1 & H2 & H3 & H4)]].
    + now apply W3.
    + specialize (H p E). lia.
    + rewrite H3 in E. specialize (W3 tm0 H1 E). congruence.
Qed.

Lemma waits_same tm p c c' :
  waits tm p c -> timers c' = timers c -> promises c' = promises c ->
  nextHandle c' = nextHandle c -> reconnectTimer c' = reconnectTimer c ->
  waits tm p c'.
Proof.
  intros W A B C D. pose proof W as (W1 & W2 & W3 & W4 & W5 & W6 & W7).
  apply (waits_update tm p c); auto; try lia.
  - now rewrite A.
  - intros tm' Hin. left. now rewrite <- A.
  - unfold settlement in *. now rewrite B.
  - rewrite B. lia.
  - now rewrite D.
Qed.

Lemma waits_sendRaw random command tm p c :
  waits tm p c -> waits tm p (snd (sendRaw random command c)).
Proof.
  intros W. pose proof W as (W1 & W2 & W3 & W4 & W5 & W6 & W7).
  destruct (sendRaw_frame random command c) as (Hp & Hr & _ & H). cbv zeta in *.
  apply (waits_update tm p c); auto.
  - destruct H as [(tm0 & A & _)|(A & _)]; rewrite A; [apply in_or_app|]; auto.
  - intros tm' Hin. destruct H as [(tm0 & A & B & C & D & E)|(A & B & C)].
    + rewrite A in Hin. apply in_app_or in Hin. destruct Hin as [Hin|[<-|[]]]; [now left|].
      right; left. split; [lia|]. intros q E'. rewrite C in E'. inversion E'; subst. lia.
    + rewrite A in Hin. now left.
  - unfold settlement in *.
    destruct H as [(tm0 & A & B & C & D & E)|(A & B & C)]; [rewrite E|rewrite C];
      now rewrite app_nth1.
  - destruct H as [(tm0 & A & B & C & D & E)|(A & B & C)]; [rewrite E|rewrite C];
      rewrite length_app; lia.
  - destruct H as [(tm0 & A & B & C & D & E)|(A & B & C)]; lia.
  - now rewrite Hr.
Qed.

Lemma waits_scheduleReconnect tm p c :
  waits tm p c -> waits tm p (scheduleReconnect c).
Proof.
  intros W. pose proof W as (W1 & W2 & W3 & W4 & W5 & W6 & W7).
  unfold scheduleReconnect. destruct (reconnectTimer c) eqn:R; [exact W|].
  apply (waits_update tm p c); auto; cbn; try lia.
  - apply in_or_app. now left.
  - intros tm' Hin. apply in_app_or in Hin. destruct Hin as [Hin|[<-|[]]]; [now left|].
    right; left. cbn. split; [lia | discriminate].
  - intros E. inversion E. lia.
Qed.

Lemma handleResponse_quiet data c : trim data = [] -> handleResponse data c = c.
Proof. intros H. unfold handleResponse. rewrite H. reflexivity. Qed.

Lemma waits_connect tm p c : waits tm p c -> waits tm p (connect c).
Proof.
  intros W. unfold connect.
  destruct (simulatorMode (config c)); [|destruct (protocol (config c))];
    apply (waits_same tm p c); auto.
Qed.

Lemma waits_disconnect tm p c : waits tm p c -> waits tm p (disconnect c).
Proof.
  intros W. pose proof W as (W1 & W2 & W3 & W4 & W5 & W6 & W7).
  unfold disconnect. apply (waits_update tm p c); auto.
  - destruct (reconnectTimer c) as [h|] eqn:R; cbn; [|exact W1].
    apply filter_In. split; [exact W1|]. apply negb_true_iff, Nat.eqb_neq. congruence.
  - intros tm' Hin. left. destruct (reconnectTimer c); cbn in Hin; [|exact Hin].
    apply filter_In in Hin. tauto.
  - unfold settlement in *. destruct (reconnectTimer c); cbn; exact W4.
  - destruct (reconnectTimer c); cbn; lia.
  - destruct (reconnectTimer c); cbn; lia.
  - destruct (reconnectTimer c) eqn:R; cbn; [discriminate | congruence].
Qed.

Lemma waits_fire random tm0 tm p c :
  waits tm p c -> In tm0 (timers c) -> handle tm0 <> handle tm ->
  waits tm p (fire random tm0 c).
Proof.
  intros W Hin0 Hne. pose proof W as (W1 & W2 & W3 & W4 & W5 & W6 & W7).
  destruct (fire_frame random tm0 c) as (A & B & C & D & E & F). cbv zeta in *.
  assert (I : In tm (timers (fire random tm0 c))) by (apply B; [exact W1 | congruence]).
  apply (waits_update tm p c); auto; try lia.
  - intros tm' Hin. destruct (A tm' Hin) as [[H _]|[H1 H2]]; [now left|].
    right; right. exists tm0. auto.
  - rewrite E; [exact W4|]. intros G. apply Hne. f_equal. now apply W3.
  - destruct F as [F|F]; rewrite F; [exact W7 | discriminate].
Qed.

Lemma waits_step random tm p k c c' :
  waits tm p c -> quiet (handle tm) k = true -> step random k c = Some c' ->
  waits tm p c'.
Proof.
  intros W Q H. destruct k; cbn [step] in H;
    try (inversion H; subst; clear H;
         first [ apply waits_connect | apply waits_disconnect
               | unfold setGain, getGain, setSend, getSend, setMute, getVU, setPreset,
                   getPreset; apply waits_sendRaw
               | apply (waits_same tm p c); auto; fail ]; exact W).
  - inversion H; subst; clear H. destruct e as [ | data | [|] | | | msg | ]; cbn [on_socket quiet] in *;
      try (apply waits_scheduleReconnect);
      try (apply (waits_same tm p c); auto; fail).
    + destruct (trim data) eqn:E; [|discriminate]. now rewrite handleResponse_quiet.
    + destruct (trim msg) eqn:E; [|discriminate]. now rewrite handleResponse_quiet.
  - cbn [quiet] in Q. apply negb_true_iff, Nat.eqb_neq in Q.
    destruct (find_timer h c) as [tm0|] eqn:E; [|discriminate].
    destruct (Qle_bool (due tm0) (clock c)); inversion H; subst.
    apply find_timer_In in E. destruct E as [E1 E2].
    apply waits_fire; [exact W | exact E1 | congruence].
  - destruct (Qle_bool 0 dt); inversion H; subst. apply (waits_same tm p c); auto.
Qed.

Lemma waits_run random tm p ks : forall c c',
  waits tm p c -> forallb (quiet (handle tm)) ks = true ->
  run random ks c = Some c' -> waits tm p c'.
Proof.
  induction ks as [|k ks IH]; intros c c' W Q H; simpl in *.
  - now inversion H; subst.
  - apply andb_prop in Q. destruct Q as [Q1 Q2].
    destruct (step random k c) as [c1|] eqn:E; [|discriminate].
    eapply IH; [|exact Q2|exact H]. eapply waits_step; eauto.
Qed.

Lemma waits_find tm p c : waits tm p c -> find_timer (handle tm) c = Some tm.
Proof.
  intros (W1 & W2 & _). unfold find_timer.
  destruct (find (fun e => Nat.eqb (handle e) (handle tm)) (timers c)) as [tm'|] eqn:E.
  - apply find_some in E. destruct E as [A B]. apply Nat.eqb_eq in B.
    f_equal. now apply W2.
  - exfalso. apply (find_none _ _ E) in W1. now rewrite Nat.eqb_refl in W1.
Qed.

Lemma find_timer_gone h c :
  (forall tm, In tm (timers c) -> handle tm <> h) -> find_timer h c = None.
Proof.
  intros H. unfold find_timer.
  destruct (find (fun e => Nat.eqb (handle e) h) (timers c)) as [tm'|] eqn:E; [|reflexivity].
  apply find_some in E. destruct E as [A B]. apply Nat.eqb_eq in B.
  now apply H in A.
Qed.

(** The timeout fires: the promise is rejected and the entry is gone. *)
Lemma timeout_fires random tm p id command c c' :
  waits tm p c -> callback tm = cb_timeout id p command -> every tm = None ->
  step random (timer_fires (handle tm)) c = Some c' ->
  settlement p c' = Some (rejected (Timeout command)) /\
  Map_get CmdId_eqb id (pendingCommands c') = None /\
  find_timer (handle tm) c' = None.
Proof.
  intros W Hcb Hev H. pose proof W as (W1 & W2 & W3 & W4 & W5 & W6 & W7).
  cbn [step] in H. rewrite (waits_find tm p c W) in H.
  destruct (Qle_bool (due tm) (clock c)); inversion H; subst; clear H.
  unfold fire. rewrite Hev, Hcb. cbn. unfold settlement in *. repeat split.
  - rewrite nth_settle_at_same, W4 by exact W5. reflexivity.
  - apply Map_get_delete_same.
  - apply find_none_filter. intros tm' E. now rewrite E.
Qed.

Lemma sendRaw_waits random command c :
  well_formed c -> simulatorMode (config c) = false -> connected c = true ->
  waits (mkTimer (nextHandle c) (clock c + commandTimeout (config c)) None
           (cb_timeout (mkCmdId (clock c) (random (drawn c)))
                       (fst (sendRaw random command c)) command))
        (fst (sendRaw random command c))
        (snd (sendRaw random command c)).
Proof.
  intros [W1 W2] S Cn.
  destruct (sendRaw_issued random command c S Cn) as (Hp & _ & Ht & Hps & Hn & Hr).
  cbv zeta in *. unfold waits, settlement. rewrite Ht, Hps, Hn, Hr, Hp. cbn [handle callback].
  repeat split.
  - apply in_or_app. right. now left.
  - intros tm' Hin E. apply in_app_or in Hin. destruct Hin as [Hin|[<-|[]]]; [|reflexivity].
    apply W1 in Hin. lia.
  - intros tm' Hin E. apply in_app_or in Hin. destruct Hin as [Hin|[<-|[]]]; [|reflexivity].
    apply W1 in Hin. destruct Hin as [_ Hin]. specialize (Hin _ E). lia.
  - rewrite app_nth2, Nat.sub_diag by lia. reflexivity.
  - rewrite length_app. simpl. lia.
  - lia.
  - intros E. apply W2 in E. lia.
Qed.

(** ** C2 *)

(** C2.  On a connected client outside simulator mode, [sendRaw] enters
    the command in [pendingCommands] under its id, with a timer due
    [commandTimeout] after the call.  Whatever else happens, as long as
    no response line is received and that timer has not fired, the
    promise stays unsettled and the timer stays armed; once due the
    timer can fire, and when it fires the promise is rejected with
    [Timeout: command] and the entry is removed.  If instead a response
    line arrives while the entry is in the map, the promise is resolved
    with that line, the entry is removed and the timer is disarmed. *)
Theorem C2_timeout_and_cleanup :
  forall random c command,
    reachable random c ->
    simulatorMode (config c) = false -> connected c = true ->
    let p := fst (sendRaw random command c) in
    let c1 := snd (sendRaw random command c) in
    let id := mkCmdId (clock c) (random (drawn c)) in
    let tm := mkTimer (nextHandle c) (clock c + commandTimeout (config c)) None
                      (cb_timeout id p command) in
    Map_get CmdId_eqb id (pendingCommands c1) = Some (mkPending p (handle tm)) /\
    forall ks c2,
      forallb (quiet (handle tm)) ks = true -> run random ks c1 = Some c2 ->
      settlement p c2 = None /\
      find_timer (handle tm) c2 = Some tm /\
      (Qle_bool (due tm) (clock c2) = true ->
       exists c3, step random (timer_fires (handle tm)) c2 = Some c3) /\
      (forall c3, step random (timer_fires (handle tm)) c2 = Some c3 ->
         settlement p c3 = Some (rejected (Timeout command)) /\
         Map_get CmdId_eqb id (pendingCommands c3) = None /\
         find_timer (handle tm) c3 = None) /\
      (forall data trimmed,
         first_response data = Some trimmed ->
         Map_get CmdId_eqb id (pendingCommands c2) = Some (mkPending p (handle tm)) ->
         settlement p (handleResponse data c2) = Some (resolved trimmed) /\
         Map_get CmdId_eqb id (pendingCommands (handleResponse data c2)) = None /\
         find_timer (handle tm) (handleResponse data c2) = None).
Proof.
  intros random c command R S Cn p c1 id tm.
  pose proof (wf_reachable random c R) as W.
  pose proof (sendRaw_waits random command c W S Cn) as W0.
  fold p c1 id tm in W0.
  destruct (sendRaw_issued random command c S Cn) as (_ & Hpc & _).
  fold p c1 id in Hpc.
  split.
  { rewrite Hpc. apply Map_get_set_same. }
  intros ks c2 Q Hrun.
  pose proof (waits_run random tm p ks c1 c2 W0 Q Hrun) as W2.
  pose proof W2 as (_ & _ & _ & W24 & W25 & _).
  split; [exact W24|]. split; [exact (waits_find tm p c2 W2)|]. split; [|split].
  - intros Hdue. cbn [step]. rewrite (waits_find tm p c2 W2).
    cbn [due] in *. rewrite Hdue. eexists; reflexivity.
  - intros c3 H3.
    apply (timeout_fires random tm p id command c2 c3 W2 eq_refl eq_refl H3).
  - intros data trimmed Hfirst Hget.
    destruct (Map_get_In _ _ _ Hget) as (k' & Hin).
    destruct (handleResponse_spec data c2 trimmed Hfirst) as (A & B & C).
    split; [|split].
    + apply (B (k', mkPending p (handle tm))); auto.
    + now rewrite A.
    + apply (C (k', mkPending p (handle tm))); auto.
Qed.

Lemma C2_timeout_and_cleanup_witness :
  exists c,
    online sample_random = Some c /\
    simulatorMode (config c) = false /\ connected c = true /\
    Map_get CmdId_eqb (mkCmdId (clock c) (sample_random (drawn c)))
      (pendingCommands (snd (sendRaw sample_random (lit "GET PRESET") c))) =
    Some (mkPending (fst (sendRaw sample_random (lit "GET PRESET") c)) (nextHandle c)).
Proof.
  destruct (online sample_random) as [c|] eqn:E; [|discriminate].
  exists c.
  assert (R : reachable sample_random c).
  { exists (mkPartial None None None None None None), 0, [call_connect; socket tcp_connect].
    exact E. }
  assert (S : simulatorMode (config c) = false)
    by (vm_compute in E; inversion E; subst c; reflexivity).
  assert (Cn : connected c = true)
    by (vm_compute in E; inversion E; subst c; reflexivity).
  split; [reflexivity|]. split; [exact S|]. split; [exact Cn|].
  apply (proj1 (C2_timeout_and_cleanup sample_random c (lit "GET PRESET") R S Cn)).
Defined.

End MatrixFacts.

(* ====================================================================== *)
(** * Proofs: the regular expressions on the commands and responses *)
(* ====================================================================== *)

Module RegexFacts.
Import Js Regex Matrix JsFacts.
Local Open Scope N_scope.

(** ** Matching a prefix *)

Lemma strip_app l rest : strip false l (l ++ rest) = Some rest.
Proof.
  induction l as [|a l IH]; simpl; [reflexivity|].
  unfold canon. now rewrite N.eqb_refl.
Qed.

Lemma firstn_consumed {A} (a b : list A) :
  firstn (List.length (a ++ b) - List.length b) (a ++ b) = a.
Proof.
  rewrite length_app, Nat.add_sub.
  rewrite firstn_app, Nat.sub_diag, firstn_all. simpl. apply app_nil_r.
Qed.

Lemma m_Lit l rest caps k : m false (Lit l) (l ++ rest) caps k = k rest caps.
Proof. simpl. now rewrite strip_app. Qed.

Lemma star_run p run : forall rest k r,
  forallb p run = true -> ends_run p rest -> k rest = Some r ->
  star p (run ++ rest) k = Some r.
Proof.
  induction run as [|c run IH]; intros rest k r Hall Hend Hk; simpl in *.
  - destruct rest as [|x rest]; simpl in *; [exact Hk|]. now rewrite Hend.
  - apply andb_prop in Hall. destruct Hall as [Hc Hall]. rewrite Hc.
    now rewrite (IH rest k r).
Qed.

Lemma plus_run p run rest k r :
  run <> [] -> forallb p run = true -> ends_run p rest -> k rest = Some r ->
  plus p (run ++ rest) k = Some r.
Proof.
  intros Hne Hall Hend Hk. destruct run as [|c run]; [contradiction|].
  simpl in *. apply andb_prop in Hall. destruct Hall as [Hc Hall]. rewrite Hc.
  now apply star_run.
Qed.

Lemma m_Group_Plus ci p run rest caps k r :
  run <> [] -> forallb p run = true -> ends_run p rest ->
  k rest (caps ++ [run]) = Some r ->
  m ci (Group (Plus p)) (run ++ rest) caps k = Some r.
Proof.
  intros Hne Hall Hend Hk. simpl. apply plus_run; auto.
  now rewrite firstn_consumed.
Qed.

(** Replaces the closed strings of the goal by their code units. *)
Ltac literals :=
  repeat match goal with
         | |- context [lit ?s] =>
           let v := eval vm_compute in (lit s) in change (lit s) with v
         end.

Ltac channel_cases ch :=
  destruct ch; unfold CHANNELS, SOURCES, Channel_text, Source_text; literals.

Lemma alt_CHANNELS ch rest k :
  alt false CHANNELS (Channel_text ch ++ rest) k = k rest.
Proof. channel_cases ch; cbn; destruct (k rest); reflexivity. Qed.

Lemma alt_SOURCES src rest k :
  alt false SOURCES (Source_text src ++ rest) k = k rest.
Proof. channel_cases src; cbn; destruct (k rest); reflexivity. Qed.

Lemma m_Group_Alt_CHANNELS ch rest caps k :
  m false (Group (Alt CHANNELS)) (Channel_text ch ++ rest) caps k =
  k rest (caps ++ [Channel_text ch]).
Proof. cbn [m]. now rewrite alt_CHANNELS, firstn_consumed. Qed.

(** ** Searching *)

Lemma search_here ci r s c : exec_here ci r s = Some c -> search ci r s = Some c.
Proof. intros H. destruct s; simpl; now rewrite H. Qed.

Lemma search_next ci r a s :
  exec_here ci r (a :: s) = None -> search ci r (a :: s) = search ci r s.
Proof. intros H. simpl. now rewrite H. Qed.

Lemma search_skip ci r pre : forall rest,
  (forall i, (i < List.length pre)%nat -> exec_here ci r (skipn i (pre ++ rest)) = None) ->
  search ci r (pre ++ rest) = search ci r rest.
Proof.
  induction pre as [|a pre IH]; intros rest H; [reflexivity|].
  simpl app. rewrite search_next by (apply (H 0%nat); simpl; lia).
  apply IH. intros i Hi. apply (H (S i)). simpl. lia.
Qed.

(** A regular expression that starts with the two characters [x], [y]
    matches nowhere in a string without that pair. *)
Lemma search_no_pair x y l r : forall s,
  has_pair x y s = false -> search false (Lit (x :: y :: l) +> r)%regex s = None.
Proof.
  induction s as [|a s IH]; intros H; [reflexivity|].
  simpl in H. apply orb_false_iff in H. destruct H as [H1 H2].
  rewrite search_next; [now apply IH|].
  unfold exec_here. cbn [m strip canon].
  destruct (x =? a) eqn:E; [|reflexivity].
  apply N.eqb_eq in E. subst a. rewrite N.eqb_refl in H1. simpl in H1.
  destruct s as [|b s]; [reflexivity|]. rewrite N.eqb_sym in H1. now rewrite H1.
Qed.

Lemma has_pair_skip x y run : forall rest,
  forallb (fun c => negb (c =? x)) run = true ->
  has_pair x y (run ++ rest) = has_pair x y rest.
Proof.
  induction run as [|a run IH]; intros rest H; [reflexivity|].
  simpl in H. apply andb_prop in H. destruct H as [H1 H2].
  apply negb_true_iff in H1. cbn [app has_pair]. rewrite H1. simpl. now apply IH.
Qed.

Lemma digits_not x run :
  isDigit x = false -> forallb isDigit run = true ->
  forallb (fun c => negb (c =? x)) run = true.
Proof.
  intros Hx. induction run as [|a run IH]; simpl; [reflexivity|].
  intros H. apply andb_prop in H. destruct H as [H1 H2]. rewrite IH by exact H2.
  destruct (a =? x) eqn:E; [|reflexivity]. apply N.eqb_eq in E. congruence.
Qed.

Lemma numeric_not x run :
  isNumeric x = false -> forallb isNumeric run = true ->
  forallb (fun c => negb (c =? x)) run = true.
Proof.
  intros Hx. induction run as [|a run IH]; simpl; [reflexivity|].
  intros H. apply andb_prop in H. destruct H as [H1 H2]. rewrite IH by exact H2.
  destruct (a =? x) eqn:E; [|reflexivity]. apply N.eqb_eq in E. congruence.
Qed.

(** ** The numeric suffix of a response *)

Lemma star_space_end s (k : jsstring -> option captures) :
  (forall t, t <> [] -> k t = None) ->
  existsb (fun c => negb (isWhiteSpace c)) s = true ->
  star isWhiteSpace s k = None.
Proof.
  intros Hk. induction s as [|c s IH]; intros H; simpl in *; [discriminate|].
  destruct (isWhiteSpace c) eqn:E; simpl in H.
  - rewrite IH by exact H. apply Hk. discriminate.
  - apply Hk. discriminate.
Qed.

Lemma foreign_not_space s :
  existsb foreign s = true -> existsb (fun c => negb (isWhiteSpace c)) s = true.
Proof.
  rewrite !existsb_exists. intros (c & Hin & Hc). exists c. split; [exact Hin|].
  unfold foreign in Hc. apply negb_true_iff, orb_false_iff in Hc. now rewrite (proj2 Hc).
Qed.

Lemma star_numeric_foreign s (k : jsstring -> jsstring -> option captures) :
  (forall s' t, t <> [] -> k s' t = None) ->
  existsb foreign s = true ->
  star isNumeric s (fun s' => star isWhiteSpace s' (k s')) = None.
Proof.
  intros Hk. induction s as [|c s IH]; intros H; [discriminate|].
  cbn [star]. destruct (isNumeric c) eqn:E.
  - assert (H' : existsb foreign s = true).
    { simpl in H. unfold foreign at 1 in H. rewrite E in H. exact H. }
    rewrite IH by exact H'.
    exact (star_space_end (c :: s) (k (c :: s)) (Hk (c :: s)) (foreign_not_space _ H)).
  - exact (star_space_end (c :: s) (k (c :: s)) (Hk (c :: s)) (foreign_not_space _ H)).
Qed.

(** [NUMERIC_SUFFIX] does not match at the start of a string that holds
    a character which is neither numeric nor white space. *)
Lemma numeric_suffix_foreign s :
  existsb foreign s = true -> exec_here false NUMERIC_SUFFIX s = None.
Proof.
  intros H. unfold exec_here, NUMERIC_SUFFIX.
  destruct s as [|c s]; [reflexivity|]. cbn [m plus].
  destruct (isNumeric c) eqn:E; [|reflexivity].
  apply (star_numeric_foreign s
           (fun s' s'0 => match s'0 with
                          | [] => Some (firstn (List.length (c :: s) - List.length s'0) (c :: s)
                                        :: [] ++ [firstn (List.length (c :: s) - List.length s')
                                                    (c :: s)])
                          | _ :: _ => None
                          end)).
  - intros s' t Ht. destruct t; [contradiction | reflexivity].
  - simpl in H. unfold foreign at 1 in H. rewrite E in H. exact H.
Qed.

Lemma existsb_skipn_last {A} (f : A -> bool) pre x rest i :
  f x = true -> (i <= List.length pre)%nat ->
  existsb f (skipn i (pre ++ x :: rest)) = true.
Proof.
  intros Hx Hi. rewrite skipn_app. rewrite existsb_app.
  replace (i - List.length pre)%nat with 0%nat by lia. simpl. rewrite Hx.
  now rewrite orb_true_r.
Qed.

(** The response ends in [ = T] with [T] numeric: the match is [T]. *)
Lemma numeric_suffix_found pre T :
  T <> [] -> forallb isNumeric T = true ->
  search false NUMERIC_SUFFIX (pre ++ lit " = " ++ T) = Some [T; T].
Proof.
  intros Hne Hall.
  change (lit " = " ++ T) with (lit " =" ++ 32 :: T).
  rewrite app_assoc, search_skip.
  - rewrite search_next by reflexivity.
    apply search_here. unfold exec_here, NUMERIC_SUFFIX. cbn [m].
    rewrite <- (app_nil_r T) at 1. apply plus_run; auto; [exact I|].
    simpl. now rewrite !Nat.sub_0_r, !firstn_all.
  - intros i Hi. apply numeric_suffix_foreign.
    change (lit " =") with ([32] ++ [61]).
    rewrite app_assoc, <- (app_assoc (pre ++ [32])).
    apply existsb_skipn_last; [reflexivity|].
    rewrite !length_app in *. simpl in *. lia.
Qed.

(** ** Upper case and trimming leave the commands as they are *)

Lemma toUpperCase_app a b : toUpperCase (a ++ b) = toUpperCase a ++ toUpperCase b.
Proof. apply map_app. Qed.

Lemma isNumeric_upper c : isNumeric c = true -> upper c = c.
Proof.
  unfold isNumeric, isDigit, upper. intros H.
  destruct ((97 <=? c) && (c <=? 122)) eqn:E; [|reflexivity].
  apply andb_prop in E. destruct E as [E1 E2]. apply N.leb_le in E1, E2.
  apply orb_prop in H. destruct H as [H|H].
  - apply orb_prop in H. destruct H as [H|H].
    + apply N.eqb_eq in H. lia.
    + apply andb_prop in H. destruct H as [H1 H2]. apply N.leb_le in H1, H2. lia.
  - apply N.eqb_eq in H. lia.
Qed.

Lemma toUpperCase_numeric s : forallb isNumeric s = true -> toUpperCase s = s.
Proof.
  induction s as [|c s IH]; simpl; [reflexivity|].
  intros H. apply andb_prop in H. destruct H as [H1 H2].
  now rewrite isNumeric_upper, IH.
Qed.

Lemma isDigit_isNumeric c : isDigit c = true -> isNumeric c = true.
Proof. unfold isNumeric. intros ->. now rewrite orb_true_r. Qed.

Lemma digits_numeric s : forallb isDigit s = true -> forallb isNumeric s = true.
Proof.
  induction s as [|c s IH]; simpl; [reflexivity|].
  intros H. apply andb_prop in H. destruct H as [H1 H2].
  now rewrite isDigit_isNumeric, IH.
Qed.

Lemma isNumeric_not_space c : isNumeric c = true -> isWhiteSpace c = false.
Proof.
  unfold isNumeric, isDigit, isWhiteSpace. intros H.
  assert (R : 45 <= c <= 57).
  { apply orb_prop in H. destruct H as [H|H].
    - apply orb_prop in H. destruct H as [H|H].
      + apply N.eqb_eq in H. lia.
      + apply andb_prop in H. destruct H as [H1 H2]. apply N.leb_le in H1, H2. lia.
    - apply N.eqb_eq in H. lia. }
  repeat match goal with
         | |- context [?a =? ?b] =>
           let E := fresh in destruct (N.eqb_spec a b) as [E|E]; [lia|]
         end.
  destruct (N.leb_spec c 13); [lia|]. destruct (N.leb_spec c 8202); [|lia].
  destruct (N.leb_spec 8192 c); [lia|]. now rewrite !andb_false_r.
Qed.

Lemma dropWhile_rev_numeric pre T :
  T <> [] -> forallb isNumeric T = true ->
  dropWhile isWhiteSpace (rev (pre ++ T)) = rev (pre ++ T).
Proof.
  intros Hne Hall. rewrite rev_app_distr.
  destruct (rev T) as [|c r] eqn:E.
  - apply (f_equal (@rev _)) in E. rewrite rev_involutive in E. now subst.
  - simpl. assert (Hc : isNumeric c = true).
    { rewrite forallb_forall in Hall. apply Hall. apply in_rev. rewrite E. now left. }
    now rewrite isNumeric_not_space.
Qed.

(** A string that starts with a character that is not white space and
    ends in a numeric one is its own [trim]. *)
Lemma trim_numeric_end a pre T :
  isWhiteSpace a = false -> T <> [] -> forallb isNumeric T = true ->
  trim (a :: pre ++ T) = a :: pre ++ T.
Proof.
  intros Ha Hne Hall. unfold trim. cbn [dropWhile]. rewrite Ha.
  change (a :: pre ++ T) with ((a :: pre) ++ T).
  rewrite dropWhile_rev_numeric by assumption. apply rev_involutive.
Qed.

Lemma trim_keeps pre T :
  match pre with a :: _ => isWhiteSpace a = false | [] => False end ->
  T <> [] -> forallb isNumeric T = true ->
  trim (pre ++ T) = pre ++ T.
Proof.
  intros Hp Hne Hall. destruct pre as [|a pre]; [contradiction|].
  now apply trim_numeric_end.
Qed.

Lemma plus_all p run k r :
  run <> [] -> forallb p run = true -> k [] = Some r -> plus p run k = Some r.
Proof.
  intros Hne Hall Hk. rewrite <- (app_nil_r run). now apply plus_run.
Qed.

(** ** The commands of the public API against the simulator's patterns *)

Ltac regex_steps :=
  repeat first [ rewrite strip_app | rewrite alt_CHANNELS | rewrite alt_SOURCES ];
  cbv beta.

Ltac captured :=
  cbn [app]; rewrite ?Nat.sub_0_r, ?firstn_all, ?firstn_consumed; try reflexivity.

Section GetCommands.

Variable ch : Channel.
Variable D : jsstring.
Hypothesis D_nonempty : D <> [].
Hypothesis D_digits : forallb isDigit D = true.

Let GET_VU_cmd := lit "GET VU " ++ Channel_text ch ++ lit " " ++ D.
Let GET_GAIN_cmd := lit "GET GAIN " ++ Channel_text ch ++ lit " " ++ D.

Lemma GET_VU_matches :
  search false GET_VU GET_VU_cmd = Some [GET_VU_cmd; Channel_text ch; D].
Proof.
  apply search_here. unfold exec_here, GET_VU, GET_VU_cmd. cbn [m]. regex_steps.
  apply plus_all; auto.
  rewrite (firstn_consumed (Channel_text ch) (lit " " ++ D)). captured.
Qed.

Lemma GET_GAIN_matches :
  search false GET_GAIN GET_GAIN_cmd = Some [GET_GAIN_cmd; Channel_text ch; D].
Proof.
  apply search_here. unfold exec_here, GET_GAIN, GET_GAIN_cmd. cbn [m]. regex_steps.
  apply plus_all; auto.
  rewrite (firstn_consumed (Channel_text ch) (lit " " ++ D)). captured.
Qed.

Lemma GET_VU_not_on_GET_GAIN : search false GET_VU GET_GAIN_cmd = None.
Proof.
  unfold GET_GAIN_cmd. literals. cbn [app].
  rewrite search_next by reflexivity.
  apply (search_no_pair 71 69).
  channel_cases ch; simpl;
    rewrite <- (app_nil_r D);
    (rewrite has_pair_skip by (apply digits_not; [reflexivity | exact D_digits]));
    reflexivity.
Qed.

Lemma upper_GET_VU : trim (toUpperCase GET_VU_cmd) = GET_VU_cmd.
Proof.
  unfold GET_VU_cmd. rewrite !toUpperCase_app.
  rewrite (toUpperCase_numeric D) by (now apply digits_numeric).
  replace (toUpperCase (Channel_text ch)) with (Channel_text ch) by (now destruct ch).
  change (toUpperCase (lit "GET VU ")) with (lit "GET VU ").
  change (toUpperCase (lit " ")) with (lit " ").
  rewrite !app_assoc. apply trim_keeps; auto; [now destruct ch | now apply digits_numeric].
Qed.

Lemma upper_GET_GAIN : trim (toUpperCase GET_GAIN_cmd) = GET_GAIN_cmd.
Proof.
  unfold GET_GAIN_cmd. rewrite !toUpperCase_app.
  rewrite (toUpperCase_numeric D) by (now apply digits_numeric).
  replace (toUpperCase (Channel_text ch)) with (Channel_text ch) by (now destruct ch).
  change (toUpperCase (lit "GET GAIN ")) with (lit "GET GAIN ").
  change (toUpperCase (lit " ")) with (lit " ").
  rewrite !app_assoc. apply trim_keeps; auto; [now destruct ch | now apply digits_numeric].
Qed.

Lemma simulate_GET_VU c :
  simulateResponse GET_VU_cmd c =
  (lit "VU " ++ Channel_text ch ++ lit " " ++ D ++ lit " = "
     ++ toFixed1 (orElse (Map_get string_eqb (Channel_text ch ++ lit ":" ++ D)
                            (simulatorVU c)) (Num (-40))), c).
Proof.
  unfold simulateResponse. rewrite upper_GET_VU, GET_VU_matches. reflexivity.
Qed.

Lemma simulate_GET_GAIN c :
  simulateResponse GET_GAIN_cmd c =
  (lit "GAIN " ++ Channel_text ch ++ lit " " ++ D ++ lit " = "
     ++ toFixed1 (orElse (Map_get string_eqb (Channel_text ch ++ lit ":" ++ D)
                            (simulatorGains c)) (Num (-10))), c).
Proof.
  unfold simulateResponse.
  rewrite upper_GET_GAIN, GET_VU_not_on_GET_GAIN, GET_GAIN_matches. reflexivity.
Qed.

End GetCommands.

Section SetCommands.

Variable ch : Channel.
Variables D T : jsstring.
Hypothesis D_nonempty : D <> [].
Hypothesis D_digits : forallb isDigit D = true.
Hypothesis T_nonempty : T <> [].
Hypothesis T_numeric : forallb isNumeric T = true.

Let SET_GAIN_cmd := lit "SET GAIN " ++ Channel_text ch ++ lit " " ++ D ++ lit " = " ++ T.

Lemma SET_GAIN_matches :
  search false SET_GAIN SET_GAIN_cmd = Some [SET_GAIN_cmd; Channel_text ch; D; T].
Proof.
  apply search_here. unfold exec_here, SET_GAIN, SET_GAIN_cmd. cbn [m]. regex_steps.
  apply plus_run; auto; [reflexivity|]. regex_steps.
  apply plus_all; auto.
  rewrite (firstn_consumed (Channel_text ch) (lit " " ++ D ++ lit " = " ++ T)).
  rewrite (firstn_consumed D (lit " = " ++ T)). captured.
Qed.

Lemma no_GE_in_SET_GAIN : has_pair 71 69 SET_GAIN_cmd = false.
Proof.
  unfold SET_GAIN_cmd. channel_cases ch; simpl;
    (rewrite has_pair_skip by (apply digits_not; [reflexivity | exact D_digits]));
    simpl; rewrite <- (app_nil_r T);
    (rewrite has_pair_skip by (apply numeric_not; [reflexivity | exact T_numeric]));
    reflexivity.
Qed.

Lemma GET_VU_not_on_SET_GAIN : search false GET_VU SET_GAIN_cmd = None.
Proof. apply (search_no_pair 71 69). apply no_GE_in_SET_GAIN. Qed.

Lemma GET_GAIN_not_on_SET_GAIN : search false GET_GAIN SET_GAIN_cmd = None.
Proof. apply (search_no_pair 71 69). apply no_GE_in_SET_GAIN. Qed.

Lemma upper_SET_GAIN : trim (toUpperCase SET_GAIN_cmd) = SET_GAIN_cmd.
Proof.
  unfold SET_GAIN_cmd. rewrite !toUpperCase_app.
  rewrite (toUpperCase_numeric D) by (now apply digits_numeric).
  rewrite (toUpperCase_numeric T) by exact T_numeric.
  replace (toUpperCase (Channel_text ch)) with (Channel_text ch) by (now destruct ch).
  change (toUpperCase (lit "SET GAIN ")) with (lit "SET GAIN ").
  change (toUpperCase (lit " = ")) with (lit " = ").
  change (toUpperCase (lit " ")) with (lit " ").
  rewrite !app_assoc. apply trim_keeps; auto. now destruct ch.
Qed.

Lemma simulate_SET_GAIN c :
  simulateResponse SET_GAIN_cmd c =
  (lit "OK GAIN " ++ Channel_text ch ++ lit " " ++ D ++ lit " = " ++ T,
   set_simulatorGains
     (Map_set string_eqb (Channel_text ch ++ lit ":" ++ D) (parseFloat T)
        (simulatorGains c)) c).
Proof.
  unfold simulateResponse.
  rewrite upper_SET_GAIN, GET_VU_not_on_SET_GAIN, GET_GAIN_not_on_SET_GAIN,
    SET_GAIN_matches. reflexivity.
Qed.

End SetCommands.

End RegexFacts.

(* ====================================================================== *)
(** * Proofs: printing and parsing levels *)
(* ====================================================================== *)

Module NumberFacts.
Import Js Regex Matrix JsFacts RegexFacts.

Lemma takeWhile_stop p x : forall rest,
  forallb p x = true -> ends_run p rest -> takeWhile p (x ++ rest) = x.
Proof.
  induction x as [|c x IH]; intros rest H E; simpl in *.
  - destruct rest; [reflexivity|]. simpl in *. now rewrite E.
  - apply andb_prop in H. destruct H as [H1 H2]. rewrite H1. f_equal. now apply IH.
Qed.

Lemma dropWhile_stop p x : forall rest,
  forallb p x = true -> ends_run p rest -> dropWhile p (x ++ rest) = rest.
Proof.
  induction x as [|c x IH]; intros rest H E; simpl in *.
  - destruct rest; [reflexivity|]. simpl in *. now rewrite E.
  - apply andb_prop in H. destruct H as [H1 H2]. rewrite H1. now apply IH.
Qed.

Lemma Number_toString_digit b :
  (b < 10)%N -> exists d, Number_toString b = [d] /\ isDigit d = true.
Proof.
  intros H.
  assert (C : (b = 0 \/ b = 1 \/ b = 2 \/ b = 3 \/ b = 4 \/ b = 5 \/ b = 6 \/ b = 7
              \/ b = 8 \/ b = 9)%N) by lia.
  repeat (destruct C as [->|C]; [eexists; split; reflexivity|]).
  subst. eexists; split; reflexivity.
Qed.

Lemma parse_Number_toString n : N.of_uint (uint_of_digits (Number_toString n)) = n.
Proof.
  unfold Number_toString. rewrite uint_of_digits_of_uint. apply DecimalN.Unsigned.of_to.
Qed.

(** The text of [toFixed(1)] reads back as the rounded value. *)
Lemma parseFloat_toFixed1 q :
  parseFloat (toFixed1 (Num q)) =
  Num (Qmake (if (Qnum q <? 0)%Z then - Z.of_N (tenths q) else Z.of_N (tenths q)) 10).
Proof.
  unfold toFixed1. set (n := tenths q).
  destruct (Number_toString_digit (n mod 10)) as (d & Hd & Hdd);
    [apply N.mod_lt; discriminate|].
  rewrite Hd.
  assert (Hb : N.of_uint (uint_of_digits [d]) = (n mod 10)%N)
    by (rewrite <- Hd; apply parse_Number_toString).
  pose proof (Number_toString_isDigit (n / 10)) as Ha.
  pose proof (Number_toString_nonempty (n / 10)) as Hne.
  pose proof (parse_Number_toString (n / 10)) as Hp.
  assert (Hend : ends_run isDigit ([46%N] ++ [d])) by reflexivity.
  assert (V : (Z.of_N (n / 10) * 10 + Z.of_N (n mod 10) = Z.of_N n)%Z).
  { rewrite (N.div_mod n 10) at 3 by discriminate. lia. }
  assert (G : forall neg,
    decimalLiteral neg (Number_toString (n / 10) ++ [46%N] ++ [d]) =
    Num (Qmake (if neg then - Z.of_N n else Z.of_N n) 10)).
  { intros neg. unfold decimalLiteral.
    rewrite takeWhile_stop, dropWhile_stop by assumption.
    cbn [app N.eqb Pos.eqb]. cbn [takeWhile]. rewrite Hdd.
    destruct (Number_toString (n / 10)) as [|c0 r] eqn:E; [contradiction|].
    rewrite Hp, Hb. cbn [List.length pow10]. change (10 * 1)%positive with 10%positive.
    rewrite V. reflexivity. }
  unfold parseFloat. destruct (Qnum q <? 0)%Z.
  - cbn [app N.eqb Pos.eqb]. apply (G true).
  - cbn [app]. destruct (Number_toString (n / 10)) as [|c0 r] eqn:E; [contradiction|].
    cbn [app]. assert (Hc : (c0 =? 45)%N = false).
    { simpl in Ha. apply andb_prop in Ha. destruct Ha as [Ha _].
      unfold isDigit in Ha. apply andb_prop in Ha. destruct Ha as [H1 H2].
      apply N.leb_le in H1. apply N.eqb_neq. lia. }
    rewrite Hc. apply (G false).
Qed.

Lemma toFixed1_numeric q :
  toFixed1 (Num q) <> [] /\ forallb isNumeric (toFixed1 (Num q)) = true.
Proof.
  unfold toFixed1. set (n := tenths q).
  pose proof (Number_toString_isDigit (n / 10)) as Ha.
  pose proof (Number_toString_isDigit (n mod 10)) as Hb.
  pose proof (Number_toString_nonempty (n / 10)) as Hne.
  split.
  - destruct (Qnum q <? 0)%Z; [discriminate|]. cbn [app].
    destruct (Number_toString (n / 10)); [contradiction | discriminate].
  - rewrite !forallb_app. cbn [forallb app].
    rewrite (RegexFacts.digits_numeric _ Ha), (RegexFacts.digits_numeric _ Hb).
    destruct (Qnum q <? 0)%Z; reflexivity.
Qed.

(** Rounding to one decimal stays within integer bounds around zero. *)
Lemma round_within (L H : Z) q :
  (L <= 0 <= H)%Z ->
  within (inject_Z L) (inject_Z H) (Num q) ->
  within (inject_Z L) (inject_Z H) (parseFloat (toFixed1 (Num q))).
Proof.
  intros [HL HH] [H1 H2]. rewrite parseFloat_toFixed1.
  unfold within, Qle, inject_Z, tenths in *. destruct q as [num den]. cbn [Qnum Qden] in *.
  assert (Dpos : (0 < 2 * Zpos den)%Z) by lia.
  destruct (Z.ltb_spec num 0) as [Hneg|Hpos]; cbn [Qnum Qden].
  - assert (B : ((20 * Z.abs num + Zpos den) / (2 * Zpos den) < - 10 * L + 1)%Z).
    { apply Z.div_lt_upper_bound; [exact Dpos|]. nia. }
    assert (P : (0 <= (20 * Z.abs num + Zpos den) / (2 * Zpos den))%Z)
      by (apply Z.div_pos; lia).
    rewrite Z2N.id by exact P. split; lia.
  - assert (B : ((20 * Z.abs num + Zpos den) / (2 * Zpos den) < 10 * H + 1)%Z).
    { apply Z.div_lt_upper_bound; [exact Dpos|]. nia. }
    assert (P : (0 <= (20 * Z.abs num + Zpos den) / (2 * Zpos den))%Z)
      by (apply Z.div_pos; lia).
    rewrite Z2N.id by exact P. split; lia.
Qed.

(** Printing a value that has one decimal and reading it back gives the
    same value. *)
Lemma round_idem q :
  parseFloat (toFixed1 (parseFloat (toFixed1 (Num q)))) = parseFloat (toFixed1 (Num q)).
Proof.
  rewrite (parseFloat_toFixed1 q).
  set (z := if (Qnum q <? 0)%Z then (- Z.of_N (tenths q))%Z else Z.of_N (tenths q)).
  rewrite parseFloat_toFixed1. unfold tenths at 1 2. cbn [Qnum Qden].
  assert (E : ((20 * Z.abs z + 10) / (2 * 10) = Z.abs z)%Z).
  { symmetry. apply (Z.div_unique _ _ _ 10); lia. }
  change (Z.pos 10) with 10%Z. rewrite E. rewrite Z2N.id by lia.
  do 2 f_equal. destruct (Z.ltb_spec z 0); lia.
Qed.

(** ** Where [/([-\d.]+)\s*$/] matches *)

Lemma takeWhile_dropWhile p s : takeWhile p s ++ dropWhile p s = s.
Proof. induction s as [|c s IH]; simpl; [reflexivity|]. destruct (p c); simpl; congruence. Qed.

Lemma takeWhile_forallb p s : forallb p (takeWhile p s) = true.
Proof. induction s as [|c s IH]; simpl; [reflexivity|]. destruct (p c) eqn:E; simpl; [now rewrite E|reflexivity]. Qed.

Lemma dropWhile_head p s : ends_run p (dropWhile p s).
Proof. induction s as [|c s IH]; simpl; [exact I|]. destruct (p c) eqn:E; [exact IH | exact E]. Qed.

Lemma isWhiteSpace_not_numeric c : isWhiteSpace c = true -> isNumeric c = false.
Proof.
  intros H. destruct (isNumeric c) eqn:E; [|reflexivity].
  apply isNumeric_not_space in E. congruence.
Qed.

(** [\s*$]: the rest is white space to its end. *)
Lemma star_space_all s (k : jsstring -> option captures) :
  (forall t, t <> [] -> k t = None) ->
  star isWhiteSpace s k = if forallb isWhiteSpace s then k [] else None.
Proof.
  intros Hk. induction s as [|c s IH]; simpl; [reflexivity|].
  destruct (isWhiteSpace c); simpl.
  - rewrite IH. destruct (forallb isWhiteSpace s); [destruct (k [])|]; auto.
    + apply Hk. discriminate.
    + apply Hk. discriminate.
  - apply Hk. discriminate.
Qed.

(** [[-\d.]+] before [\s*$]: only the longest run can be followed by
    white space, so giving characters back never helps. *)
Lemma star_numeric_longest s (F : jsstring -> option captures) :
  (forall c t, isNumeric c = true -> F (c :: t) = None) ->
  star isNumeric s F = F (dropWhile isNumeric s).
Proof.
  intros HF. induction s as [|c s IH]; simpl; [reflexivity|].
  destruct (isNumeric c) eqn:E; [|reflexivity].
  rewrite IH. destruct (F (dropWhile isNumeric s)); [reflexivity|]. now apply HF.
Qed.

Lemma firstn_takeWhile p s :
  firstn (List.length s - List.length (dropWhile p s)) s = takeWhile p s.
Proof.
  rewrite <- (takeWhile_dropWhile p s) at 1 3. apply firstn_consumed.
Qed.

(** A match of the expression at the start of [s]: [s] is a run of
    numeric characters followed by white space only. *)
Lemma exec_NUMERIC_SUFFIX s :
  exec_here false NUMERIC_SUFFIX s =
  match takeWhile isNumeric s with
  | [] => None
  | _ :: _ =>
    if forallb isWhiteSpace (dropWhile isNumeric s)
    then Some [s; takeWhile isNumeric s] else None
  end.
Proof.
  unfold exec_here, NUMERIC_SUFFIX. cbn [m]. destruct s as [|c s]; [reflexivity|].
  cbn [plus takeWhile dropWhile]. destruct (isNumeric c) eqn:E; [|reflexivity].
  rewrite star_numeric_longest.
  - rewrite star_space_all by (intros [|x t] Ht; [contradiction | reflexivity]).
    destruct (forallb isWhiteSpace (dropWhile isNumeric s)); [|reflexivity].
    cbn [app]. rewrite Nat.sub_0_r, firstn_all.
    pose proof (firstn_takeWhile isNumeric (c :: s)) as G.
    cbn [takeWhile dropWhile] in G. rewrite E in G. now rewrite G.
  - intros x t Hx.
    rewrite star_space_all by (intros [|y u] Hu; [contradiction | reflexivity]).
    cbn [forallb]. now rewrite (isNumeric_not_space x Hx).
Qed.

Lemma dropWhile_keeps p x (d : N) y :
  p d = false -> exists z, dropWhile p (x ++ d :: y) = z ++ d :: y.
Proof.
  intros Hd. induction x as [|c x IH]; simpl.
  - rewrite Hd. now exists [].
  - destruct (p c); [exact IH|]. now exists (c :: x).
Qed.

(** No match starts before a character that is not numeric and is
    followed by a numeric one. *)
Lemma exec_none_before x d T rest :
  isNumeric d = false -> T <> [] -> forallb isNumeric T = true ->
  exec_here false NUMERIC_SUFFIX (x ++ d :: T ++ rest) = None.
Proof.
  intros Hd Hne Hall. rewrite exec_NUMERIC_SUFFIX.
  destruct (takeWhile isNumeric (x ++ d :: T ++ rest)); [reflexivity|].
  destruct (dropWhile_keeps isNumeric x d (T ++ rest) Hd) as (z & ->).
  destruct T as [|t T]; [contradiction|]. simpl in Hall.
  apply andb_prop in Hall. destruct Hall as [Ht _].
  rewrite forallb_app. cbn [forallb app]. rewrite (isNumeric_not_space t Ht).
  now rewrite !andb_false_r.
Qed.

Lemma space_ends_numeric ws : forallb isWhiteSpace ws = true -> ends_run isNumeric ws.
Proof.
  destruct ws as [|w ws]; simpl; [trivial|]. intros H. apply andb_prop in H.
  apply isWhiteSpace_not_numeric. tauto.
Qed.

Lemma search_space ws :
  forallb isWhiteSpace ws = true -> search false NUMERIC_SUFFIX ws = None.
Proof.
  induction ws as [|w ws IH]; [reflexivity|]. intros H. simpl in H.
  apply andb_prop in H. destruct H as [H1 H2].
  rewrite search_next; [now apply IH|].
  rewrite exec_NUMERIC_SUFFIX. cbn [takeWhile].
  now rewrite (isWhiteSpace_not_numeric w H1).
Qed.

(** The leftmost match is the numeric run that ends at the trailing
    white space. *)
Lemma search_found pre T ws :
  T <> [] -> forallb isNumeric T = true -> forallb isWhiteSpace ws = true ->
  pre = [] \/ (exists pre' d, pre = pre' ++ [d] /\ isNumeric d = false) ->
  search false NUMERIC_SUFFIX (pre ++ T ++ ws) = Some [T ++ ws; T].
Proof.
  intros Hne Hall Hws Hpre. rewrite search_skip.
  - apply search_here. rewrite exec_NUMERIC_SUFFIX.
    rewrite takeWhile_stop, dropWhile_stop, Hws by auto using space_ends_numeric.
    destruct T; [contradiction | reflexivity].
  - intros i Hi. destruct Hpre as [->|(pre' & d & -> & Hd)]; [simpl in Hi; lia|].
    rewrite <- app_assoc. cbn [app]. rewrite skipn_app.
    rewrite length_app in Hi. simpl in Hi.
    replace (i - List.length pre')%nat with 0%nat by lia. cbn [skipn].
    now apply exec_none_before.
Qed.

Lemma search_none pre ws :
  forallb isWhiteSpace ws = true ->
  pre = [] \/ (exists pre' d, pre = pre' ++ [d] /\ foreign d = true) ->
  search false NUMERIC_SUFFIX (pre ++ ws) = None.
Proof.
  intros Hws Hpre. rewrite search_skip; [now apply search_space|].
  intros i Hi. destruct Hpre as [->|(pre' & d & -> & Hd)]; [simpl in Hi; lia|].
  apply numeric_suffix_foreign. rewrite <- app_assoc. cbn [app].
  apply existsb_skipn_last; [exact Hd|]. rewrite length_app in Hi. simpl in Hi. lia.
Qed.

Lemma forallb_rev {A} (p : A -> bool) l : forallb p l = true -> forallb p (rev l) = true.
Proof.
  rewrite !forallb_forall. intros H x Hx. apply H. now apply in_rev.
Qed.

(** A response is what precedes its numeric suffix, the suffix, and
    white space. *)
Lemma numericSuffix_split s :
  exists pre ws,
    s = pre ++ numericSuffix s ++ ws /\
    forallb isNumeric (numericSuffix s) = true /\
    forallb isWhiteSpace ws = true /\
    (pre = [] \/
     exists pre' d, pre = pre' ++ [d] /\ isNumeric d = false /\
                    (numericSuffix s = [] -> foreign d = true)).
Proof.
  unfold numericSuffix. set (r := rev s).
  set (r1 := dropWhile isWhiteSpace r).
  exists (rev (dropWhile isNumeric r1)), (rev (takeWhile isWhiteSpace r)).
  split; [|split; [|split]].
  - rewrite <- !rev_app_distr, <- app_assoc, takeWhile_dropWhile.
    subst r1. rewrite takeWhile_dropWhile. subst r. now rewrite rev_involutive.
  - apply forallb_rev, takeWhile_forallb.
  - apply forallb_rev, takeWhile_forallb.
  - pose proof (dropWhile_head isNumeric r1) as H.
    destruct (dropWhile isNumeric r1) as [|d r2] eqn:E; [now left|].
    right. exists (rev r2), d. split; [reflexivity|]. split; [exact H|].
    intros HT. apply (f_equal (@rev _)) in HT. rewrite rev_involutive in HT. simpl in HT.
    pose proof (takeWhile_dropWhile isNumeric r1) as G. rewrite HT, E in G. simpl in G.
    pose proof (dropWhile_head isWhiteSpace r) as W. fold r1 in W. rewrite <- G in W.
    simpl in W. unfold foreign. simpl in H. now rewrite H, W.
Qed.

(** [/([-\d.]+)\s*$/] finds the numeric suffix, and nothing when the
    response has none. *)
Lemma search_NUMERIC_SUFFIX s :
  option_map (group 1) (search false NUMERIC_SUFFIX s) =
  match numericSuffix s with
  | [] => None
  | _ :: _ => Some (numericSuffix s)
  end.
Proof.
  destruct (numericSuffix_split s) as (pre & ws & E & HT & Hws & Hpre).
  destruct (numericSuffix s) as [|t T] eqn:ET.
  - rewrite E. cbn [app]. rewrite search_none; [reflexivity | exact Hws |].
    destruct Hpre as [->|(pre' & d & -> & _ & Hd)]; [now left|].
    right. exists pre', d. auto.
  - rewrite E, search_found; [reflexivity | discriminate | exact HT | exact Hws |].
    destruct Hpre as [->|(pre' & d & -> & Hd & _)]; [now left|].
    right. exists pre', d. auto.
Qed.

(** What [getGain], [getSend] and [getVU] make of a response: the
    number its numeric suffix reads as, and -60 when it has none. *)
Lemma numericReply_suffix resp :
  numericReply resp =
  match numericSuffix resp with
  | [] => Num (-60)
  | _ :: _ => parseFloat (numericSuffix resp)
  end.
Proof.
  pose proof (search_NUMERIC_SUFFIX resp) as H. unfold numericReply.
  destruct (search false NUMERIC_SUFFIX resp) as [mt|]; simpl in H;
    destruct (numericSuffix resp); congruence.
Qed.

End NumberFacts.

(* ====================================================================== *)
(** * Proofs: gains and VU levels *)
(* ====================================================================== *)

Module LevelFacts.
Import Js Regex Matrix JsFacts MatrixFacts RegexFacts NumberFacts.
Local Open Scope Q_scope.

(** ** Clamping *)

Lemma clamp_Num q : exists q', clamp (Num q) = Num q' /\ -60 <= q' /\ q' <= 10.
Proof.
  unfold clamp, Math_min, Math_max.
  destruct (Qle_bool 10 q) eqn:E1.
  - destruct (Qle_bool (-60) 10) eqn:E2; [|discriminate].
    exists 10. repeat split; [discriminate | apply Qle_refl].
  - destruct (Qle_bool (-60) q) eqn:E2.
    + exists q. repeat split.
      * now apply Qle_bool_iff.
      * apply Qlt_le_weak, Qnot_le_lt. intros H. apply Qle_bool_iff in H. congruence.
    + exists (-60). repeat split; [apply Qle_refl | discriminate].
Qed.

Lemma clamp_within q : within (-60) 10 (clamp (Num q)).
Proof. destruct (clamp_Num q) as (q' & -> & H1 & H2). now split. Qed.

Lemma clamp_NaN : clamp NaN = NaN.
Proof. reflexivity. Qed.

(** The infinities are clamped to the bounds, so every argument that is
    not [NaN] is clamped to a finite value. *)
Lemma clamp_number x :
  x <> NaN -> exists q', clamp x = Num q' /\ -60 <= q' /\ q' <= 10.
Proof.
  destruct x as [|q|[|]]; intros H.
  - contradiction.
  - apply clamp_Num.
  - exists (-60). repeat split; [apply Qle_refl | discriminate].
  - exists 10. repeat split; [discriminate | apply Qle_refl].
Qed.

Lemma sent_within x : x <> NaN -> within (-60) 10 (parseFloat (toFixed1 (clamp x))).
Proof.
  intros H. destruct (clamp_number x H) as (q' & -> & H1 & H2).
  apply (round_within (-60) 10); [lia | now split].
Qed.

(** ** The simulator *)

Lemma sendRaw_sim random command c :
  simulatorMode (config c) = true ->
  sendRaw random command c =
  (List.length (promises c),
   let sim := simulateResponse command (set_promises (promises c ++ [None]) c) in
   snd (setTimeout (cb_resolve (List.length (promises c)) (fst sim))
          (10 + random (drawn (snd sim)) * 20)
          (set_drawn (S (drawn (snd sim))) (snd sim)))).
Proof.
  intros S. unfold sendRaw. cbn [newPromise config set_promises]. rewrite S.
  destruct (simulateResponse command _) as [resp cs]. reflexivity.
Qed.

Lemma string_eqb_refl s : string_eqb s s = true.
Proof. induction s as [|c s IH]; simpl; [reflexivity|]. now rewrite N.eqb_refl. Qed.

Lemma Map_get_set_string {V} k (v : V) mp :
  Map_get string_eqb k (Map_set string_eqb k v mp) = Some v.
Proof.
  induction mp as [|[k' v'] mp IH]; simpl.
  - now rewrite string_eqb_refl.
  - destruct (string_eqb k' k) eqn:E; simpl; now rewrite E.
Qed.

Lemma Map_get_In_string {V} k (v : V) mp :
  Map_get string_eqb k mp = Some v -> exists k', In (k', v) mp.
Proof.
  induction mp as [|[k' v'] mp IH]; simpl; [discriminate|].
  destruct (string_eqb k' k).
  - intros E; inversion E; subst. exists k'. now left.
  - intros E. destruct (IH E) as (k'' & H). exists k''. now right.
Qed.

(** What [numericReply] makes of a response that ends in [ = ] and the
    text of [toFixed(1)]. *)
Lemma numericReply_toFixed1 pre q :
  numericReply (pre ++ lit " = " ++ toFixed1 (Num q)) = parseFloat (toFixed1 (Num q)).
Proof.
  destruct (toFixed1_numeric q) as [Hne Hall].
  unfold numericReply. now rewrite numeric_suffix_found.
Qed.

(** [setGain] in simulator mode: the gain stored. *)
Lemma setGain_sim_stored random ch num x c :
  simulatorMode (config c) = true -> x <> NaN ->
  let c1 := snd (setGain random ch num x c) in
  simulatorMode (config c1) = true /\
  Map_get string_eqb (Channel_text ch ++ lit ":" ++ Number_toString num) (simulatorGains c1)
  = Some (parseFloat (toFixed1 (clamp x))).
Proof.
  intros S Hx. cbv zeta. unfold setGain.
  destruct (clamp_number x Hx) as (q' & E & _). rewrite E.
  destruct (toFixed1_numeric q') as [Hne Hall].
  rewrite sendRaw_sim by exact S. cbv zeta.
  rewrite (simulate_SET_GAIN ch (Number_toString num) (toFixed1 (Num q'))
             (Number_toString_nonempty num) (Number_toString_isDigit num) Hne Hall).
  cbn. split; [exact S | apply Map_get_set_string].
Qed.

(** ** The VU values of the simulator stay in [-60, 0] *)

Lemma Map_set_In {K V} (eqb : K -> K -> bool) k (v : V) key nv mp :
  In (k, v) (Map_set eqb key nv mp) -> v = nv \/ In (k, v) mp.
Proof.
  induction mp as [|[k' v'] mp IH]; simpl.
  - intros [E|[]]. inversion E. now left.
  - destruct (eqb k' key); simpl.
    + intros [E|H]; [inversion E; now left | right; now right].
    + intros [E|H]; [right; now left|]. destruct (IH H); [now left | right; now right].
Qed.

Lemma walk_within v r :
  within (-60) 0 v ->
  within (-60) 0
    (Math_max (Num (-60)) (Math_min (Num 0) (add v (mul (sub (Num r) (Num 0.5)) (Num 4))))).
Proof.
  destruct v as [|q|s]; [contradiction| |contradiction]. intros _.
  cbn [sub mul add]. set (y := q + (r - 0.5) * 4). unfold Math_min, Math_max.
  destruct (Qle_bool 0 y) eqn:E1.
  - destruct (Qle_bool (-60) 0) eqn:E2; [|discriminate].
    split; [discriminate | apply Qle_refl].
  - destruct (Qle_bool (-60) y) eqn:E2.
    + split; [now apply Qle_bool_iff|].
      apply Qlt_le_weak, Qnot_le_lt. intros H. apply Qle_bool_iff in H. congruence.
    + split; [apply Qle_refl | discriminate].
Qed.

Lemma vu_walk_in_range random c : vu_in_range c -> vu_in_range (vu_walk random c).
Proof.
  intros H. unfold vu_walk.
  assert (G : forall (es : list (list N * number)) c0,
    (forall e, In e es -> within (-60) 0 (snd e)) -> vu_in_range c0 ->
    vu_in_range (fold_left (fun c e =>
      let (r, c) := Math_random random c in
      let newVal :=
        Math_max (Num (-60))
          (Math_min (Num 0) (add (snd e) (mul (sub (Num r) (Num 0.5)) (Num 4)))) in
      set_simulatorVU (Map_set string_eqb (fst e) newVal (simulatorVU c)) c) es c0)).
  { induction es as [|e es IH]; intros c0 Hes H0; cbn [fold_left]; [exact H0|].
    apply IH; [intros e' He'; apply Hes; now right|].
    intros k v Hin. cbn in Hin. apply Map_set_In in Hin. destruct Hin as [->|Hin].
    - apply walk_within. apply Hes. now left.
    - now apply (H0 k). }
  apply G; [|exact H]. intros [k v] Hin. now apply (H k).
Qed.

Section RandomRange.

Variable random : nat -> Q.

(** [Math.random()] returns a number in [0, 1). *)
Hypothesis random_range : forall i, 0 <= random i /\ random i < 1.

Lemma initInputs_in_range c : vu_in_range c -> vu_in_range (initInputs random c).
Proof.
  unfold initInputs. generalize (range 1 20) as ns. intros ns. revert c.
  induction ns as [|i ns IH]; intros c0 H0; cbn [fold_left]; [exact H0|].
  apply IH. intros k v Hin. cbn in Hin. apply Map_set_In in Hin. destruct Hin as [->|Hin].
  - destruct (random_range (drawn c0)). split; Lqa.lra.
  - now apply (H0 k).
Qed.

Lemma initOutputs_in_range c : vu_in_range c -> vu_in_range (initOutputs random c).
Proof.
  unfold initOutputs. generalize (range 1 8) as ns. intros ns. revert c.
  induction ns as [|i ns IH]; intros c0 H0; cbn [fold_left]; [exact H0|].
  apply IH. intros k v Hin. cbn in Hin. apply Map_set_In in Hin. destruct Hin as [->|Hin].
  - destruct (random_range (drawn c0)). split; Lqa.lra.
  - now apply (H0 k).
Qed.

Lemma initStereoInputs_simulatorVU c : simulatorVU (initStereoInputs c) = simulatorVU c.
Proof.
  unfold initStereoInputs. generalize (range 1 3) as ns. intros ns. revert c.
  induction ns as [|i ns IH]; intros c0; cbn [fold_left]; [reflexivity|].
  now rewrite IH.
Qed.

Lemma simulatorVU_started c :
  simulatorVU (emit ev_connected (set_connected true (snd (setInterval cb_vu 100 c)))) =
  simulatorVU c.
Proof. destruct c; reflexivity. Qed.

Lemma initSimulator_simulatorVU c :
  simulatorVU (initSimulator random c) =
  simulatorVU (initOutputs random (initInputs random c)).
Proof.
  unfold initSimulator.
  generalize (initInputs random c) as c1. intros c1.
  generalize (initOutputs random c1) as c2. intros c2.
  rewrite <- (initStereoInputs_simulatorVU c2).
  generalize (initStereoInputs c2) as c3. intros c3.
  destruct c3; reflexivity.
Qed.

Lemma initSimulator_in_range c :
  vu_in_range c -> vu_in_range (initSimulator random c).
Proof.
  intros H k v Hin. rewrite initSimulator_simulatorVU in Hin. revert k v Hin.
  now apply initOutputs_in_range, initInputs_in_range.
Qed.

Lemma create_in_range over now : vu_in_range (create random over now).
Proof.
  unfold create. cbn [config].
  destruct (simulatorMode (spread DEFAULT_CONFIG over)).
  - apply initSimulator_in_range. intros k v [].
  - intros k v [].
Qed.

End RandomRange.

Lemma sendRaw_simulatorVU random command c :
  simulatorVU (snd (sendRaw random command c)) = simulatorVU c.
Proof.
  unfold sendRaw. cbn [newPromise].
  destruct (simulatorMode (config c)) eqn:S; cbn [config set_promises]; rewrite S.
  - match goal with |- context [simulateResponse command ?c1] =>
      pose proof (simulateResponse_frame command c1) as F;
      destruct (simulateResponse command c1) as [resp c2] end.
    cbn in F. destruct F as (_ & _ & _ & _ & _ & _ & _ & _ & _ & F & _).
    cbn. exact F.
  - cbn [connected set_promises]. destruct (connected c); cbn [negb]; cbn;
      [destruct (protocol (config c)); [destruct (tcpClient c)|destruct (udpClient c)]|];
      reflexivity.
Qed.

Lemma handleResponse_simulatorVU data c :
  simulatorVU (handleResponse data c) = simulatorVU c.
Proof.
  unfold handleResponse. generalize (split 10%N (trim data)) as ls. intros ls. revert c.
  induction ls as [|l ls IH]; intros c; simpl; [reflexivity|].
  rewrite IH. unfold handleLine. destruct (trim l) as [|x r]; [reflexivity|].
  rewrite resolvePending_eq, resolve_fold.
  destruct (search true VU_LINE (x :: r)); reflexivity.
Qed.

Lemma step_in_range random k c c' :
  vu_in_range c -> step random k c = Some c' -> vu_in_range c'.
Proof.
  intros H Hs. unfold vu_in_range in *.
  destruct k; cbn [step] in Hs;
    try (inversion Hs; subst; clear Hs;
         unfold setGain, getGain, setSend, getSend, setMute, getVU, setPreset, getPreset;
         rewrite ?sendRaw_simulatorVU; exact H).
  - inversion Hs; subst. unfold connect.
    destruct (simulatorMode (config c)); [|destruct (protocol (config c))]; exact H.
  - inversion Hs; subst. unfold disconnect. destruct (reconnectTimer c); exact H.
  - inversion Hs; subst. destruct e as [ | data | [|] | | | msg | ]; cbn [on_socket];
      rewrite ?handleResponse_simulatorVU; try exact H;
      unfold scheduleReconnect; cbn; destruct (reconnectTimer c); exact H.
  - destruct (find_timer h c) as [tm|]; [|discriminate].
    destruct (Qle_bool (due tm) (clock c)); inversion Hs; subst; clear Hs.
    unfold fire.
    set (c1 := match every tm with
               | Some period => _
               | None => clearTimeout (handle tm) c
               end).
    assert (H1 : vu_in_range c1) by (subst c1; destruct (every tm); exact H).
    clearbody c1. destruct (callback tm); cbn [run_callback].
    + exact H1.
    + exact H1.
    + now apply vu_walk_in_range.
    + unfold connect. cbn.
      destruct (simulatorMode (config c1)); [|destruct (protocol (config c1))]; exact H1.
  - destruct (Qle_bool 0 dt); inversion Hs; subst. exact H.
Qed.

Lemma reachable_in_range random c :
  (forall i, 0 <= random i /\ random i < 1) ->
  reachable random c -> vu_in_range c.
Proof.
  intros R (over & now & ks & H).
  assert (G : forall ks c0 c1, vu_in_range c0 -> run random ks c0 = Some c1 -> vu_in_range c1).
  { clear. induction ks as [|k ks IH]; intros c0 c1 W H; simpl in H.
    - now inversion H; subst.
    - destruct (step random k c0) eqn:E; [|discriminate].
      eapply IH; [|exact H]. eapply step_in_range; eauto. }
  eapply G; [apply create_in_range; exact R | exact H].
Qed.

(** ** A command answered by the simulator returns that answer *)

Lemma sendRaw_pending random command c e :
  In e (pendingCommands (snd (sendRaw random command c))) ->
  In e (pendingCommands c) \/ promise (snd e) = List.length (promises c).
Proof.
  unfold sendRaw. cbn [newPromise].
  destruct (simulatorMode (config c)) eqn:S; cbn [config set_promises]; rewrite S.
  - match goal with |- context [simulateResponse command ?c1] =>
      pose proof (simulateResponse_frame command c1) as F;
      destruct (simulateResponse command c1) as [resp c2] end.
    cbn in F. destruct F as (_ & _ & _ & _ & F & _).
    cbn. rewrite F. auto.
  - cbn [connected set_promises]. destruct (connected c); cbn [negb]; cbn; [|auto].
    destruct e as [k v].
    destruct (protocol (config c)); [destruct (tcpClient c)|destruct (udpClient c)]; cbn;
      intros H; apply Map_set_In in H; destruct H as [->|H]; auto.
Qed.

Lemma handleLine_keeps line c :
  (forall e, In e (pendingCommands (handleLine line c)) -> In e (pendingCommands c)) /\
  (forall q, (forall e, In e (pendingCommands c) -> promise (snd e) <> q) ->
     settlement q (handleLine line c) = settlement q c).
Proof.
  destruct (trim line) as [|x l] eqn:E.
  - rewrite handleLine_blank by exact E. auto.
  - assert (N : trim line <> []) by (rewrite E; discriminate).
    destruct (handleLine_spec line c N) as (A & _ & _ & _ & D).
    split; [rewrite A; intros e [] | exact D].
Qed.

Lemma handleResponse_keeps data c :
  (forall e, In e (pendingCommands (handleResponse data c)) -> In e (pendingCommands c)) /\
  (forall q, (forall e, In e (pendingCommands c) -> promise (snd e) <> q) ->
     settlement q (handleResponse data c) = settlement q c) /\
  (forall tm, In tm (timers (handleResponse data c)) -> In tm (timers c)) /\
  List.length (promises (handleResponse data c)) = List.length (promises c).
Proof.
  unfold handleResponse. generalize (split 10%N (trim data)) as ls. intros ls. revert c.
  induction ls as [|l ls IH]; intros c; simpl; [auto|].
  destruct (IH (handleLine l c)) as (A & B & C & D).
  destruct (handleLine_keeps l c) as (A' & B').
  destruct (handleLine_frame l c) as (C' & D' & _). cbv zeta in *.
  split; [|split; [|split]].
  - auto.
  - intros q H. rewrite B; [now apply B'|]. intros e He. apply H. now apply A'.
  - auto.
  - now rewrite D, D'.
Qed.

Lemma fire_pending random tm c e :
  In e (pendingCommands (fire random tm c)) -> In e (pendingCommands c).
Proof.
  unfold fire.
  set (c1 := match every tm with
             | Some period => _
             | None => clearTimeout (handle tm) c
             end).
  assert (H1 : pendingCommands c1 = pendingCommands c)
    by (subst c1; destruct (every tm); reflexivity).
  clearbody c1. destruct (callback tm); cbn [run_callback].
  - cbn. unfold Map_delete. intros H. apply filter_In in H. rewrite <- H1. tauto.
  - cbn. now rewrite H1.
  - destruct (vu_walk_frame random c1) as (_ & _ & _ & _ & F). cbv zeta in F.
    now rewrite F, H1.
  - unfold connect. cbn.
    destruct (simulatorMode (config c1)); [|destruct (protocol (config c1))]; cbn;
      now rewrite H1.
Qed.

(** A timer of [sendRaw] in simulator mode fires: the promise is
    resolved with the response computed at the call, unless it is
    settled already. *)
Lemma fire_settles random tm p resp c :
  callback tm = cb_resolve p resp -> (p < List.length (promises c))%nat ->
  settlement p (fire random tm c) =
  match settlement p c with Some s => Some s | None => Some (resolved resp) end.
Proof.
  intros Hcb Hp. unfold fire. rewrite Hcb. cbn [run_callback]. unfold settlement, settle.
  destruct (every tm); cbn; now rewrite nth_settle_at_same.
Qed.

Lemma sealed_update p resp c c' :
  pending_known c -> sealed p resp c ->
  (List.length (promises c) <= List.length (promises c'))%nat ->
  (forall e, In e (pendingCommands c') ->
     In e (pendingCommands c) \/
     (List.length (promises c) <= promise (snd e) < List.length (promises c'))%nat) ->
  (forall tm, In tm (timers c') ->
     (exists tm0, In tm0 (timers c) /\ callback tm = callback tm0) \/
     (forall q, cb_promise (callback tm) = Some q -> (List.length (promises c) <= q)%nat)) ->
  (settlement p c' = settlement p c \/
   settlement p c' =
   match settlement p c with Some s => Some s | None => Some (resolved resp) end) ->
  pending_known c' /\ sealed p resp c'.
Proof.
  intros K (S1 & S2 & S3 & S4) Hl He Ht Hs. split; [|split; [|split; [|split]]].
  - intros e Hin. destruct (He e Hin) as [H|H]; [|lia]. specialize (K e H). lia.
  - lia.
  - intros tm Hin E. destruct (Ht tm Hin) as [(tm0 & H0 & Hc)|H].
    + rewrite Hc in *. now apply S2.
    + specialize (H p E). lia.
  - intros e Hin. destruct (He e Hin) as [H|H]; [now apply S3 | lia].
  - destruct Hs as [->| ->]; [exact S4|].
    destruct S4 as [-> | ->]; auto.
Qed.

Lemma sealed_same p resp c c' :
  pending_known c -> sealed p resp c ->
  promises c' = promises c -> pendingCommands c' = pendingCommands c ->
  (forall tm, In tm (timers c') ->
     In tm (timers c) \/ cb_promise (callback tm) = None) ->
  pending_known c' /\ sealed p resp c'.
Proof.
  intros K S A B C. apply (sealed_update p resp c); auto.
  - rewrite A. lia.
  - intros e He. left. now rewrite <- B.
  - intros tm Hin. destruct (C tm Hin) as [H|H].
    + left. now exists tm.
    + right. intros q E. congruence.
  - left. unfold settlement. now rewrite A.
Qed.

Lemma sealed_sendRaw random command p resp c :
  pending_known c -> sealed p resp c ->
  pending_known (snd (sendRaw random command c)) /\
  sealed p resp (snd (sendRaw random command c)).
Proof.
  intros K S. pose proof S as (S1 & _).
  destruct (sendRaw_frame random command c) as (Hp & _ & _ & H). cbv zeta in *.
  assert (L : List.length (promises (snd (sendRaw random command c))) =
              Datatypes.S (List.length (promises c)) /\
              settlement p (snd (sendRaw random command c)) = settlement p c).
  { unfold settlement.
    destruct H as [(tm0 & _ & _ & _ & _ & E)|(_ & _ & E)]; rewrite E, length_app;
      rewrite app_nth1 by exact S1; simpl; split; auto; lia. }
  destruct L as [L1 L2].
  apply (sealed_update p resp c); auto; try lia.
  - intros e He. apply sendRaw_pending in He. destruct He as [He|He]; [now left|].
    right. lia.
  - intros tm Hin. destruct H as [(tm0 & A & _ & C & _)|(A & _)]; rewrite A in Hin.
    + apply in_app_or in Hin. destruct Hin as [Hin|[<-|[]]].
      * left. now exists tm.
      * right. intros q E. rewrite C in E. inversion E. lia.
    + left. now exists tm.
Qed.

Lemma sealed_scheduleReconnect p resp c :
  pending_known c -> sealed p resp c ->
  pending_known (scheduleReconnect c) /\ sealed p resp (scheduleReconnect c).
Proof.
  intros K S. unfold scheduleReconnect. destruct (reconnectTimer c); [auto|].
  apply (sealed_same p resp c); auto. cbn.
  intros tm Hin. apply in_app_or in Hin. destruct Hin as [Hin|[<-|[]]]; auto.
Qed.

Lemma sealed_connect p resp c :
  pending_known c -> sealed p resp c ->
  pending_known (connect c) /\ sealed p resp (connect c).
Proof.
  intros K S. unfold connect.
  destruct (simulatorMode (config c)); [|destruct (protocol (config c))];
    apply (sealed_same p resp c); auto.
Qed.

Lemma sealed_handleResponse data p resp c :
  pending_known c -> sealed p resp c ->
  pending_known (handleResponse data c) /\ sealed p resp (handleResponse data c).
Proof.
  intros K S. pose proof S as (_ & _ & S3 & _).
  destruct (handleResponse_keeps data c) as (A & B & C & D).
  apply (sealed_update p resp c); auto.
  - lia.
  - intros tm Hin. left. exists tm. auto.
Qed.

Lemma sealed_fire random tm0 p resp c :
  pending_known c -> sealed p resp c -> In tm0 (timers c) ->
  pending_known (fire random tm0 c) /\ sealed p resp (fire random tm0 c).
Proof.
  intros K S Hin0. pose proof S as (S1 & S2 & _).
  destruct (fire_frame random tm0 c) as (A & _ & _ & D & E & _). cbv zeta in *.
  apply (sealed_update p resp c); auto.
  - lia.
  - intros e He. left. now apply fire_pending in He.
  - intros tm Hin. left. destruct (A tm Hin) as [[H _]|[_ H]].
    + now exists tm.
    + now exists tm0.
  - destruct (cb_promise (callback tm0)) as [q|] eqn:Q.
    + destruct (Nat.eq_dec q p) as [->|N].
      * right. apply fire_settles; [now apply S2 | exact S1].
      * left. apply E. congruence.
    + left. apply E. congruence.
Qed.

Lemma sealed_step random k p resp c c' :
  pending_known c -> sealed p resp c -> step random k c = Some c' ->
  pending_known c' /\ sealed p resp c'.
Proof.
  intros K S H. destruct k; cbn [step] in H;
    try (inversion H; subst; clear H;
         unfold setGain, getGain, setSend, getSend, setMute, getVU, setPreset, getPreset;
         now apply sealed_sendRaw).
  - inversion H; subst. now apply sealed_connect.
  - inversion H; subst. unfold disconnect.
    destruct (reconnectTimer c); apply (sealed_same p resp c); auto.
    cbn. intros tm Hin. left. apply filter_In in Hin. tauto.
  - inversion H; subst. apply (sealed_same p resp c); auto.
  - inversion H; subst; clear H. destruct e as [ | data | [|] | | | msg | ]; cbn [on_socket];
      try (now apply sealed_handleResponse);
      try (apply sealed_scheduleReconnect);
      apply (sealed_same p resp c); auto.
  - destruct (find_timer h c) as [tm|] eqn:E; [|discriminate].
    destruct (Qle_bool (due tm) (clock c)); inversion H; subst.
    apply sealed_fire; auto. now apply find_timer_In in E.
  - destruct (Qle_bool 0 dt); inversion H; subst. apply (sealed_same p resp c); auto.
Qed.

Lemma sealed_run random p resp ks : forall c c',
  pending_known c -> sealed p resp c -> run random ks c = Some c' ->
  pending_known c' /\ sealed p resp c'.
Proof.
  induction ks as [|k ks IH]; intros c c' K S H; simpl in H.
  - inversion H; subst. auto.
  - destruct (step random k c) as [c1|] eqn:E; [|discriminate].
    destruct (sealed_step random k p resp c c1 K S E) as [K1 S1].
    now apply (IH c1).
Qed.

Lemma known_update c c' :
  pending_known c ->
  (List.length (promises c) <= List.length (promises c'))%nat ->
  (forall e, In e (pendingCommands c') ->
     In e (pendingCommands c) \/ (promise (snd e) < List.length (promises c'))%nat) ->
  pending_known c'.
Proof.
  intros K Hl He e Hin. destruct (He e Hin) as [H|H]; [|exact H].
  specialize (K e H). lia.
Qed.

Lemma known_same c c' :
  pending_known c -> promises c' = promises c -> pendingCommands c' = pendingCommands c ->
  pending_known c'.
Proof.
  intros K A B. apply (known_update c); auto.
  - rewrite A. lia.
  - intros e He. left. now rewrite <- B.
Qed.

Lemma known_sendRaw random command c :
  pending_known c -> pending_known (snd (sendRaw random command c)).
Proof.
  intros K. destruct (sendRaw_frame random command c) as (_ & _ & _ & H). cbv zeta in *.
  assert (L : List.length (promises (snd (sendRaw random command c))) =
              S (List.length (promises c))).
  { destruct H as [(tm0 & _ & _ & _ & _ & E)|(_ & _ & E)]; rewrite E, length_app;
      simpl; lia. }
  apply (known_update c); auto; try lia.
  intros e He. apply sendRaw_pending in He. destruct He as [He|He]; [now left|].
  right. lia.
Qed.

Lemma known_step random k c c' :
  pending_known c -> step random k c = Some c' -> pending_known c'.
Proof.
  intros K H. destruct k; cbn [step] in H;
    try (inversion H; subst; clear H;
         unfold setGain, getGain, setSend, getSend, setMute, getVU, setPreset, getPreset;
         now apply known_sendRaw).
  - inversion H; subst. unfold connect.
    destruct (simulatorMode (config c)); [|destruct (protocol (config c))];
      apply (known_same c); auto.
  - inversion H; subst. unfold disconnect.
    destruct (reconnectTimer c); apply (known_same c); auto.
  - inversion H; subst. apply (known_same c); auto.
  - inversion H; subst; clear H.
    assert (G : forall data, pending_known (handleResponse data c)).
    { intros data. destruct (handleResponse_keeps data c) as (A & _ & _ & D).
      apply (known_update c); auto; lia. }
    destruct e as [ | data | [|] | | | msg | ]; cbn [on_socket]; auto; unfold scheduleReconnect; cbn;
      try destruct (reconnectTimer c); apply (known_same c); auto.
  - destruct (find_timer h c) as [tm|] eqn:E; [|discriminate].
    destruct (Qle_bool (due tm) (clock c)); inversion H; subst.
    destruct (fire_frame random tm c) as (_ & _ & _ & D & _). cbv zeta in D.
    apply (known_update c); auto; [lia|].
    intros e He. left. now apply fire_pending in He.
  - destruct (Qle_bool 0 dt); inversion H; subst. apply (known_same c); auto.
Qed.

Lemma initSimulator_known random c :
  pending_known c -> pending_known (initSimulator random c).
Proof.
  intros K. destruct (initSimulator_frame random c) as (_ & A & _ & _ & B).
  cbv zeta in *. now apply (known_same c).
Qed.

Lemma known_reachable random c : reachable random c -> pending_known c.
Proof.
  intros (over & now & ks & H).
  assert (G : forall ks c0 c1, pending_known c0 -> run random ks c0 = Some c1 ->
                               pending_known c1).
  { clear. induction ks as [|k ks IH]; intros c0 c1 W H; simpl in H.
    - now inversion H; subst.
    - destruct (step random k c0) eqn:E; [|discriminate].
      eapply IH; [|exact H]. eapply known_step; eauto. }
  eapply G; [|exact H]. unfold create. cbn [config].
  destruct (simulatorMode (spread DEFAULT_CONFIG over)).
  - apply initSimulator_known. intros e [].
  - intros e [].
Qed.

(** [sendRaw] in simulator mode: the timer it arms. *)
Lemma sendRaw_sim_timer random command c :
  simulatorMode (config c) = true ->
  let p := fst (sendRaw random command c) in
  let c1 := snd (sendRaw random command c) in
  let resp := fst (simulateResponse command (set_promises (promises c ++ [None]) c)) in
  p = List.length (promises c) /\
  timers c1 = timers c ++ [mkTimer (nextHandle c) (clock c + (10 + random (drawn c) * 20))
                                   None (cb_resolve p resp)] /\
  promises c1 = promises c ++ [None] /\
  pendingCommands c1 = pendingCommands c /\
  clock c1 = clock c.
Proof.
  intros S. cbv zeta. rewrite sendRaw_sim by exact S. cbn [fst snd].
  match goal with |- context [simulateResponse command ?c0] =>
    pose proof (simulateResponse_frame command c0) as F;
    destruct (simulateResponse command c0) as [resp c2] end.
  cbn in F. destruct F as (A & B & C & _ & D & _ & _ & E & G & _).
  cbn. rewrite A, B, C, D, E, G. repeat split.
Qed.

(** From the call on, the promise of a command answered by the
    simulator can only be resolved with that answer. *)
Lemma sendRaw_sim_sealed random command c :
  well_formed c -> pending_known c -> simulatorMode (config c) = true ->
  let p := fst (sendRaw random command c) in
  let c1 := snd (sendRaw random command c) in
  let resp := fst (simulateResponse command (set_promises (promises c ++ [None]) c)) in
  pending_known c1 /\ sealed p resp c1.
Proof.
  intros [W _] K S. destruct (sendRaw_sim_timer random command c S) as (Hp & Ht & Hps & Hpc & _).
  cbv zeta in *. split; [now apply known_sendRaw|].
  unfold sealed, settlement. rewrite Ht, Hps, Hpc, Hp, length_app. cbn [List.length].
  split; [lia|]. split; [|split].
  - intros tm Hin E. apply in_app_or in Hin. destruct Hin as [Hin|[<-|[]]].
    + destruct (W tm Hin) as [_ B]. specialize (B _ E). lia.
    + reflexivity.
  - intros e He. specialize (K e He). lia.
  - left. now rewrite app_nth2, Nat.sub_diag by lia.
Qed.

Lemma find_fresh h tm tms :
  handle tm = h -> (forall tm', In tm' tms -> (handle tm' < h)%nat) ->
  find (fun e => Nat.eqb (handle e) h) (tms ++ [tm]) = Some tm.
Proof.
  intros Hh. induction tms as [|x tms IH]; intros H; simpl.
  - now rewrite Hh, Nat.eqb_refl.
  - assert (L : (handle x < h)%nat) by (apply H; now left).
    apply Nat.lt_neq, Nat.eqb_neq in L. rewrite L. apply IH.
    intros tm' Hin. apply H. now right.
Qed.

(** ... and it is resolved when the timer fires, which it can 30 ms
    after the call. *)
Lemma sendRaw_sim_returns random command c :
  (forall i, 0 <= random i /\ random i < 1) ->
  well_formed c -> simulatorMode (config c) = true ->
  let p := fst (sendRaw random command c) in
  let c1 := snd (sendRaw random command c) in
  let resp := fst (simulateResponse command (set_promises (promises c ++ [None]) c)) in
  exists c2,
    run random [time_passes 30; timer_fires (nextHandle c)] c1 = Some c2 /\
    settlement p c2 = Some (resolved resp).
Proof.
  intros R [W _] S. destruct (sendRaw_sim_timer random command c S) as (Hp & Ht & Hps & _ & Hc).
  cbv zeta in *. cbn [run step]. change (Qle_bool 0 30) with true. cbv iota.
  unfold find_timer. cbn [timers set_clock]. rewrite Ht.
  rewrite find_fresh by (try reflexivity; intros tm' Hin; apply (W tm' Hin)).
  cbn [due clock set_clock]. rewrite Hc.
  assert (D : Qle_bool (clock c + (10 + random (drawn c) * 20)) (clock c + 30) = true).
  { apply Qle_bool_iff. destruct (R (drawn c)). Lqa.lra. }
  rewrite D. eexists. split; [reflexivity|].
  match goal with |- settlement _ (fire _ ?tm ?c0) = _ =>
    rewrite (fire_settles random tm (fst (sendRaw random command c))
               (fst (simulateResponse command (set_promises (promises c ++ [None]) c)))
               c0 eq_refl)
  end.
  - unfold settlement. cbn [promises set_clock]. rewrite Hps, Hp.
    now rewrite app_nth2, Nat.sub_diag by lia.
  - cbn [promises set_clock]. rewrite Hps, Hp, length_app. simpl. lia.
Qed.

(** What a method that awaits [sendRaw] returns in simulator mode: it
    can return, it never throws, and whenever it has returned the value is
    what it makes of the simulator's answer. *)
Lemma sim_awaited {A} random (f : jsstring -> A) command c :
  (forall i, 0 <= random i /\ random i < 1) ->
  reachable random c -> simulatorMode (config c) = true ->
  let p := fst (sendRaw random command c) in
  let c1 := snd (sendRaw random command c) in
  let resp := fst (simulateResponse command (set_promises (promises c ++ [None]) c)) in
  (exists c2,
     run random [time_passes 30; timer_fires (nextHandle c)] c1 = Some c2 /\
     awaited f p c2 = Some (returned (f resp))) /\
  (forall ks c2 out,
     run random ks c1 = Some c2 -> awaited f p c2 = Some out -> out = returned (f resp)).
Proof.
  intros R Hr S. cbv zeta.
  pose proof (wf_reachable random c Hr) as W.
  pose proof (known_reachable random c Hr) as K.
  split.
  - destruct (sendRaw_sim_returns random command c R W S) as (c2 & H1 & H2).
    exists c2. split; [exact H1|]. unfold awaited. now rewrite H2.
  - intros ks c2 out Hrun Ha.
    destruct (sendRaw_sim_sealed random command c W K S) as [K1 S1].
    destruct (sealed_run random _ _ ks _ c2 K1 S1 Hrun) as (_ & _ & _ & _ & [E|E]);
      unfold awaited in Ha; rewrite E in Ha; [discriminate|]. now inversion Ha.
Qed.

Lemma run_snoc random ks k : forall c c1 c2,
  run random ks c = Some c1 -> step random k c1 = Some c2 ->
  run random (ks ++ [k]) c = Some c2.
Proof.
  induction ks as [|k0 ks IH]; intros c c1 c2 H1 H2; simpl in *.
  - inversion H1; subst. now rewrite H2.
  - destruct (step random k0 c) as [c'|]; [|discriminate]. now apply (IH c' c1).
Qed.

Lemma client_reachable_step random k c c' :
  reachable random c -> step random k c = Some c' -> reachable random c'.
Proof.
  intros (over & now & ks & H) Hs. exists over, now, (ks ++ [k]).
  now apply (run_snoc random ks k _ c).
Qed.

(** The answer of the simulator to [GET GAIN] and to [GET VU]. *)
Lemma getGain_sim_response ch num c :
  fst (simulateResponse (lit "GET GAIN " ++ Channel_text ch ++ lit " " ++ Number_toString num)
         (set_promises (promises c ++ [None]) c)) =
  lit "GAIN " ++ Channel_text ch ++ lit " " ++ Number_toString num ++ lit " = "
    ++ toFixed1 (orElse (Map_get string_eqb
                           (Channel_text ch ++ lit ":" ++ Number_toString num)
                           (simulatorGains c)) (Num (-10))).
Proof.
  now rewrite (simulate_GET_GAIN ch (Number_toString num)
                 (Number_toString_nonempty num) (Number_toString_isDigit num)).
Qed.

Lemma getVU_sim_response ch num c :
  fst (simulateResponse (lit "GET VU " ++ Channel_text ch ++ lit " " ++ Number_toString num)
         (set_promises (promises c ++ [None]) c)) =
  lit "VU " ++ Channel_text ch ++ lit " " ++ Number_toString num ++ lit " = "
    ++ toFixed1 (orElse (Map_get string_eqb
                           (Channel_text ch ++ lit ":" ++ Number_toString num)
                           (simulatorVU c)) (Num (-40))).
Proof.
  now rewrite (simulate_GET_VU ch (Number_toString num)
                 (Number_toString_nonempty num) (Number_toString_isDigit num)).
Qed.

Lemma numericReply_answer a b n q :
  numericReply (a ++ b ++ lit " " ++ n ++ lit " = " ++ toFixed1 (Num q)) =
  parseFloat (toFixed1 (Num q)).
Proof.
  rewrite !app_assoc, <- (app_assoc _ (lit " = ")). apply numericReply_toFixed1.
Qed.

(** ** C7 *)

(** C7, as the code has it.  [setGain] and [setSend] print
    [Math.max(-60, Math.min(10, dB))] with one decimal into the command
    they send.  For every [dB] that is not [NaN], the infinities
    included, that value lies in [-60, 10], and so does the number the
    text sent reads as; for [NaN] it is [NaN].  In simulator mode, for a
    channel number that is a safe integer, the gain [setGain] stores is
    the number the text reads as; a [getGain] that follows can return,
    and whenever it has returned the value is the stored one.  The gain
    stored for [dB = 100] is 10.0 and for [dB = -100] it is -60.0.
    [getGain] makes of a response the number its numeric suffix reads
    as, which is [NaN] when the suffix does not start as a number, and
    -60 when the response has no numeric suffix. *)
Theorem C7_gain_clamped :
  (forall dB, dB <> NaN -> within (-60) 10 (clamp dB)) /\
  clamp (Infinity false) = Num 10 /\
  clamp (Infinity true) = Num (-60) /\
  clamp NaN = NaN /\
  (forall random ch num dB c,
     isSafeInteger num = true ->
     setGain random ch num dB c =
     sendRaw random (lit "SET GAIN " ++ Channel_text ch ++ lit " " ++ Number_toString num
                       ++ lit " = " ++ toFixed1 (clamp dB)) c) /\
  (forall random src srcNumber busNumber dB c,
     isSafeInteger srcNumber = true -> isSafeInteger busNumber = true ->
     setSend random src srcNumber busNumber dB c =
     sendRaw random (lit "SET SEND " ++ Source_text src ++ lit " " ++ Number_toString srcNumber
                       ++ lit " OUT " ++ Number_toString busNumber
                       ++ lit " = " ++ toFixed1 (clamp dB)) c) /\
  (forall dB, dB <> NaN -> within (-60) 10 (parseFloat (toFixed1 (clamp dB)))) /\
  (forall random ch num dB c,
     (forall i, 0 <= random i /\ random i < 1) ->
     reachable random c -> simulatorMode (config c) = true ->
     isSafeInteger num = true -> dB <> NaN ->
     let key := Channel_text ch ++ lit ":" ++ Number_toString num in
     let stored := parseFloat (toFixed1 (clamp dB)) in
     let c1 := snd (setGain random ch num dB c) in
     let p := fst (getGain random ch num c1) in
     let c2 := snd (getGain random ch num c1) in
     Map_get string_eqb key (simulatorGains c1) = Some stored /\
     within (-60) 10 stored /\
     (exists c3,
        run random [time_passes 30; timer_fires (nextHandle c1)] c2 = Some c3 /\
        awaited numericReply p c3 = Some (returned stored)) /\
     (forall ks c3 out,
        run random ks c2 = Some c3 -> awaited numericReply p c3 = Some out ->
        out = returned stored)) /\
  parseFloat (toFixed1 (clamp (Num 100))) = Num (100 # 10) /\
  parseFloat (toFixed1 (clamp (Num (-100)))) = Num (-600 # 10) /\
  (forall resp,
     numericReply resp =
     match numericSuffix resp with
     | [] => Num (-60)
     | _ :: _ => parseFloat (numericSuffix resp)
     end) /\
  numericReply (lit "GAIN IN 1 = .") = NaN /\
  numericReply (lit "GAIN IN 1 = -") = NaN /\
  numericReply (lit "OK") = Num (-60).
Proof.
  split; [intros dB H; destruct (clamp_number dB H) as (q' & -> & H1 & H2); now split|].
  split; [reflexivity|]. split; [reflexivity|]. split; [reflexivity|].
  split; [reflexivity|]. split; [reflexivity|].
  split; [exact sent_within|].
  split; [|split; [vm_compute; reflexivity|split; [vm_compute; reflexivity|]]].
  - intros random ch num dB c R Hr S _ Hx key stored c1 p c2.
    destruct (setGain_sim_stored random ch num dB c S Hx) as [S1 Hst].
    fold c1 key stored in S1, Hst. split; [exact Hst|].
    split; [now apply sent_within|].
    assert (Hr1 : reachable random c1)
      by (apply (client_reachable_step random (call_setGain ch num dB) c); auto).
    destruct (sim_awaited random numericReply
                (lit "GET GAIN " ++ Channel_text ch ++ lit " " ++ Number_toString num)
                c1 R Hr1 S1) as [A B].
    cbv zeta in A, B. rewrite getGain_sim_response in A, B.
    fold key in A, B. rewrite Hst in A, B. cbn [orElse] in A, B.
    assert (E : numericReply
                  (lit "GAIN " ++ Channel_text ch ++ lit " " ++ Number_toString num
                     ++ lit " = " ++ toFixed1 stored) = stored).
    { subst stored. destruct (clamp_number dB Hx) as (q' & -> & _).
      rewrite (parseFloat_toFixed1 q'), numericReply_answer, <- (parseFloat_toFixed1 q').
      apply round_idem. }
    rewrite E in A, B. split; [exact A | exact B].
  - split; [exact numericReply_suffix|].
    split; [vm_compute; reflexivity|]. split; vm_compute; reflexivity.
Qed.

Lemma sample_random_range : forall i, 0 <= sample_random i /\ sample_random i < 1.
Proof.
  intros i. unfold sample_random, Qle, Qlt. cbn [Qnum Qden]. lia.
Qed.

Lemma C7_gain_clamped_witness :
  simulatorMode
    (config (create sample_random (mkPartial None None None (Some true) None None) 0)) = true /\
  isSafeInteger 1 = true /\ Infinity false <> NaN /\
  Map_get string_eqb (Channel_text IN ++ lit ":" ++ Number_toString 1)
    (simulatorGains
       (snd (setGain sample_random IN 1 (Infinity false)
               (create sample_random (mkPartial None None None (Some true) None None) 0))))
  = Some (parseFloat (toFixed1 (clamp (Infinity false)))).
Proof.
  assert (S : simulatorMode
                (config (create sample_random
                           (mkPartial None None None (Some true) None None) 0)) = true)
    by (vm_compute; reflexivity).
  assert (Hr : reachable sample_random
                 (create sample_random (mkPartial None None None (Some true) None None) 0))
    by (exists (mkPartial None None None (Some true) None None), 0, []; reflexivity).
  assert (Hx : Infinity false <> NaN) by discriminate.
  split; [exact S|]. split; [reflexivity|]. split; [exact Hx|].
  exact (proj1 (proj1 (proj2 (proj2 (proj2 (proj2 (proj2 (proj2 (proj2 C7_gain_clamped)))))))
                  sample_random IN 1%N (Infinity false)
                  (create sample_random (mkPartial None None None (Some true) None None) 0)
                  sample_random_range Hr S eq_refl Hx)).
Defined.

(** C7 as stated fails twice.  For [dB = NaN], [Math.min(10, NaN)] and
    [Math.max(-60, NaN)] are [NaN], so the value printed into the
    command, [SET GAIN IN 1 = NaN], is not in [-60, 10].  And a response
    that ends in a point, [GAIN IN 1 = .], does not read as a number, yet
    [getGain] returns [NaN] for it, not -60: the point is a numeric
    suffix for the pattern, and [parseFloat] of it is [NaN]. *)
Lemma C7_NaN_not_clamped_nor_floored :
  ~ clamps_every_argument /\ ~ floor_when_unparseable.
Proof.
  split.
  - intros H. exact (H NaN).
  - intros H. specialize (H (lit "GAIN IN 1 = .") eq_refl). vm_compute in H. discriminate.
Qed.

(** ** C8 *)

(** C8, as the code has it.  With [Math.random()] in [0, 1) every VU
    value of a reachable client lies in [-60, 0].  In simulator mode a
    [getVU] can return, it never throws, and whenever it has returned
    the value lies in [-60, 0]: it is the VU value of the channel, or -40
    for a channel without one, rounded to one decimal.  In every mode
    what [getVU] returns is what [numericReply] makes of the response it
    was resolved with, as it stands: the number the numeric suffix reads
    as, and -60 when the response has no numeric suffix. *)
Theorem C8_getVU_simulator_range :
  (forall random c,
     (forall i, 0 <= random i /\ random i < 1) -> reachable random c -> vu_in_range c) /\
  (forall random c ch num,
     (forall i, 0 <= random i /\ random i < 1) ->
     reachable random c ->
     simulatorMode (config c) = true ->
     let p := fst (getVU random ch num c) in
     let c1 := snd (getVU random ch num c) in
     (exists c2 v,
        run random [time_passes 30; timer_fires (nextHandle c)] c1 = Some c2 /\
        awaited numericReply p c2 = Some (returned v) /\
        within (-60) 0 v) /\
     (forall ks c2 out,
        run random ks c1 = Some c2 -> awaited numericReply p c2 = Some out ->
        exists v, out = returned v /\ within (-60) 0 v)) /\
  (forall p c v,
     awaited numericReply p c = Some (returned v) ->
     exists resp, settlement p c = Some (resolved resp) /\ v = numericReply resp) /\
  (forall resp,
     numericReply resp =
     match numericSuffix resp with
     | [] => Num (-60)
     | _ :: _ => parseFloat (numericSuffix resp)
     end).
Proof.
  split; [exact reachable_in_range|]. split; [|split; [|exact numericReply_suffix]].
  - intros random c ch num R Hr S p c1.
    pose proof (reachable_in_range random c R Hr) as V.
    destruct (sim_awaited random numericReply
                (lit "GET VU " ++ Channel_text ch ++ lit " " ++ Number_toString num)
                c R Hr S) as [A B].
    cbv zeta in A, B. rewrite getVU_sim_response in A, B.
    assert (W : within (-60) 0
                  (orElse (Map_get string_eqb
                             (Channel_text ch ++ lit ":" ++ Number_toString num)
                             (simulatorVU c)) (Num (-40)))).
    { destruct (Map_get string_eqb _ (simulatorVU c)) as [v|] eqn:E; cbn [orElse].
      - destruct (Map_get_In_string _ _ _ E) as (k' & Hk). now apply (V k').
      - split; discriminate. }
    destruct (orElse _ _) as [|v|s] eqn:Ev; [contradiction| |contradiction].
    rewrite numericReply_answer in A, B.
    assert (W' : within (-60) 0 (parseFloat (toFixed1 (Num v))))
      by (apply (round_within (-60) 0); [lia | exact W]).
    split.
    + destruct A as (c2 & A1 & A2). exists c2, (parseFloat (toFixed1 (Num v))). auto.
    + intros ks c2 out Hrun Ha. exists (parseFloat (toFixed1 (Num v))).
      split; [now apply (B ks c2) | exact W'].
  - intros p c v H. unfold awaited in H.
    destruct (settlement p c) as [[resp|e]|]; inversion H; subst.
    exists resp. split; reflexivity.
Qed.

Lemma C8_getVU_simulator_range_witness :
  let c := create sample_random (mkPartial None None None (Some true) None None) 0 in
  reachable sample_random c /\ vu_in_range c.
Proof.
  cbv zeta.
  assert (R : reachable sample_random
                (create sample_random (mkPartial None None None (Some true) None None) 0))
    by (exists (mkPartial None None None (Some true) None None), 0, []; reflexivity).
  split; [exact R|].
  apply (proj1 C8_getVU_simulator_range sample_random _ sample_random_range R).
Defined.

(** C8 as stated fails outside simulator mode: the console answers
    [VU IN 1 = 3.0] and [getVU] returns 3. *)
Lemma C8_console_value_returned_as_is : ~ getVU_always_in_range.
Proof.
  intros H.
  destruct (online sample_random) as [c|] eqn:E; [|discriminate].
  assert (R : reachable sample_random c).
  { exists (mkPartial None None None None None None), 0, [call_connect; socket tcp_connect].
    exact E. }
  vm_compute in E. inversion E; subst c; clear E.
  match type of R with reachable _ ?c0 =>
    specialize (H sample_random c0 IN 1%N [socket (tcp_data (lit "VU IN 1 = 3.0"))]) end.
  match type of H with forall c' v, _ -> ?r = Some c' -> _ =>
    let r' := eval vm_compute in r in
    match r' with
    | Some ?c1 => specialize (H c1 (Num (30 # 10)) R)
    end
  end.
  assert (W : within (-60) 0 (Num (30 # 10))).
  { apply H; vm_compute; reflexivity. }
  destruct W as [_ W]. vm_compute in W. apply W. reflexivity.
Qed.

End LevelFacts.

(* ====================================================================== *)
(** * Proofs: subnets and local addresses *)
(* ====================================================================== *)

Module SubnetFacts.
Import Js Scanner JsFacts ScannerFacts.
Local Open Scope N_scope.

(** ** [split] and [join] *)

Lemma split_nonempty sep s : split sep s <> [].
Proof.
  induction s as [|c s IH]; simpl; [discriminate|].
  destruct (c =? sep); [discriminate|]. destruct (split sep s); discriminate.
Qed.

Lemma split_app sep x y :
  split sep (x ++ sep :: y) = split sep x ++ split sep y.
Proof.
  induction x as [|c x IH]; simpl.
  - now rewrite N.eqb_refl.
  - destruct (c =? sep); [now rewrite IH|]. rewrite IH.
    pose proof (split_nonempty sep x) as H.
    destruct (split sep x); [contradiction | reflexivity].
Qed.

Lemma split_free sep s : ~ In sep s -> split sep s = [s].
Proof.
  induction s as [|c s IH]; intros H; simpl; [reflexivity|].
  destruct (N.eqb_spec c sep) as [->|N]; [exfalso; apply H; now left|].
  rewrite IH; [reflexivity|]. intros Hin. apply H. now right.
Qed.

Lemma split_parts_free sep s : Forall (fun p => ~ In sep p) (split sep s).
Proof.
  induction s as [|c s IH]; simpl; [constructor; auto|].
  destruct (N.eqb_spec c sep) as [->|N]; [constructor; auto|].
  destruct (split sep s) as [|l ls]; [constructor; [|constructor]|].
  - intros [E|[]]. congruence.
  - inversion IH; subst. constructor; [|assumption].
    intros [E|Hin]; [congruence | contradiction].
Qed.

Lemma join_cons sep p q ps : join sep (p :: q :: ps) = p ++ sep ++ join sep (q :: ps).
Proof. reflexivity. Qed.

Lemma join_cons_ne sep p ps : ps <> [] -> join sep (p :: ps) = p ++ sep ++ join sep ps.
Proof. destruct ps; [contradiction | reflexivity]. Qed.

(** Joining what [split] made gives the string back. *)
Lemma join_split sep s : join [sep] (split sep s) = s.
Proof.
  induction s as [|c s IH]; simpl; [reflexivity|].
  pose proof (split_nonempty sep s) as H.
  destruct (c =? sep) eqn:E.
  - apply N.eqb_eq in E. subst c. rewrite join_cons_ne by exact H. simpl. now rewrite IH.
  - destruct (split sep s) as [|l ls]; [contradiction|].
    destruct ls as [|l' ls]; simpl in *; now rewrite <- IH.
Qed.

(** Splitting what [join] made of parts without the separator gives
    the parts back. *)
Lemma split_join sep ps :
  ps <> [] -> Forall (fun p => ~ In sep p) ps -> split sep (join [sep] ps) = ps.
Proof.
  induction ps as [|p ps IH]; intros Hne Hall; [contradiction|].
  inversion Hall as [|? ? Hp Hps]; subst.
  destruct ps as [|q ps]; [now apply split_free|].
  rewrite join_cons. change ([sep] ++ join [sep] (q :: ps)) with (sep :: join [sep] (q :: ps)).
  rewrite split_app, split_free by exact Hp. rewrite IH by (auto; discriminate).
  reflexivity.
Qed.

Lemma join_app sep a b :
  a <> [] -> b <> [] -> join sep (a ++ b) = join sep a ++ sep ++ join sep b.
Proof.
  induction a as [|p a IH]; intros Ha Hb; [contradiction|].
  destruct a as [|q a].
  - destruct b; [contradiction | reflexivity].
  - change ((p :: q :: a) ++ b) with (p :: q :: (a ++ b)). rewrite !join_cons.
    change (q :: a ++ b) with ((q :: a) ++ b). rewrite IH by (auto; discriminate).
    now rewrite <- !app_assoc.
Qed.

(** The number of dots of a string. *)
Lemma split_length sep s :
  List.length (split sep s) = S (count_occ N.eq_dec s sep).
Proof.
  induction s as [|c s IH]; simpl; [reflexivity|].
  destruct (N.eqb_spec c sep) as [->|N].
  - destruct (N.eq_dec sep sep); [|contradiction]. simpl. now rewrite IH.
  - destruct (N.eq_dec c sep); [contradiction|].
    pose proof (split_nonempty sep s) as H.
    destruct (split sep s); [contradiction|]. simpl in *. exact IH.
Qed.

Lemma count_occ_join sep ps :
  Forall (fun p => ~ In sep p) ps ->
  count_occ N.eq_dec (join [sep] ps) sep = pred (List.length ps).
Proof.
  intros H. destruct ps as [|p ps]; [reflexivity|].
  pose proof (split_length sep (join [sep] (p :: ps))) as L.
  rewrite split_join in L by (auto; discriminate). simpl in L. simpl. lia.
Qed.

(** ** [getSubnet] *)

Lemma dots_split s : List.length (split 46 s) = S (dots s).
Proof. apply split_length. Qed.

Lemma dots_join ps :
  Forall (fun p => ~ In 46 p) ps -> dots (join (lit ".") ps) = pred (List.length ps).
Proof. apply (count_occ_join 46). Qed.

Lemma getSubnet_parts ip :
  getSubnet ip = join (lit ".") (firstn 3 (split 46 ip)).
Proof. reflexivity. Qed.

Lemma getSubnet_short ip : (dots ip <= 2)%nat -> getSubnet ip = ip.
Proof.
  intros H. rewrite getSubnet_parts, firstn_all2.
  - apply (join_split 46).
  - rewrite dots_split. lia.
Qed.

Lemma getSubnet_of_host subnet rest :
  dots subnet = 2%nat ->
  getSubnet (subnet ++ lit "." ++ rest) = subnet.
Proof.
  intros H. rewrite getSubnet_parts. change (lit "." ++ rest) with (46 :: rest).
  rewrite split_app, firstn_app.
  assert (L : List.length (split 46 subnet) = 3%nat) by (rewrite dots_split; lia).
  rewrite L, Nat.sub_diag, firstn_O, app_nil_r, <- L, firstn_all.
  apply (join_split 46).
Qed.

(** X1.  The subnet of every host that [getSubnetHosts] generates for a
    prefix with two dots (three octets) is that prefix. *)
Theorem X1_getSubnet_of_generated_host :
  forall subnet host,
    dots subnet = 2%nat ->
    In host (getSubnetHosts subnet) ->
    getSubnet host = subnet.
Proof.
  intros subnet host H Hin. apply getSubnetHosts_In in Hin.
  destruct Hin as (n & _ & ->). now apply getSubnet_of_host.
Qed.

Lemma X1_getSubnet_of_generated_host_witness :
  In (lit "10.0.0.7") (getSubnetHosts (lit "10.0.0")) /\
  getSubnet (lit "10.0.0.7") = lit "10.0.0".
Proof.
  assert (H : In (lit "10.0.0.7") (getSubnetHosts (lit "10.0.0"))).
  { apply getSubnetHosts_In. exists 7. split; [lia | reflexivity]. }
  split; [exact H|].
  apply (X1_getSubnet_of_generated_host (lit "10.0.0") (lit "10.0.0.7")); [reflexivity | exact H].
Defined.

(** X2.  [getSubnet] keeps the text before the third dot: the result is
    a prefix of the address with at most two dots, an address with at
    most two dots is returned as it is, and applying [getSubnet] again
    changes nothing. *)
Theorem X2_getSubnet_prefix :
  forall ip,
    (exists rest, ip = getSubnet ip ++ rest) /\
    (dots (getSubnet ip) <= 2)%nat /\
    ((dots ip <= 2)%nat -> getSubnet ip = ip) /\
    ((2 < dots ip)%nat ->
     dots (getSubnet ip) = 2%nat /\
     exists rest, ip = getSubnet ip ++ lit "." ++ rest) /\
    getSubnet (getSubnet ip) = getSubnet ip.
Proof.
  intros ip.
  assert (F : Forall (fun p => ~ In 46 p) (firstn 3 (split 46 ip))).
  { apply Forall_forall. intros p Hp.
    pose proof (split_parts_free 46 ip) as G. rewrite Forall_forall in G.
    apply G. rewrite <- (firstn_skipn 3 (split 46 ip)). apply in_or_app. now left. }
  assert (C : (dots (getSubnet ip) <= 2)%nat).
  { rewrite getSubnet_parts. rewrite dots_join by exact F.
    rewrite length_firstn. lia. }
  assert (L : (2 < dots ip)%nat ->
              dots (getSubnet ip) = 2%nat /\
              exists rest, ip = getSubnet ip ++ lit "." ++ rest).
  { intros H. split.
    - rewrite getSubnet_parts. rewrite dots_join by exact F.
      rewrite length_firstn, dots_split. lia.
    - exists (join (lit ".") (skipn 3 (split 46 ip))).
      rewrite getSubnet_parts, <- join_app.
      + rewrite firstn_skipn. symmetry. apply (join_split 46).
      + intros E. apply (f_equal (@List.length _)) in E.
        rewrite length_firstn, dots_split in E. simpl in E. lia.
      + intros E. apply (f_equal (@List.length _)) in E.
        rewrite length_skipn, dots_split in E. simpl in E. lia. }
  split; [|split; [exact C|split; [apply getSubnet_short|split; [exact L|]]]].
  - destruct (Nat.le_gt_cases (dots ip) 2) as [H|H].
    + exists []. rewrite getSubnet_short by exact H. now rewrite app_nil_r.
    + destruct (L H) as (_ & rest & E). now exists (lit "." ++ rest).
  - now apply getSubnet_short.
Qed.

Lemma X2_getSubnet_prefix_witness :
  (2 < dots (lit "192.168.2.5"))%nat /\
  dots (getSubnet (lit "192.168.2.5")) = 2%nat.
Proof.
  assert (H : (2 < dots (lit "192.168.2.5"))%nat) by (vm_compute; lia).
  split; [exact H|].
  exact (proj1 (proj1 (proj2 (proj2 (proj2 (X2_getSubnet_prefix (lit "192.168.2.5"))))) H)).
Defined.

End SubnetFacts.

(* ====================================================================== *)
(** * Proofs: the scan *)
(* ====================================================================== *)

Module ScanFacts.
Import Js Scanner JsFacts ScannerFacts.

(** ** [getLocalIp] *)

Lemma firstExternal_none iface :
  firstExternal iface = None <-> forall a, In a iface -> isExternalIPv4 a = false.
Proof.
  induction iface as [|x l IH]; simpl; [split; [intros _ a [] | reflexivity]|].
  fold (isExternalIPv4 x). destruct (isExternalIPv4 x) eqn:E.
  - split; [discriminate|]. intros H. specialize (H x (or_introl eq_refl)). congruence.
  - rewrite IH. split.
    + intros H a [<-|Ha]; auto.
    + intros H a Ha. apply H. now right.
Qed.

Lemma firstExternal_some iface a :
  firstExternal iface = Some a ->
  exists pre x post, iface = pre ++ x :: post /\ a = address x /\
    isExternalIPv4 x = true /\ forall b, In b pre -> isExternalIPv4 b = false.
Proof.
  induction iface as [|y l IH]; simpl; [discriminate|].
  fold (isExternalIPv4 y). destruct (isExternalIPv4 y) eqn:E.
  - intros H. inversion H; subst. exists [], y, l. repeat split; auto. intros b [].
  - intros H. destruct (IH H) as (pre & x & post & -> & -> & Hx & Hpre).
    exists (y :: pre), x, post. repeat split; auto.
    intros b [<-|Hb]; auto.
Qed.

Lemma first_external_unique (pre pre' : list NetworkInterfaceInfo) a a' post post' :
  pre ++ a :: post = pre' ++ a' :: post' ->
  (forall b, In b pre -> isExternalIPv4 b = false) -> isExternalIPv4 a = true ->
  (forall b, In b pre' -> isExternalIPv4 b = false) -> isExternalIPv4 a' = true ->
  a = a'.
Proof.
  revert pre'. induction pre as [|x pre IH]; intros pre' E H1 H2 H3 H4.
  - destruct pre' as [|x' pre']; simpl in E; inversion E; subst; [reflexivity|].
    specialize (H3 x' (or_introl eq_refl)). congruence.
  - destruct pre' as [|x' pre']; simpl in E; inversion E; subst.
    + specialize (H1 a' (or_introl eq_refl)). congruence.
    + apply (IH pre'); auto.
      * intros b Hb. apply H1. now right.
      * intros b Hb. apply H3. now right.
Qed.

(** X3.  [getLocalIp] returns the address of the first entry, in the
    order the interfaces and their addresses are listed, that is IPv4
    and not internal, and [127.0.0.1] when there is none. *)
Theorem X3_getLocalIp_first_external :
  forall interfaces,
    ((forall a, In a (allAddresses interfaces) -> isExternalIPv4 a = false) ->
     getLocalIp interfaces = lit "127.0.0.1") /\
    (forall pre a post,
       allAddresses interfaces = pre ++ a :: post ->
       (forall b, In b pre -> isExternalIPv4 b = false) ->
       isExternalIPv4 a = true ->
       getLocalIp interfaces = address a).
Proof.
  assert (G : forall interfaces,
    (exists pre a post, allAddresses interfaces = pre ++ a :: post /\
        (forall b, In b pre -> isExternalIPv4 b = false) /\ isExternalIPv4 a = true /\
        getLocalIp interfaces = address a) \/
    ((forall a, In a (allAddresses interfaces) -> isExternalIPv4 a = false) /\
     getLocalIp interfaces = lit "127.0.0.1")).
  { induction interfaces as [|[iface|] rest IH]; simpl.
    - right. split; [intros a []|reflexivity].
    - destruct (firstExternal iface) as [a|] eqn:E.
      + left. destruct (firstExternal_some iface a E) as (pre & x & post & -> & -> & Hx & Hpre).
        exists pre, x, (post ++ allAddresses rest). rewrite <- app_assoc. auto.
      + rewrite firstExternal_none in E.
        destruct IH as [(pre & a & post & E1 & H1 & H2 & H3)|[H1 H2]].
        * left. exists (iface ++ pre), a, post. rewrite E1, <- app_assoc.
          repeat split; auto. intros b Hb. apply in_app_or in Hb. destruct Hb; auto.
        * right. split; [|exact H2]. intros a Ha. apply in_app_or in Ha. destruct Ha; auto.
    - exact IH. }
  intros interfaces. destruct (G interfaces) as [(pre & a & post & E1 & H1 & H2 & H3)|[H1 H2]].
  - split.
    + intros H. assert (Ha : In a (allAddresses interfaces))
        by (rewrite E1; apply in_or_app; right; now left).
      apply H in Ha. congruence.
    + intros pre' a' post' E' H1' H2'. rewrite H3. f_equal.
      rewrite E1 in E'. now apply (first_external_unique pre pre' a a' post post').
  - split; [auto|]. intros pre a post E Hpre Ha.
    assert (Hin : In a (allAddresses interfaces))
      by (rewrite E; apply in_or_app; right; now left).
    apply H1 in Hin. congruence.
Qed.

Lemma X3_getLocalIp_first_external_witness :
  getLocalIp [Some [mkInfo (lit "IPv4") true (lit "127.0.0.1")]; None;
              Some [mkInfo (lit "IPv6") false (lit "fe80::1");
                    mkInfo (lit "IPv4") false (lit "192.168.2.5")]]
  = lit "192.168.2.5".
Proof.
  apply (proj2 (X3_getLocalIp_first_external _)
           [mkInfo (lit "IPv4") true (lit "127.0.0.1");
            mkInfo (lit "IPv6") false (lit "fe80::1")]
           (mkInfo (lit "IPv4") false (lit "192.168.2.5")) []).
  - reflexivity.
  - intros b [<-|[<-|[]]]; reflexivity.
  - reflexivity.
Defined.

(** ** The targets *)

Lemma pairs_fold (h : jsstring) (ps : list N) : forall acc,
  fold_left (fun targets port => targets ++ [(h, port)]) ps acc =
  acc ++ map (fun p => (h, p)) ps.
Proof.
  induction ps as [|p ps IH]; intros acc; simpl; [now rewrite app_nil_r|].
  rewrite IH, <- app_assoc. reflexivity.
Qed.

Lemma targets_fold (ps : list N) (hs : list jsstring) : forall acc,
  fold_left (fun targets host =>
               fold_left (fun targets port => targets ++ [(host, port)]) ps targets) hs acc =
  acc ++ flat_map (fun h => map (fun p => (h, p)) ps) hs.
Proof.
  induction hs as [|h hs IH]; intros acc; simpl; [now rewrite app_nil_r|].
  rewrite IH, pairs_fold, <- app_assoc. reflexivity.
Qed.

Lemma map_NoDup {A B} (f : A -> B) l :
  (forall a b, f a = f b -> a = b) -> NoDup l -> NoDup (map f l).
Proof.
  intros Hf H. induction H as [|x l Hx H IH]; simpl; constructor; [|exact IH].
  intros Hin. apply in_map_iff in Hin. destruct Hin as (y & E & Hy).
  apply Hf in E. now subst.
Qed.

Lemma getSubnetHosts_NoDup s : NoDup (getSubnetHosts s).
Proof.
  unfold getSubnetHosts. apply map_NoDup; [|apply seq_NoDup].
  intros i j E. apply app_inv_head in E. apply app_inv_head in E.
  apply Number_toString_inj in E. lia.
Qed.

Lemma pairs_NoDup (hs : list jsstring) (ps : list N) :
  NoDup hs -> NoDup ps -> NoDup (flat_map (fun h => map (fun p => (h, p)) ps) hs).
Proof.
  intros Hh Hp. induction Hh as [|h hs Hn Hh IH]; simpl; [constructor|].
  apply NoDup_app.
  - apply map_NoDup; [|exact Hp]. intros a b E. now inversion E.
  - exact IH.
  - intros [h' p] H1 H2. apply in_map_iff in H1. destruct H1 as (p' & E & _).
    inversion E; subst. apply in_flat_map in H2. destruct H2 as (h2 & Hh2 & Hin).
    apply in_map_iff in Hin. destruct Hin as (p2 & E2 & _). inversion E2; subst.
    contradiction.
Qed.

(** X4.  The targets of a scan are the pairs of a generated host and a
    port: 254 times the number of ports of them (1778 with the default
    ports), each pair of a host and a port among them, and none twice
    when no port is listed twice. *)
Theorem X4_scan_targets :
  forall options localIp,
    let s := match subnet options with Some s => s | None => getSubnet localIp end in
    let ps := match ports options with Some ps => ps | None => NCTRL_PORTS end in
    List.length (targets options localIp) = (254 * List.length ps)%nat /\
    (forall h p, In (h, p) (targets options localIp) <->
                 In h (getSubnetHosts s) /\ In p ps) /\
    (NoDup ps -> NoDup (targets options localIp)) /\
    (ports options = None ->
     List.length (targets options localIp) = 1778%nat /\ NoDup (targets options localIp)).
Proof.
  intros options localIp s ps.
  assert (E : targets options localIp =
              flat_map (fun h => map (fun p => (h, p)) ps) (getSubnetHosts s)).
  { unfold targets. fold s ps. now rewrite targets_fold. }
  assert (L : forall hs : list jsstring,
             List.length (flat_map (fun h => map (fun p => (h, p)) ps) hs) =
             (List.length hs * List.length ps)%nat).
  { induction hs as [|h hs IH]; simpl; [reflexivity|].
    now rewrite length_app, length_map, IH. }
  assert (N : NoDup ps -> NoDup (targets options localIp)).
  { intros H. rewrite E. apply pairs_NoDup; [apply getSubnetHosts_NoDup | exact H]. }
  rewrite E. split; [|split; [|split]].
  - rewrite L. unfold getSubnetHosts. now rewrite length_map, length_seq.
  - intros h p. rewrite in_flat_map. split.
    + intros (h' & Hh & Hin). apply in_map_iff in Hin. destruct Hin as (p' & Ep & Hp).
      inversion Ep; subst. auto.
    + intros [Hh Hp]. exists h. split; [exact Hh|]. apply in_map_iff. now exists p.
  - rewrite <- E. exact N.
  - intros Hnone. rewrite <- E. split.
    + rewrite E, L. unfold getSubnetHosts. rewrite length_map, length_seq.
      subst ps. rewrite Hnone. reflexivity.
    + apply N. subst ps. rewrite Hnone. unfold NCTRL_PORTS.
      repeat (constructor; [simpl; intuition discriminate|]). constructor.
Qed.

Lemma X4_scan_targets_witness :
  List.length (targets (mkOptions (Some (lit "10.0.0")) None) (lit "192.168.2.5")) = 1778%nat.
Proof.
  apply (proj2 (proj2 (proj2 (X4_scan_targets (mkOptions (Some (lit "10.0.0")) None)
                                (lit "192.168.2.5"))))).
  reflexivity.
Defined.

End ScanFacts.

(* ====================================================================== *)
(** * Proofs: batches and the order of the results *)
(* ====================================================================== *)

Module BatchFacts.
Import Js Scanner.

Section RunConcurrent.

Context {T R : Type}.
Variable items : list T.
Variable concurrency : nat.
Variable fn : T -> R.

Lemma slice_batch i :
  slice i (i + concurrency) items = firstn concurrency (skipn i items).
Proof. unfold slice. now rewrite Nat.add_comm, Nat.add_sub. Qed.

Lemma runConcurrent_from_spec fuel : forall i acc,
  (0 < concurrency)%nat -> (List.length items - i < fuel)%nat ->
  exists bs,
    runConcurrent_from fuel items concurrency fn i acc =
      Some (mkConcurrent (results acc ++ map fn (skipn i items)) (batches acc ++ bs)) /\
    List.concat bs = skipn i items /\
    Forall (fun b => (0 < List.length b <= concurrency)%nat) bs /\
    (forall j, (S j < List.length bs)%nat -> List.length (nth j bs []) = concurrency).
Proof.
  induction fuel as [|fuel IH]; intros i acc Hc Hf; [lia|].
  cbn [runConcurrent_from]. destruct (Nat.ltb_spec i (List.length items)) as [Hi|Hi].
  - rewrite slice_batch. set (batch := firstn concurrency (skipn i items)).
    destruct (IH (i + concurrency)%nat
                 (mkConcurrent (results acc ++ map fn batch) (batches acc ++ [batch])) Hc)
      as (bs & E & Hcat & Hall & Hfull); [lia|].
    assert (Hsk : skipn (i + concurrency) items = skipn concurrency (skipn i items))
      by (now rewrite skipn_skipn, Nat.add_comm).
    assert (Hlen : List.length batch = Nat.min concurrency (List.length items - i))
      by (subst batch; now rewrite length_firstn, length_skipn).
    exists (batch :: bs). split; [|split; [|split]].
    + rewrite E. cbn [results batches]. rewrite <- !app_assoc, <- map_app.
      subst batch. rewrite Hsk, firstn_skipn. reflexivity.
    + cbn [List.concat]. rewrite Hcat, Hsk. subst batch. apply firstn_skipn.
    + constructor; [lia | exact Hall].
    + intros [|j] Hj; cbn [nth].
      * destruct bs as [|b bs]; [simpl in Hj; lia|].
        inversion Hall as [|? ? Hb _]; subst.
        assert (Hne : (0 < List.length (skipn (i + concurrency) items))%nat).
        { rewrite <- Hcat. cbn [List.concat]. rewrite length_app. lia. }
        rewrite length_skipn in Hne. lia.
      * apply Hfull. simpl in Hj. lia.
  - exists []. rewrite skipn_all2 by lia. cbn. rewrite !app_nil_r.
    split; [now destruct acc|]. split; [reflexivity|]. split; [constructor|].
    intros j Hj. simpl in Hj. lia.
Qed.

Lemma runConcurrent_from_stuck fuel : forall i acc,
  concurrency = 0%nat -> (i < List.length items)%nat ->
  runConcurrent_from fuel items concurrency fn i acc = None.
Proof.
  induction fuel as [|fuel IH]; intros i acc Hc Hi; [reflexivity|].
  cbn [runConcurrent_from]. destruct (Nat.ltb_spec i (List.length items)); [|lia].
  apply IH; [exact Hc | lia].
Qed.

End RunConcurrent.

(** X5.  With a positive [concurrency], [runConcurrent] returns once
    its loop has run often enough; the results are those of [fn] on the
    items, in the order of the items; the batches started one after the
    other make up the items in order, none is empty or longer than
    [concurrency], and all but the last have exactly [concurrency]
    items.  With [concurrency = 0] and items to run the loop never
    ends. *)
Theorem X5_runConcurrent_batches :
  forall (T R : Type) (items : list T) (concurrency : nat) (fn : T -> R),
    ((0 < concurrency)%nat ->
     forall fuel, (List.length items < fuel)%nat ->
     exists r,
       runConcurrent fuel items concurrency fn = Some r /\
       results r = map fn items /\
       List.concat (batches r) = items /\
       Forall (fun b => (0 < List.length b <= concurrency)%nat) (batches r) /\
       (forall j, (S j < List.length (batches r))%nat ->
          List.length (nth j (batches r) []) = concurrency)) /\
    (concurrency = 0%nat -> items <> [] ->
     forall fuel, runConcurrent fuel items concurrency fn = None).
Proof.
  intros T R items concurrency fn. split.
  - intros Hc fuel Hf.
    destruct (runConcurrent_from_spec items concurrency fn fuel 0 (mkConcurrent [] []) Hc)
      as (bs & E & Hcat & Hall & Hfull); [lia|].
    eexists. split; [exact E|]. cbn. auto.
  - intros Hc Hne fuel. apply runConcurrent_from_stuck; [exact Hc|].
    destruct items; [contradiction | simpl; lia].
Qed.

Lemma X5_runConcurrent_batches_witness :
  exists r,
    runConcurrent 6 [1; 2; 3; 4; 5]%nat 2 S = Some r /\
    results r = [2; 3; 4; 5; 6]%nat.
Proof.
  destruct (proj1 (X5_runConcurrent_batches nat nat [1; 2; 3; 4; 5]%nat 2 S)
              ltac:(lia) 6%nat ltac:(simpl; lia)) as (r & E & H & _).
  exists r. split; [exact E | exact H].
Defined.

(** ** The order of the devices found *)

Lemma compareFound_total a b : (compareFound a b <= 0 \/ compareFound b a <= 0)%Z.
Proof.
  unfold compareFound. destruct (isWaldman a), (isWaldman b); simpl; lia.
Qed.

Lemma compareFound_trans a b c :
  (compareFound a b <= 0 -> compareFound b c <= 0 -> compareFound a c <= 0)%Z.
Proof.
  unfold compareFound. destruct (isWaldman a), (isWaldman b), (isWaldman c); simpl; lia.
Qed.

Section Sort.

Context {A : Type}.
Variable cmp : A -> A -> Z.
Hypothesis cmp_total : forall a b, (cmp a b <= 0 \/ cmp b a <= 0)%Z.
Hypothesis cmp_trans : forall a b c, (cmp a b <= 0 -> cmp b c <= 0 -> cmp a c <= 0)%Z.

Lemma insertSorted_perm x l : Permutation (insertSorted cmp x l) (x :: l).
Proof.
  induction l as [|y l IH]; simpl; [reflexivity|].
  destruct (cmp x y <=? 0)%Z; [reflexivity|].
  rewrite IH. apply perm_swap.
Qed.

Lemma sort_perm l : Permutation (sort cmp l) l.
Proof.
  induction l as [|x l IH]; simpl; [reflexivity|].
  rewrite insertSorted_perm. now constructor.
Qed.

Lemma insertSorted_sorted x l :
  StronglySorted (fun a b => (cmp a b <= 0)%Z) l ->
  StronglySorted (fun a b => (cmp a b <= 0)%Z) (insertSorted cmp x l).
Proof.
  induction l as [|y l IH]; intros H; simpl.
  - constructor; constructor.
  - inversion H as [|? ? Hs Hf]; subst.
    destruct (Z.leb_spec (cmp x y) 0) as [L|L].
    + constructor; [exact H|]. constructor; [exact L|].
      rewrite Forall_forall in *. intros z Hz. eapply cmp_trans; eauto.
    + constructor; [now apply IH|].
      rewrite Forall_forall in *. intros z Hz.
      apply (Permutation_in _ (insertSorted_perm x l)) in Hz. destruct Hz as [<-|Hz].
      * destruct (cmp_total y x); [assumption | lia].
      * now apply Hf.
Qed.

Lemma sort_sorted l : StronglySorted (fun a b => (cmp a b <= 0)%Z) (sort cmp l).
Proof.
  induction l as [|x l IH]; simpl; [constructor|]. now apply insertSorted_sorted.
Qed.

End Sort.

Lemma sorted_before {A} (le : A -> A -> Prop) l1 a l2 b l3 :
  StronglySorted le (l1 ++ a :: l2 ++ b :: l3) -> le a b.
Proof.
  induction l1 as [|x l1 IH]; simpl; intros H; inversion H as [|? ? Hs Hf]; subst.
  - rewrite Forall_forall in Hf. apply Hf. apply in_or_app. right. now left.
  - now apply IH.
Qed.

(** X6.  The list a scan returns holds the devices found, each as often
    as it was found; a Waldman device never comes after one that is not,
    and among devices of the same kind the latency never decreases. *)
Theorem X6_scan_results_order :
  forall found,
    Permutation (sortFound found) found /\
    StronglySorted (fun a b => (compareFound a b <= 0)%Z) (sortFound found) /\
    (forall l1 a l2 b l3,
       sortFound found = l1 ++ a :: l2 ++ b :: l3 ->
       (isWaldman b = true -> isWaldman a = true) /\
       (isWaldman a = isWaldman b -> (latencyMs a <= latencyMs b)%Z)).
Proof.
  intros found.
  pose proof (sort_sorted compareFound compareFound_total compareFound_trans found) as S.
  split; [apply sort_perm|]. split; [exact S|].
  intros l1 a l2 b l3 E. unfold sortFound in *. rewrite E in S.
  apply sorted_before in S. unfold compareFound in S.
  destruct (isWaldman a), (isWaldman b); simpl in S; split; intros; try lia; congruence.
Qed.

Lemma X6_scan_results_order_witness :
  sortFound [mkScanResult (lit "10.0.0.9") 3000 false None 5;
             mkScanResult (lit "10.0.0.7") 3000 true None 40]
  = [] ++ mkScanResult (lit "10.0.0.7") 3000 true None 40
       :: [] ++ mkScanResult (lit "10.0.0.9") 3000 false None 5 :: [] /\
  (isWaldman (mkScanResult (lit "10.0.0.9") 3000 false None 5) = true ->
   isWaldman (mkScanResult (lit "10.0.0.7") 3000 true None 40) = true).
Proof.
  assert (E : sortFound [mkScanResult (lit "10.0.0.9") 3000 false None 5;
                         mkScanResult (lit "10.0.0.7") 3000 true None 40]
              = [] ++ mkScanResult (lit "10.0.0.7") 3000 true None 40
                   :: [] ++ mkScanResult (lit "10.0.0.9") 3000 false None 5 :: [])
    by reflexivity.
  split; [exact E|].
  exact (proj1 (proj2 (proj2 (X6_scan_results_order _)) _ _ _ _ _ E)).
Defined.

End BatchFacts.

(* ====================================================================== *)
(** * Proofs: what the probe reports *)
(* ====================================================================== *)

Module ProbeFacts.
Import Js Scanner.
Local Open Scope N_scope.

(** ** [trim] *)

Lemma dropWhile_suffix p s : exists pre, s = pre ++ dropWhile p s /\ forallb p pre = true.
Proof.
  induction s as [|c s IH]; simpl; [now exists []|].
  destruct (p c) eqn:E; [|now exists []].
  destruct IH as (pre & E1 & E2). exists (c :: pre). simpl. rewrite E.
  split; [now f_equal | exact E2].
Qed.

Lemma dropWhile_stops p s :
  match dropWhile p s with [] => True | c :: _ => p c = false end.
Proof.
  induction s as [|c s IH]; simpl; [exact I|]. destruct (p c) eqn:E; [exact IH | exact E].
Qed.

Lemma dropWhile_nil p s : dropWhile p s = [] <-> forallb p s = true.
Proof.
  induction s as [|c s IH]; simpl; [tauto|].
  destruct (p c); simpl; [exact IH|]. split; discriminate.
Qed.

(** The parts [trim] takes away are white space, and what is left
    neither starts nor ends with white space. *)
Lemma trim_spec s :
  exists pre post,
    s = pre ++ trim s ++ post /\
    forallb isWhiteSpace pre = true /\ forallb isWhiteSpace post = true /\
    match trim s with [] => True | c :: _ => isWhiteSpace c = false end /\
    match rev (trim s) with [] => True | c :: _ => isWhiteSpace c = false end.
Proof.
  unfold trim.
  destruct (dropWhile_suffix isWhiteSpace s) as (pre & E1 & H1).
  set (d1 := dropWhile isWhiteSpace s) in *.
  destruct (dropWhile_suffix isWhiteSpace (rev d1)) as (q & E2 & H2).
  set (d2 := dropWhile isWhiteSpace (rev d1)) in *.
  assert (E3 : d1 = rev d2 ++ rev q).
  { rewrite <- (rev_involutive d1), E2, rev_app_distr. reflexivity. }
  exists pre, (rev q). split; [|split; [|split; [|split]]].
  - now rewrite <- E3.
  - exact H1.
  - rewrite forallb_forall in *. intros x Hx. apply H2. rewrite in_rev. exact Hx.
  - pose proof (dropWhile_stops isWhiteSpace s) as Hd. fold d1 in Hd. rewrite E3 in Hd.
    destruct (rev d2); [exact I | exact Hd].
  - rewrite rev_involutive. apply dropWhile_stops.
Qed.

Lemma trim_nil s : trim s = [] <-> forallb isWhiteSpace s = true.
Proof.
  unfold trim. split.
  - intros H. apply (f_equal (@rev _)) in H. rewrite rev_involutive in H. simpl in H.
    apply dropWhile_nil in H.
    destruct (dropWhile_suffix isWhiteSpace s) as (pre & E1 & H1).
    remember (dropWhile isWhiteSpace s) as d1 eqn:Ed. clear Ed.
    subst s. rewrite forallb_app, H1. simpl.
    rewrite forallb_forall in *. intros x Hx. apply H. rewrite <- in_rev. exact Hx.
  - intros H. apply dropWhile_nil in H. now rewrite H.
Qed.

(** ** [finish] *)

Lemma replaceLineBreaks_space s :
  forallb isWhiteSpace (replaceLineBreaks s) = forallb isWhiteSpace s.
Proof.
  induction s as [|c s IH]; simpl; [reflexivity|]. rewrite IH. f_equal.
  destruct (N.eqb_spec c 13) as [->|]; [reflexivity|].
  destruct (N.eqb_spec c 10) as [->|]; reflexivity.
Qed.

Lemma replaceLineBreaks_none s c :
  In c (replaceLineBreaks s) -> c <> 13 /\ c <> 10.
Proof.
  unfold replaceLineBreaks. rewrite in_map_iff. intros (x & E & _).
  destruct (N.eqb_spec x 13); destruct (N.eqb_spec x 10); simpl in E; subst; lia.
Qed.

Lemma startsWith_app l rest : startsWith l (l ++ rest) = true.
Proof. induction l as [|a l IH]; simpl; [reflexivity|]. now rewrite N.eqb_refl. Qed.

Lemma includes_right pre s l : includes s l = true -> includes (pre ++ s) l = true.
Proof.
  intros H. induction pre as [|a pre IH]; simpl; [exact H|].
  rewrite IH. apply orb_true_r.
Qed.

Lemma includes_middle pre mid post : includes (pre ++ mid ++ post) mid = true.
Proof.
  apply includes_right. destruct mid; simpl; [destruct post; reflexivity|].
  now rewrite N.eqb_refl, startsWith_app.
Qed.

(** X7.  The snippet the probe reports is made of the first 80 code
    units received: it has at most 80 code units, no line break, and
    neither starts nor ends with white space; it is empty (reported as
    [undefined]) exactly when those first code units are all white
    space.  An answer that holds one of the keywords, in whatever case
    of ASCII letters and wherever in the text, is taken for a Waldman
    device. *)
Theorem X7_probe_report :
  forall data,
    let snippet := snd (finish data) in
    (List.length snippet <= 80)%nat /\
    ~ In 13 snippet /\ ~ In 10 snippet /\
    match snippet with [] => True | c :: _ => isWhiteSpace c = false end /\
    match rev snippet with [] => True | c :: _ => isWhiteSpace c = false end /\
    (orUndefined snippet = None <-> forallb isWhiteSpace (firstn 80 data) = true) /\
    (forall pre mid post,
       data = pre ++ mid ++ post -> In (toUpperCase mid) KEYWORDS ->
       fst (finish data) = true).
Proof.
  intros data snippet. subst snippet. cbn [finish snd fst].
  unfold slice. cbn [skipn]. rewrite Nat.sub_0_r.
  set (t := replaceLineBreaks (firstn 80 data)).
  destruct (trim_spec t) as (pre & post & E & Hpre & Hpost & Hhd & Hlast).
  assert (In_t : forall c, In c (trim t) -> In c t).
  { intros c Hc. rewrite E. apply in_or_app. right. apply in_or_app. now left. }
  split; [|split; [|split; [|split; [|split; [|split]]]]].
  - apply (f_equal (@List.length _)) in E. rewrite !length_app in E.
    assert (L : (List.length t <= 80)%nat).
    { subst t. unfold replaceLineBreaks. rewrite length_map. apply firstn_le_length. }
    lia.
  - intros H. apply In_t, replaceLineBreaks_none in H. lia.
  - intros H. apply In_t, replaceLineBreaks_none in H. lia.
  - exact Hhd.
  - exact Hlast.
  - rewrite <- (replaceLineBreaks_space (firstn 80 data)). fold t. rewrite <- trim_nil.
    unfold orUndefined. destruct (trim t); split; congruence.
  - intros p mid q -> Hin.
    unfold toUpperCase. rewrite !map_app. fold (toUpperCase mid).
    assert (G : includes (map upper p ++ toUpperCase mid ++ map upper q) (toUpperCase mid) = true)
      by apply includes_middle.
    unfold KEYWORDS in Hin. cbn [In] in Hin.
    repeat (destruct Hin as [Ek|Hin];
            [rewrite Ek, G; rewrite ?orb_true_r; reflexivity|]).
    contradiction.
Qed.

Lemma X7_probe_report_witness :
  lit "ok preset 1" = [] ++ lit "ok" ++ lit " preset 1" /\
  fst (finish (lit "ok preset 1")) = true.
Proof.
  split; [reflexivity|].
  apply (proj2 (proj2 (proj2 (proj2 (proj2 (proj2 (X7_probe_report (lit "ok preset 1")))))))
           [] (lit "ok") (lit " preset 1") eq_refl).
  now left.
Defined.

End ProbeFacts.

(* ====================================================================== *)
(** * Proofs: more on the reconnect watchdog *)
(* ====================================================================== *)

Module WatchdogRuns.
Import Watchdog WatchdogFacts.
Local Open Scope Z_scope.

(** ** After a reconnection the watchdog made itself *)

Lemma resumed_success_spec w :
  let w' := _attempt_resumed (fulfilled true) w in
  state w' = watching /\ timer w' = None /\ nextAttemptAt w' = None /\
  attempts w' = 0 /\ currentIntervalMs w' = BASE_INTERVAL_MS /\ lastError w' = None /\
  stopped_ w' = stopped_ w /\ suspended w' = suspended w /\ clock w' = clock w /\
  (forall e, In e (scheduled w') -> In e (scheduled w) /\ timer w <> Some (fst e)) /\
  exists evs, emitted w' = emitted w ++ reconnected (attempts w) :: evs /\
              forallb (fun e => negb (is_attempt e)) evs = true.
Proof.
  destruct w as [st at_ la na le ci ti sp rf cf ck sc nh su em].
  cbv zeta. unfold _attempt_resumed, onConnected, clearHeldTimer, _setState, emit, clearTimeout.
  simpl. destruct ti as [h|]; simpl;
    destruct st; simpl; repeat match goal with |- _ /\ _ => split end; auto;
      try (intros e He; apply filter_In in He; destruct He as [He1 He2]; split; [exact He1|];
           apply negb_true_iff, Nat.eqb_neq in He2; congruence);
      try (intros e He; split; [exact He | discriminate]);
      rewrite <- ?app_assoc; simpl; eexists; split; reflexivity.
Qed.

(** X8.  When a reconnect attempt succeeds, the watchdog ends in state
    [watching] with no timer held and no next attempt planned, and in
    that state [onDisconnected] and [start] change nothing: a connection
    lost afterwards is not retried until [onConnected()] or [stop()] is
    called.  After the usual cycle (one timer, which fired) no timer at
    all is armed. *)
Theorem X8_no_retry_after_own_reconnection :
  (forall w,
     let w' := _attempt_resumed (fulfilled true) w in
     state w' = watching /\ timer w' = None /\ nextAttemptAt w' = None /\
     (forall reason, onDisconnected reason w' = w') /\ start w' = w') /\
  (forall w,
     waiting w ->
     exists w',
       retry_cycle (fulfilled true) w = Some w' /\
       state w' = watching /\ scheduled w' = [] /\ suspended w' = 0%nat /\
       forall ks w'',
         forallb is_wake_up ks = true -> run ks w' = Some w'' ->
         exists dt, 0 <= dt /\ w'' = set_clock (clock w' + dt) w').
Proof.
  assert (N : forall w, state w = watching ->
                (forall reason, onDisconnected reason w = w) /\ start w = w).
  { intros w H. split; [|now apply start_noop; left].
    intros reason. unfold onDisconnected. rewrite H. now destruct (stopped_ w). }
  split.
  - intros w. destruct (resumed_success_spec w) as (A & B & C & _). cbv zeta in *.
    destruct (N _ A). auto.
  - assert (P : forall ks, forallb is_wake_up ks = true ->
                forall w0, state w0 = watching ->
                forall w3, run ks w0 = Some w3 ->
                exists dt, 0 <= dt /\ w3 = set_clock (clock w0 + dt) w0).
    { induction ks as [|k ks IH]; intros Hks w0 Hw0 w3 H.
      - simpl in H. inversion H; subst. exists 0. split; [lia|].
        destruct w3; unfold set_clock; simpl. f_equal. lia.
      - simpl in H, Hks. apply andb_prop in Hks. destruct Hks as [Hk Hks].
        destruct (N _ Hw0) as [N1 N2].
        destruct k; try discriminate; cbn [step] in H.
        + rewrite N2 in H. apply (IH Hks w0 Hw0 w3 H).
        + rewrite N1 in H. apply (IH Hks w0 Hw0 w3 H).
        + destruct (Z.leb_spec 0 dt); [|discriminate].
          destruct (IH Hks (set_clock (clock w0 + dt) w0)
                      ltac:(destruct w0; exact Hw0) w3 H) as (dt' & Hdt' & ->).
          exists (dt + dt'). split; [lia|]. destruct w0; unfold set_clock; simpl.
          f_equal. lia. }
    intros w [Hs Hst [Hr Hc] Hsu (h & Ht & Hsch) Hi].
    destruct w as [st at_ la na le ci ti sp rf cf ck sc nh su em]; simpl in *; subst.
    unfold retry_cycle; simpl.
    assert (E : (0 <=? ci) = true) by (apply Z.leb_le; lia).
    rewrite E. unfold due_of; simpl. rewrite Nat.eqb_refl. simpl.
    rewrite Z.leb_refl. unfold clearTimeout; simpl. rewrite Nat.eqb_refl. simpl.
    eexists. split; [reflexivity|]. split; [reflexivity|]. split; [reflexivity|].
    split; [reflexivity|].
    intros ks w'' Hks Hrun. eapply P; [exact Hks | | exact Hrun]. reflexivity.
Qed.

Lemma X8_no_retry_after_own_reconnection_witness :
  exists w',
    retry_cycle (fulfilled true) (start (configure (create 0))) = Some w' /\
    state w' = watching /\ scheduled w' = [].
Proof.
  destruct (proj2 X8_no_retry_after_own_reconnection _ (start_waiting 0))
    as (w' & A & B & C & _).
  exists w'. auto.
Defined.

(** ** Before [configure()] *)

Lemma unconfigured_step k w w' :
  is_configure k = false -> step k w = Some w' ->
  reconnectFn w = false -> attempts w = 0 -> suspended w = 0%nat ->
  forallb (fun e => negb (is_attempt e)) (emitted w) = true ->
  reconnectFn w' = false /\ attempts w' = 0 /\ suspended w' = 0%nat /\
  forallb (fun e => negb (is_attempt e)) (emitted w') = true.
Proof.
  intros Hk Hs Hr Ha Hsu He.
  destruct w as [st at_ la na le ci ti sp rf cf ck sc nh su em]; simpl in *; subst.
  destruct k; try discriminate; cbn [step] in Hs.
  - inversion Hs; subst. unfold start. simpl. destruct st; simpl; auto.
  - inversion Hs; subst. unfold stop, clearHeldTimer, _setState, emit, clearTimeout. simpl.
    destruct ti; simpl; destruct st; simpl; rewrite ?forallb_app, ?He; auto.
  - inversion Hs; subst. unfold onConnected, clearHeldTimer, _setState, emit, clearTimeout.
    simpl. destruct ti; simpl; destruct st; simpl; rewrite ?forallb_app, ?He; auto.
  - inversion Hs; subst. unfold onDisconnected, _scheduleNext, _setState, emit, setTimeout.
    simpl. destruct sp; simpl; [auto|].
    destruct st; simpl; rewrite ?forallb_app, ?He; auto.
  - destruct (due_of h _); [|discriminate]. destruct (_ <=? _); inversion Hs; subst.
    unfold _attempt, clearTimeout. simpl. destruct sp; simpl; auto.
  - destruct (0 <=? dt); inversion Hs; subst. simpl. auto.
Qed.

(** X9.  Until [configure()] is called the watchdog makes no attempt:
    whatever else is called and whichever timers fire, the attempt
    counter stays 0, no reconnect is awaited and no [attempt] event is
    emitted. *)
Theorem X9_no_attempt_before_configure :
  forall now ks w,
    forallb (fun k => negb (is_configure k)) ks = true ->
    run ks (create now) = Some w ->
    attempts w = 0 /\ suspended w = 0%nat /\
    forallb (fun e => negb (is_attempt e)) (emitted w) = true.
Proof.
  intros now ks w Hks Hrun.
  assert (G : forall ks w0 w1,
    forallb (fun k => negb (is_configure k)) ks = true -> run ks w0 = Some w1 ->
    reconnectFn w0 = false -> attempts w0 = 0 -> suspended w0 = 0%nat ->
    forallb (fun e => negb (is_attempt e)) (emitted w0) = true ->
    reconnectFn w1 = false /\ attempts w1 = 0 /\ suspended w1 = 0%nat /\
    forallb (fun e => negb (is_attempt e)) (emitted w1) = true).
  { clear. induction ks as [|k ks IH]; intros w0 w1 Hks H A B C D; simpl in *.
    - inversion H; subst. auto.
    - apply andb_prop in Hks. destruct Hks as [Hk Hks]. apply negb_true_iff in Hk.
      destruct (step k w0) as [w|] eqn:E; [|discriminate].
      destruct (unconfigured_step k w0 w Hk E A B C D) as (A' & B' & C' & D').
      now apply (IH w w1). }
  destruct (G ks (create now) w Hks Hrun) as (_ & A & B & C); auto.
Qed.

Lemma X9_no_attempt_before_configure_witness :
  exists w,
    run [call_onDisconnected None; time_passes 30000; timer_fires 0 false] (create 0) = Some w /\
    attempts w = 0.
Proof.
  destruct (run [call_onDisconnected None; time_passes 30000; timer_fires 0 false] (create 0))
    as [w|] eqn:H; [|vm_compute in H; discriminate].
  exists w. split; [reflexivity|].
  exact (proj1 (X9_no_attempt_before_configure 0
                  [call_onDisconnected None; time_passes 30000; timer_fires 0 false]
                  w eq_refl H)).
Defined.

(** ** What a run of failures emits *)

Lemma failed_cycle_log w :
  waiting w ->
  exists w', retry_cycle (fulfilled false) w = Some w' /\ waiting w' /\
    attempts w' = attempts w + 1 /\
    emitted w' = emitted w ++ failed_retry_events (attempts w + 1) /\
    clock w' = clock w + currentIntervalMs w /\
    lastAttemptAt w' = Some (clock w') /\
    lastError w' = Some "Falha na reconexão"%string /\
    nextAttemptAt w' = Some (clock w' + currentIntervalMs w').
Proof.
  intros [Hs Hst [Hr Hc] Hsu (h & Ht & Hsch) Hi].
  destruct w as [st at_ la na le ci ti sp rf cf ck sc nh su em]; simpl in *; subst.
  unfold retry_cycle; simpl.
  assert (E : (0 <=? ci) = true) by (apply Z.leb_le; lia).
  rewrite E. unfold due_of; simpl. rewrite Nat.eqb_refl. simpl.
  rewrite Z.leb_refl. unfold clearTimeout; simpl. rewrite Nat.eqb_refl. simpl.
  eexists; split; [reflexivity|]. split; [|split; [reflexivity|]].
  - split; simpl; auto.
    + eexists; split; reflexivity.
    + unfold BACKOFF_MULTIPLIER, MAX_INTERVAL_MS; lia.
  - simpl. rewrite <- !app_assoc. repeat split.
Qed.

(** X10.  After a fresh start, [n] failed retries in a row emit, after
    the [stateChange] of [start()], for the i-th retry the events
    [stateChange connecting watching], [attempt i], [failed i] and
    [stateChange watching connecting], and nothing else; the attempt
    counter is [n] and the next attempt is planned one interval after
    the last one. *)
Theorem X10_failure_log :
  forall now n, exists w,
    failures n (start (configure (create now))) = Some w /\
    emitted w = stateChange watching idle :: failure_log n /\
    attempts w = Z.of_nat n /\
    nextAttemptAt w = Some (clock w + currentIntervalMs w).
Proof.
  intros now.
  assert (G : forall n w0, waiting w0 ->
            nextAttemptAt w0 = Some (clock w0 + currentIntervalMs w0) ->
            forall m es, attempts w0 = Z.of_nat m -> emitted w0 = es ++ failure_log m ->
            exists w, failures n w0 = Some w /\
              emitted w = es ++ failure_log (m + n) /\ attempts w = Z.of_nat (m + n) /\
              nextAttemptAt w = Some (clock w + currentIntervalMs w)).
  { induction n as [|n IH]; intros w0 W Hn m es Ha He.
    - exists w0. rewrite Nat.add_0_r. auto.
    - destruct (failed_cycle_log w0 W) as (w1 & E & W1 & A1 & E1 & _ & _ & _ & N1).
      simpl. rewrite E.
      destruct (IH w1 W1 N1 (S m) es) as (w & F & Fe & Fa & Fn).
      + rewrite A1, Ha. lia.
      + rewrite E1, He, Ha. cbn [failure_log]. rewrite <- app_assoc.
        do 3 f_equal. lia.
      + exists w. replace (m + S n)%nat with (S m + n)%nat by lia. auto. }
  intros n.
  destruct (G n (start (configure (create now))) (start_waiting now) eq_refl 0%nat
              [stateChange watching idle] eq_refl eq_refl) as (w & A & B & C & D).
  exists w. auto.
Qed.

(** ** A connection lost after a connection made *)

(** X11.  When the connection is lost after [onConnected()], a
    watchdog that is not stopped goes to [watching], records the reason
    (or [Conexão perdida]) and plans the retry one base interval,
    30000 ms, later, whatever its backoff was before; the timer it holds
    is armed for that time.  A stopped watchdog ignores the loss. *)
Theorem X11_retry_after_connection_lost :
  (forall w reason,
     stopped_ w = false ->
     let w' := onDisconnected reason (onConnected w) in
     state w' = watching /\
     lastError w' = Some (match reason with
                          | Some r => r
                          | None => "Conexão perdida"%string
                          end) /\
     attempts w' = 0 /\ currentIntervalMs w' = 30000 /\
     nextAttemptAt w' = Some (clock w + 30000) /\
     timer w' = Some (nextHandle w) /\
     In (nextHandle w, clock w + 30000) (scheduled w')) /\
  (forall w reason, stopped_ w = true -> onDisconnected reason w = w).
Proof.
  split.
  - intros w reason Hs.
    destruct w as [st at_ la na le ci ti sp rf cf ck sc nh su em]; simpl in *; subst.
    cbv zeta. unfold onDisconnected, onConnected, clearHeldTimer, _scheduleNext, _setState,
      emit, setTimeout, clearTimeout.
    destruct ti; simpl; destruct st; simpl;
      repeat match goal with |- _ /\ _ => split end; try reflexivity;
      apply in_or_app; right; now left.
  - intros w reason H. unfold onDisconnected. now rewrite H.
Qed.

Lemma X11_retry_after_connection_lost_witness :
  stopped_ (start (configure (create 0))) = false /\
  state (onDisconnected None (onConnected (start (configure (create 0))))) = watching.
Proof.
  split; [reflexivity|].
  apply (proj1 X11_retry_after_connection_lost (start (configure (create 0))) None eq_refl).
Defined.

(** ** A stopped watchdog *)

Lemma stopped_step k w w' :
  is_start k = false -> step k w = Some w' ->
  stopped_ w = true -> timer w = None -> nextAttemptAt w = None ->
  stopped_ w' = true /\ timer w' = None /\ nextAttemptAt w' = None /\
  filter is_attempt (emitted w') = filter is_attempt (emitted w) /\
  (forall e, In e (scheduled w') -> In e (scheduled w)) /\
  (In (state w) [stopped; connected; watching] ->
   In (state w') [stopped; connected; watching]) /\
  (leaves_stopped k = false -> state w = stopped -> state w' = stopped).
Proof.
  intros Hk Hs Hst Ht Hn.
  destruct w as [st at_ la na le ci ti sp rf cf ck sc nh su em]; simpl in *; subst.
  destruct k; try discriminate; cbn [step] in Hs.
  - inversion Hs; subst. simpl. repeat split; auto.
  - inversion Hs; subst. unfold stop, clearHeldTimer, _setState, emit. simpl.
    destruct st; simpl; rewrite ?filter_app, ?app_nil_r; repeat split; auto.
  - inversion Hs; subst. unfold onConnected, clearHeldTimer, _setState, emit. simpl.
    destruct st; simpl; rewrite ?filter_app, ?app_nil_r; repeat split; auto; discriminate.
  - inversion Hs; subst. unfold onDisconnected. simpl. repeat split; auto.
  - destruct (due_of h _); [|discriminate]. destruct (_ <=? _); inversion Hs; subst.
    unfold _attempt, clearTimeout. simpl. repeat split; auto.
    intros e He. apply filter_In in He. apply He.
  - destruct su as [|su]; [discriminate|]. inversion Hs; subst.
    destruct r as [[|]|msg];
      unfold _attempt_resumed, _onAttemptFailed, onConnected, clearHeldTimer, _setState, emit;
      simpl; try (repeat split; auto; fail).
    destruct st; simpl; rewrite ?filter_app, ?app_nil_r; repeat split; auto; discriminate.
  - destruct (0 <=? dt); inversion Hs; subst. simpl. repeat split; auto.
Qed.

(** X17.  Once [stop()] was called, and until [start()] is called, the
    watchdog makes no reconnect attempt and arms no timer, whatever else
    is called, whichever timers fire and however a reconnect that was
    under way settles: its [stopped] flag stays set, it holds no timer,
    plans no next attempt, emits no [attempt] event, and the armed timers
    are among those that were armed before.  So [onConnected()] followed
    by [onDisconnected()] after a [stop()] starts no retry.  The state it
    reports does not stay [stopped] for all that: it is [stopped],
    [connected] or [watching], and [stopped] as long as neither
    [onConnected()] is called nor a reconnect that was under way
    succeeds; [onConnected()] after a [stop()] makes it [connected], and
    the success of such a reconnect makes it [watching], with no retry
    planned. *)
Theorem X17_stopped_until_start :
  (forall ks w w',
     forallb (fun k => negb (is_start k)) ks = true ->
     run ks (stop w) = Some w' ->
     stopped_ w' = true /\ timer w' = None /\ nextAttemptAt w' = None /\
     filter is_attempt (emitted w') = filter is_attempt (emitted w) /\
     (forall e, In e (scheduled w') -> In e (scheduled w)) /\
     In (state w') [stopped; connected; watching] /\
     (forallb (fun k => negb (leaves_stopped k)) ks = true -> state w' = stopped)) /\
  (forall w, state (onConnected (stop w)) = connected) /\
  (forall w, state (_attempt_resumed (fulfilled true) (stop w)) = watching).
Proof.
  assert (G : forall ks w0 w1,
    forallb (fun k => negb (is_start k)) ks = true -> run ks w0 = Some w1 ->
    stopped_ w0 = true -> timer w0 = None -> nextAttemptAt w0 = None ->
    stopped_ w1 = true /\ timer w1 = None /\ nextAttemptAt w1 = None /\
    filter is_attempt (emitted w1) = filter is_attempt (emitted w0) /\
    (forall e, In e (scheduled w1) -> In e (scheduled w0)) /\
    (In (state w0) [stopped; connected; watching] ->
     In (state w1) [stopped; connected; watching]) /\
    (forallb (fun k => negb (leaves_stopped k)) ks = true ->
     state w0 = stopped -> state w1 = stopped)).
  { induction ks as [|k ks IH]; intros w0 w1 Hks H A B C; cbn [run forallb] in *.
    - inversion H; subst. repeat split; auto.
    - apply andb_prop in Hks. destruct Hks as [Hk Hks]. apply negb_true_iff in Hk.
      destruct (step k w0) as [w|] eqn:E; [|discriminate].
      destruct (stopped_step k w0 w Hk E A B C) as (A' & B' & C' & D' & E' & F' & G').
      destruct (IH w w1 Hks H A' B' C') as (A2 & B2 & C2 & D2 & E2 & F2 & G2).
      split; [exact A2|]. split; [exact B2|]. split; [exact C2|].
      split; [now rewrite D2|]. split; [auto|].
      split; [intros I; apply F2, F'; exact I|].
      intros L S0. apply andb_prop in L. destruct L as [L1 L2].
      apply negb_true_iff in L1. apply G2; auto. }
  assert (S : forall w,
    stopped_ (stop w) = true /\ timer (stop w) = None /\
    nextAttemptAt (stop w) = None /\
    filter is_attempt (emitted (stop w)) = filter is_attempt (emitted w) /\
    (forall e, In e (scheduled (stop w)) -> In e (scheduled w)) /\
    state (stop w) = stopped).
  { intros w. destruct w as [st at_ la na le ci ti sp rf cf ck sc nh su em].
    unfold stop, clearHeldTimer, _setState, emit, clearTimeout. simpl.
    destruct ti as [h|]; simpl; destruct st; simpl; rewrite ?filter_app, ?app_nil_r;
      repeat split; auto; intros e He; apply filter_In in He; apply He. }
  split; [|split].
  - intros ks w w' Hks Hrun.
    destruct (S w) as (A & B & C & D & E & F).
    destruct (G ks (stop w) w' Hks Hrun A B C) as (A2 & B2 & C2 & D2 & E2 & F2 & G2).
    repeat split; auto.
    + now rewrite D2.
    + apply F2. rewrite F. now left.
  - intros w. destruct w as [st at_ la na le ci ti sp rf cf ck sc nh su em].
    unfold onConnected, stop, clearHeldTimer, _setState, emit, clearTimeout. simpl.
    destruct ti as [h|]; simpl; destruct st; reflexivity.
  - intros w. destruct w as [st at_ la na le ci ti sp rf cf ck sc nh su em].
    unfold _attempt_resumed, onConnected, stop, clearHeldTimer, _setState, emit, clearTimeout.
    simpl. destruct ti as [h|]; simpl; destruct st; reflexivity.
Qed.

Lemma X17_stopped_until_start_witness :
  exists w',
    run [call_onConnected; call_onDisconnected None; time_passes 30000]
        (stop (start (configure (create 0)))) = Some w' /\
    stopped_ w' = true /\ timer w' = None /\ nextAttemptAt w' = None /\
    In (state w') [stopped; connected; watching].
Proof.
  destruct (run [call_onConnected; call_onDisconnected None; time_passes 30000]
                (stop (start (configure (create 0))))) as [w'|] eqn:H;
    [|vm_compute in H; discriminate].
  exists w'. split; [reflexivity|].
  destruct (proj1 X17_stopped_until_start
              [call_onConnected; call_onDisconnected None; time_passes 30000]
              (start (configure (create 0))) w' eq_refl H) as (A & B & C & _ & _ & D & _).
  auto.
Defined.

End WatchdogRuns.

(* ====================================================================== *)
(** * Proofs: the simulator on the other commands of the public API *)
(* ====================================================================== *)

Module SimulatorFacts.
Import Js Regex Matrix JsFacts RegexFacts NumberFacts MatrixFacts LevelFacts ProbeFacts.
Local Open Scope N_scope.

(** ** A pattern whose text needs a word the command does not have *)

Lemma strip_eq l : forall s s', strip false l s = Some s' -> s = l ++ s'.
Proof.
  induction l as [|a l IH]; intros s s' H; simpl in H.
  - now inversion H.
  - destruct s as [|b s]; [discriminate|]. unfold canon in H.
    destruct (a =? b) eqn:E; [|discriminate]. apply N.eqb_eq in E. subst b.
    simpl. f_equal. now apply IH.
Qed.

Lemma startsWith_left w : forall a b, startsWith w a = true -> startsWith w (a ++ b) = true.
Proof.
  induction w as [|x w IH]; intros a b H; [reflexivity|].
  destruct a as [|y a]; [discriminate|]. simpl in *.
  apply andb_prop in H. destruct H as [H1 H2]. rewrite H1. now apply IH.
Qed.

Lemma includes_left w : forall a b, includes a w = true -> includes (a ++ b) w = true.
Proof.
  induction a as [|y a IH]; intros b H.
  - simpl in H. rewrite orb_false_r in H. destruct w; [|discriminate].
    destruct b; reflexivity.
  - cbn [includes] in H. apply orb_prop in H. cbn [app includes].
    destruct H as [H|H].
    + pose proof (startsWith_left w (y :: a) b H) as X. cbn [app] in X. now rewrite X.
    + rewrite (IH b H). apply orb_true_r.
Qed.

Lemma exec_without w l r s :
  includes l w = true -> includes s w = false ->
  exec_here false (Lit l +> r)%regex s = None.
Proof.
  intros Hl Hs. unfold exec_here. cbn [m].
  destruct (strip false l s) as [s'|] eqn:E; [|reflexivity].
  apply strip_eq in E. rewrite E in Hs. now rewrite (includes_left w l s' Hl) in Hs.
Qed.

Lemma search_without w l r : forall s,
  includes l w = true -> includes s w = false ->
  search false (Lit l +> r)%regex s = None.
Proof.
  intros s Hl. induction s as [|a s IH]; intros Hs.
  - cbn [search]. now rewrite (exec_without w l r [] Hl Hs).
  - rewrite search_next by (now apply (exec_without w)).
    apply IH. cbn [includes] in Hs. apply orb_false_iff in Hs. apply Hs.
Qed.

Lemma includes_skip x w run : forall rest,
  forallb (fun c => negb (c =? x)) run = true ->
  includes (run ++ rest) (x :: w) = includes rest (x :: w).
Proof.
  induction run as [|a run IH]; intros rest H; [reflexivity|].
  simpl in H. apply andb_prop in H. destruct H as [H1 H2].
  apply negb_true_iff in H1. cbn [app includes startsWith].
  rewrite N.eqb_sym, H1. simpl. now apply IH.
Qed.

(** ** [SET SEND] and [GET SEND] *)

Ltac skip_digits H :=
  rewrite includes_skip by (apply digits_not; [reflexivity | exact H]).

Section GetSend.

Variable src : Source.
Variables D B : jsstring.
Hypothesis D_nonempty : D <> [].
Hypothesis D_digits : forallb isDigit D = true.
Hypothesis B_nonempty : B <> [].
Hypothesis B_digits : forallb isDigit B = true.

Let route := Source_text src ++ lit " " ++ D ++ lit " OUT " ++ B.
Let GET_SEND_cmd := lit "GET SEND " ++ route.

Lemma GET_SEND_matches :
  search false GET_SEND GET_SEND_cmd = Some [GET_SEND_cmd; Source_text src; D; B].
Proof.
  apply search_here. unfold exec_here, GET_SEND, GET_SEND_cmd, route. cbn [m].
  rewrite <- ?app_assoc. regex_steps.
  apply plus_run; auto; [reflexivity|]. regex_steps.
  apply plus_all; auto.
  rewrite (firstn_consumed (Source_text src)).
  rewrite (firstn_consumed D). captured.
Qed.

Lemma GET_SEND_lacks w :
  In w [lit "V"; lit "A"; lit "SET"] -> includes GET_SEND_cmd w = false.
Proof.
  intros Hw. unfold GET_SEND_cmd, route.
  cbn [In] in Hw. destruct Hw as [<-|[<-|[<-|[]]]];
    channel_cases src; simpl;
    skip_digits D_digits; simpl; rewrite <- (app_nil_r B); skip_digits B_digits;
    reflexivity.
Qed.

Lemma upper_route : toUpperCase route = route.
Proof.
  unfold route. rewrite !toUpperCase_app.
  rewrite (toUpperCase_numeric D) by (now apply digits_numeric).
  rewrite (toUpperCase_numeric B) by (now apply digits_numeric).
  now destruct src.
Qed.

Lemma upper_GET_SEND : trim (toUpperCase GET_SEND_cmd) = GET_SEND_cmd.
Proof.
  unfold GET_SEND_cmd. rewrite !toUpperCase_app, upper_route.
  change (toUpperCase (lit "GET SEND ")) with (lit "GET SEND ").
  unfold route. rewrite !app_assoc. apply trim_keeps; auto; [reflexivity|].
  now apply digits_numeric.
Qed.

Lemma simulate_GET_SEND c :
  simulateResponse GET_SEND_cmd c =
  (lit "SEND " ++ route ++ lit " = "
     ++ toFixed1 (orElse (Map_get string_eqb
                            (lit "SEND:" ++ Source_text src ++ lit ":" ++ D ++ lit ":OUT:" ++ B)
                            (simulatorSends c)) (Num (-10))), c).
Proof.
  unfold simulateResponse. rewrite upper_GET_SEND.
  unfold GET_VU, GET_GAIN, SET_GAIN, SET_SEND.
  rewrite (search_without (lit "V") (lit "GET VU "))
    by (try reflexivity; apply GET_SEND_lacks; simpl; auto).
  rewrite (search_without (lit "A") (lit "GET GAIN "))
    by (try reflexivity; apply GET_SEND_lacks; simpl; auto).
  rewrite (search_without (lit "A") (lit "SET GAIN "))
    by (try reflexivity; apply GET_SEND_lacks; simpl; auto).
  rewrite (search_without (lit "SET") (lit "SET SEND "))
    by (try reflexivity; apply GET_SEND_lacks; simpl; auto).
  rewrite GET_SEND_matches. unfold route. cbn [group nth]. rewrite <- ?app_assoc. reflexivity.
Qed.

End GetSend.

Section SetSend.

Variable src : Source.
Variables D B T : jsstring.
Hypothesis D_nonempty : D <> [].
Hypothesis D_digits : forallb isDigit D = true.
Hypothesis B_nonempty : B <> [].
Hypothesis B_digits : forallb isDigit B = true.
Hypothesis T_nonempty : T <> [].
Hypothesis T_numeric : forallb isNumeric T = true.

Let route := Source_text src ++ lit " " ++ D ++ lit " OUT " ++ B.





End SetSend.

(** ** [SET MUTE] *)

Lemma trim_tight s :
  match s with [] => True | c :: _ => isWhiteSpace c = false end ->
  match rev s with [] => True | c :: _ => isWhiteSpace c = false end ->
  trim s = s.
Proof.
  intros H1 H2. unfold trim.
  assert (E : forall t, match t with [] => True | c :: _ => isWhiteSpace c = false end ->
                        dropWhile isWhiteSpace t = t).
  { intros [|c t] H; simpl; [reflexivity | now rewrite H]. }
  rewrite (E s H1), (E (rev s) H2). apply rev_involutive.
Qed.

Section MuteCommand.

Variable ch : Channel.
Variable D : jsstring.
Variable muted : bool.
Hypothesis D_nonempty : D <> [].
Hypothesis D_digits : forallb isDigit D = true.






End MuteCommand.

(** ** [SET PRESET] and [GET PRESET] *)

Section PresetCommands.

Variable D : jsstring.
Hypothesis D_nonempty : D <> [].
Hypothesis D_digits : forallb isDigit D = true.






End PresetCommands.

Lemma simulate_GET_PRESET c :
  simulateResponse (lit "GET PRESET") c =
  (lit "PRESET = " ++ Number_toString (simulatorPreset c), c).
Proof.
  unfold simulateResponse.
  change (trim (toUpperCase (lit "GET PRESET"))) with (lit "GET PRESET").
  change (search false GET_VU (lit "GET PRESET")) with (@None captures).
  change (search false GET_GAIN (lit "GET PRESET")) with (@None captures).
  change (search false SET_GAIN (lit "GET PRESET")) with (@None captures).
  change (search false SET_SEND (lit "GET PRESET")) with (@None captures).
  change (search false GET_SEND (lit "GET PRESET")) with (@None captures).
  change (search false SET_MUTE (lit "GET PRESET")) with (@None captures).
  reflexivity.
Qed.

(** What [getPreset] makes of the simulator's answer. *)
Lemma presetReply_answer n : presetReply (lit "PRESET = " ++ Number_toString n) = n.
Proof.
  unfold presetReply.
  assert (E : search false DIGIT_SUFFIX (lit "PRESET = " ++ Number_toString n) =
              Some [Number_toString n; Number_toString n]).
  { literals. cbn [app]. do 9 (rewrite search_next by reflexivity).
    apply search_here. unfold exec_here, DIGIT_SUFFIX. cbn [m].
    apply plus_all; [apply Number_toString_nonempty | apply Number_toString_isDigit |].
    cbn. captured. }
  rewrite E. cbn [group nth]. apply parseInt_Number_toString.
Qed.

(** ** What the methods return in simulator mode *)

Lemma sim_answers {A} random (f : jsstring -> A) command c :
  (forall i, 0 <= random i /\ random i < 1)%Q ->
  reachable random c -> simulatorMode (config c) = true ->
  answers random f (sendRaw random command) c
    (f (fst (simulateResponse command (set_promises (promises c ++ [None]) c)))).
Proof. intros R Hr S. exact (sim_awaited random f command c R Hr S). Qed.

Lemma answers_unique {A} random (f : jsstring -> A) call c v v' :
  answers random f call c v -> answers random f call c v' -> v = v'.
Proof.
  intros [(c2 & H1 & H2) _] [_ U]. specialize (U _ c2 _ H1 H2). now inversion U.
Qed.

Lemma sendRaw_sim_state random command c :
  simulatorMode (config c) = true ->
  let cs := snd (simulateResponse command (set_promises (promises c ++ [None]) c)) in
  let c1 := snd (sendRaw random command c) in
  simulatorGains c1 = simulatorGains cs /\ simulatorSends c1 = simulatorSends cs /\
  simulatorMutes c1 = simulatorMutes cs /\ simulatorPreset c1 = simulatorPreset cs /\
  config c1 = config cs.
Proof.
  intros S. cbv zeta. rewrite sendRaw_sim by exact S. cbv zeta.
  destruct (simulateResponse command _) as [resp cs]. destruct cs. cbn. repeat split.
Qed.

Lemma string_eqb_eq a : forall b, string_eqb a b = true -> a = b.
Proof.
  induction a as [|x a IH]; intros [|y b] H; simpl in H; try discriminate; [reflexivity|].
  apply andb_prop in H. destruct H as [H1 H2]. apply N.eqb_eq in H1. subst y.
  f_equal. now apply IH.
Qed.

Lemma Map_get_set_apart {V} k k' (v : V) mp :
  k <> k' -> Map_get string_eqb k' (Map_set string_eqb k v mp) = Map_get string_eqb k' mp.
Proof.
  intros Hk. induction mp as [|[k0 v0] mp IH]; simpl.
  - destruct (string_eqb k k') eqn:E; [|reflexivity]. apply string_eqb_eq in E. contradiction.
  - destruct (string_eqb k0 k) eqn:E; simpl.
    + apply string_eqb_eq in E. subst k0.
      destruct (string_eqb k k') eqn:E'; [|reflexivity].
      apply string_eqb_eq in E'. contradiction.
    + now rewrite IH.
Qed.



Lemma getSend_sim_response src n b c :
  fst (simulateResponse
         (lit "GET SEND " ++ Source_text src ++ lit " " ++ Number_toString n
            ++ lit " OUT " ++ Number_toString b)
         (set_promises (promises c ++ [None]) c)) =
  lit "SEND " ++ (Source_text src ++ lit " " ++ Number_toString n
                    ++ lit " OUT " ++ Number_toString b) ++ lit " = "
    ++ toFixed1 (orElse (Map_get string_eqb
                           (lit "SEND:" ++ Source_text src ++ lit ":" ++ Number_toString n
                              ++ lit ":OUT:" ++ Number_toString b)
                           (simulatorSends c)) (Num (-10))).
Proof.
  now rewrite (simulate_GET_SEND src (Number_toString n) (Number_toString b)
                 (Number_toString_nonempty n) (Number_toString_isDigit n)
                 (Number_toString_nonempty b) (Number_toString_isDigit b)).
Qed.




(** ** Presets *)


Lemma getPreset_sim_answers random c :
  (forall i, 0 <= random i /\ random i < 1)%Q ->
  reachable random c -> simulatorMode (config c) = true ->
  answers random presetReply (getPreset random) c (simulatorPreset c).
Proof.
  intros R Hr S.
  pose proof (sim_answers random presetReply (lit "GET PRESET") c R Hr S) as A.
  rewrite simulate_GET_PRESET in A. cbn [fst simulatorPreset set_promises] in A.
  now rewrite presetReply_answer in A.
Qed.



(** ** The confirmations *)



(** ** A level that is not a number *)

Lemma star_stuck p run rest (k : jsstring -> option captures) :
  forallb p run = true ->
  (forall c t, p c = true -> k (c :: t) = None) ->
  star p rest k = None ->
  star p (run ++ rest) k = None.
Proof.
  intros Hall Hk Hrest. induction run as [|c run IH]; [exact Hrest|].
  simpl in Hall. apply andb_prop in Hall. destruct Hall as [Hc Hall].
  cbn [app star]. rewrite Hc, (IH Hall). now apply Hk.
Qed.

Lemma star_ends p s (k : jsstring -> option captures) : ends_run p s -> star p s k = k s.
Proof. destruct s as [|c s]; simpl; [reflexivity|]. now intros ->. Qed.

Lemma plus_stuck p run rest (k : jsstring -> option captures) :
  forallb p run = true ->
  (forall c t, p c = true -> k (c :: t) = None) ->
  star p rest k = None ->
  plus p (run ++ rest) k = None.
Proof.
  intros Hall Hk Hrest. destruct run as [|c run].
  - cbn [app]. unfold plus. destruct rest as [|c rest]; [reflexivity|].
    destruct (p c) eqn:E; [|reflexivity].
    cbn [star] in Hrest. rewrite E in Hrest.
    destruct (star p rest k); [discriminate|]. now rewrite Hk in Hrest.
  - simpl in Hall. apply andb_prop in Hall. destruct Hall as [Hc Hall].
    cbn [app plus]. rewrite Hc. now apply star_stuck.
Qed.

Lemma digit_not_space c : isDigit c = true -> (32 =? c) = false.
Proof.
  intros H. destruct (32 =? c) eqn:E; [|reflexivity].
  apply N.eqb_eq in E. subst c. discriminate.
Qed.

Section NaNGain.

Variable ch : Channel.
Variable D : jsstring.
Hypothesis D_nonempty : D <> [].
Hypothesis D_digits : forallb isDigit D = true.

Let NaN_cmd := lit "SET GAIN " ++ Channel_text ch ++ lit " " ++ D ++ lit " = NaN".
Let NAN_cmd := lit "SET GAIN " ++ Channel_text ch ++ lit " " ++ D ++ lit " = NAN".

Lemma upper_NaN_gain : trim (toUpperCase NaN_cmd) = NAN_cmd.
Proof.
  unfold NaN_cmd, NAN_cmd. rewrite !toUpperCase_app.
  rewrite (toUpperCase_numeric D) by (now apply digits_numeric).
  replace (toUpperCase (Channel_text ch)) with (Channel_text ch) by (now destruct ch).
  change (toUpperCase (lit "SET GAIN ")) with (lit "SET GAIN ").
  change (toUpperCase (lit " = NaN")) with (lit " = NAN").
  change (toUpperCase (lit " ")) with (lit " ").
  apply trim_tight; [reflexivity|]. now rewrite !rev_app_distr.
Qed.

Lemma SET_GAIN_not_at_start : exec_here false SET_GAIN NAN_cmd = None.
Proof.
  unfold exec_here, SET_GAIN, NAN_cmd. cbn [m]. regex_steps.
  apply plus_stuck; [exact D_digits | | reflexivity].
  intros c t Hc. literals. cbn [strip canon]. now rewrite (digit_not_space c Hc).
Qed.

Lemma NAN_gain_lacks w :
  In w [lit "GE"; lit "D"; lit "M"; lit "P"] -> includes NAN_cmd w = false.
Proof.
  intros Hw. unfold NAN_cmd.
  cbn [In] in Hw. destruct Hw as [<-|[<-|[<-|[<-|[]]]]];
    channel_cases ch; simpl; skip_digits D_digits; reflexivity.
Qed.

Lemma SET_GAIN_not_on_NAN : search false SET_GAIN NAN_cmd = None.
Proof.
  pose proof SET_GAIN_not_at_start as H. unfold NAN_cmd in *.
  change (lit "SET GAIN ") with (83 :: lit "ET GAIN ") in *. cbn [app] in *.
  rewrite search_next by exact H. unfold SET_GAIN.
  apply (search_without (lit "SE")); [reflexivity|].
  channel_cases ch; simpl; skip_digits D_digits; reflexivity.
Qed.

Lemma simulate_NaN_gain c : simulateResponse NaN_cmd c = (lit "OK", c).
Proof.
  unfold simulateResponse. rewrite upper_NaN_gain, SET_GAIN_not_on_NAN.
  unfold GET_VU, GET_GAIN, SET_SEND, GET_SEND, SET_MUTE, SET_PRESET.
  rewrite (search_without (lit "GE") (lit "GET VU "))
    by (try reflexivity; apply NAN_gain_lacks; simpl; auto).
  rewrite (search_without (lit "GE") (lit "GET GAIN "))
    by (try reflexivity; apply NAN_gain_lacks; simpl; auto).
  rewrite (search_without (lit "D") (lit "SET SEND "))
    by (try reflexivity; apply NAN_gain_lacks; simpl; auto).
  rewrite (search_without (lit "GE") (lit "GET SEND "))
    by (try reflexivity; apply NAN_gain_lacks; simpl; auto).
  rewrite (search_without (lit "M") (lit "SET MUTE "))
    by (try reflexivity; apply NAN_gain_lacks; simpl; auto).
  rewrite (search_without (lit "P") (lit "SET PRESET "))
    by (try reflexivity; apply NAN_gain_lacks; simpl; auto).
  change (string_eqb NAN_cmd (lit "GET PRESET")) with false. reflexivity.
Qed.

End NaNGain.

Section NaNSend.

Variable src : Source.
Variables D B : jsstring.
Hypothesis D_nonempty : D <> [].
Hypothesis D_digits : forallb isDigit D = true.
Hypothesis B_nonempty : B <> [].
Hypothesis B_digits : forallb isDigit B = true.

Let NaN_cmd :=
  lit "SET SEND " ++ Source_text src ++ lit " " ++ D ++ lit " OUT " ++ B ++ lit " = NaN".
Let NAN_cmd :=
  lit "SET SEND " ++ Source_text src ++ lit " " ++ D ++ lit " OUT " ++ B ++ lit " = NAN".

Lemma upper_NaN_send : trim (toUpperCase NaN_cmd) = NAN_cmd.
Proof.
  unfold NaN_cmd, NAN_cmd. rewrite !toUpperCase_app.
  rewrite (toUpperCase_numeric D) by (now apply digits_numeric).
  rewrite (toUpperCase_numeric B) by (now apply digits_numeric).
  replace (toUpperCase (Source_text src)) with (Source_text src) by (now destruct src).
  change (toUpperCase (lit "SET SEND ")) with (lit "SET SEND ").
  change (toUpperCase (lit " = NaN")) with (lit " = NAN").
  change (toUpperCase (lit " OUT ")) with (lit " OUT ").
  change (toUpperCase (lit " ")) with (lit " ").
  apply trim_tight; [reflexivity|]. now rewrite !rev_app_distr.
Qed.

Lemma SET_SEND_not_at_start : exec_here false SET_SEND NAN_cmd = None.
Proof.
  unfold exec_here, SET_SEND, NAN_cmd. cbn [m]. regex_steps.
  apply plus_stuck; [exact D_digits | | ].
  - intros c t Hc. literals. cbn [strip canon]. now rewrite (digit_not_space c Hc).
  - rewrite star_ends by reflexivity. rewrite strip_app.
    apply plus_stuck; [exact B_digits | | reflexivity].
    intros c t Hc. literals. cbn [strip canon]. now rewrite (digit_not_space c Hc).
Qed.

Lemma NAN_send_lacks w :
  In w [lit "G"; lit "M"; lit "P"] -> includes NAN_cmd w = false.
Proof.
  intros Hw. unfold NAN_cmd.
  cbn [In] in Hw. destruct Hw as [<-|[<-|[<-|[]]]];
    channel_cases src; simpl; skip_digits D_digits; simpl; skip_digits B_digits; reflexivity.
Qed.

Lemma SET_SEND_not_on_NAN : search false SET_SEND NAN_cmd = None.
Proof.
  pose proof SET_SEND_not_at_start as H. unfold NAN_cmd in *.
  change (lit "SET SEND ") with (83 :: lit "ET SEND ") in *. cbn [app] in *.
  rewrite search_next by exact H. unfold SET_SEND.
  apply (search_without (lit "SET")); [reflexivity|].
  channel_cases src; simpl; skip_digits D_digits; simpl; skip_digits B_digits; reflexivity.
Qed.

Lemma simulate_NaN_send c : simulateResponse NaN_cmd c = (lit "OK", c).
Proof.
  unfold simulateResponse. rewrite upper_NaN_send, SET_SEND_not_on_NAN.
  unfold GET_VU, GET_GAIN, SET_GAIN, GET_SEND, SET_MUTE, SET_PRESET.
  rewrite (search_without (lit "G") (lit "GET VU "))
    by (try reflexivity; apply NAN_send_lacks; simpl; auto).
  rewrite (search_without (lit "G") (lit "GET GAIN "))
    by (try reflexivity; apply NAN_send_lacks; simpl; auto).
  rewrite (search_without (lit "G") (lit "SET GAIN "))
    by (try reflexivity; apply NAN_send_lacks; simpl; auto).
  rewrite (search_without (lit "G") (lit "GET SEND "))
    by (try reflexivity; apply NAN_send_lacks; simpl; auto).
  rewrite (search_without (lit "M") (lit "SET MUTE "))
    by (try reflexivity; apply NAN_send_lacks; simpl; auto).
  rewrite (search_without (lit "P") (lit "SET PRESET "))
    by (try reflexivity; apply NAN_send_lacks; simpl; auto).
  change (string_eqb NAN_cmd (lit "GET PRESET")) with false. reflexivity.
Qed.

End NaNSend.

(** X15.  In simulator mode [setGain] and [setSend] with [NaN] for the
    level send [... = NaN]; no pattern of the simulator takes it, so the
    method returns the plain [OK] and no gain and no send level is
    changed. *)
Theorem X15_NaN_level_not_stored :
  forall random c,
    (forall i, 0 <= random i /\ random i < 1)%Q ->
    reachable random c -> simulatorMode (config c) = true ->
    (forall ch n,
       answers random text (setGain random ch n NaN) c (lit "OK") /\
       simulatorGains (snd (setGain random ch n NaN c)) = simulatorGains c) /\
    (forall src n b,
       answers random text (setSend random src n b NaN) c (lit "OK") /\
       simulatorSends (snd (setSend random src n b NaN c)) = simulatorSends c).
Proof.
  intros random c R Hr S.
  pose proof (fun cmd => sim_answers random text cmd c R Hr S) as A.
  split.
  - intros ch n.
    specialize (A (lit "SET GAIN " ++ Channel_text ch ++ lit " " ++ Number_toString n
                     ++ lit " = " ++ toFixed1 (clamp NaN))).
    pose proof (sendRaw_sim_state random
                  (lit "SET GAIN " ++ Channel_text ch ++ lit " " ++ Number_toString n
                     ++ lit " = " ++ toFixed1 (clamp NaN)) c S) as (B & _).
    change (lit " = " ++ toFixed1 (clamp NaN)) with (lit " = NaN") in A, B.
    rewrite (simulate_NaN_gain ch (Number_toString n) (Number_toString_isDigit n)) in A, B.
    split; [exact A | exact B].
  - intros src n b.
    specialize (A (lit "SET SEND " ++ Source_text src ++ lit " " ++ Number_toString n
                     ++ lit " OUT " ++ Number_toString b
                     ++ lit " = " ++ toFixed1 (clamp NaN))).
    pose proof (sendRaw_sim_state random
                  (lit "SET SEND " ++ Source_text src ++ lit " " ++ Number_toString n
                     ++ lit " OUT " ++ Number_toString b
                     ++ lit " = " ++ toFixed1 (clamp NaN)) c S) as (_ & B & _).
    change (lit " = " ++ toFixed1 (clamp NaN)) with (lit " = NaN") in A, B.
    rewrite (simulate_NaN_send src (Number_toString n) (Number_toString b)
               (Number_toString_isDigit n) (Number_toString_isDigit b)) in A, B.
    split; [exact A | exact B].
Qed.

Lemma X15_NaN_level_not_stored_witness :
  let c := create sample_random (mkPartial None None None (Some true) None None) 0 in
  answers sample_random text (setGain sample_random IN 1 NaN) c (lit "OK").
Proof.
  cbv zeta.
  assert (Hr : reachable sample_random
                 (create sample_random (mkPartial None None None (Some true) None None) 0))
    by (exists (mkPartial None None None (Some true) None None), 0%Q, []; reflexivity).
  assert (S : simulatorMode
                (config (create sample_random
                           (mkPartial None None None (Some true) None None) 0)) = true)
    by (vm_compute; reflexivity).
  exact (proj1 (proj1 (X15_NaN_level_not_stored sample_random _ sample_random_range Hr S)
                  IN 1)).
Defined.

(** ** A new simulator *)



Lemma create_simulator random over now :
  simulatorMode' over = Some true ->
  simulatorMode (config (create random over now)) = true /\
  create random over now =
  initSimulator random
    {| config := spread DEFAULT_CONFIG over;
       tcpClient := false; udpClient := false; connected := false;
       reconnectTimer := None; pendingCommands := [];
       simulatorVU := []; simulatorGains := []; simulatorMutes := [];
       simulatorSends := []; simulatorPreset := 1;
       clock := now; drawn := 0%nat; timers := []; nextHandle := 0%nat;
       promises := []; emitted := []; written := [] |}.
Proof.
  intros H. unfold create. cbn [config spread simulatorMode]. rewrite H. cbn [orElse].
  split; [|reflexivity].
  match goal with |- context [initSimulator _ ?c] =>
    destruct (initSimulator_connected random c) as (_ & _ & C) end.
  rewrite C. cbn [config spread simulatorMode]. now rewrite H.
Qed.




(** ** What [setGain] leaves alone *)

Lemma gain_key_inj ch n ch' n' :
  Channel_text ch ++ lit ":" ++ Number_toString n =
  Channel_text ch' ++ lit ":" ++ Number_toString n' ->
  (ch, n) = (ch', n').
Proof.
  intros E.
  assert (Es : ch = ch').
  { destruct ch, ch'; try reflexivity; exfalso; simpl in E; discriminate. }
  subst ch'. do 2 apply app_inv_head in E. apply Number_toString_inj in E. now subst.
Qed.

Lemma setGain_sim_state random ch n x c :
  simulatorMode (config c) = true -> x <> NaN ->
  let c1 := snd (setGain random ch n x c) in
  simulatorMode (config c1) = true /\
  simulatorGains c1 =
  Map_set string_eqb (Channel_text ch ++ lit ":" ++ Number_toString n)
    (parseFloat (toFixed1 (clamp x))) (simulatorGains c) /\
  simulatorSends c1 = simulatorSends c /\ simulatorPreset c1 = simulatorPreset c /\
  simulatorVU c1 = simulatorVU c.
Proof.
  intros S Hx. cbv zeta. unfold setGain.
  destruct (clamp_number x Hx) as (q' & E & _). rewrite E.
  destruct (toFixed1_numeric q') as [Hne Hall].
  rewrite sendRaw_simulatorVU.
  match goal with |- context [sendRaw random ?cmd c] =>
    destruct (sendRaw_sim_state random cmd c S) as (A & B & _ & C & D) end.
  cbv zeta in A, B, C, D. rewrite A, B, C, D.
  rewrite (simulate_SET_GAIN ch (Number_toString n) (toFixed1 (Num q'))
             (Number_toString_nonempty n) (Number_toString_isDigit n) Hne Hall).
  cbn. repeat split. exact S.
Qed.

(** X28.  In simulator mode [setGain] on a channel whose number is a
    safe integer, with a level that is not [NaN], changes the gain of
    that channel only.  For channel and bus numbers that are safe
    integers, what [getGain] returns for every other channel, what
    [getSend] returns for every route, what [getVU] returns for every
    channel and what [getPreset] returns are what they were before the
    call. *)
Theorem X28_setGain_changes_one_gain :
  forall random ch n dB c,
    (forall i, 0 <= random i /\ random i < 1)%Q ->
    reachable random c -> simulatorMode (config c) = true ->
    isSafeInteger n = true -> dB <> NaN ->
    let c1 := snd (setGain random ch n dB c) in
    (forall ch' n' v,
       isSafeInteger n' = true ->
       (ch', n') <> (ch, n) ->
       answers random numericReply (getGain random ch' n') c v ->
       answers random numericReply (getGain random ch' n') c1 v) /\
    (forall src n' b v,
       isSafeInteger n' = true -> isSafeInteger b = true ->
       answers random numericReply (getSend random src n' b) c v ->
       answers random numericReply (getSend random src n' b) c1 v) /\
    (forall ch' n' v,
       isSafeInteger n' = true ->
       answers random numericReply (getVU random ch' n') c v ->
       answers random numericReply (getVU random ch' n') c1 v) /\
    (forall v,
       answers random presetReply (getPreset random) c v ->
       answers random presetReply (getPreset random) c1 v).
Proof.
  intros random ch n dB c R Hr S _ Hx c1.
  destruct (setGain_sim_state random ch n dB c S Hx) as (S1 & Hg & Hs & Hp & Hv).
  fold c1 in S1, Hg, Hs, Hp, Hv.
  assert (Hr1 : reachable random c1)
    by (apply (client_reachable_step random (call_setGain ch n dB) c); auto).
  pose proof (fun cmd => sim_answers random numericReply cmd c R Hr S) as A0.
  pose proof (fun cmd => sim_answers random numericReply cmd c1 R Hr1 S1) as A1.
  split; [|split; [|split]].
  - intros ch' n' v _ Hne A.
    specialize (A0 (lit "GET GAIN " ++ Channel_text ch' ++ lit " " ++ Number_toString n')).
    specialize (A1 (lit "GET GAIN " ++ Channel_text ch' ++ lit " " ++ Number_toString n')).
    rewrite getGain_sim_response in A0, A1.
    rewrite Hg, Map_get_set_apart in A1
      by (intros E; apply gain_key_inj in E; congruence).
    rewrite <- (answers_unique _ _ _ _ _ _ A0 A). exact A1.
  - intros src n' b v _ _ A.
    specialize (A0 (lit "GET SEND " ++ Source_text src ++ lit " " ++ Number_toString n'
                      ++ lit " OUT " ++ Number_toString b)).
    specialize (A1 (lit "GET SEND " ++ Source_text src ++ lit " " ++ Number_toString n'
                      ++ lit " OUT " ++ Number_toString b)).
    rewrite getSend_sim_response in A0, A1. rewrite Hs in A1.
    rewrite <- (answers_unique _ _ _ _ _ _ A0 A). exact A1.
  - intros ch' n' v _ A.
    specialize (A0 (lit "GET VU " ++ Channel_text ch' ++ lit " " ++ Number_toString n')).
    specialize (A1 (lit "GET VU " ++ Channel_text ch' ++ lit " " ++ Number_toString n')).
    rewrite getVU_sim_response in A0, A1. rewrite Hv in A1.
    rewrite <- (answers_unique _ _ _ _ _ _ A0 A). exact A1.
  - intros v A.
    pose proof (getPreset_sim_answers random c R Hr S) as P0.
    pose proof (getPreset_sim_answers random c1 R Hr1 S1) as P1.
    rewrite Hp in P1. rewrite <- (answers_unique _ _ _ _ _ _ P0 A). exact P1.
Qed.

Lemma X28_setGain_changes_one_gain_witness :
  let c := create sample_random (mkPartial None None None (Some true) None None) 0 in
  isSafeInteger 1 = true /\ Num 5 <> NaN /\
  answers sample_random presetReply (getPreset sample_random)
    (snd (setGain sample_random IN 1 (Num 5) c)) 1.
Proof.
  cbv zeta.
  assert (Hr : reachable sample_random
                 (create sample_random (mkPartial None None None (Some true) None None) 0))
    by (exists (mkPartial None None None (Some true) None None), 0%Q, []; reflexivity).
  assert (S : simulatorMode
                (config (create sample_random
                           (mkPartial None None None (Some true) None None) 0)) = true)
    by (vm_compute; reflexivity).
  assert (Hx : Num 5 <> NaN) by discriminate.
  split; [reflexivity|]. split; [exact Hx|].
  apply (proj2 (proj2 (proj2 (X28_setGain_changes_one_gain sample_random IN 1 (Num 5) _
                                sample_random_range Hr S eq_refl Hx)))).
  apply (getPreset_sim_answers sample_random _ sample_random_range Hr S).
Defined.

End SimulatorFacts.

(* ====================================================================== *)
(** * Proofs: connection, reconnection and the timers of the client *)
(* ====================================================================== *)

Module ConnectionFacts.
Import Js Regex Matrix JsFacts RegexFacts NumberFacts MatrixFacts LevelFacts SimulatorFacts.
Local Open Scope Q_scope.

(** ** A settled promise stays as it is *)

Lemma settled_app q (s : Settlement) ps x :
  nth q ps None = Some s -> nth q (ps ++ [x]) None = Some s.
Proof.
  intros H. destruct (Nat.lt_ge_cases q (List.length ps)) as [L|L].
  - now rewrite app_nth1.
  - rewrite nth_overflow in H by exact L. discriminate.
Qed.

Lemma settled_sendRaw random command c q s :
  settlement q c = Some s -> settlement q (snd (sendRaw random command c)) = Some s.
Proof.
  unfold settlement. intros H.
  destruct (sendRaw_frame random command c) as (_ & _ & _ & [(tm & _ & _ & _ & _ & E)|(_ & _ & E)]);
    cbv zeta in E; rewrite E; now apply settled_app.
Qed.

Lemma settled_handleLine line c q s :
  settlement q c = Some s -> settlement q (handleLine line c) = Some s.
Proof.
  intros H. destruct (trim line) as [|x r] eqn:E.
  - now rewrite handleLine_blank.
  - apply handleLine_spec; [rewrite E; discriminate | exact H].
Qed.

Lemma settled_handleResponse data c q s :
  settlement q c = Some s -> settlement q (handleResponse data c) = Some s.
Proof.
  unfold handleResponse. generalize (split 10%N (trim data)) as ls. intros ls. revert c.
  induction ls as [|l ls IH]; intros c H; simpl; [exact H|].
  apply IH. now apply settled_handleLine.
Qed.

Lemma settled_fire random tm c q s :
  settlement q c = Some s -> settlement q (fire random tm c) = Some s.
Proof.
  intros H. unfold fire.
  set (c1 := match every tm with
             | Some period => _
             | None => clearTimeout (handle tm) c
             end).
  assert (H1 : settlement q c1 = Some s) by (subst c1; destruct (every tm); exact H).
  clearbody c1. unfold settlement in *.
  destruct (callback tm); cbn [run_callback].
  - cbn. now apply nth_settle_at_settled.
  - cbn. now apply nth_settle_at_settled.
  - destruct (vu_walk_frame random c1) as (_ & B & _). cbv zeta in B. now rewrite B.
  - unfold connect. cbn.
    destruct (simulatorMode (config c1)); [|destruct (protocol (config c1))]; exact H1.
Qed.

Lemma settled_step random k c c' q s :
  settlement q c = Some s -> step random k c = Some c' -> settlement q c' = Some s.
Proof.
  intros H Hs.
  destruct k; cbn [step] in Hs;
    try (inversion Hs; subst; clear Hs;
         unfold setGain, getGain, setSend, getSend, setMute, getVU, setPreset, getPreset;
         now apply settled_sendRaw).
  - inversion Hs; subst. unfold connect.
    destruct (simulatorMode (config c)); [|destruct (protocol (config c))]; exact H.
  - inversion Hs; subst. unfold disconnect. destruct (reconnectTimer c); exact H.
  - inversion Hs; subst. exact H.
  - inversion Hs; subst. destruct e as [ | data | [|] | | | msg | ]; cbn [on_socket];
      try (now apply settled_handleResponse); try exact H;
      unfold scheduleReconnect; cbn; destruct (reconnectTimer c); exact H.
  - destruct (find_timer h c) as [tm|]; [|discriminate].
    destruct (Qle_bool (due tm) (clock c)); inversion Hs; subst. now apply settled_fire.
  - destruct (Qle_bool 0 dt); inversion Hs; subst. exact H.
Qed.

Lemma settled_run random ks : forall c c' q s,
  settlement q c = Some s -> run random ks c = Some c' -> settlement q c' = Some s.
Proof.
  induction ks as [|k ks IH]; intros c c' q s H Hr; simpl in Hr.
  - now inversion Hr; subst.
  - destruct (step random k c) as [c1|] eqn:E; [|discriminate].
    apply (IH c1 c' q s); [|exact Hr]. now apply (settled_step random k c).
Qed.

(** X18.  Outside simulator mode a command given while the client is
    not connected is rejected at once with [Não conectado ao mixer]:
    nothing is written to a socket, no timeout is armed, no entry is
    added to the pending commands and [Math.random()] is not called.
    The method that awaits it has thrown, and that stays so whatever
    happens later. *)
Theorem X18_not_connected_rejected :
  forall random command c,
    simulatorMode (config c) = false -> connected c = false ->
    let p := fst (sendRaw random command c) in
    let c1 := snd (sendRaw random command c) in
    c1 = set_promises (promises c ++ [Some (rejected NotConnected)]) c /\
    forall (A : Type) (f : jsstring -> A) ks c2,
      run random ks c1 = Some c2 -> awaited f p c2 = Some (thrown NotConnected).
Proof.
  intros random command c S Cn p c1.
  assert (E : sendRaw random command c =
              (List.length (promises c),
               set_promises (promises c ++ [Some (rejected NotConnected)]) c)).
  { unfold sendRaw. cbn [newPromise config set_promises connected]. rewrite S, Cn.
    cbn [negb]. unfold settle. cbn [promises set_promises]. rewrite settle_at_fresh.
    destruct c; reflexivity. }
  subst p c1. rewrite E. cbn [fst snd]. split; [reflexivity|].
  intros A f ks c2 Hrun. unfold awaited.
  rewrite (settled_run random ks
             (set_promises (promises c ++ [Some (rejected NotConnected)]) c)
             c2 (List.length (promises c)) (rejected NotConnected));
    [reflexivity | | exact Hrun].
  unfold settlement. cbn [promises set_promises].
  now rewrite app_nth2, Nat.sub_diag by lia.
Qed.

Lemma X18_not_connected_rejected_witness :
  let c := create sample_random (mkPartial None None None None None None) 0 in
  simulatorMode (config c) = false /\ connected c = false /\
  awaited numericReply (fst (getVU sample_random IN 1 c))
    (snd (getVU sample_random IN 1 c)) = Some (thrown NotConnected).
Proof.
  cbv zeta. split; [reflexivity|]. split; [reflexivity|].
  exact (proj2 (X18_not_connected_rejected sample_random (lit "GET VU IN 1")
                  (create sample_random (mkPartial None None None None None None) 0)
                  eq_refl eq_refl) _ numericReply [] _ eq_refl).
Defined.

(** ** What each operation does to the timers *)

Lemma sendRaw_pending_timer random command c e :
  In e (pendingCommands (snd (sendRaw random command c))) ->
  In e (pendingCommands c) \/ timer (snd e) = nextHandle c.
Proof.
  unfold sendRaw. cbn [newPromise].
  destruct (simulatorMode (config c)) eqn:S; cbn [config set_promises]; rewrite S.
  - match goal with |- context [simulateResponse command ?c1] =>
      pose proof (simulateResponse_frame command c1) as F;
      destruct (simulateResponse command c1) as [resp c2] end.
    cbn in F. destruct F as (_ & _ & _ & _ & F & _).
    cbn. rewrite F. auto.
  - cbn [connected set_promises]. destruct (connected c); cbn [negb]; cbn; [|auto].
    destruct e as [k v].
    destruct (protocol (config c)); [destruct (tcpClient c)|destruct (udpClient c)]; cbn;
      intros H; apply Map_set_In in H; destruct H as [->|H]; auto.
Qed.

Lemma sendRaw_shape random command c :
  let c' := snd (sendRaw random command c) in
  reconnectTimer c' = reconnectTimer c /\
  ((exists tm, timers c' = timers c ++ [tm] /\ handle tm = nextHandle c /\
               callback tm <> cb_reconnect /\ callback tm <> cb_vu) \/
   timers c' = timers c).
Proof.
  destruct (sendRaw_frame random command c)
    as (_ & A & _ & [(tm & B & C & D & _)|(B & _)]); cbv zeta in *.
  - split; [exact A|]. left. exists tm. repeat split; auto;
      intros E; rewrite E in D; discriminate.
  - split; [exact A|]. now right.
Qed.

Lemma handleLine_shape line c :
  exists f,
    timers (handleLine line c) = filter f (timers c) /\
    (forall tm, f tm = false ->
       exists e, In e (pendingCommands c) /\ timer (snd e) = handle tm) /\
    reconnectTimer (handleLine line c) = reconnectTimer c.
Proof.
  unfold handleLine. destruct (trim line) as [|x r].
  - exists (fun _ => true). split; [|split; [discriminate | reflexivity]].
    symmetry. now apply filter_all.
  - rewrite resolvePending_eq, resolve_fold.
    match goal with |- context [pendingCommands ?c0] =>
      assert (E : pendingCommands c0 = pendingCommands c /\ timers c0 = timers c /\
                  reconnectTimer c0 = reconnectTimer c)
        by (destruct (search true VU_LINE (x :: r)); repeat split);
      generalize dependent c0 end.
    intros c0 (E1 & E2 & E3). cbn. rewrite E1, E2, E3.
    exists (fun tm => negb (timer_in (pendingCommands c) tm)).
    split; [reflexivity|]. split; [|reflexivity].
    intros tm H. apply negb_false_iff in H. unfold timer_in in H.
    apply existsb_exists in H. destruct H as (e & He & Hh).
    apply Nat.eqb_eq in Hh. exists e. auto.
Qed.

Lemma handleResponse_shape data c :
  exists f,
    timers (handleResponse data c) = filter f (timers c) /\
    (forall tm, f tm = false ->
       exists e, In e (pendingCommands c) /\ timer (snd e) = handle tm) /\
    reconnectTimer (handleResponse data c) = reconnectTimer c.
Proof.
  unfold handleResponse. generalize (split 10%N (trim data)) as ls. intros ls. revert c.
  induction ls as [|l ls IH]; intros c; cbn [fold_left].
  - exists (fun _ => true). split; [|split; [discriminate | reflexivity]].
    symmetry. now apply filter_all.
  - destruct (handleLine_shape l c) as (f1 & A1 & B1 & C1).
    destruct (IH (handleLine l c)) as (f2 & A2 & B2 & C2).
    exists (fun tm => f1 tm && f2 tm). split; [|split].
    + now rewrite A2, A1, filter_filter.
    + intros tm H. apply andb_false_iff in H. destruct H as [H|H]; [now apply B1|].
      destruct (B2 tm H) as (e & He & Ht). exists e. split; [|exact Ht].
      now apply (proj1 (handleLine_keeps l c)).
    + now rewrite C2, C1.
Qed.

Lemma fire_shape random tm0 c :
  timers (fire random tm0 c) =
  filter (fun e => negb (Nat.eqb (handle e) (handle tm0))) (timers c)
    ++ match every tm0 with
       | Some period => [mkTimer (handle tm0) (due tm0 + period) (every tm0) (callback tm0)]
       | None => []
       end /\
  reconnectTimer (fire random tm0 c) =
  match callback tm0 with cb_reconnect => None | _ => reconnectTimer c end.
Proof.
  unfold fire.
  set (c1 := match every tm0 with
             | Some period => _
             | None => clearTimeout (handle tm0) c
             end).
  assert (H1 : timers c1 =
               filter (fun e => negb (Nat.eqb (handle e) (handle tm0))) (timers c)
                 ++ match every tm0 with
                    | Some period =>
                      [mkTimer (handle tm0) (due tm0 + period) (every tm0) (callback tm0)]
                    | None => []
                    end /\ reconnectTimer c1 = reconnectTimer c).
  { subst c1. destruct (every tm0); cbn; [split; reflexivity|]. now rewrite app_nil_r. }
  clearbody c1. destruct H1 as [H1 H2]. destruct (callback tm0); cbn [run_callback].
  - cbn. auto.
  - cbn. auto.
  - destruct (vu_walk_frame random c1) as (A & _ & _ & B & _). cbv zeta in *.
    now rewrite A, B.
  - unfold connect. cbn.
    destruct (simulatorMode (config c1)); [|destruct (protocol (config c1))]; cbn; auto.
Qed.

Lemma NoDup_map_filter {A B} (f : A -> B) p l :
  NoDup (map f l) -> NoDup (map f (filter p l)).
Proof.
  induction l as [|a l IH]; simpl; intros H; [constructor|].
  inversion H as [|x xs Hn Hd]; subst. destruct (p a); simpl; [|now apply IH].
  constructor; [|now apply IH].
  intros Hin. apply Hn. apply in_map_iff in Hin. destruct Hin as (y & Ey & Hy).
  apply filter_In in Hy. apply in_map_iff. exists y. tauto.
Qed.

Lemma NoDup_snoc {A} (x : A) l : NoDup l -> ~ In x l -> NoDup (l ++ [x]).
Proof.
  intros H Hn. apply NoDup_app; auto; [repeat constructor; intros [] |].
  intros y Hy [<-|[]]. contradiction.
Qed.

Lemma handle_fresh c : well_formed c -> ~ In (nextHandle c) (map handle (timers c)).
Proof.
  intros [W _] Hin. apply in_map_iff in Hin. destruct Hin as (tm & E & Hin).
  destruct (W tm Hin) as [L _]. lia.
Qed.

Lemma handle_cleared h l : ~ In h (map handle (filter (fun e => negb (Nat.eqb (handle e) h)) l)).
Proof.
  intros Hin. apply in_map_iff in Hin. destruct Hin as (tm & E & Hin).
  apply filter_In in Hin. destruct Hin as [_ Hin].
  apply negb_true_iff, Nat.eqb_neq in Hin. contradiction.
Qed.

(** ** One reconnect timer *)

Lemma ok_same c c' :
  timers_ok c -> timers c' = timers c -> reconnectTimer c' = reconnectTimer c ->
  timers_ok c'.
Proof. intros [A B] E1 E2. unfold timers_ok. rewrite E1, E2. auto. Qed.

Lemma ok_filter f c c' :
  timers_ok c -> timers c' = filter f (timers c) -> reconnectTimer c' = reconnectTimer c ->
  timers_ok c'.
Proof.
  intros [A B] E1 E2. unfold timers_ok. rewrite E1, E2. split.
  - now apply NoDup_map_filter.
  - intros tm Hin. apply filter_In in Hin. now apply B.
Qed.

Lemma ok_arm tm c c' :
  well_formed c -> timers_ok c ->
  timers c' = timers c ++ [tm] -> handle tm = nextHandle c ->
  callback tm <> cb_reconnect -> reconnectTimer c' = reconnectTimer c ->
  timers_ok c'.
Proof.
  intros W [A B] E1 Eh Hcb E2. unfold timers_ok. rewrite E1, E2. split.
  - rewrite map_app. cbn [map]. apply NoDup_snoc; [exact A|].
    rewrite Eh. now apply handle_fresh.
  - intros tm' Hin. apply in_app_or in Hin. destruct Hin as [Hin|[<-|[]]];
      [now apply B | contradiction].
Qed.

Lemma ok_sendRaw random command c :
  well_formed c -> timers_ok c -> timers_ok (snd (sendRaw random command c)).
Proof.
  intros W K. destruct (sendRaw_shape random command c) as (A & [(tm & B & C & D & _)|B]);
    cbv zeta in *.
  - now apply (ok_arm tm c).
  - now apply (ok_same c).
Qed.

Lemma ok_handleResponse data c : timers_ok c -> timers_ok (handleResponse data c).
Proof.
  intros K. destruct (handleResponse_shape data c) as (f & A & _ & B).
  now apply (ok_filter f c).
Qed.

Lemma ok_scheduleReconnect c :
  well_formed c -> timers_ok c -> timers_ok (scheduleReconnect c).
Proof.
  intros W K. unfold scheduleReconnect.
  destruct (reconnectTimer c) as [h|] eqn:R; [exact K|]. destruct K as [A B].
  unfold timers_ok. cbn. split.
  - rewrite map_app. cbn [map handle]. apply NoDup_snoc; [exact A|]. now apply handle_fresh.
  - intros tm Hin Hcb. apply in_app_or in Hin. destruct Hin as [Hin|[<-|[]]].
    + destruct (B tm Hin Hcb) as [E _]. rewrite R in E. discriminate.
    + split; reflexivity.
Qed.

Lemma ok_disconnect c :
  timers_ok c ->
  timers_ok (disconnect c) /\ reconnectTimer (disconnect c) = None /\
  forall tm, In tm (timers (disconnect c)) -> callback tm <> cb_reconnect.
Proof.
  intros [A B]. unfold disconnect, timers_ok.
  destruct (reconnectTimer c) as [h|] eqn:R; cbn.
  - assert (N : forall tm,
                In tm (filter (fun e => negb (Nat.eqb (handle e) h)) (timers c)) ->
                callback tm <> cb_reconnect).
    { intros tm Hin Hcb. apply filter_In in Hin. destruct Hin as [Hin Hh].
      destruct (B tm Hin Hcb) as [E _]. inversion E; subst.
      now rewrite Nat.eqb_refl in Hh. }
    split; [split|split]; auto.
    + now apply NoDup_map_filter.
    + intros tm Hin Hcb. now destruct (N tm Hin).
  - assert (N : forall tm, In tm (timers c) -> callback tm <> cb_reconnect).
    { intros tm Hin Hcb. destruct (B tm Hin Hcb) as [E _]. discriminate. }
    split; [split|split]; auto.
    intros tm Hin Hcb. now destruct (N tm Hin).
Qed.

Lemma ok_fire random tm0 c :
  timers_ok c -> In tm0 (timers c) -> timers_ok (fire random tm0 c).
Proof.
  intros [A B] Hin0. destruct (fire_shape random tm0 c) as [E1 E2].
  unfold timers_ok. rewrite E1, E2. split.
  - rewrite map_app. destruct (every tm0); cbn [map handle].
    + apply NoDup_snoc; [now apply NoDup_map_filter | apply handle_cleared].
    + rewrite app_nil_r. now apply NoDup_map_filter.
  - intros tm Hin Hcb. apply in_app_or in Hin. destruct Hin as [Hin|Hin].
    + apply filter_In in Hin. destruct Hin as [Hin Hh].
      destruct (B tm Hin Hcb) as [E Ev].
      destruct (callback tm0) eqn:Hcb0; try (split; [exact E | exact Ev]).
      destruct (B tm0 Hin0 Hcb0) as [E0 _]. rewrite E in E0. inversion E0 as [Eh].
      rewrite Eh, Nat.eqb_refl in Hh. discriminate.
    + destruct (every tm0) as [period|] eqn:Ev; [|contradiction].
      destruct Hin as [<-|[]]. cbn [callback] in Hcb.
      destruct (B tm0 Hin0 Hcb) as [_ Ev0]. congruence.
Qed.

Lemma ok_step random k c c' :
  well_formed c -> timers_ok c -> step random k c = Some c' -> timers_ok c'.
Proof.
  intros W K Hs.
  destruct k; cbn [step] in Hs;
    try (inversion Hs; subst; clear Hs;
         unfold setGain, getGain, setSend, getSend, setMute, getVU, setPreset, getPreset;
         now apply ok_sendRaw).
  - inversion Hs; subst. apply (ok_same c); auto; unfold connect;
      destruct (simulatorMode (config c)); [|destruct (protocol (config c))| |
      destruct (protocol (config c))]; reflexivity.
  - inversion Hs; subst. now apply ok_disconnect.
  - inversion Hs; subst. now apply (ok_same c).
  - inversion Hs; subst. destruct e as [ | data | [|] | | | msg | ]; cbn [on_socket];
      try (now apply ok_handleResponse);
      try (now apply (ok_same c));
      apply ok_scheduleReconnect;
      try (apply (wf_same c); auto; fail); now apply (ok_same c).
  - destruct (find_timer h c) as [tm|] eqn:E; [|discriminate].
    destruct (Qle_bool (due tm) (clock c)); inversion Hs; subst.
    apply ok_fire; [exact K|]. now apply find_timer_In in E.
  - destruct (Qle_bool 0 dt); inversion Hs; subst. now apply (ok_same c).
Qed.

Lemma ok_create random over now : timers_ok (create random over now).
Proof.
  unfold create. cbn [config]. destruct (simulatorMode (spread DEFAULT_CONFIG over)).
  - match goal with |- timers_ok (initSimulator _ ?c0) =>
      destruct (initSimulator_frame random c0) as (A & _ & _ & D & _) end.
    cbv zeta in *. unfold timers_ok. rewrite A, D. cbn. split.
    + repeat constructor. intros [].
    + intros tm [<-|[]] E. discriminate.
  - split; cbn; [constructor | contradiction].
Qed.

Lemma ok_reachable random c : reachable random c -> timers_ok c.
Proof.
  intros (over & now & ks & H).
  assert (G : forall ks c0 c1, well_formed c0 -> timers_ok c0 ->
                run random ks c0 = Some c1 -> timers_ok c1).
  { clear. induction ks as [|k ks IH]; intros c0 c1 W K H; simpl in H.
    - now inversion H; subst.
    - destruct (step random k c0) as [c2|] eqn:E; [|discriminate].
      apply (IH c2 c1); [eapply wf_step; eauto | eapply ok_step; eauto | exact H]. }
  apply (G ks (create random over now)); [apply wf_create | apply ok_create | exact H].
Qed.

Lemma same_handle_same_timer (tms : list Timer) tm1 tm2 :
  NoDup (map handle tms) -> In tm1 tms -> In tm2 tms -> handle tm1 = handle tm2 -> tm1 = tm2.
Proof.
  induction tms as [|x tms IH]; intros H H1 H2 E; [contradiction|].
  cbn [map] in H. inversion H as [|y ys Hn Hd]; subst.
  destruct H1 as [<-|H1], H2 as [<-|H2]; auto.
  - exfalso. apply Hn. rewrite E. now apply in_map.
  - exfalso. apply Hn. rewrite <- E. now apply in_map.
Qed.

(** X19.  In every state a client can reach no two armed timers have
    the same handle, and a timer that will call [connect()] again is
    armed only while [reconnectTimer] holds its handle: at most one
    reconnect is scheduled at any time.  [disconnect()] disarms it: after
    the call [reconnectTimer] is empty and no armed timer calls
    [connect()]. *)
Theorem X19_one_reconnect_timer :
  forall random c,
    reachable random c ->
    NoDup (map handle (timers c)) /\
    (forall tm, In tm (timers c) -> callback tm = cb_reconnect ->
       reconnectTimer c = Some (handle tm)) /\
    (forall tm1 tm2,
       In tm1 (timers c) -> In tm2 (timers c) ->
       callback tm1 = cb_reconnect -> callback tm2 = cb_reconnect -> tm1 = tm2) /\
    reconnectTimer (disconnect c) = None /\
    (forall tm, In tm (timers (disconnect c)) -> callback tm <> cb_reconnect).
Proof.
  intros random c Hr. pose proof (ok_reachable random c Hr) as K.
  destruct (ok_disconnect c K) as (_ & D1 & D2). destruct K as [A B].
  split; [exact A|]. split; [intros tm Hin Hcb; now apply B|]. split; [|split; assumption].
  intros tm1 tm2 H1 H2 C1 C2.
  destruct (B tm1 H1 C1) as [E1 _]. destruct (B tm2 H2 C2) as [E2 _].
  apply (same_handle_same_timer (timers c)); auto. congruence.
Qed.

Lemma X19_one_reconnect_timer_witness :
  exists c,
    run sample_random [call_connect; socket (tcp_error true); socket tcp_close]
        (create sample_random (mkPartial None None None None None None) 0) = Some c /\
    reconnectTimer c = Some 0%nat /\ NoDup (map handle (timers c)).
Proof.
  destruct (run sample_random [call_connect; socket (tcp_error true); socket tcp_close]
                (create sample_random (mkPartial None None None None None None) 0))
    as [c|] eqn:H; [|vm_compute in H; discriminate].
  exists c. split; [reflexivity|]. split.
  - vm_compute in H. inversion H. reflexivity.
  - apply (X19_one_reconnect_timer sample_random c).
    exists (mkPartial None None None None None None), 0,
           [call_connect; socket (tcp_error true); socket tcp_close]. exact H.
Defined.

(** ** The socket closes after [disconnect()] *)

Lemma find_last h tm tms :
  handle tm = h -> (forall tm', In tm' tms -> handle tm' <> h) ->
  find (fun e => Nat.eqb (handle e) h) (tms ++ [tm]) = Some tm.
Proof.
  intros Hh. induction tms as [|x tms IH]; intros H; simpl.
  - now rewrite Hh, Nat.eqb_refl.
  - assert (L : handle x <> h) by (apply H; now left).
    apply Nat.eqb_neq in L. rewrite L. apply IH. intros tm' Hin. apply H. now right.
Qed.

(** X20.  [disconnect()] does not end the automatic reconnection of a
    TCP client: when the [close] event of the socket it destroyed is
    delivered, [disconnected] is emitted a second time and a reconnect is
    scheduled; once the reconnect interval has passed its timer can fire,
    and then [connect()] opens a new socket. *)
Theorem X20_close_after_disconnect_reconnects :
  forall random c,
    reachable random c ->
    simulatorMode (config c) = false -> protocol (config c) = tcp ->
    0 <= reconnectInterval (config c) ->
    exists c',
      run random [call_disconnect; socket tcp_close;
                  time_passes (reconnectInterval (config c));
                  timer_fires (nextHandle c)] c = Some c' /\
      tcpClient c' = true /\ isConnected c' = false /\ reconnectTimer c' = None /\
      emitted c' = emitted c ++ [ev_disconnected; ev_disconnected].
Proof.
  intros random c Hr S P I.
  pose proof (wf_reachable random c Hr) as [W _].
  apply Qle_bool_iff in I.
  assert (F : forall h0 tm', In tm' (filter h0 (timers c)) -> handle tm' <> nextHandle c).
  { intros h0 tm' Hin. apply filter_In in Hin. destruct Hin as [Hin _].
    destruct (W tm' Hin) as [L _]. lia. }
  assert (F0 : forall tm', In tm' (timers c) -> handle tm' <> nextHandle c).
  { intros tm' Hin. destruct (W tm' Hin) as [L _]. lia. }
  assert (D : forall x y : Q, Qle_bool (x + y) (x + y) = true)
    by (intros x y; apply Qle_bool_iff, Qle_refl).
  destruct c as [cf tc uc cn rt pc sv sg sm ss sp ck dr tms nh ps em wr].
  cbn [config timers nextHandle emitted] in *.
  cbn [run step]. unfold disconnect, on_socket, scheduleReconnect, setTimeout, arm,
    clearTimeout, emit.
  destruct rt as [h0|]; cbn; rewrite I; cbn; unfold find_timer; cbn.
  - rewrite find_last by (try reflexivity; apply F). cbn. rewrite D.
    eexists. split; [reflexivity|]. unfold fire, connect. cbn. rewrite S, P.
    cbn. rewrite <- app_assoc. repeat split.
  - rewrite find_last by (try reflexivity; apply F0). cbn. rewrite D.
    eexists. split; [reflexivity|]. unfold fire, connect. cbn. rewrite S, P.
    cbn. rewrite <- app_assoc. repeat split.
Qed.

Lemma X20_close_after_disconnect_reconnects_witness :
  exists c c',
    online sample_random = Some c /\
    run sample_random [call_disconnect; socket tcp_close; time_passes 3000; timer_fires 0] c
      = Some c' /\
    tcpClient c' = true.
Proof.
  destruct (online sample_random) as [c|] eqn:H; [|vm_compute in H; discriminate].
  assert (Hr : reachable sample_random c).
  { exists (mkPartial None None None None None None), 0, [call_connect; socket tcp_connect].
    exact H. }
  assert (E : c = {| config := DEFAULT_CONFIG; tcpClient := true; udpClient := false;
                     connected := true; reconnectTimer := None; pendingCommands := [];
                     simulatorVU := []; simulatorGains := []; simulatorMutes := [];
                     simulatorSends := []; simulatorPreset := 1%N; clock := 0;
                     drawn := 0%nat; timers := []; nextHandle := 0%nat; promises := [];
                     emitted := [ev_connected]; written := [] |})
    by (vm_compute in H; now inversion H).
  destruct (X20_close_after_disconnect_reconnects sample_random c Hr)
    as (c' & A & B & _); try (rewrite E; reflexivity).
  - rewrite E. discriminate.
  - exists c, c'. split; [reflexivity|]. split; [|exact B].
    rewrite E in A |- *. exact A.
Defined.

(** ** The interval of the simulator *)

Lemma vu_same c c' :
  vu_running c -> timers c' = timers c -> reconnectTimer c' = reconnectTimer c ->
  pendingCommands c' = pendingCommands c -> vu_running c'.
Proof. intros K E1 E2 E3. unfold vu_running. now rewrite E1, E2, E3. Qed.

Lemma vu_handle_used c : well_formed c -> vu_running c -> nextHandle c <> 0%nat.
Proof.
  intros [W _] ((tm & Hin & Hh & _) & _). destruct (W tm Hin) as [L _]. lia.
Qed.

Lemma vu_sendRaw random command c :
  well_formed c -> vu_running c -> vu_running (snd (sendRaw random command c)).
Proof.
  intros W K. pose proof (vu_handle_used c W K) as N.
  destruct K as ((tm & Hin & Hh & Hcb & Hev) & R & P).
  destruct (sendRaw_shape random command c) as (A & B). cbv zeta in *.
  unfold vu_running. rewrite A. split; [|split; [exact R|]].
  - exists tm. split; [|auto].
    destruct B as [(tm' & B & _)|B]; rewrite B; [apply in_or_app; now left | exact Hin].
  - intros e He. apply sendRaw_pending_timer in He. destruct He as [He|He];
      [now apply P | congruence].
Qed.

Lemma vu_handleResponse data c : vu_running c -> vu_running (handleResponse data c).
Proof.
  intros ((tm & Hin & Hh & Hcb & Hev) & R & P).
  destruct (handleResponse_shape data c) as (f & A & B & C).
  unfold vu_running. rewrite A, C. split; [|split; [exact R|]].
  - exists tm. split; [|auto]. apply filter_In. split; [exact Hin|].
    destruct (f tm) eqn:E; [reflexivity|].
    destruct (B tm E) as (e & He & Ht). destruct (P e He). congruence.
  - intros e He. apply P. now apply (proj1 (handleResponse_keeps data c)).
Qed.

Lemma vu_scheduleReconnect c :
  well_formed c -> vu_running c -> vu_running (scheduleReconnect c).
Proof.
  intros W K. pose proof (vu_handle_used c W K) as N. unfold scheduleReconnect.
  destruct (reconnectTimer c) as [h|] eqn:R; [exact K|].
  destruct K as ((tm & Hin & Hh & Hcb & Hev) & _ & P).
  unfold vu_running. cbn. split; [|split; [congruence | exact P]].
  exists tm. split; [apply in_or_app; now left | auto].
Qed.

Lemma vu_disconnect c : vu_running c -> vu_running (disconnect c).
Proof.
  intros K. unfold disconnect.
  destruct (reconnectTimer c) as [h|] eqn:R.
  - destruct K as ((tm & Hin & Hh & Hcb & Hev) & N & P).
    unfold vu_running. cbn. split; [|split; [discriminate | exact P]].
    exists tm. split; [|auto]. apply filter_In. split; [exact Hin|].
    apply negb_true_iff, Nat.eqb_neq. rewrite R in N. congruence.
  - apply (vu_same c); auto.
Qed.

Lemma vu_fire random tm0 c :
  timers_ok c -> vu_running c -> In tm0 (timers c) -> vu_running (fire random tm0 c).
Proof.
  intros [D _] ((tm & Hin & Hh & Hcb & Hev) & R & P) Hin0.
  destruct (fire_shape random tm0 c) as [E1 E2].
  unfold vu_running. rewrite E1, E2. split; [|split].
  - destruct (Nat.eq_dec (handle tm0) 0) as [E|E].
    + assert (tm0 = tm)
        by (apply (same_handle_same_timer (timers c)); auto; congruence).
      subst tm0. rewrite Hev. eexists. split; [apply in_or_app; right; now left|].
      cbn. auto.
    + exists tm. split; [|auto]. apply in_or_app. left. apply filter_In.
      split; [exact Hin|]. apply negb_true_iff, Nat.eqb_neq. congruence.
  - destruct (callback tm0); try exact R; discriminate.
  - intros e He. apply P. now apply (fire_pending random tm0 c).
Qed.

Lemma vu_step random k c c' :
  well_formed c -> timers_ok c -> vu_running c -> step random k c = Some c' ->
  vu_running c'.
Proof.
  intros W O K Hs.
  destruct k; cbn [step] in Hs;
    try (inversion Hs; subst; clear Hs;
         unfold setGain, getGain, setSend, getSend, setMute, getVU, setPreset, getPreset;
         now apply vu_sendRaw).
  - inversion Hs; subst. apply (vu_same c); auto; unfold connect;
      destruct (simulatorMode (config c)); try destruct (protocol (config c)); reflexivity.
  - inversion Hs; subst. now apply vu_disconnect.
  - inversion Hs; subst. now apply (vu_same c).
  - inversion Hs; subst. destruct e as [ | data | [|] | | | msg | ]; cbn [on_socket];
      try (now apply vu_handleResponse);
      try (now apply (vu_same c));
      apply vu_scheduleReconnect;
      try (apply (wf_same c); auto; fail); now apply (vu_same c).
  - destruct (find_timer h c) as [tm|] eqn:E; [|discriminate].
    destruct (Qle_bool (due tm) (clock c)); inversion Hs; subst.
    apply vu_fire; auto. now apply find_timer_In in E.
  - destruct (Qle_bool 0 dt); inversion Hs; subst. now apply (vu_same c).
Qed.

Lemma vu_create random over now :
  simulatorMode' over = Some true -> vu_running (create random over now).
Proof.
  intros H. destruct (create_simulator random over now H) as [_ E]. rewrite E.
  match goal with |- vu_running (initSimulator _ ?c0) =>
    destruct (initSimulator_frame random c0) as (A & _ & _ & D & G) end.
  cbv zeta in *. unfold vu_running. rewrite A, D, G. cbn. split; [|split].
  - eexists. split; [now left|]. cbn. auto.
  - discriminate.
  - intros e [].
Qed.

(** X21.  The interval a simulator client arms in its constructor is
    never cleared: whatever is called afterwards ([disconnect()],
    [updateConfig()], ...) and whatever happens, the timer with handle 0
    is armed, with a period of 100 ms and the random walk of the VU
    values as its callback. *)
Theorem X21_simulator_interval_never_cleared :
  forall random over now ks c,
    simulatorMode' over = Some true ->
    run random ks (create random over now) = Some c ->
    exists tm,
      In tm (timers c) /\ handle tm = 0%nat /\ callback tm = cb_vu /\ every tm = Some 100.
Proof.
  intros random over now ks c H Hrun.
  assert (G : forall ks c0 c1, well_formed c0 -> timers_ok c0 -> vu_running c0 ->
                run random ks c0 = Some c1 -> vu_running c1).
  { clear. induction ks as [|k ks IH]; intros c0 c1 W O K H; simpl in H.
    - now inversion H; subst.
    - destruct (step random k c0) as [c2|] eqn:E; [|discriminate].
      apply (IH c2 c1);
        [eapply wf_step; eauto | eapply ok_step; eauto | eapply vu_step; eauto | exact H]. }
  apply (G ks (create random over now) c);
    [apply wf_create | apply ok_create | now apply vu_create | exact Hrun].
Qed.

Lemma X21_simulator_interval_never_cleared_witness :
  exists c tm,
    run sample_random
        [call_disconnect; call_updateConfig (mkPartial None None None (Some false) None None)]
        (create sample_random (mkPartial None None None (Some true) None None) 0) = Some c /\
    In tm (timers c) /\ callback tm = cb_vu.
Proof.
  destruct (run sample_random
              [call_disconnect;
               call_updateConfig (mkPartial None None None (Some false) None None)]
              (create sample_random (mkPartial None None None (Some true) None None) 0))
    as [c|] eqn:H; [|vm_compute in H; discriminate].
  destruct (X21_simulator_interval_never_cleared sample_random
              (mkPartial None None None (Some true) None None) 0 _ c eq_refl H)
    as (tm & A & _ & B & _).
  exists c, tm. split; [reflexivity|]. auto.
Defined.

(** ** Simulator mode switched on later *)

Lemma no_vu_step random k c c' :
  simulatorVU c = [] -> step random k c = Some c' -> simulatorVU c' = [].
Proof.
  intros H Hs.
  destruct k; cbn [step] in Hs;
    try (inversion Hs; subst; clear Hs;
         unfold setGain, getGain, setSend, getSend, setMute, getVU, setPreset, getPreset;
         rewrite ?sendRaw_simulatorVU; exact H).
  - inversion Hs; subst. unfold connect.
    destruct (simulatorMode (config c)); [|destruct (protocol (config c))]; exact H.
  - inversion Hs; subst. unfold disconnect. destruct (reconnectTimer c); exact H.
  - inversion Hs; subst. destruct e as [ | data | [|] | | | msg | ]; cbn [on_socket];
      rewrite ?handleResponse_simulatorVU; try exact H;
      unfold scheduleReconnect; cbn; destruct (reconnectTimer c); exact H.
  - destruct (find_timer h c) as [tm|]; [|discriminate].
    destruct (Qle_bool (due tm) (clock c)); inversion Hs; subst; clear Hs.
    unfold fire.
    set (c1 := match every tm with
               | Some period => _
               | None => clearTimeout (handle tm) c
               end).
    assert (H1 : simulatorVU c1 = []) by (subst c1; destruct (every tm); exact H).
    clearbody c1. destruct (callback tm); cbn [run_callback].
    + exact H1.
    + exact H1.
    + unfold vu_walk. rewrite H1. exact H1.
    + unfold connect. cbn.
      destruct (simulatorMode (config c1)); [|destruct (protocol (config c1))]; exact H1.
  - destruct (Qle_bool 0 dt); inversion Hs; subst. exact H.
Qed.

(** X22.  A client that was not constructed in simulator mode never has
    simulated VU values, also when [updateConfig()] switches simulator
    mode on later, because only the constructor calls [initSimulator()]:
    in simulator mode its [getVU] then returns -40.0 for every
    channel. *)
Theorem X22_simulator_switched_on_later :
  forall random over now ks c,
    (forall i, 0 <= random i /\ random i < 1) ->
    simulatorMode' over <> Some true ->
    run random ks (create random over now) = Some c ->
    simulatorVU c = [] /\
    (simulatorMode (config c) = true ->
     forall ch n, answers random numericReply (getVU random ch n) c (Num (-400 # 10))).
Proof.
  intros random over now ks c R H Hrun.
  assert (G : forall ks c0 c1, simulatorVU c0 = [] -> run random ks c0 = Some c1 ->
                simulatorVU c1 = []).
  { clear. induction ks as [|k ks IH]; intros c0 c1 K H; simpl in H.
    - now inversion H; subst.
    - destruct (step random k c0) as [c2|] eqn:E; [|discriminate].
      apply (IH c2 c1); [eapply no_vu_step; eauto | exact H]. }
  assert (V : simulatorVU c = []).
  { apply (G ks (create random over now) c); [|exact Hrun].
    unfold create. cbn [config spread simulatorMode].
    destruct (simulatorMode' over) as [[|]|]; [contradiction | reflexivity | reflexivity]. }
  split; [exact V|]. intros S ch n.
  assert (Hr : reachable random c) by (exists over, now, ks; exact Hrun).
  pose proof (sim_answers random numericReply
                (lit "GET VU " ++ Channel_text ch ++ lit " " ++ Number_toString n)
                c R Hr S) as A.
  rewrite getVU_sim_response, V in A. cbn [Map_get orElse] in A.
  now rewrite numericReply_answer in A.
Qed.

Lemma X22_simulator_switched_on_later_witness :
  exists c,
    run sample_random [call_updateConfig (mkPartial None None None (Some true) None None)]
        (create sample_random (mkPartial None None None None None None) 0) = Some c /\
    simulatorMode (config c) = true /\
    answers sample_random numericReply (getVU sample_random IN 1) c (Num (-400 # 10)).
Proof.
  destruct (run sample_random
              [call_updateConfig (mkPartial None None None (Some true) None None)]
              (create sample_random (mkPartial None None None None None None) 0))
    as [c|] eqn:H; [|vm_compute in H; discriminate].
  assert (S : simulatorMode (config c) = true) by (vm_compute in H; now inversion H).
  exists c. split; [reflexivity|]. split; [exact S|].
  apply (proj2 (X22_simulator_switched_on_later sample_random
                  (mkPartial None None None None None None) 0 _ c
                  sample_random_range ltac:(discriminate) H) S).
Defined.

(** ** Commands after [disconnect()] in simulator mode *)

(** X23.  In simulator mode [sendRaw] does not look at the connection:
    after [disconnect()], when [isConnected()] is [false], a command is
    still answered.  Its promise can be resolved 30 ms later and is never
    rejected, neither as not connected nor by a timeout. *)
Theorem X23_simulator_answers_when_disconnected :
  forall random command c,
    (forall i, 0 <= random i /\ random i < 1) ->
    reachable random c -> simulatorMode (config c) = true ->
    let d := disconnect c in
    let p := fst (sendRaw random command d) in
    let c1 := snd (sendRaw random command d) in
    isConnected d = false /\
    (exists c2 resp,
       run random [time_passes 30; timer_fires (nextHandle d)] c1 = Some c2 /\
       settlement p c2 = Some (resolved resp)) /\
    (forall ks c2 e, run random ks c1 = Some c2 -> settlement p c2 <> Some (rejected e)).
Proof.
  intros random command c R Hr S d p c1.
  assert (Hd : reachable random d)
    by (apply (client_reachable_step random call_disconnect c); auto).
  assert (Sd : simulatorMode (config d) = true)
    by (subst d; unfold disconnect; destruct (reconnectTimer c); exact S).
  destruct (sim_awaited random text command d R Hd Sd) as [(c2 & A1 & A2) B].
  cbv zeta in *. fold p c1 in A1, A2, B.
  split; [subst d; unfold disconnect; destruct (reconnectTimer c); reflexivity|]. split.
  - unfold awaited in A2. destruct (settlement p c2) as [[resp|e]|] eqn:E; try discriminate.
    exists c2, resp. auto.
  - intros ks c3 e Hrun E. specialize (B ks c3 (thrown e) Hrun).
    unfold awaited in B. rewrite E in B. specialize (B eq_refl). discriminate.
Qed.

Lemma X23_simulator_answers_when_disconnected_witness :
  let c := create sample_random (mkPartial None None None (Some true) None None) 0 in
  simulatorMode (config c) = true /\ isConnected (disconnect c) = false.
Proof.
  cbv zeta.
  assert (S : simulatorMode
                (config (create sample_random
                           (mkPartial None None None (Some true) None None) 0)) = true)
    by (vm_compute; reflexivity).
  split; [exact S|].
  apply (X23_simulator_answers_when_disconnected sample_random (lit "GET PRESET")
           (create sample_random (mkPartial None None None (Some true) None None) 0)
           sample_random_range).
  - exists (mkPartial None None None (Some true) None None), 0, []. reflexivity.
  - exact S.
Defined.

End ConnectionFacts.

(* ====================================================================== *)
(** * Proofs: the VU lines of the console *)
(* ====================================================================== *)

Module LineFacts.
Import Js Regex Matrix JsFacts RegexFacts NumberFacts MatrixFacts LevelFacts SimulatorFacts.
Import ProbeFacts.
Local Open Scope N_scope.

Lemma strip_ci_app l rest : strip true l (l ++ rest) = Some rest.
Proof.
  induction l as [|a l IH]; simpl; [reflexivity|]. now rewrite N.eqb_refl.
Qed.

Lemma alt_CHANNELS_ci ch rest k :
  alt true CHANNELS (Channel_text ch ++ rest) k = k rest.
Proof. channel_cases ch; cbn; destruct (k rest); reflexivity. Qed.

Lemma digit_head_not_space D rest :
  D <> [] -> forallb isDigit D = true -> ends_run isWhiteSpace (D ++ rest).
Proof.
  intros Hne Hall. destruct D as [|d D]; [contradiction|]. simpl in *.
  apply andb_prop in Hall. destruct Hall as [Hd _].
  now apply isNumeric_not_space, isDigit_isNumeric.
Qed.

Lemma numeric_head_not_space T rest :
  T <> [] -> forallb isNumeric T = true -> ends_run isWhiteSpace (T ++ rest).
Proof.
  intros Hne Hall. destruct T as [|d T]; [contradiction|]. simpl in *.
  apply andb_prop in Hall. destruct Hall as [Hd _].
  now apply isNumeric_not_space.
Qed.

Section VULine.

Variable ch : Channel.
Variables D T : jsstring.
Hypothesis D_nonempty : D <> [].
Hypothesis D_digits : forallb isDigit D = true.
Hypothesis T_nonempty : T <> [].
Hypothesis T_numeric : forallb isNumeric T = true.

Let VU_line := lit "VU " ++ Channel_text ch ++ lit " " ++ D ++ lit " = " ++ T.

Lemma VU_LINE_matches :
  search true VU_LINE VU_line = Some [VU_line; Channel_text ch; D; T].
Proof.
  apply search_here. unfold exec_here, VU_LINE, VU_line.
  change (lit "VU ") with (lit "VU" ++ lit " ").
  change (lit " = ") with (lit " " ++ lit "=" ++ lit " ").
  rewrite <- !app_assoc. cbn [m]. rewrite strip_ci_app.
  apply plus_run; [discriminate | reflexivity | now destruct ch |].
  rewrite alt_CHANNELS_ci.
  apply plus_run; [discriminate | reflexivity | now apply digit_head_not_space |].
  apply plus_run; [assumption | assumption | reflexivity |].
  apply plus_run; [discriminate | reflexivity | reflexivity |].
  rewrite strip_ci_app.
  apply plus_run; [discriminate | reflexivity |
                   rewrite <- (app_nil_r T); now apply numeric_head_not_space |].
  apply plus_all; [assumption | assumption |].
  rewrite (firstn_consumed (Channel_text ch)).
  rewrite (firstn_consumed D). captured.
Qed.

End VULine.

Lemma no_v_no_match s :
  forallb (fun x => negb (upper x =? 86)) s = true -> search true VU_LINE s = None.
Proof.
  induction s as [|a s IH]; intros H; [reflexivity|].
  simpl in H. apply andb_prop in H. destruct H as [Ha Hs].
  rewrite search_next; [now apply IH|].
  unfold exec_here, VU_LINE. cbn [m]. change (lit "VU") with [86; 85]. cbn [strip canon].
  change (upper 86) with 86. apply negb_true_iff in Ha. rewrite N.eqb_sym in Ha.
  now rewrite Ha.
Qed.

Lemma handleLine_emitted line c :
  emitted (handleLine line c) =
  emitted c ++
  match trim line with
  | [] => []
  | _ :: _ =>
    match search true VU_LINE (trim line) with
    | Some vuMatch =>
      [ev_vu (mkVU (group 1 vuMatch) (parseInt (group 2 vuMatch))
                   (parseFloat (group 3 vuMatch)) (parseFloat (group 3 vuMatch)))]
    | None => []
    end
  end.
Proof.
  unfold handleLine. destruct (trim line) as [|x r]; [now rewrite app_nil_r|].
  match goal with |- emitted (resolvePending ?t ?c0) = _ =>
    destruct (resolvePending_spec t c0) as (_ & _ & _ & _ & _ & E & _) end.
  cbv zeta in E. rewrite E.
  destruct (search true VU_LINE (x :: r)); [reflexivity | now rewrite app_nil_r].
Qed.

(** X24.  A line [VU <channel> <number> = <level>] from the console, as
    the simulator writes it too, with a channel number that is a safe
    integer and a level of at most fifteen significant digits, makes the
    client emit one [vu] event with that channel, that number and the
    level as a number, the peak being the same number as the level.  A line without the letter V, in either case, emits no
    event.  Either way the line resolves the pending commands. *)
Theorem X24_vu_line_event :
  (forall ch n q c,
     isSafeInteger n = true -> fifteenDigits q = true ->
     let line := lit "VU " ++ Channel_text ch ++ lit " " ++ Number_toString n
                   ++ lit " = " ++ toFixed1 (Num q) in
     let v := parseFloat (toFixed1 (Num q)) in
     emitted (handleLine line c) = emitted c ++ [ev_vu (mkVU (Channel_text ch) n v v)] /\
     pendingCommands (handleLine line c) = []) /\
  (forall line c,
     forallb (fun x => negb (upper x =? 86)) line = true ->
     emitted (handleLine line c) = emitted c).
Proof.
  split.
  - intros ch n q c _ _ line v.
    destruct (toFixed1_numeric q) as [Hne Hall].
    assert (E : trim line = line).
    { subst line. rewrite !app_assoc. apply trim_keeps; auto. reflexivity. }
    split.
    + rewrite handleLine_emitted, E. subst line.
      rewrite (VU_LINE_matches ch (Number_toString n) (toFixed1 (Num q))
                 (Number_toString_nonempty n) (Number_toString_isDigit n) Hne Hall).
      cbn [group nth]. rewrite parseInt_Number_toString.
      destruct (lit "VU " ++ _) eqn:L; [|reflexivity]. discriminate.
    + apply handleLine_spec. rewrite E. subst line. discriminate.
  - intros line c H. rewrite handleLine_emitted.
    destruct (trim line) as [|x r] eqn:E; [apply app_nil_r|].
    rewrite no_v_no_match; [apply app_nil_r|]. rewrite <- E.
    destruct (trim_spec line) as (pre & post & E1 & _).
    rewrite E1, !forallb_app in H.
    apply andb_prop in H. destruct H as [_ H]. apply andb_prop in H. apply H.
Qed.

Lemma X24_vu_line_event_witness :
  isSafeInteger 3 = true /\ fifteenDigits (-125 # 10) = true /\
  emitted (handleLine (lit "VU IN 3 = " ++ toFixed1 (Num (-125 # 10)))
             (create sample_random (mkPartial None None None None None None) 0)) =
  [ev_vu (mkVU (lit "IN") 3 (parseFloat (lit "-12.5")) (parseFloat (lit "-12.5")))].
Proof.
  split; [reflexivity|]. split; [reflexivity|].
  exact (proj1 (proj1 X24_vu_line_event IN 3%N (-125 # 10)
                  (create sample_random (mkPartial None None None None None None) 0)
                  eq_refl eq_refl)).
Defined.

End LineFacts.

(* ====================================================================== *)
(** * Proofs: a tick of the VU polling on a real console *)
(* ====================================================================== *)

Module PollingFacts.
Import Js Regex Matrix Polling JsFacts RegexFacts NumberFacts MatrixFacts LevelFacts.
Import SimulatorFacts ConnectionFacts.
Local Open Scope Q_scope.

(** ** The keys of the pending commands *)

Lemma Map_set_fresh {V} k (v : V) mp :
  (forall e, In e mp -> CmdId_eqb (fst e) k = false) ->
  Map_set CmdId_eqb k v mp = mp ++ [(k, v)].
Proof.
  induction mp as [|[k' v'] mp IH]; intros H; cbn [Map_set app]; [reflexivity|].
  pose proof (H (k', v') (or_introl eq_refl)) as E. cbn [fst] in E. rewrite E.
  now rewrite IH by (intros e He; apply H; now right).
Qed.

Lemma sendRaw_real random command c :
  simulatorMode (config c) = false -> connected c = true ->
  let c' := snd (sendRaw random command c) in
  config c' = config c /\ connected c' = true /\ drawn c' = S (drawn c) /\
  clock c' = clock c.
Proof.
  intros S Cn. unfold sendRaw. cbn [newPromise config connected set_promises].
  rewrite S, Cn. cbn [negb].
  cbn. destruct (protocol (config c)); [destruct (tcpClient c)|destruct (udpClient c)];
    cbn; repeat split; assumption.
Qed.

Lemma Map_set_key {K V} (eqb : K -> K -> bool) k (v : V) key nv mp :
  In (k, v) (Map_set eqb key nv mp) -> k = key \/ exists v', In (k, v') mp.
Proof.
  induction mp as [|[k' v'] mp IH]; simpl.
  - intros [E|[]]. inversion E. now left.
  - destruct (eqb k' key).
    + intros [E|H]; [inversion E; subst|]; right; eexists; [now left | right; exact H].
    + intros [E|H]; [inversion E; subst; right; eexists; now left|].
      destruct (IH H) as [->|(v0 & H0)]; [now left|]. right. exists v0. now right.
Qed.

Lemma sendRaw_nonces random command c :
  nonces_drawn random c -> nonces_drawn random (snd (sendRaw random command c)).
Proof.
  intros K. unfold nonces_drawn, sendRaw. cbn [newPromise].
  destruct (simulatorMode (config c)) eqn:S; cbn [config set_promises]; rewrite S.
  - match goal with |- context [simulateResponse command ?c1] =>
      pose proof (simulateResponse_frame command c1) as F;
      destruct (simulateResponse command c1) as [resp c2] end.
    cbn in F. destruct F as (_ & _ & _ & _ & F & _ & _ & _ & G & _).
    cbn. rewrite F, G. intros e He. destruct (K e He) as (j & Hj & E).
    exists j. split; [lia | exact E].
  - cbn [connected set_promises]. destruct (connected c); cbn [negb]; cbn; [|exact K].
    intros [k v].
    destruct (protocol (config c)); [destruct (tcpClient c)|destruct (udpClient c)]; cbn;
      intros H; apply Map_set_key in H; destruct H as [->|(v' & H)];
      try (exists (drawn c); split; [lia | reflexivity]);
      destruct (K _ H) as (j & Hj & E); exists j; (split; [lia | exact E]).
Qed.

Lemma handleResponse_drawn data c : drawn (handleResponse data c) = drawn c.
Proof.
  unfold handleResponse. generalize (split 10%N (trim data)) as ls. intros ls. revert c.
  induction ls as [|l ls IH]; intros c; simpl; [reflexivity|].
  rewrite IH. unfold handleLine. destruct (trim l) as [|x r]; [reflexivity|].
  rewrite resolvePending_eq, resolve_fold.
  destruct (search true VU_LINE (x :: r)); reflexivity.
Qed.

Lemma vu_walk_drawn random c : (drawn c <= drawn (vu_walk random c))%nat.
Proof.
  unfold vu_walk. generalize (simulatorVU c) at 1 as es. intros es. revert c.
  induction es as [|e es IH]; intros c; cbn [fold_left]; [lia|].
  match goal with |- context [fold_left _ es ?c1] => specialize (IH c1) end.
  eapply Nat.le_trans; [|exact IH]. cbn. lia.
Qed.

Lemma fire_drawn random tm c : (drawn c <= drawn (fire random tm c))%nat.
Proof.
  unfold fire.
  set (c1 := match every tm with
             | Some period => _
             | None => clearTimeout (handle tm) c
             end).
  assert (H1 : drawn c1 = drawn c) by (subst c1; destruct (every tm); reflexivity).
  clearbody c1. rewrite <- H1. destruct (callback tm); cbn [run_callback]; cbn; try lia.
  - apply vu_walk_drawn.
  - unfold connect.
    destruct (simulatorMode (config _)); [|destruct (protocol (config _))]; cbn; lia.
Qed.

Lemma nonces_keep random c c' :
  nonces_drawn random c ->
  (forall e, In e (pendingCommands c') -> In e (pendingCommands c)) ->
  (drawn c <= drawn c')%nat ->
  nonces_drawn random c'.
Proof.
  intros K P D e He. destruct (K e (P e He)) as (j & Hj & E). exists j. split; [lia | exact E].
Qed.

Lemma nonces_step random k c c' :
  nonces_drawn random c -> step random k c = Some c' -> nonces_drawn random c'.
Proof.
  intros K Hs.
  destruct k; cbn [step] in Hs;
    try (inversion Hs; subst; clear Hs;
         unfold setGain, getGain, setSend, getSend, setMute, getVU, setPreset, getPreset;
         now apply sendRaw_nonces).
  - inversion Hs; subst. apply (nonces_keep random c); auto; unfold connect;
      destruct (simulatorMode (config c)); try destruct (protocol (config c)); cbn; auto.
  - inversion Hs; subst. apply (nonces_keep random c); auto; unfold disconnect;
      destruct (reconnectTimer c); cbn; auto.
  - inversion Hs; subst. apply (nonces_keep random c); auto.
  - inversion Hs; subst. destruct e as [ | data | [|] | | | msg | ]; cbn [on_socket];
      try (apply (nonces_keep random c); auto;
           [apply handleResponse_keeps | rewrite handleResponse_drawn; lia]; fail);
      apply (nonces_keep random c); auto;
      unfold scheduleReconnect; cbn; destruct (reconnectTimer c); cbn; auto.
  - destruct (find_timer h c) as [tm|]; [|discriminate].
    destruct (Qle_bool (due tm) (clock c)); inversion Hs; subst.
    apply (nonces_keep random c); auto; [apply fire_pending | apply fire_drawn].
  - destruct (Qle_bool 0 dt); inversion Hs; subst. apply (nonces_keep random c); auto.
Qed.

Lemma nonces_run random ks : forall c c',
  nonces_drawn random c -> run random ks c = Some c' -> nonces_drawn random c'.
Proof.
  induction ks as [|k ks IH]; intros c c' K H; simpl in H.
  - now inversion H; subst.
  - destruct (step random k c) as [c1|] eqn:E; [|discriminate].
    apply (IH c1 c'); [eapply nonces_step; eauto | exact H].
Qed.

Lemma nonces_reachable random c : reachable random c -> nonces_drawn random c.
Proof.
  intros (over & now & ks & H).
  apply (nonces_run random ks (create random over now) c); [|exact H].
  unfold create. cbn [config]. destruct (simulatorMode (spread DEFAULT_CONFIG over)).
  - match goal with |- nonces_drawn _ (initSimulator _ ?c0) =>
      destruct (initSimulator_frame random c0) as (_ & _ & _ & _ & G) end.
    cbv zeta in G. intros e He. rewrite G in He. destruct He.
  - intros e [].
Qed.

(** ** A tick *)

Section Tick.

Variable random : nat -> Q.

(** [Math.random()] does not return the same value twice. *)
Hypothesis random_distinct : forall i j, i <> j -> Qeq_bool (random i) (random j) = false.

Lemma held_sendRaw ps c command key :
  held random ps c ->
  held random (ps ++ [(key, fst (sendRaw random command c))]) (snd (sendRaw random command c)).
Proof.
  intros (S & Cn & K & H).
  destruct (sendRaw_real random command c S Cn) as (A1 & A2 & A3 & A4).
  destruct (sendRaw_issued random command c S Cn) as (B1 & B2 & _ & B4 & _).
  cbv zeta in *.
  assert (F : pendingCommands (snd (sendRaw random command c)) =
              pendingCommands c ++
              [(mkCmdId (clock c) (random (drawn c)),
                mkPending (fst (sendRaw random command c)) (nextHandle c))]).
  { rewrite B2. apply Map_set_fresh. intros e He. destruct (K e He) as (j & Hj & E).
    unfold CmdId_eqb. cbn [nonce]. rewrite E, random_distinct by lia. apply andb_false_r. }
  split; [now rewrite A1|]. split; [exact A2|]. split; [now apply sendRaw_nonces|].
  intros kp Hin. unfold settlement. rewrite F, B4, length_app. cbn [List.length].
  apply in_app_or in Hin. destruct Hin as [Hin|[<-|[]]].
  - destruct (H kp Hin) as ((e & He & Ep) & Hs & Hl). split; [|split; [|lia]].
    + exists e. split; [apply in_or_app; now left | exact Ep].
    + rewrite app_nth1 by exact Hl. exact Hs.
  - cbn [snd]. split; [|split; [|lia]].
    + eexists. split; [apply in_or_app; right; now left | reflexivity].
    + rewrite B1, app_nth2, Nat.sub_diag by lia. reflexivity.
Qed.

Lemma held_fold chs : forall ps c,
  held random ps c ->
  let r := fold_left (fun acc chn =>
             let (p, c') := getVU random (fst chn) (snd chn) (snd acc) in
             (fst acc ++ [(Channel_text (fst chn) ++ lit ":" ++ Number_toString (snd chn), p)],
              c')) chs (ps, c) in
  held random (fst r) (snd r) /\
  map fst (fst r) =
  map fst ps ++ map (fun chn => Channel_text (fst chn) ++ lit ":" ++ Number_toString (snd chn))
                    chs.
Proof.
  induction chs as [|chn chs IH]; intros ps c H; cbn [fold_left map].
  - split; [exact H | now rewrite app_nil_r].
  - cbn [fst snd].
    pose proof (held_sendRaw ps c
                  (lit "GET VU " ++ Channel_text (fst chn) ++ lit " "
                     ++ Number_toString (snd chn))
                  (Channel_text (fst chn) ++ lit ":" ++ Number_toString (snd chn)) H) as H1.
    change (sendRaw random _ c) with (getVU random (fst chn) (snd chn) c) in H1.
    destruct (getVU random (fst chn) (snd chn) c) as [p c'].
    cbn [fst snd] in H1. destruct (IH _ _ H1) as [A B]. cbv zeta in A, B.
    split; [exact A|]. rewrite B, map_app, <- app_assoc. reflexivity.
Qed.

Lemma tick_held c :
  reachable random c -> simulatorMode (config c) = false -> connected c = true ->
  exists ps c1,
    tick random c = Some (ps, c1) /\ held random ps c1 /\
    map fst ps =
    map (fun chn => Channel_text (fst chn) ++ lit ":" ++ Number_toString (snd chn)) polled.
Proof.
  intros Hr S Cn. unfold tick, isConnected. rewrite Cn. cbn [negb].
  assert (H0 : held random [] c).
  { split; [exact S|]. split; [exact Cn|]. split; [now apply nonces_reachable|].
    intros kp []. }
  destruct (held_fold polled [] c H0) as [A B]. cbv zeta in A, B.
  unfold pollAll. destruct (fold_left _ polled ([], c)) as [ps c1].
  exists ps, c1. split; [reflexivity|]. split; [exact A | exact B].
Qed.

End Tick.

(** X27.  On a real console to which the client is connected, a tick of
    the VU polling sends its sixteen [GET VU] commands at once ([IN 1],
    [OUT 1], ..., [IN 8], [OUT 8]) and all sixteen are then pending.  The
    first response line that is not blank resolves every one of them, so
    all sixteen values the tick stores are the number that one line ends
    with.  ([Math.random()] is taken not to return the same value
    twice, which keeps the keys of the pending commands apart.) *)
Theorem X27_poll_read_from_one_line :
  forall random c line,
    (forall i j, i <> j -> Qeq_bool (random i) (random j) = false) ->
    reachable random c -> simulatorMode (config c) = false -> connected c = true ->
    trim line <> [] ->
    exists ps c1,
      tick random c = Some (ps, c1) /\
      map fst ps =
      [lit "IN:1"; lit "OUT:1"; lit "IN:2"; lit "OUT:2"; lit "IN:3"; lit "OUT:3";
       lit "IN:4"; lit "OUT:4"; lit "IN:5"; lit "OUT:5"; lit "IN:6"; lit "OUT:6";
       lit "IN:7"; lit "OUT:7"; lit "IN:8"; lit "OUT:8"] /\
      (forall kp, In kp ps -> awaited numericReply (snd kp) c1 = None) /\
      (forall kp, In kp ps ->
         awaited numericReply (snd kp) (handleLine line c1) =
         Some (returned (numericReply (trim line)))).
Proof.
  intros random c line D Hr S Cn Hl.
  destruct (tick_held random D c Hr S Cn) as (ps & c1 & A & (_ & _ & _ & H) & B).
  exists ps, c1. split; [exact A|]. split; [rewrite B; reflexivity|]. split.
  - intros kp Hin. destruct (H kp Hin) as (_ & Hs & _). unfold awaited. now rewrite Hs.
  - intros kp Hin. destruct (H kp Hin) as ((e & He & Ep) & Hs & Hlen).
    destruct (handleLine_spec line c1 Hl) as (_ & R & _).
    unfold awaited. rewrite <- Ep, (R e He); rewrite ?Ep; auto.
Qed.

Lemma sample_random_distinct :
  forall i j, i <> j -> Qeq_bool (sample_random i) (sample_random j) = false.
Proof.
  intros i j H. destruct (Qeq_bool (sample_random i) (sample_random j)) eqn:E; [|reflexivity].
  apply Qeq_bool_iff in E. unfold sample_random, Qeq in E. cbn [Qnum Qden] in E. lia.
Qed.

Lemma X27_poll_read_from_one_line_witness :
  exists c ps c1,
    online sample_random = Some c /\
    tick sample_random c = Some (ps, c1) /\
    forall kp, In kp ps ->
      awaited numericReply (snd kp) (handleLine (lit "VU IN 1 = -12.0") c1) =
      Some (returned (numericReply (trim (lit "VU IN 1 = -12.0")))).
Proof.
  destruct (online sample_random) as [c|] eqn:H; [|vm_compute in H; discriminate].
  assert (Hr : reachable sample_random c).
  { exists (mkPartial None None None None None None), 0, [call_connect; socket tcp_connect].
    exact H. }
  assert (E : simulatorMode (config c) = false /\ connected c = true)
    by (vm_compute in H; inversion H; split; reflexivity).
  destruct E as [S Cn].
  destruct (X27_poll_read_from_one_line sample_random c (lit "VU IN 1 = -12.0")
              sample_random_distinct Hr S Cn ltac:(discriminate))
    as (ps & c1 & A & _ & _ & B).
  exists c, ps, c1. split; [reflexivity|]. split; [exact A | exact B].
Defined.

End PollingFacts.

(* ====================================================================== *)
(** * Proofs: the port the server listens on *)
(* ====================================================================== *)

Module ServerFacts.
Import Server.
Local Open Scope Z_scope.

Section Ports.

Variable isPortAvailable : Z -> bool.

Lemma tryPorts_some n : forall port p,
  tryPorts isPortAvailable n port = Some p <->
  port <= p < port + Z.of_nat n /\ isPortAvailable p = true /\
  forall q, port <= q < p -> isPortAvailable q = false.
Proof.
  induction n as [|n IH]; intros port p; cbn [tryPorts].
  - split; [discriminate | lia].
  - destruct (isPortAvailable port) eqn:E.
    + split.
      * intros H. inversion H; subst. split; [lia|]. split; [exact E|]. intros q Hq. lia.
      * intros (A & B & C). f_equal.
        destruct (Z.eq_dec port p) as [|N]; [assumption|].
        rewrite (C port) in E by lia. discriminate.
    + rewrite IH. split.
      * intros (A & B & C). split; [lia|]. split; [exact B|].
        intros q Hq. destruct (Z.eq_dec q port) as [->|N]; [exact E | apply C; lia].
      * intros (A & B & C).
        assert (port <> p) by (intros ->; congruence).
        split; [lia|]. split; [exact B|]. intros q Hq. apply C. lia.
Qed.

Lemma tryPorts_none n : forall port,
  tryPorts isPortAvailable n port = None <->
  forall q, port <= q < port + Z.of_nat n -> isPortAvailable q = false.
Proof.
  induction n as [|n IH]; intros port; cbn [tryPorts].
  - split; [intros _ q Hq; lia | reflexivity].
  - destruct (isPortAvailable port) eqn:E.
    + split; [discriminate|]. intros H. rewrite (H port) in E by lia. discriminate.
    + rewrite IH. split.
      * intros H q Hq. destruct (Z.eq_dec q port) as [->|N]; [exact E | apply H; lia].
      * intros H q Hq. apply H. lia.
Qed.

End Ports.

(** X26.  [findAvailablePort(startPort)] returns the least available
    port among the 20 ports from [startPort] on, so [startPort] itself
    when it is available, and throws exactly when none of the 20 is
    available; ports from [startPort + 20] on are never tried. *)
Theorem X26_findAvailablePort_least :
  forall isPortAvailable startPort,
    (forall p,
       findAvailablePort isPortAvailable startPort = Some p <->
       startPort <= p < startPort + 20 /\ isPortAvailable p = true /\
       forall q, startPort <= q < p -> isPortAvailable q = false) /\
    (findAvailablePort isPortAvailable startPort = None <->
     forall q, startPort <= q < startPort + 20 -> isPortAvailable q = false) /\
    (isPortAvailable startPort = true ->
     findAvailablePort isPortAvailable startPort = Some startPort).
Proof.
  intros f s. unfold findAvailablePort. split; [|split].
  - intros p. apply (tryPorts_some f 20 s p).
  - apply (tryPorts_none f 20 s).
  - intros H. cbn [tryPorts]. now rewrite H.
Qed.

Lemma X26_findAvailablePort_least_witness :
  findAvailablePort (fun p => 3002 <=? p) 3000 = Some 3002 /\
  findAvailablePort (fun p => 3020 <=? p) 3000 = None.
Proof.
  split.
  - apply (proj2 (proj1 (X26_findAvailablePort_least (fun p => 3002 <=? p) 3000) 3002)).
    split; [lia|]. split; [reflexivity|]. intros q Hq. apply Z.leb_gt. lia.
  - apply (proj2 (proj1 (proj2 (X26_findAvailablePort_least (fun p => 3020 <=? p) 3000)))).
    intros q Hq. apply Z.leb_gt. lia.
Defined.

End ServerFacts.
